(* ===== verification/_CoqProject ===== *)
-Q . S2P
Prelude.v
Json.v
Media.v
ByteCodec.v
ImageSegments.v
Heic.v
ThumbnailQueue.v
SearchText.v
SectionModel.v
LayoutIndex.v
RangeCache.v
Content.v
SyncError.v
SyncDb.v
NativeRecords.v
TypedRecords.v
IssuedStore.v
SyncReset.v
SyncDirty.v
SyncAccounts.v
SyncJobs.v
SyncPublication.v
SyncRecovery.v
SyncLease.v
SyncRuntime.v
SyncReceive.v
SyncProjection.v
SyncPlacement.v
MediaQueries.v
Files.v
TrashFiles.v
LibraryDb.v
TrashFlows.v
LibraryScan.v
SyncTransfer.v
PublicationSafety.v
SyncCommands.v
SyncActions.v
SyncLifecycle.v
ReceiveCollisions.v
UplinkCycle.v
ReceiveCycle.v
