(* ===== verification/Prelude.v ===== *)
(** * Photo Viewer: machine-checked model of the library's core logic

    Photo Viewer is a GTK photo library that keeps a database of the photos
    under a directory, has a trash of its own, and synchronizes chosen albums
    with a cloud photo service. This development models the parts that carry its
    own logic; paths below are relative to [src/src].

    ** How the program fits together

    One SQLite database holds the media rows, the trash marks and everything the
    synchronization knows. A local change (an edit, a scan, a file that vanished,
    a move to the trash) changes files and rows and, in the same transaction,
    notes the change for every sync job that covers the file. A cycle with the
    cloud receives records page by page, rebuilds photos from them, weighs each
    against what the user did, and turns what the cloud won into a publication
    whose files are placed on disk; then, under an exclusive lease, it sends what
    the user changed. A step of a cycle is a command in a transaction: it commits
    or leaves the database as it was, and it carries the epoch of its cycle, so
    that a late callback is refused. The views read the media table by global
    offset and group it by date.

    ** The files

    Shared ground.
    - [Prelude]: machine-width integers, the transaction monad [Tx] with
      [transact], statements on finite maps, orders and automation.
    - [Json]: serde_json's [Value].
    - [ByteCodec]: byte strings, slices and big- and little-endian integers.
    - [Media] (core/media.rs): media rows, kinds, album flags, locations.

    Photos as bytes.
    - [ImageSegments], Module [Segments] (core/orientation.rs): the PNG chunk and
      JPEG segment rewrites of the metadata, and what a quarter turn does.
    - [Heic] (core/metadata.rs): the HEIC box parser.
    - [Content] (core/sync/content.rs): hexadecimal, Base64, digests, the search
      for a thumbnail that fits.

    The library.
    - [SearchText], Module [Text], and [MediaQueries], Module [Queries]
      (core/db.rs, core/repository.rs): every read of the library.
    - [SectionModel], Module [Sections] (core/section_model.rs): date sections.
    - [LayoutIndex], Module [Layout], and [RangeCache]
      (ui/virtual_media_grid.rs and its layout_index.rs and range_cache.rs): the
      slots of the grid and the ranges of it that are loaded.
    - [ThumbnailQueue], Module [Thumbs] (core/thumbnails.rs and
      thumbnails/queue.rs): the loader as a machine of actions under its locks.
    - [Files]: the file system, with a fault or a stop possible at each operation.
    - [TrashFiles], Module [Trash], and [TrashFlows], Module [Flows]
      (core/trash.rs, core/repository.rs): the trash on disk, and files and rows
      together.
    - [LibraryDb], Module [Library] (core/db.rs): the writes to media rows.
    - [LibraryScan], Module [Scan] (core/backend/local.rs): the scanner.

    The synchronization store (core/sync/store.rs and core/sync/store/).
    - [SyncDb] (core/schema.sql): a record per table, one finite map per table in
      [Db]; Module [Sample] is the concrete database of the witnesses.
    - [SyncError] (error/mod.rs, service/scheduling.rs): causes and retries.
    - [NativeRecords], Module [Records] (native/records.rs): records and graphs.
    - [TypedRecords], [IssuedStore], [SyncRecovery] (records.rs, issued.rs,
      recovery.rs): JSON documents in typed columns.
    - [SyncReset], [SyncDirty], [SyncAccounts], [SyncJobs], [SyncPublication],
      [SyncActions]: the files of the same names; [SyncJobs] is configuration.rs.
    - [SyncRuntime], Module [Runtime], and [SyncPlacement] (runtime.rs): epochs,
      issued operations, confirmation, placing and admitting a publication.
    - [SyncReceive], [SyncProjection], [SyncCommands] (receive.rs, runtime.rs):
      receive positions and records, projection and promotion, the dispatcher.
    - [SyncLease] (native/lease.rs): the time this client believes it may write.
    - [SyncLifecycle]: the commands above as one step relation.

    The synchronization service (core/sync/service/).
    - [SyncTransfer] and [PublicationSafety], Module [Safety] (transfer.rs):
      placing a publication on disk, and recovery after any interruption.
    - [ReceiveCollisions], Module [Collisions] (receive/collisions.rs): local
      files in the way of received photos step aside.
    - [UplinkCycle], Module [Uplink] (coordinator.rs): one cycle, receive to send.
    - [ReceiveCycle] (receive.rs): the receiving half, snapshot and changes.

    A function of the source keeps its name; a clash with another one takes a
    suffix that says which one is meant. A command of the store is a [Tx Db]
    value, a flow over files an [IO] value of [Files], a cycle a
    computation of [Uplink] or [ReceiveCycle] with its own log.

    ** What the theorems show

    - No edit is lost. A confirmation settles exactly what was captured when the
      operation was issued, at most once, and an edit made in flight stays owed;
      commands of a superseded cycle are refused. [lifecycle_invariant] carries
      the shape of the store through every interleaving of the commands.
    - The cycle. Nothing is sent that was not recorded first, nothing without the
      leave of the service and out of phase, never more than the budget, and
      whatever happens the cycle closes its epoch. Receiving goes on exactly where
      the stored position is, which never runs ahead of what is stored; it returns
      when the listings of the service end; a position reported as applied is.
    - The cloud's side. Validation accepts whole graphs only; the latest edit of a
      category wins; a record that is missing deletes nothing; a position is
      reported as applied only when nothing before it is owed; a local file is
      adopted only when its bytes are the cloud's; saved documents load unchanged.
    - Placing files refines an atomic step, whatever fails or wherever the process
      stops; a file the user changed meanwhile is kept. A local file that steps
      aside keeps its bytes and a name in its folder.
    - The trash never loses a photo; restoring finds what was trashed; a row goes
      only after its file; the watcher does not mistake trashing for deletion.
    - The library. A scan leaves the rows that mirror the disk; all reads are reads
      of one newest-first list.
    - Views. The range coordinator's invariant; the chain of landings ends with the
      window loaded; the thumbnail loader answers every caller at most once,
      forgets none, and from every state can answer all of them.
    - Metadata. Rewrites of a JPEG are a lawful update, the HEIC parser finds
      what conforming files hold and panics exactly where said, turns compose.

    Some theorems prove behaviour of the code that differs from its intent; the
    list of findings names them.

    ** Bounds, fuel and parameters

    Rust integers are [Z] with the saturating, wrapping and checked operations
    written out; where the result of an operation depends on whether the build
    checks for overflow, that is an argument. Row ids, versions and revisions of the
    database are unbounded [Z]: the source increments an [i64] once per user
    action. Recursion that is not structural runs on fuel: the landing chain on
    the width of the window (each landing loads a missing offset); chunk,
    segment, box and extent loops on the length of the data (each turn consumes
    a byte); symbolic links on the kernel's bound of 40; the search of a free
    trash name on the source's 10000; thumbnail encodings on the source's ten
    attempts; the batch of a cycle on the source's 5 heavy and 20 light. The
    theorems on the first two groups prove that the fuel is enough. A listing of
    the service may go on for ever: a receive cycle has fuel for the pages of one
    listing, a run that uses it up is a run as far as it has come, and the theorems
    hold for every amount ([receive_returns]: enough when the listings end).

    Parameters stand for code outside the repository or the language: the order
    in which hash maps and directories are iterated (any permutation), hash
    functions, [gio] calls (URIs, moves, the desktop's trash), canonical paths,
    SQLite's JSON functions, calendar conversion and translation, image
    decoders and encoders, EXIF readers, generated identifiers, the error texts
    of other layers, the caches of decoded thumbnails, and the floating-point
    margin of the lease (only "a tenth short" is used). The clock is an argument.
    What happens around a cycle (answers of the service, commits of other threads,
    changing files, the loss of the lease) is the environment [Env] of [Uplink]
    and of [ReceiveCycle], about which nothing is assumed but, where a theorem says
    so, that only the holder of the run slot moves a job's position.

    ** Not modelled

    - The client of the cloud service (core/sync/native/protocol.rs, assets.rs,
      modify.rs, provider.rs, cleanup.rs) and the services around it
      (core/sync/service/configuration.rs, authentication.rs and the like): asynchronous calls of a third-party kit; what they commit are
      the modelled commands. The heartbeat of the lease is timing.
    - Migrations of older database layouts, which run before the store opens.
    - The database actor (core/db_actor.rs), which runs the modelled commands one at
      a time, and the debouncing of changes, which is a timer.
    - Albums, motion photos, file watching: directory listings, third-party
      containers and notifications.
    - Decoding and editing of pixels and the thumbnail files on disk: third-party
      decoders and floating-point arithmetic.
    - Preferences, diagnostics, start-up and the widgets.

    Each is listed in the manifest with the files it lives in. *)
From Stdlib Require Import Ascii String.
From stdpp Require Export base tactics numbers list gmap strings sorting.
From Stdlib Require Export ZArith Lia.
Export ZArith.
Open Scope Z_scope.
#[global] Set Default Goal Selector "!".

(** ** Fixed-width integers

    A Rust [uN]/[iN] is a [Z] in the range of its type. Saturating and checked
    operations are written out; plain [+]/[-] of the source is [Z] arithmetic,
    and the theorems show that it stays in range where the code relies on it. *)
Definition U32_MAX : Z := 4294967295.
Definition U64_MAX : Z := 18446744073709551615.
Definition I64_MIN : Z := -9223372036854775808.
Definition I64_MAX : Z := 9223372036854775807.

Definition is_u32 (n : Z) : Prop := 0 <= n <= U32_MAX.
Definition is_u64 (n : Z) : Prop := 0 <= n <= U64_MAX.

Definition u32_saturating_add (a b : Z) : Z := Z.min (a + b) U32_MAX.
Definition u32_saturating_sub (a b : Z) : Z := Z.max (a - b) 0.
Definition u32_saturating_mul (a b : Z) : Z := Z.min (a * b) U32_MAX.
Definition u64_saturating_add (a b : Z) : Z := Z.min (a + b) U64_MAX.
Definition u64_saturating_sub (a b : Z) : Z := Z.max (a - b) 0.

Definition u32_checked_add (a b : Z) : option Z :=
  if a + b <=? U32_MAX then Some (a + b) else None.
Definition u32_checked_sub (a b : Z) : option Z :=
  if b <=? a then Some (a - b) else None.

#[global] Arguments Z.min : simpl never.
#[global] Arguments Z.max : simpl never.

(** [solve_u32] unfolds the width vocabulary and leaves the goal to [lia]. *)
Ltac unfold_width :=
  unfold is_u32, is_u64, u32_saturating_add, u32_saturating_sub,
    u32_saturating_mul, u64_saturating_add, u64_saturating_sub,
    U32_MAX, U64_MAX, I64_MIN, I64_MAX in *.
Ltac solve_u32 := simpl in *; unfold_width; lia.

(** [zbool] turns every boolean comparison on [Z] in the context into its
    proposition; [case_zbool] splits on the comparisons of the goal. *)
Ltac zbool :=
  repeat match goal with
  | H : (_ <=? _) = true |- _ => apply Z.leb_le in H
  | H : (_ <=? _) = false |- _ => apply Z.leb_gt in H
  | H : (_ <? _) = true |- _ => apply Z.ltb_lt in H
  | H : (_ <? _) = false |- _ => apply Z.ltb_ge in H
  | H : (_ =? _) = true |- _ => apply Z.eqb_eq in H
  | H : (_ =? _) = false |- _ => apply Z.eqb_neq in H
  | H : _ && _ = true |- _ => apply andb_prop in H; destruct H
  | H : _ || _ = false |- _ => apply orb_false_elim in H; destruct H
  | H : negb _ = true |- _ => apply negb_true_iff in H
  | H : negb _ = false |- _ => apply negb_false_iff in H
  end.
Ltac case_zbool :=
  repeat match goal with
  | |- context [if ?b then _ else _] => destruct b eqn:?
  end; zbool.

Lemma StronglySorted_weaken {A} (R1 R2 : relation A) l :
  (forall x y, R1 x y -> R2 x y) -> StronglySorted R1 l -> StronglySorted R2 l.
Proof.
  intros HR. induction 1 as [|x l _ IH Hall]; constructor; [done|].
  by eapply Forall_impl; [exact Hall|apply HR].
Qed.

Lemma StronglySorted_lookup_lt {A} (R : relation A) l i j x y :
  StronglySorted R l -> (i < j)%nat -> l !! i = Some x -> l !! j = Some y -> R x y.
Proof.
  intros Hs. revert i j. induction Hs as [|z l _ IH Hall]; intros [|i] [|j] Hlt Hi Hj; simpl in *; try done; try lia.
  - simplify_eq. rewrite Forall_forall in Hall. apply Hall. by eapply list_elem_of_lookup_2.
  - apply (IH i j); [lia|done..].
Qed.

Lemma filter_all {A} (P : A -> Prop) `{!forall x, Decision (P x)} l :
  Forall P l -> base.filter P l = l.
Proof. induction 1; [done|]. rewrite filter_cons_True by done. by f_equal. Qed.

(** ** Runs: a list of (key, count) pairs as the list it abbreviates *)
Fixpoint expand {A} (l : list (A * Z)) : list A :=
  match l with
  | [] => []
  | (k, c) :: rest => replicate (Z.to_nat c) k ++ expand rest
  end.

Definition run_total {A} (l : list (A * Z)) : Z := foldr (fun p acc => p.2 + acc) 0 l.

Section Runs.
Context {A : Type}.
Implicit Types (l : list (A * Z)).

Lemma expand_app l1 l2 : expand (l1 ++ l2) = expand l1 ++ expand l2.
Proof. induction l1 as [|[k c] l1 IH]; simpl; [done|]. by rewrite IH, (assoc_L (++)). Qed.

Lemma expand_Permutation l1 l2 : l1 ≡ₚ l2 -> expand l1 ≡ₚ expand l2.
Proof.
  induction 1 as [|[k c] l1 l2 _ IH|[k1 c1] [k2 c2] l|l1 l2 l3 _ IH1 _ IH2]; simpl.
  - done.
  - by rewrite IH.
  - rewrite !(assoc_L (++)). apply Permutation_app_tail, Permutation_app_comm.
  - by rewrite IH1.
Qed.

Lemma elem_of_expand l k : k ∈ expand l -> exists c, (k, c) ∈ l.
Proof.
  induction l as [|[k' c] l IH]; simpl; [by intros ?%elem_of_nil|].
  intros [Hk|Hk]%elem_of_app.
  - apply elem_of_replicate in Hk as [-> _]. exists c. left.
  - destruct (IH Hk) as [c' ?]. exists c'. by right.
Qed.

Lemma run_total_nonneg l : Forall (fun p => 0 <= p.2) l -> 0 <= run_total l.
Proof. induction 1; simpl in *; lia. Qed.

Lemma run_total_Permutation l1 l2 : l1 ≡ₚ l2 -> run_total l1 = run_total l2.
Proof. induction 1; simpl; lia. Qed.

Lemma length_expand l :
  Forall (fun p => 0 <= p.2) l -> Z.of_nat (length (expand l)) = run_total l.
Proof.
  induction 1 as [|[k c] l Hc Hl IH]; simpl in *; [done|].
  rewrite length_app, length_replicate. lia.
Qed.

Lemma expand_StronglySorted (R : relation A) `{!Reflexive R} l :
  StronglySorted (fun x y => R x.1 y.1) l -> StronglySorted R (expand l).
Proof.
  induction 1 as [|[k c] l Hl IH Hall]; simpl; [constructor|].
  apply StronglySorted_app_2; [|induction (Z.to_nat c); simpl; constructor; auto|done].
  - intros x1 x2 [-> _]%elem_of_replicate [c' Hin]%elem_of_expand.
    rewrite Forall_forall in Hall. apply (Hall _ Hin).
  - by apply Forall_replicate.
Qed.
End Runs.

(** ** Tables

    A table is a finite map from primary keys to rows. The statements of the
    store are updates and deletions with a [WHERE] predicate, existence tests,
    and scans in key order. *)
Section Tables.
Context {K Row : Type} `{Countable K}.
Implicit Types (t : gmap K Row) (P : K -> Row -> bool) (f : Row -> Row).

(** [UPDATE t SET f WHERE P]. *)
Definition update_where P f t : gmap K Row :=
  map_imap (fun k r => Some (if P k r then f r else r)) t.
(** [DELETE FROM t WHERE P]. *)
Definition delete_where P t : gmap K Row :=
  map_imap (fun k r => if P k r then None else Some r) t.
(** [EXISTS(SELECT 1 FROM t WHERE P)]. *)
Definition exists_where P t : bool := existsb (fun kr => P kr.1 kr.2) (map_to_list t).
(** [SELECT COUNT( * ) FROM t WHERE P]; also the row count of an [UPDATE]. *)
Definition count_where P t : nat :=
  length (base.filter (fun kr : K * Row => P kr.1 kr.2 = true) (map_to_list t)).

Lemma lookup_update_where P f t k :
  update_where P f t !! k = (fun r => if P k r then f r else r) <$> t !! k.
Proof. unfold update_where. rewrite map_lookup_imap. by destruct (t !! k). Qed.

Lemma lookup_delete_where P t k :
  delete_where P t !! k = t !! k ≫= fun r => if P k r then None else Some r.
Proof. unfold delete_where. by rewrite map_lookup_imap. Qed.

Lemma lookup_delete_where_Some P t k r :
  delete_where P t !! k = Some r <-> t !! k = Some r /\ P k r = false.
Proof.
  rewrite lookup_delete_where. destruct (t !! k) as [r'|]; simpl; [|by split; [|intros [? _]]].
  destruct (P k r') eqn:E; split; try done; [intros [[= ->] ?]; congruence|by intros [= ->]|by intros [[= ->] _]].
Qed.

Lemma exists_where_true P t :
  exists_where P t = true <-> exists k r, t !! k = Some r /\ P k r = true.
Proof.
  unfold exists_where. rewrite existsb_exists. split.
  - intros ([k r] & Hin & HP). exists k, r. split; [|done].
    apply elem_of_map_to_list. by apply list_elem_of_In.
  - intros (k & r & Hk & HP). exists (k, r). split; [|done].
    apply list_elem_of_In. by apply elem_of_map_to_list.
Qed.

Lemma exists_where_false P t :
  exists_where P t = false <-> forall k r, t !! k = Some r -> P k r = false.
Proof.
  rewrite <- not_true_iff_false, exists_where_true. split.
  - intros Hn k r Hk. destruct (P k r) eqn:E; [|done]. destruct Hn; eauto.
  - intros Hall (k & r & Hk & HP). rewrite (Hall _ _ Hk) in HP. done.
Qed.

Lemma count_where_nonzero P t k r : t !! k = Some r -> P k r = true -> count_where P t <> 0%nat.
Proof.
  intros Hk HP. unfold count_where. intros H0%length_zero_iff_nil.
  assert (Hin : (k, r) ∈ base.filter (fun kr : K * Row => P kr.1 kr.2 = true) (map_to_list t)).
  { apply list_elem_of_filter. split; [done|]. by apply elem_of_map_to_list. }
  rewrite H0 in Hin. by apply elem_of_nil in Hin.
Qed.
End Tables.

(** Rows of a table with integer keys, in key order. *)
Definition by_key {Row} (a b : Z * Row) : Prop := a.1 <= b.1.
#[export] Instance by_key_dec {Row} : RelDecision (@by_key Row).
Proof. intros a b. unfold by_key. apply _. Defined.
Definition rows_by_id {Row} (t : gmap Z Row) : list (Z * Row) := merge_sort by_key (map_to_list t).

Lemma elem_of_rows_by_id {Row} (t : gmap Z Row) k r : (k, r) ∈ rows_by_id t <-> t !! k = Some r.
Proof. unfold rows_by_id. by rewrite merge_sort_Permutation, elem_of_map_to_list. Qed.

(** [SELECT .. WHERE P LIMIT 1] in key order. *)
Definition find_row {Row} (P : Z -> Row -> bool) (t : gmap Z Row) : option (Z * Row) :=
  List.find (fun kr => P kr.1 kr.2) (rows_by_id t).

Lemma find_row_Some {Row} (P : Z -> Row -> bool) (t : gmap Z Row) k r :
  find_row P t = Some (k, r) -> t !! k = Some r /\ P k r = true.
Proof.
  unfold find_row. intros [Hin HP]%find_some. split; [|done].
  apply elem_of_rows_by_id. by apply list_elem_of_In.
Qed.

Lemma find_row_None {Row} (P : Z -> Row -> bool) (t : gmap Z Row) :
  find_row P t = None <-> forall k r, t !! k = Some r -> P k r = false.
Proof.
  unfold find_row. split.
  - intros Hn k r Hk. apply (find_none _ _ Hn (k, r)). apply list_elem_of_In.
    by apply elem_of_rows_by_id.
  - intros Hall. destruct (List.find _ _) as [[k r]|] eqn:E; [|done].
    apply find_some in E as [Hin HP]. simpl in HP.
    rewrite (Hall k r) in HP; [done|]. apply elem_of_rows_by_id. by apply list_elem_of_In.
Qed.

(** The row found is the first match in key order. *)
Lemma find_row_least {Row} (P : Z -> Row -> bool) (t : gmap Z Row) k r :
  find_row P t = Some (k, r) <->
  t !! k = Some r /\ P k r = true /\ forall k' r', t !! k' = Some r' -> P k' r' = true -> k <= k'.
Proof.
  assert (Hleast : forall l : list (Z * Row), StronglySorted by_key l -> forall k r,
    List.find (fun kr => P kr.1 kr.2) l = Some (k, r) ->
    forall k' r', (k', r') ∈ l -> P k' r' = true -> k <= k').
  { induction 1 as [|[k0 r0] l Hs IH Hall]; intros k1 r1; [done|]. cbn. destruct (P k0 r0) eqn:E.
    - intros [= <- <-] k' r' [[= -> _]|Hin]%elem_of_cons _; [lia|].
      rewrite Forall_forall in Hall. apply (Hall _ Hin).
    - intros Hf k' r' [[= -> ->]|Hin]%elem_of_cons HP; [congruence|eauto]. }
  assert (Htr : Transitive (@by_key Row)) by (intros [] [] []; unfold by_key; cbn; lia).
  assert (Hto : Total (@by_key Row)) by (intros [] []; unfold by_key; cbn; lia).
  assert (Hl : forall k r, find_row P t = Some (k, r) -> forall k' r', t !! k' = Some r' -> P k' r' = true -> k <= k').
  { intros k1 r1 Hf k' r' Hk HP. apply (Hleast (rows_by_id t)) with r1 r'; [|done| |done].
    - apply Sorted_StronglySorted; [done|]. by apply Sorted_merge_sort.
    - by apply elem_of_rows_by_id. }
  split.
  - intros Hf. destruct (find_row_Some _ _ _ _ Hf). split_and!; eauto.
  - intros (Hk & HP & Hmin). destruct (find_row P t) as [[k' r']|] eqn:E.
    + destruct (find_row_Some _ _ _ _ E) as [Hk' HP']. assert (k = k') as -> by (apply Z.le_antisymm; eauto). congruence.
    + by rewrite (proj1 (find_row_None _ _) E _ _ Hk) in HP.
Qed.
(** An update that keeps the predicate keeps the row found. *)
Lemma find_row_update {Row} (P Q : Z -> Row -> bool) f (t : gmap Z Row) :
  (forall k r, P k (f r) = P k r) ->
  find_row P (update_where Q f t) = (fun kr => (kr.1, if Q kr.1 kr.2 then f kr.2 else kr.2)) <$> find_row P t.
Proof.
  intros Hf. assert (HP : forall k r, P k (if Q k r then f r else r) = P k r) by (intros; by destruct (Q k r)).
  destruct (find_row P t) as [[k r]|] eqn:E; cbn.
  - apply find_row_least in E as (Hk & Hp & Hmin). apply find_row_least. rewrite lookup_update_where, Hk. cbn.
    rewrite HP. split_and!; [done|done|]. intros k' r'. rewrite lookup_update_where.
    destruct (t !! k') as [r0|] eqn:Hk'; [|done]. intros [= <-]. rewrite HP. eauto.
  - apply find_row_None. intros k r. rewrite lookup_update_where. destruct (t !! k) as [r0|] eqn:Hk; [|done].
    intros [= <-]. rewrite HP. by apply (proj1 (find_row_None _ _) E).
Qed.

(** ** Path strings *)
(** Byte order of strings, the order of [BTreeSet<String>] and of SQLite's
    BINARY collation. *)
Definition string_le (a b : string) : Prop := String.leb a b = true.
#[export] Instance string_le_dec : RelDecision string_le.
Proof. intros a b. unfold string_le. apply _. Defined.


Lemma string_le_cons a s b t :
  string_le (String a s) (String b t)
  <-> (N_of_ascii a < N_of_ascii b)%N \/ a = b /\ string_le s t.
Proof.
  unfold string_le, String.leb. cbn [String.compare]. unfold Ascii.compare.
  destruct (N.compare_spec (N_of_ascii a) (N_of_ascii b)) as [E|E|E].
  - apply (f_equal ascii_of_N) in E. rewrite !ascii_N_embedding in E. subst b. split.
    + intros Hs. by right.
    + intros [Hlt|[_ Hs]]; [lia|done].
  - split; [by left|done].
  - split; [done|]. intros [Hlt|[-> _]]; lia.
Qed.
#[export] Instance string_le_trans : Transitive string_le.
Proof.
  intros x. induction x as [|a x IH]; intros [|b y] [|c z] H1 H2; try done.
  rewrite string_le_cons in *. destruct H1 as [H1|[-> H1]], H2 as [H2|[-> H2]].
  - left. lia.
  - by left.
  - by left.
  - right. split; [done|]. by apply (IH y).
Qed.
#[export] Instance string_le_total : Total string_le.
Proof. intros x y. apply String.leb_total. Qed.
#[export] Instance string_le_antisymm : AntiSymm (=) string_le.
Proof. intros x y. apply String.leb_antisym. Qed.

(** SQLite [rtrim(s,'/')] and Rust [trim_end_matches('/')]. *)
Fixpoint rtrim_slash (s : string) : string :=
  match s with
  | EmptyString => EmptyString
  | String c rest =>
      let rest' := rtrim_slash rest in
      if bool_decide (rest' = EmptyString) && bool_decide (c = "/"%char) then EmptyString
      else String c rest'
  end.

(** [str::strip_prefix]. *)
Fixpoint strip_prefix (p s : string) : option string :=
  match p, s with
  | EmptyString, _ => Some s
  | String a p', String b s' => if bool_decide (a = b) then strip_prefix p' s' else None
  | _, _ => None
  end.

Lemma strip_prefix_Some p s r : strip_prefix p s = Some r <-> s = (p +:+ r)%string.
Proof.
  revert s. induction p as [|a p IH]; intros s; simpl.
  { split; [by intros [= ->]|by intros ->]. }
  destruct s as [|b s]; [split; done|]. case_bool_decide as E.
  - subst. rewrite IH. split; [by intros ->|by intros [= ->]].
  - split; [done|]. intros [= -> _]. done.
Qed.

(** The path below a root, [None] when the root does not cover the path:
    [substr(path,1,length(root)+1)=root||'/'] and [substr(path,length(root)+2)]
    for [root = rtrim(local_root,'/')]. *)
Definition under_root (local_root path : string) : option string :=
  strip_prefix (rtrim_slash local_root +:+ "/")%string path.

(** ** Transactions

    [Tx S A] is a fallible computation over a database [S]; [transact] runs it
    the way a [rusqlite] transaction does: an error leaves the database as it
    was. *)
Inductive AppError :=
  | Backend (message : string)   (* [AppError::Backend] *)
  | NoRows                       (* [query_row] found nothing *)
  | Io (what : string)           (* a file operation failed *)
  | Conversion (what : string)   (* a column does not read as its Rust type *)
  | Constraint (what : string).  (* a UNIQUE constraint refused the statement *)

Inductive result (A : Type) := Ok (a : A) | Err (e : AppError).
Arguments Ok {A} a.
Arguments Err {A} e.
#[export] Instance result_ret : MRet result := fun A a => Ok a.
#[export] Instance result_bind : MBind result := fun A B k m =>
  match m with Ok a => k a | Err e => Err e end.
(** [ok_or_else]. *)
Definition ok_or_err {A} (o : option A) (e : AppError) : result A :=
  match o with Some a => Ok a | None => Err e end.

Definition Tx (S A : Type) : Type := S -> result (A * S).
#[export] Instance Tx_ret S : MRet (Tx S) := fun A a s => Ok (a, s).
#[export] Instance Tx_bind S : MBind (Tx S) := fun A B k m s =>
  match m s with Ok (a, s') => k a s' | Err e => Err e end.
Definition gets {S A} (f : S -> A) : Tx S A := fun s => Ok (f s, s).
Definition modify {S} (f : S -> S) : Tx S unit := fun s => Ok (tt, f s).
Definition throw {S A} (e : AppError) : Tx S A := fun _ => Err e.
(** [pure?] of a computation that does not touch the database. *)
Definition lift {S A} (r : result A) : Tx S A := fun s => match r with Ok a => Ok (a, s) | Err e => Err e end.
(** [row?]: a missing row is an error. *)
Definition need {S A} (o : option A) (e : AppError) : Tx S A :=
  fun s => match o with Some a => Ok (a, s) | None => Err e end.
(** [if !b { return Err(e) }]. *)
Definition ensure {S} (b : bool) (e : AppError) : Tx S unit :=
  fun s => if b then Ok (tt, s) else Err e.

(** A loop over a list in order, stopping at the first error. *)
Fixpoint for_each {S A} (l : list A) (f : A -> Tx S unit) : Tx S unit :=
  match l with
  | [] => mret tt
  | x :: rest => _ ← f x; for_each rest f
  end.

Definition transact {S A} (m : Tx S A) (s : S) : S * result A :=
  match m s with Ok (a, s') => (s', Ok a) | Err e => (s, Err e) end.

Lemma bind_run {S A B} (m : Tx S A) (k : A -> Tx S B) s a s' :
  m s = Ok (a, s') -> (m ≫= k) s = k a s'.
Proof. intros Hm. unfold mbind, Tx_bind. by rewrite Hm. Qed.
Lemma bind_Err {S A B} (m : Tx S A) (k : A -> Tx S B) s e : m s = Err e -> (m ≫= k) s = Err e.
Proof. intros Hm. unfold mbind, Tx_bind. by rewrite Hm. Qed.
Lemma bind_Ok {S A B} (m : Tx S A) (k : A -> Tx S B) s b s'' :
  (m ≫= k) s = Ok (b, s'') <-> exists a s', m s = Ok (a, s') /\ k a s' = Ok (b, s'').
Proof.
  unfold mbind, Tx_bind. destruct (m s) as [[a s']|e]; split; naive_solver.
Qed.
Lemma ensure_Ok {S} b e (s s' : S) u : ensure b e s = Ok (u, s') <-> b = true /\ s' = s.
Proof. unfold ensure. destruct u, b; naive_solver. Qed.
Lemma need_Ok {S A} (o : option A) e (s s' : S) a : need o e s = Ok (a, s') <-> o = Some a /\ s' = s.
Proof. unfold need. destruct o; naive_solver. Qed.

(** [tx_red] exposes one run of a transaction in the goal. *)
Ltac tx_red :=
  unfold mbind, Tx_bind, gets, modify, need, ensure, mret, Tx_ret, throw; cbn beta iota.

Lemma gets_Ok {S A} (f : S -> A) (s s' : S) a : gets f s = Ok (a, s') <-> a = f s /\ s' = s.
Proof. unfold gets. split; [by intros [= <- <-]|by intros [-> ->]]. Qed.
Lemma modify_Ok {S} (f : S -> S) (s s' : S) u : modify f s = Ok (u, s') <-> s' = f s.
Proof. unfold modify. destruct u. split; [by intros [= <-]|by intros ->]. Qed.
Lemma mret_Ok {S A} (a b : A) (s s' : S) : (mret a : Tx S A) s = Ok (b, s') <-> b = a /\ s' = s.
Proof. unfold mret, Tx_ret. split; [by intros [= <- <-]|by intros [-> ->]]. Qed.

Lemma lift_Ok {S A} (r : result A) (s s' : S) a : lift r s = Ok (a, s') <-> r = Ok a /\ s' = s.
Proof. unfold lift. destruct r; naive_solver. Qed.

(** [tx_inv H] decomposes a successful run into the runs of its parts; the
    atomic parts are turned into equations. *)
Ltac tx_leaf H :=
  first
    [ apply ensure_Ok in H; destruct H as [? ->]
    | apply need_Ok in H; destruct H as [? ->]
    | apply gets_Ok in H; destruct H as [-> ->]
    | apply lift_Ok in H; destruct H as [? ->]
    | apply modify_Ok in H; subst
    | apply mret_Ok in H; destruct H as [? ?]; subst
    | idtac ].
Ltac tx_inv H :=
  lazymatch type of H with
  | (_ ≫= _) _ = Ok _ =>
      let H1 := fresh "Hrun" in
      apply bind_Ok in H; destruct H as (? & ? & H1 & H); tx_leaf H1; cbn beta in H; tx_inv H
  | _ => tx_leaf H
  end.

(** ** Computations that respect a relation

    [respects R m]: every successful run of [m] relates the state before to the
    state after. For a preorder it composes over the monad, so that a command is
    shown to respect [R] by its shape. *)
Definition respects {S A} (R : relation S) (m : Tx S A) : Prop := forall s a s', m s = Ok (a, s') -> R s s'.

Section Respects.
Context {S : Type} (R : relation S) `{!PreOrder R}.
Lemma respects_bind {A B} (m : Tx S A) (k : A -> Tx S B) :
  respects R m -> (forall a, respects R (k a)) -> respects R (m ≫= k).
Proof. intros Hm Hk s b s' (a & s1 & H1 & H2)%bind_Ok. etrans; [by eapply Hm|by eapply Hk]. Qed.
Lemma respects_gets {A} (f : S -> A) : respects R (gets f).
Proof. intros s a s' [_ ->]%gets_Ok. done. Qed.
Lemma respects_mret {A} (a : A) : respects R (mret a).
Proof. intros s b s' [_ ->]%mret_Ok. done. Qed.
Lemma respects_ensure b e : respects R (ensure b e).
Proof. intros s u s' [_ ->]%ensure_Ok. done. Qed.
Lemma respects_need {A} (o : option A) e : respects R (need o e).
Proof. intros s a s' [_ ->]%need_Ok. done. Qed.
Lemma respects_lift {A} (r : result A) : respects R (lift r).
Proof. intros s a s' [_ ->]%lift_Ok. done. Qed.
Lemma respects_throw {A} e : respects R (throw e : Tx S A).
Proof. done. Qed.
Lemma respects_modify f : (forall s, R s (f s)) -> respects R (modify f).
Proof. intros Hf s u s' ->%modify_Ok. apply Hf. Qed.
Lemma respects_for_each {A} (l : list A) f : (forall x, x ∈ l -> respects R (f x)) -> respects R (for_each l f).
Proof.
  intros Hf. induction l as [|x l IH]; simpl; [apply respects_mret|].
  apply respects_bind; [apply Hf; left|]. intros _. apply IH. intros y Hy. apply Hf. by right.
Qed.
End Respects.

Create HintDb respects.
#[export] Hint Resolve respects_gets respects_mret respects_ensure respects_need respects_lift respects_throw
  : respects.
(** [respect] splits a command into its statements and discharges those that do
    not write or that the [respects] database knows. *)
Ltac respect_step :=
  match goal with
  | |- respects _ (match ?x with _ => _ end) => destruct x
  | |- respects _ (mbind _ _) => apply respects_bind; [apply _| |intros ?]
  | |- respects _ (let _ := _ in _) => cbv zeta
  | |- respects _ _ => solve [eauto 2 with typeclass_instances respects]
  | |- respects _ (modify _) => apply respects_modify; [solve [intros; eauto 2 with respects]]
  | |- respects _ (for_each _ _) => apply respects_for_each; [apply _|intros ? _]
  end.
Ltac respect := repeat respect_step.
(** The statements of a sequence, without entering its commands. *)
Ltac respect_binds :=
  repeat match goal with
  | |- respects _ (mbind _ _) => apply respects_bind; [apply _| |intros ?]
  | |- respects _ (let _ := _ in _) => cbv zeta
  end; try solve [eauto 2 with typeclass_instances respects].
