(* ===== verification/Json.v ===== *)
(** The JSON values of the wire ([serde_json::Value]) and the accessors the
    sources use on them. An object is the list of its members in key order, as
    [serde_json::Map] iterates it. *)
From Stdlib Require Import Ascii String.
From S2P Require Import Prelude.
Local Open Scope Z_scope.

Module Json.

Inductive Value :=
  | Null
  | Bool (b : bool)
  | Int (n : Z)            (* a number written as an integer *)
  | Float (bits : Z)       (* any other number: the bits of its [f64] *)
  | Str (s : string)
  | Arr (elements : list Value)
  | Obj (members : list (string * Value)).

Notation Map := (list (string * Value)).

(** Equality of values ([PartialEq]), decided by structural recursion. *)
#[global] Instance Value_eq_dec : EqDecision Value.
Proof.
  hnf. fix IH 1. intros x y.
  assert (Hl : forall l1 l2 : list Value, Decision (l1 = l2)).
  { fix IHl 1. intros [|a l1] [|b l2]; [by left|by right|by right|].
    destruct (IH a b) as [->|Hne]; [|by right; intros [= ? ?]].
    destruct (IHl l1 l2) as [->|Hne]; [by left|by right; intros [= ?]]. }
  assert (Hm : forall l1 l2 : Map, Decision (l1 = l2)).
  { fix IHm 1. intros [|[k a] l1] [|[k' b] l2]; [by left|by right|by right|].
    destruct (decide (k = k')) as [->|Hne]; [|by right; intros [= ? ? ?]].
    destruct (IH a b) as [->|Hne]; [|by right; intros [= ? ?]].
    destruct (IHm l1 l2) as [->|Hne]; [by left|by right; intros [= ?]]. }
  destruct x as [|b|n|t|s|l|m], y as [|b'|n'|t'|s'|l'|m']; try (by right; discriminate).
  - by left.
  - destruct (decide (b = b')) as [->|Hne]; [by left|by right; intros [= ?]].
  - destruct (decide (n = n')) as [->|Hne]; [by left|by right; intros [= ?]].
  - destruct (decide (t = t')) as [->|Hne]; [by left|by right; intros [= ?]].
  - destruct (decide (s = s')) as [->|Hne]; [by left|by right; intros [= ?]].
  - destruct (Hl l l') as [->|Hne]; [by left|by right; intros [= ?]].
  - destruct (Hm m m') as [->|Hne]; [by left|by right; intros [= ?]].
Defined.

(** [Map::get]. *)
Definition get (m : Map) (key : string) : option Value :=
  snd <$> List.find (fun kv => bool_decide (kv.1 = key)) m.

Definition as_object (v : Value) : option Map := match v with Obj m => Some m | _ => None end.
Definition as_array (v : Value) : option (list Value) := match v with Arr l => Some l | _ => None end.
Definition as_str (v : Value) : option string := match v with Str s => Some s | _ => None end.
Definition as_bool (v : Value) : option bool := match v with Bool b => Some b | _ => None end.
(** [as_i64] and [as_u64]: an integer in range. *)
Definition as_i64 (v : Value) : option Z :=
  match v with Int n => if (I64_MIN <=? n) && (n <=? I64_MAX) then Some n else None | _ => None end.
Definition as_u64 (v : Value) : option Z :=
  match v with Int n => if (0 <=? n) && (n <=? U64_MAX) then Some n else None | _ => None end.
Definition is_null (v : Value) : bool := match v with Null => true | _ => false end.
Definition is_object (v : Value) : bool := match v with Obj _ => true | _ => false end.
Definition is_array (v : Value) : bool := match v with Arr _ => true | _ => false end.

(** [Value::get(name)] and [value[name]], which is null when absent. *)
Definition member (v : Value) (name : string) : option Value := m ← as_object v; get m name.
Definition index (v : Value) (name : string) : Value := default Null (member v name).

(** [value[i]], which is null out of range or on another value. *)
Definition nth (v : Value) (i : nat) : Value := default Null (l ← as_array v; l !! i).
#[global] Arguments nth : simpl never.

(** [Map::insert] and [Map::remove]. *)
Fixpoint put (key : string) (v : Value) (m : Map) : Map :=
  match m with
  | [] => [(key, v)]
  | (key', v') :: rest =>
      match String.compare key key' with
      | Lt => (key, v) :: m
      | Eq => (key, v) :: rest
      | Gt => (key', v') :: put key v rest
      end
  end.
Definition remove (key : string) (m : Map) : Map :=
  List.filter (fun kv => negb (bool_decide (kv.1 = key))) m.
(** [value[name] = v] on an object; a null becomes an object. Other values panic
    in the source and are left alone here. *)
Definition assign (v : Value) (name : string) (x : Value) : Value :=
  match v with
  | Obj m => Obj (put name x m)
  | Null => Obj [(name, x)]
  | _ => v
  end.
(** [json!({...})]: the members in any order. *)
Definition obj (members : list (string * Value)) : Value :=
  Obj (fold_left (fun m kv => put kv.1 kv.2 m) members []).

(** ** Objects with optional members

    An object whose members are known up to presence is [assemble l], where [l]
    gives each key its member or none. Lookups and updates of the object are
    lookups and updates of [l]. *)
Notation Members := (list (string * option Value)).
Definition seg (ko : string * option Value) : Map :=
  match ko.2 with Some v => [(ko.1, v)] | None => [] end.
Definition assemble (l : Members) : Map := concat (seg <$> l).
Fixpoint lookup_key (l : Members) (key : string) : option Value :=
  match l with
  | [] => None
  | (k, o) :: rest => if bool_decide (k = key) then o else lookup_key rest key
  end.
Definition assign_key (key : string) (o : option Value) (l : Members) : Members :=
  (fun ko => if bool_decide (ko.1 = key) then (ko.1, o) else ko) <$> l.

Definition key_lt (a b : string) : Prop := String.compare a b = Lt.
Definition keys_sorted (l : Members) : Prop := StronglySorted key_lt l.*1.

Lemma compare_refl a : String.compare a a = Eq.
Proof. induction a as [|c a IH]; [done|]. simpl. unfold Ascii.compare. by rewrite N.compare_refl. Qed.
Lemma key_lt_ne a b : key_lt a b -> a <> b.
Proof. unfold key_lt. intros H ->. by rewrite compare_refl in H. Qed.
Lemma key_lt_Gt a b : key_lt a b -> String.compare b a = Gt.
Proof. unfold key_lt. intros H. rewrite String.compare_antisym, H. done. Qed.

Lemma assemble_fresh l key : Forall (key_lt key) l.*1 -> get (assemble l) key = None.
Proof.
  intros Hl. unfold get. induction l as [|[k o] l IH]; [done|].
  inversion_clear Hl as [|?? Hk Hl']. specialize (IH Hl'). unfold assemble. cbn.
  destruct o; cbn; [|done]. rewrite bool_decide_false; [done|]. apply not_eq_sym, key_lt_ne, Hk.
Qed.
Lemma get_assemble l key : keys_sorted l -> get (assemble l) key = lookup_key l key.
Proof.
  intros Hs. induction l as [|[k o] l IH]; [done|]. inversion_clear Hs as [|?? Hs' Hk].
  specialize (IH Hs'). cbn [lookup_key]. destruct o as [v|]; unfold get in *; cbn.
  - destruct (bool_decide (k = key)); [done|apply IH].
  - case_bool_decide as Hkey; [|apply IH]. subst. by apply assemble_fresh.
Qed.

Lemma remove_assemble l key : remove key (assemble l) = assemble (assign_key key None l).
Proof.
  induction l as [|[k o] l IH]; [done|]. unfold assemble, remove in *. cbn.
  rewrite List.filter_app, IH. destruct (bool_decide (k = key)) eqn:Hk; cbn; destruct o; cbn; rewrite ?Hk; done.
Qed.

Lemma put_front l key v : Forall (key_lt key) l.*1 -> put key v (assemble l) = (key, v) :: assemble l.
Proof.
  intros Hl. induction l as [|[k o] l IH]; [done|]. inversion_clear Hl as [|?? Hk Hl'].
  unfold assemble in *. cbn. destruct o; cbn; [|by apply IH]. by rewrite Hk.
Qed.
Lemma assign_key_fresh l key o : Forall (key_lt key) l.*1 -> assign_key key o l = l.
Proof.
  intros Hl. induction l as [|[k o'] l IH]; [done|]. inversion_clear Hl as [|?? Hk Hl'].
  cbn. rewrite bool_decide_false by (apply not_eq_sym, key_lt_ne, Hk). f_equal. by apply IH.
Qed.
Lemma put_assemble l key v :
  keys_sorted l -> key ∈ l.*1 -> put key v (assemble l) = assemble (assign_key key (Some v) l).
Proof.
  intros Hs Hin. induction l as [|[k o] l IH]; [by apply elem_of_nil in Hin|].
  inversion_clear Hs as [|?? Hs' Hk]. cbn [assign_key fmap list_fmap fst].
  case_bool_decide as Hkey.
  - subst k. fold (assign_key key (Some v) l). rewrite assign_key_fresh by done.
    unfold assemble. cbn. destruct o; cbn; [by rewrite compare_refl|by apply put_front].
  - cbn in Hin. apply elem_of_cons in Hin as [?|Hin]; [congruence|].
    assert (key_lt k key) as Hlt by (rewrite Forall_forall in Hk; by apply Hk).
    specialize (IH Hs' Hin). unfold assemble in *. cbn.
    destruct o; cbn; [|apply IH]. rewrite (key_lt_Gt _ _ Hlt). f_equal. apply IH.
Qed.

Lemma keys_assign key o l : (assign_key key o l).*1 = l.*1.
Proof. induction l as [|[k o'] l IH]; [done|]. cbn. case_bool_decide; cbn; f_equal; apply IH. Qed.
Lemma keys_sorted_assign key o l : keys_sorted l -> keys_sorted (assign_key key o l).
Proof. unfold keys_sorted. by rewrite keys_assign. Qed.
Lemma assign_key_same l key v : keys_sorted l -> lookup_key l key = Some v -> assign_key key (Some v) l = l.
Proof.
  intros Hs. induction l as [|[k o] l IH]; [done|]. inversion_clear Hs as [|?? Hs' Hk]. cbn.
  case_bool_decide as Hkey.
  - subst k. intros ->. f_equal. by apply assign_key_fresh.
  - intros Hl. f_equal. by apply IH.
Qed.
Lemma lookup_assign_ne l key key' o : key <> key' -> lookup_key (assign_key key o l) key' = lookup_key l key'.
Proof.
  intros Hne. induction l as [|[k o'] l IH]; [done|]. cbn. destruct (bool_decide (k = key)) eqn:Hk; cbn.
  - apply bool_decide_eq_true in Hk as ->. rewrite !bool_decide_false by done. apply IH.
  - clear Hk. by destruct (bool_decide (k = key')); [|apply IH].
Qed.
(** A conditional insertion of a missing member. *)
Lemma assign_key_None l key : keys_sorted l -> lookup_key l key = None -> assign_key key None l = l.
Proof.
  intros Hs. induction l as [|[k o] l IH]; [done|]. inversion_clear Hs as [|?? Hs' Hk]. cbn.
  case_bool_decide as Hkey.
  - subst k. intros ->. f_equal. by apply assign_key_fresh.
  - intros Hl. f_equal. by apply IH.
Qed.
Lemma put_when l key (b : bool) v :
  keys_sorted l -> key ∈ l.*1 -> lookup_key l key = None ->
  (if b then put key v (assemble l) else assemble l)
  = assemble (assign_key key (if b then Some v else None) l).
Proof. intros Hs Hin Hl. destruct b; [by apply put_assemble|by rewrite assign_key_None]. Qed.
(** ** Lookup after insertion *)
Lemma get_cons k v m key : get ((k, v) :: m) key = if bool_decide (k = key) then Some v else get m key.
Proof. unfold get. cbn. by destruct (bool_decide (k = key)). Qed.
Lemma get_put_eq key v m : get (put key v m) key = Some v.
Proof.
  induction m as [|[k w] m IH]; cbn [put]; [by rewrite get_cons, bool_decide_true|].
  destruct (String.compare key k) eqn:E; rewrite get_cons; [by rewrite bool_decide_true..|].
  rewrite bool_decide_false; [done|]. intros ->. by rewrite compare_refl in E.
Qed.
Lemma get_put_ne key key' v m : key <> key' -> get (put key v m) key' = get m key'.
Proof.
  intros Hne. induction m as [|[k w] m IH]; cbn [put]; [by rewrite get_cons, bool_decide_false|].
  destruct (String.compare key k) eqn:E; rewrite !get_cons.
  - apply String.compare_eq_iff in E as ->. by rewrite !(bool_decide_false (k = key')).
  - by rewrite bool_decide_false.
  - by destruct (bool_decide (k = key')).
Qed.
End Json.
Declare Scope json_scope.
Notation "v .[ name ]" := (Json.index v name) (at level 2, left associativity, format "v .[ name ]") : json_scope.
