(* ===== verification/Media.v ===== *)
(** * Media items (src/src/core/media.rs)

    The media row as the application sees it, the classification of files by
    extension and MIME type, the logical-album flags and where an original
    lives. Paths are byte strings with ['/'] separators; a [DateTime<Utc>] is
    its number of nanoseconds since the epoch and an [f64] its bit pattern. *)
From S2P Require Import Prelude.
From Stdlib Require Import Ascii String.
Local Open Scope Z_scope.

Module Media.

Inductive MediaKind := Image | Video.
#[export] Instance MediaKind_eq_dec : EqDecision MediaKind.
Proof. solve_decision. Defined.

Definition as_db_value (k : MediaKind) : string :=
  match k with Image => "image" | Video => "video" end.

Definition MEDIA_SUBKIND_STANDARD : string := "standard".
Definition MEDIA_SUBKIND_MOTION_PHOTO : string := "motion_photo".
Definition MEDIA_ATTRIBUTE_ANIMATED : string := "animated".
Definition MEDIA_ATTRIBUTE_HDR : string := "hdr".

Definition MEDIA_TYPE_MOTION_PHOTO : Z := Z.shiftl 1 0.
Definition MEDIA_TYPE_ANIMATED : Z := Z.shiftl 1 1.
Definition MEDIA_TYPE_HDR : Z := Z.shiftl 1 2.

Inductive LogicalMediaType := MotionPhoto | Animated | Hdr.

Definition flag (t : LogicalMediaType) : Z :=
  match t with
  | MotionPhoto => MEDIA_TYPE_MOTION_PHOTO
  | Animated => MEDIA_TYPE_ANIMATED
  | Hdr => MEDIA_TYPE_HDR
  end.

(** The SQL predicate [(media_type_flags & k) != 0] of a logical album. *)
Definition sql_predicate (t : LogicalMediaType) (media_type_flags : Z) : bool :=
  match t with
  | MotionPhoto => negb (Z.land media_type_flags 1 =? 0)
  | Animated => negb (Z.land media_type_flags 2 =? 0)
  | Hdr => negb (Z.land media_type_flags 4 =? 0)
  end.

Definition SUPPORTED_IMAGE_EXTENSIONS : list string :=
  ["jpg"; "jpeg"; "png"; "webp"; "heic"; "heif"; "gif"]%string.
Definition SUPPORTED_VIDEO_EXTENSIONS : list string :=
  ["mp4"; "m4v"; "mov"; "webm"; "mkv"; "avi"]%string.

(** [str::split('/')] on a path. *)
Fixpoint split_slash (s : string) : list string :=
  match s with
  | EmptyString => [""%string]
  | String c rest =>
      if Ascii.eqb c "/"%char then ""%string :: split_slash rest
      else match split_slash rest with
           | [] => [String c ""%string]
           | seg :: segs => String c seg :: segs
           end
  end.

(** [Path::components], the normal and parent components: empty segments and
    [.] are skipped. *)
Definition components (p : string) : list string :=
  filter (fun s => s <> ""%string /\ s <> "."%string) (split_slash p).

(** [Path::file_name]: the last component unless it is [..]. *)
Definition file_name (p : string) : option string :=
  match last (components p) with
  | Some name => if String.eqb name ".." then None else Some name
  | None => None
  end.

(** The text after the last dot of a name, with the text before it. *)
Fixpoint rsplit_dot (s : string) : option (string * string) :=
  match s with
  | EmptyString => None
  | String c rest =>
      match rsplit_dot rest with
      | Some (before, after) => Some (String c before, after)
      | None => if Ascii.eqb c "."%char then Some (""%string, rest) else None
      end
  end.

(** [Path::extension]: none for a name without a dot and for a dot file. *)
Definition extension (p : string) : option string :=
  match file_name p with
  | None => None
  | Some name =>
      match rsplit_dot name with
      | Some (before, after) =>
          if String.eqb before "" then None else Some after
      | None => None
      end
  end.

Definition ascii_lower (c : ascii) : ascii :=
  let n := N_of_ascii c in
  if (65 <=? n)%N && (n <=? 90)%N then ascii_of_N (n + 32) else c.

Fixpoint to_ascii_lowercase (s : string) : string :=
  match s with
  | EmptyString => EmptyString
  | String c rest => String (ascii_lower c) (to_ascii_lowercase rest)
  end.

Definition mime_of_lower_ext (ext : string) : option string :=
  if String.eqb ext "jpg" || String.eqb ext "jpeg" then Some "image/jpeg"%string
  else if String.eqb ext "png" then Some "image/png"%string
  else if String.eqb ext "webp" then Some "image/webp"%string
  else if String.eqb ext "heic" || String.eqb ext "heif" then Some "image/heic"%string
  else if String.eqb ext "gif" then Some "image/gif"%string
  else if String.eqb ext "mp4" || String.eqb ext "m4v" then Some "video/mp4"%string
  else if String.eqb ext "mov" then Some "video/quicktime"%string
  else if String.eqb ext "webm" then Some "video/webm"%string
  else if String.eqb ext "mkv" then Some "video/x-matroska"%string
  else if String.eqb ext "avi" then Some "video/x-msvideo"%string
  else None.

Definition mime_from_extension (path : string) : option string :=
  match extension path with
  | Some ext => mime_of_lower_ext (to_ascii_lowercase ext)
  | None => None
  end.

Definition is_gif_head (head : string) : bool :=
  String.prefix "GIF87a" head || String.prefix "GIF89a" head.

Definition mime_from_extension_or_head (path : string) (head : option string)
  : option string :=
  if match head with Some h => is_gif_head h | None => false end
  then Some "image/gif"%string
  else mime_from_extension path.

Definition media_kind_from_mime (mime_type : string) : option MediaKind :=
  if String.prefix "image/" mime_type then Some Image
  else if String.prefix "video/" mime_type then Some Video
  else None.

(** [media_kind_db_value] of [core/db.rs]. *)
Definition kind_value (mime_type : string) : string := as_db_value (default Image (media_kind_from_mime mime_type)).
Definition is_supported_media_path (path : string) : bool :=
  match mime_from_extension path with Some _ => true | None => false end.

Inductive MediaLocation := Local | Cloud | Both.
#[export] Instance MediaLocation_eq_dec : EqDecision MediaLocation.
Proof. solve_decision. Defined.

(** The discriminant stored in [media_items.storage_location]. *)
Definition location_value (l : MediaLocation) : Z :=
  match l with Local => 1 | Cloud => 2 | Both => 3 end.

Definition has_local_original (l : MediaLocation) : bool :=
  match l with Local | Both => true | Cloud => false end.
Definition has_cloud_original (l : MediaLocation) : bool :=
  match l with Cloud | Both => true | Local => false end.

Record MediaItem := mkMediaItem {
  id : Z;
  uri : string;
  path : string;
  folder_path : string;
  mime_type : string;
  media_subkind : string;
  media_attributes : string;
  width : option Z;
  height : option Z;
  video_duration_secs : option Z;
  taken_at : option Z;
  file_mtime : Z;
  file_size : Z;
  blake3_hash : string;
  is_favorite : bool;
  trashed_at : option Z;
  storage_location : MediaLocation;
  thumbnail_ready : bool
}.

Definition sort_datetime (m : MediaItem) : Z := default (file_mtime m) (taken_at m).

Definition can_display (m : MediaItem) : bool :=
  has_local_original (storage_location m) || thumbnail_ready m.

Definition media_kind (m : MediaItem) : option MediaKind :=
  media_kind_from_mime (mime_type m).

Definition is_image (m : MediaItem) : bool := bool_decide (media_kind m = Some Image).
Definition is_video (m : MediaItem) : bool := bool_decide (media_kind m = Some Video).
Definition is_motion_photo (m : MediaItem) : bool :=
  String.eqb (media_subkind m) MEDIA_SUBKIND_MOTION_PHOTO.

(** The attribute document is JSON: [json_bool raw key] is what parsing [raw]
    with serde_json, looking [key] up and asking for a boolean gives. *)
Section WithJson.
Context (json_bool : string -> string -> option bool).

Definition media_attribute_flag (raw attribute : string) : bool :=
  default false (json_bool raw attribute).

Definition media_type_flags (subkind attributes : string) : Z :=
  let flags := 0 in
  let flags := if String.eqb subkind MEDIA_SUBKIND_MOTION_PHOTO
               then Z.lor flags MEDIA_TYPE_MOTION_PHOTO else flags in
  let flags := if media_attribute_flag attributes MEDIA_ATTRIBUTE_ANIMATED
               then Z.lor flags MEDIA_TYPE_ANIMATED else flags in
  if media_attribute_flag attributes MEDIA_ATTRIBUTE_HDR
  then Z.lor flags MEDIA_TYPE_HDR else flags.

Definition is_animated (m : MediaItem) : bool :=
  String.eqb (mime_type m) "image/gif"
  || media_attribute_flag (media_attributes m) MEDIA_ATTRIBUTE_ANIMATED.
Definition is_hdr (m : MediaItem) : bool :=
  media_attribute_flag (media_attributes m) MEDIA_ATTRIBUTE_HDR.

Definition is_editable_image (m : MediaItem) : bool :=
  has_local_original (storage_location m)
  && is_image m
  && String.eqb (media_subkind m) MEDIA_SUBKIND_STANDARD
  && negb (is_animated m)
  && negb (is_hdr m)
  && (String.eqb (mime_type m) "image/jpeg"
      || String.eqb (mime_type m) "image/png"
      || String.eqb (mime_type m) "image/webp").

(** Membership of a logical album, as the classifier intends it. *)
Definition belongs (t : LogicalMediaType) (subkind attributes : string) : bool :=
  match t with
  | MotionPhoto => String.eqb subkind MEDIA_SUBKIND_MOTION_PHOTO
  | Animated => media_attribute_flag attributes MEDIA_ATTRIBUTE_ANIMATED
  | Hdr => media_attribute_flag attributes MEDIA_ATTRIBUTE_HDR
  end.

Lemma sql_predicate_media_type_flags t subkind attributes :
  sql_predicate t (media_type_flags subkind attributes) = belongs t subkind attributes.
Proof.
  unfold media_type_flags.
  destruct t; unfold belongs;
    destruct (String.eqb subkind MEDIA_SUBKIND_MOTION_PHOTO), (media_attribute_flag attributes MEDIA_ATTRIBUTE_ANIMATED),
      (media_attribute_flag attributes MEDIA_ATTRIBUTE_HDR); reflexivity.
Qed.

End WithJson.

Ltac split_exts :=
  repeat match goal with
  | |- context [String.eqb ?x ?y] =>
      destruct (String.eqb_spec x y); [subst x; vm_compute; try tauto|]; cbn [orb]
  end.

(** The extension table and the MIME table agree: a lower-case extension has
    an image MIME type exactly when it is listed as an image extension, and
    likewise for videos. *)
Lemma kind_of_ext_image ext :
  (mime_of_lower_ext ext ≫= media_kind_from_mime) = Some Image
  <-> In ext SUPPORTED_IMAGE_EXTENSIONS.
Proof.
  unfold mime_of_lower_ext, SUPPORTED_IMAGE_EXTENSIONS. cbn [In].
  split_exts; simpl; split; intros; try congruence; intuition congruence.
Qed.

Lemma kind_of_ext_video ext :
  (mime_of_lower_ext ext ≫= media_kind_from_mime) = Some Video
  <-> In ext SUPPORTED_VIDEO_EXTENSIONS.
Proof.
  unfold mime_of_lower_ext, SUPPORTED_VIDEO_EXTENSIONS. cbn [In].
  split_exts; simpl; split; intros; try congruence; intuition congruence.
Qed.

Example mime_upper : mime_from_extension "/photos/a.b/IMG_1.JPG" = Some "image/jpeg"%string.
Proof. reflexivity. Qed.
Example mime_dotfile : mime_from_extension "/photos/.jpg" = None.
Proof. reflexivity. Qed.

End Media.
