(* ===== verification/ByteCodec.v ===== *)
(** Byte strings: big-endian integers and slices.

    A byte is a [Z] below 256 and a byte string a list of them. A slice or read
    that Rust bounds-checks is an [option]; one that panics is a [Panic]. *)
From Stdlib Require Import Ascii String.
From S2P Require Import Prelude.
Local Open Scope Z_scope.

Module Bytes.

Definition is_byte (b : Z) : Prop := 0 <= b < 256.
Notation bytes_ok l := (Forall is_byte l).
Definition ascii_bytes (s : string) : list Z := (fun c => Z.of_nat (nat_of_ascii c)) <$> String.list_ascii_of_string s.
Definition zlen {A} (l : list A) : Z := Z.of_nat (length l).

(** [from_be_bytes] and [to_be_bytes]. *)
Definition from_be (l : list Z) : Z := fold_left (fun acc b => acc * 256 + b) l 0.
Fixpoint to_be (n : nat) (v : Z) : list Z :=
  match n with O => [] | S n => v / 256 ^ Z.of_nat n mod 256 :: to_be n v end.

(** [slice.get(..n)] and the rest after it. *)
Definition split_at {A} (n : Z) (l : list A) : option (list A * list A) :=
  if (0 <=? n) && (n <=? zlen l) then Some (take (Z.to_nat n) l, drop (Z.to_nat n) l) else None.
(** [slice.get(a..b)] and [slice.get(a..)]. *)
Definition get_range {A} (a b : Z) (l : list A) : option (list A) :=
  if (0 <=? a) && (a <=? b) && (b <=? zlen l) then Some (take (Z.to_nat (b - a)) (drop (Z.to_nat a) l)) else None.
Definition get_from {A} (a : Z) (l : list A) : option (list A) :=
  if (0 <=? a) && (a <=? zlen l) then Some (drop (Z.to_nat a) l) else None.
Fixpoint starts_with (prefix l : list Z) : bool :=
  match prefix, l with
  | [], _ => true
  | x :: prefix, y :: l => (x =? y) && starts_with prefix l
  | _ :: _, [] => false
  end.

(** ** Integers *)
Lemma length_to_be n v : length (to_be n v) = n.
Proof. induction n; cbn; congruence. Qed.
Lemma to_be_bytes n v : bytes_ok (to_be n v).
Proof. induction n as [|n IH]; constructor; [|done]. unfold is_byte. apply Z.mod_pos_bound. lia. Qed.
Lemma from_be_acc l acc : fold_left (fun acc b => acc * 256 + b) l acc = acc * 256 ^ zlen l + from_be l.
Proof.
  unfold from_be, zlen. revert acc. induction l as [|b l IH]; intros acc; cbn [fold_left length]; [lia|]. rewrite IH, (IH (0 * 256 + b)).
  rewrite Nat2Z.inj_succ, Z.pow_succ_r by lia. lia.
Qed.
Lemma from_be_cons b l : from_be (b :: l) = b * 256 ^ zlen l + from_be l.
Proof. unfold from_be at 1. cbn [fold_left]. by rewrite from_be_acc. Qed.
Lemma from_be_bound l : bytes_ok l -> 0 <= from_be l < 256 ^ zlen l.
Proof.
  induction 1 as [|b l Hb Hl IH]; [done|]. rewrite from_be_cons. unfold zlen, is_byte in *. cbn [length]. rewrite Nat2Z.inj_succ, Z.pow_succ_r by lia. nia.
Qed.
Lemma from_to_be n v : 0 <= v < 256 ^ Z.of_nat n -> from_be (to_be n v) = v.
Proof.
  assert (H : forall n v, from_be (to_be n v) = v mod 256 ^ Z.of_nat n).
  { clear. intros n v. induction n as [|n IH]; [cbn; by rewrite Z.mod_1_r|]. cbn [to_be]. rewrite from_be_cons, IH. unfold zlen. rewrite length_to_be.
    rewrite Nat2Z.inj_succ, Z.pow_succ_r, (Z.mul_comm 256), Z.rem_mul_r by (apply Z.pow_nonzero || lia || apply Z.pow_pos_nonneg; lia). lia. }
  intros Hv. by rewrite H, Z.mod_small.
Qed.
Lemma to_from_be l : bytes_ok l -> to_be (length l) (from_be l) = l.
Proof.
  assert (Hhigh : forall n k b v, (n <= k)%nat -> to_be n (b * 256 ^ Z.of_nat k + v) = to_be n v).
  { clear. intros n k b v Hn. induction n as [|n IH]; [done|]. cbn [to_be]. rewrite IH by lia. f_equal.
    replace (Z.of_nat k) with (Z.of_nat n + (1 + Z.of_nat (k - n - 1))) by lia. rewrite !Z.pow_add_r, Z.pow_1_r by lia.
    replace (b * (256 ^ Z.of_nat n * (256 * 256 ^ Z.of_nat (k - n - 1))) + v) with (b * 256 ^ Z.of_nat (k - n - 1) * 256 * 256 ^ Z.of_nat n + v) by lia.
    rewrite Z.div_add_l by (apply Z.pow_nonzero; lia). by rewrite Z.add_comm, Z.mod_add. }
  induction 1 as [|b l Hb Hl IH]; [done|]. cbn [length to_be]. rewrite from_be_cons. f_equal.
  - pose proof (from_be_bound l Hl). unfold zlen in *. rewrite Z.div_add_l by lia. rewrite Z.div_small by lia. unfold is_byte in Hb. rewrite Z.mod_small; lia.
  - unfold zlen. by rewrite Hhigh.
Qed.

(** ** Slices *)
Lemma zlen_app {A} (l k : list A) : zlen (l ++ k) = zlen l + zlen k.
Proof. unfold zlen. rewrite length_app. lia. Qed.
Lemma zlen_nonneg {A} (l : list A) : 0 <= zlen l.
Proof. unfold zlen. lia. Qed.
Lemma zlen_to_be n v : zlen (to_be n v) = Z.of_nat n.
Proof. unfold zlen. by rewrite length_to_be. Qed.
Lemma zlen_cons {A} (x : A) l : zlen (x :: l) = 1 + zlen l.
Proof. unfold zlen. cbn [length]. lia. Qed.
Lemma split_at_app {A} n (a b : list A) : zlen a = n -> split_at n (a ++ b) = Some (a, b).
Proof.
  intros <-. unfold split_at. rewrite zlen_app. pose proof (zlen_nonneg a). pose proof (zlen_nonneg b).
  rewrite (proj2 (Z.leb_le 0 _)), (proj2 (Z.leb_le (zlen a) _)) by lia. cbn [andb]. unfold zlen. rewrite Nat2Z.id. by rewrite take_app_length, drop_app_length.
Qed.
Lemma split_at_Some {A} n (l a b : list A) : split_at n l = Some (a, b) <-> l = a ++ b /\ zlen a = n.
Proof.
  split.
  - unfold split_at. destruct (_ && _) eqn:E; [|done]. apply andb_prop in E as [E1 E2]. zbool. intros [= <- <-]. rewrite take_drop. split; [done|].
    unfold zlen in *. rewrite length_take. lia.
  - intros [-> <-]. by apply split_at_app.
Qed.
Lemma split_at_None {A} n (l : list A) : 0 <= n -> split_at n l = None <-> zlen l < n.
Proof.
  intros Hn. unfold split_at. rewrite (proj2 (Z.leb_le 0 n) Hn). cbn [andb]. destruct (n <=? zlen l) eqn:E; zbool; split; try done; lia.
Qed.
Lemma get_range_app {A} a b (x y z : list A) : zlen x = a -> zlen y = b - a -> get_range a b (x ++ y ++ z) = Some y.
Proof.
  intros Ha Hb. unfold get_range. rewrite !zlen_app. pose proof (zlen_nonneg x). pose proof (zlen_nonneg y). pose proof (zlen_nonneg z).
  rewrite (proj2 (Z.leb_le 0 a)), (proj2 (Z.leb_le a b)), (proj2 (Z.leb_le b _)) by lia. cbn [andb]. f_equal.
  unfold zlen in *. replace (Z.to_nat a) with (length x) by lia. rewrite drop_app_length. replace (Z.to_nat (b - a)) with (length y) by lia. by rewrite take_app_length.
Qed.
Lemma get_from_app {A} a (x y : list A) : zlen x = a -> get_from a (x ++ y) = Some y.
Proof.
  intros Ha. unfold get_from. rewrite zlen_app. pose proof (zlen_nonneg x). pose proof (zlen_nonneg y). rewrite (proj2 (Z.leb_le 0 a)), (proj2 (Z.leb_le a _)) by lia.
  cbn [andb]. f_equal. unfold zlen in *. replace (Z.to_nat a) with (length x) by lia. by rewrite drop_app_length.
Qed.
Lemma starts_with_spec p l : starts_with p l = true <-> exists rest, l = p ++ rest.
Proof.
  revert l. induction p as [|x p IH]; intros l; cbn [starts_with app]; [split; [by exists l|done]|]. destruct l as [|y l]; [split; [done|by intros [? ?]]|].
  rewrite andb_true_iff, Z.eqb_eq, IH. split; [intros [-> [r ->]]; by exists r|intros [r [= -> ->]]; split; [done|by exists r]].
Qed.
End Bytes.
