(* ===== verification/ImageSegments.v ===== *)
(** The orientation property of an image file: [core/orientation.rs].

    Rotating a photo rewrites one metadata block of the file, a chunk of a PNG or a
    segment of a JPEG, and leaves every other byte that carries the picture. The
    loops over a file are over its unread rest. *)
From Stdlib Require Import Ascii String.
From S2P Require Import Prelude.
From S2P Require Import ByteCodec.
Local Open Scope Z_scope.

Module Segments.
Import Bytes.

Definition PNG_SIGNATURE : list Z := [137; 80; 78; 71; 13; 10; 26; 10].
Definition EXIF_PREFIX : list Z := [69; 120; 105; 102; 0; 0].
Definition TYPE_EXIF : list Z := [101; 88; 73; 102].
Definition TYPE_IHDR : list Z := [73; 72; 68; 82].
Definition is_jpeg (data : list Z) : bool := starts_with [255; 216] data.
Definition is_png (data : list Z) : bool := starts_with PNG_SIGNATURE data.
(** [AppError::Exif]. *)
Definition Exif (message : string) : AppError := Backend message.

(** ** PNG *)
(** The chunk at the start of the unread data and the data after it; no chunk
    when fewer than twelve bytes are left. *)
Definition png_chunk (rest : list Z) : result (option (list Z * list Z)) :=
  if zlen rest <? 12 then Ok None
  else match split_at (12 + from_be (take 4 rest)) rest with
       | Some (chunk, rest) => Ok (Some (chunk, rest))
       | None => Err (Exif "truncated PNG chunk")
       end.
Definition chunk_type (chunk : list Z) : list Z := take 4 (drop 4 chunk).
Definition chunk_data (chunk : list Z) : list Z := take (length chunk - 12) (drop 8 chunk).
Fixpoint find_chunk (fuel : nat) (rest : list Z) : result (option (list Z)) :=
  match fuel with
  | O => Ok None
  | S fuel =>
      next ← png_chunk rest;
      match next with
      | None => Ok None
      | Some (chunk, rest) => if bool_decide (chunk_type chunk = TYPE_EXIF) then Ok (Some (chunk_data chunk)) else find_chunk fuel rest
      end
  end.
Definition find_png_exif_chunk (data : list Z) : result (option (list Z)) :=
  if is_png data then find_chunk (length data) (drop 8 data) else Ok None.

(** [crc32], with the wrap-around of [u32] written out. *)
Definition crc_bit (crc : Z) : Z :=
  let mask := if Z.testbit crc 0 then 4294967295 else 0 in
  Z.lxor (Z.shiftr crc 1) (Z.land 3988292384 mask).
Definition crc_byte (crc byte : Z) : Z := Nat.iter 8 crc_bit (Z.lxor crc byte).
Definition crc32 (typ data : list Z) : Z := Z.lxor (fold_left crc_byte (typ ++ data) 4294967295) 4294967295.
Definition write_png_chunk (typ data : list Z) : list Z :=
  to_be 4 (zlen data mod 4294967296) ++ typ ++ data ++ to_be 4 (crc32 typ data).
Fixpoint write_chunks (fuel : nat) (tiff rest : list Z) (inserted : bool) : result (list Z * bool) :=
  match fuel with
  | O => Ok ([], inserted)
  | S fuel =>
      next ← png_chunk rest;
      match next with
      | None => Ok ([], inserted)
      | Some (chunk, rest) =>
          if bool_decide (chunk_type chunk = TYPE_EXIF) then write_chunks fuel tiff rest inserted
          else
            let here := bool_decide (chunk_type chunk = TYPE_IHDR) && negb inserted in
            match write_chunks fuel tiff rest (inserted || here) with
            | Ok (out, inserted) => Ok (chunk ++ (if here then write_png_chunk TYPE_EXIF tiff else []) ++ out, inserted)
            | Err e => Err e
            end
      end
  end.
Definition write_png_exif_chunk (data tiff : list Z) : result (list Z) :=
  if is_png data then
    match write_chunks (length data) tiff (drop 8 data) false with
    | Ok (out, inserted) => if inserted then Ok (PNG_SIGNATURE ++ out) else Err (Exif "PNG missing IHDR chunk")
    | Err e => Err e
    end
  else Err (Exif "not a PNG file").

(** ** JPEG *)
Definition exif_segment (tiff : list Z) : list Z :=
  [255; 225] ++ to_be 2 (zlen EXIF_PREFIX + zlen tiff + 2) ++ EXIF_PREFIX ++ tiff.
(** What the loop finds at the start of the unread data. *)
Inductive Segment := Stop | Marker (bytes rest : list Z) | Block (bytes rest : list Z) (is_exif : bool) | Truncated.
Definition jpeg_segment (rest : list Z) : Segment :=
  match rest with
  | prefix :: marker :: hi :: lo :: _ =>
      if negb (prefix =? 255) then Stop
      else if (marker =? 218) || (marker =? 217) then Stop
      else if (marker =? 1) || (208 <=? marker) && (marker <=? 215) then Marker (take 2 rest) (drop 2 rest)
      else
        let len := from_be [hi; lo] in
        match (if len <? 2 then None else split_at (2 + len) rest) with
        | Some (bytes, after) => Block bytes after ((marker =? 225) && starts_with EXIF_PREFIX (drop 4 bytes))
        | None => Truncated
        end
  | _ => Stop
  end.
Fixpoint copy_segments (fuel : nat) (rest : list Z) : result (list Z) :=
  match fuel with
  | O => Ok rest
  | S fuel =>
      match jpeg_segment rest with
      | Stop => Ok rest
      | Marker bytes rest => out ← copy_segments fuel rest; Ok (bytes ++ out)
      | Block bytes rest is_exif => out ← copy_segments fuel rest; Ok (if is_exif then out else bytes ++ out)
      | Truncated => Err (Exif "truncated JPEG segment")
      end
  end.
Definition write_jpeg_exif_segment (data tiff : list Z) : result (list Z) :=
  if is_jpeg data then
    if 65535 <? zlen EXIF_PREFIX + zlen tiff + 2 then Err (Exif "EXIF segment too large for JPEG")
    else
      out ← copy_segments (length data) (drop 2 data);
      Ok (take 2 data ++ exif_segment tiff ++ out)
  else Err (Exif "not a JPEG file").

(** ** Orientations *)
Definition degrees_from_orientation (orientation : Z) : Z :=
  if orientation =? 3 then 180 else if orientation =? 6 then 90 else if orientation =? 8 then 270 else 0.
Definition orientation_from_degrees (degrees : Z) : Z :=
  let d := degrees mod 360 in if d =? 90 then 6 else if d =? 180 then 3 else if d =? 270 then 8 else 1.
(** The orientation [rotate_orientation_in_place] writes. *)
Definition rotated (orientation delta : Z) : Z := orientation_from_degrees ((degrees_from_orientation orientation + delta) mod 360).
(** [read_orientation] of the value of the tag. *)
Definition orientation_of (value : option Z) : Z :=
  match value with Some v => let v := v mod 65536 in if (1 <=? v) && (v <=? 8) then v else 1 | None => 1 end.
(** [apply_orientation_to_pixbuf] over the image library's turns and flips, which
    fail when memory runs out. *)
Inductive PixbufRotation := Clockwise | Upsidedown | Counterclockwise.
Section Turns.
Context {Pixbuf : Type} (rotate_simple : PixbufRotation -> Pixbuf -> option Pixbuf) (flip : bool -> Pixbuf -> option Pixbuf).
Definition apply_orientation_to_pixbuf (pb : Pixbuf) (orientation : Z) : Pixbuf :=
  default pb
    (if orientation =? 2 then flip true pb
     else if orientation =? 3 then rotate_simple Upsidedown pb
     else if orientation =? 4 then flip false pb
     else if orientation =? 5 then p ← rotate_simple Clockwise pb; flip true p
     else if orientation =? 6 then rotate_simple Clockwise pb
     else if orientation =? 7 then p ← rotate_simple Counterclockwise pb; flip true p
     else if orientation =? 8 then rotate_simple Counterclockwise pb
     else Some pb).
End Turns.

(** ** Chunks *)
(** A chunk: its length field counts its data, which is not the type. *)
Definition well_formed (chunk : list Z) : Prop := 12 <= zlen chunk /\ zlen chunk = 12 + from_be (take 4 chunk).
Lemma png_chunk_app chunk rest : well_formed chunk -> png_chunk (chunk ++ rest) = Ok (Some (chunk, rest)).
Proof.
  intros [H1 H2]. unfold png_chunk. rewrite zlen_app. pose proof (zlen_nonneg rest). rewrite (proj2 (Z.ltb_ge _ 12)) by lia.
  rewrite take_app_le by (unfold zlen in H1; lia). rewrite split_at_app; [done|lia].
Qed.
Lemma png_chunk_Some rest chunk after : png_chunk rest = Ok (Some (chunk, after)) -> bytes_ok rest -> rest = chunk ++ after /\ well_formed chunk.
Proof.
  unfold png_chunk. destruct (zlen rest <? 12) eqn:E; [done|]. zbool. destruct (split_at _ rest) as [[a b]|] eqn:Hs; [|done]. intros [= <- <-] Hok.
  apply split_at_Some in Hs as [-> Hl]. split; [done|]. assert (Hb : 0 <= from_be (take 4 (a ++ b))).
  { apply from_be_bound, Forall_take, Hok. }
  assert (H12 : 12 <= zlen a) by lia. rewrite take_app_le in Hl by (unfold zlen in H12; lia). done.
Qed.

(** The chunks of a file, and what rewriting makes of them. *)
Fixpoint chunks (fuel : nat) (rest : list Z) : result (list (list Z)) :=
  match fuel with
  | O => Ok []
  | S fuel =>
      match png_chunk rest with
      | Ok (Some (chunk, rest)) => match chunks fuel rest with Ok cs => Ok (chunk :: cs) | Err e => Err e end
      | Ok None => Ok []
      | Err e => Err e
      end
  end.
Definition is_exif (chunk : list Z) : bool := bool_decide (chunk_type chunk = TYPE_EXIF).
Definition is_ihdr (chunk : list Z) : bool := bool_decide (chunk_type chunk = TYPE_IHDR).
Fixpoint place (exif : list Z) (cs : list (list Z)) (inserted : bool) : list (list Z) :=
  match cs with
  | [] => []
  | c :: cs =>
      if is_exif c then place exif cs inserted
      else let here := is_ihdr c && negb inserted in (c :: if here then [exif] else []) ++ place exif cs (inserted || here)
  end.
Lemma ihdr_not_exif c : is_ihdr c = true -> is_exif c = false.
Proof. unfold is_ihdr, is_exif. intros E%bool_decide_eq_true. rewrite E. done. Qed.
Lemma write_chunks_spec fuel tiff rest inserted : write_chunks fuel tiff rest inserted =
  match chunks fuel rest with
  | Ok cs => Ok (concat (place (write_png_chunk TYPE_EXIF tiff) cs inserted), inserted || existsb is_ihdr cs)
  | Err e => Err e
  end.
Proof.
  revert rest inserted. induction fuel as [|fuel IH]; intros rest inserted; cbn [write_chunks chunks]; [by rewrite orb_false_r|].
  destruct (png_chunk rest) as [[[c after]|]|e]; cbn [mbind result_bind]; [|by rewrite orb_false_r|done].
  change (bool_decide (chunk_type c = TYPE_EXIF)) with (is_exif c). change (bool_decide (chunk_type c = TYPE_IHDR)) with (is_ihdr c).
  destruct (is_exif c) eqn:Ee.
  - rewrite IH. destruct (chunks fuel after) as [cs|]; [|done]. cbn [place existsb]. rewrite Ee. destruct (is_ihdr c) eqn:Ei; [|done]. by rewrite ihdr_not_exif in Ee.
  - rewrite IH. destruct (chunks fuel after) as [cs|]; [|done]. cbn [place existsb]. rewrite Ee. f_equal. f_equal.
    + destruct (is_ihdr c && negb inserted); cbn [concat app]; by rewrite ?app_assoc.
    + by destruct (is_ihdr c), inserted.
Qed.
Lemma chunks_concat fuel cs tail : Forall well_formed cs -> zlen tail < 12 -> (length cs <= fuel)%nat -> chunks fuel (concat cs ++ tail) = Ok cs.
Proof.
  intros Hcs Ht. revert fuel. induction Hcs as [|c cs Hc Hcs IH]; intros fuel Hf; cbn [length] in Hf.
  - destruct fuel as [|fuel]; [done|]. cbn [chunks concat app]. unfold png_chunk. by rewrite (proj2 (Z.ltb_lt _ _) Ht).
  - destruct fuel as [|fuel]; [lia|]. cbn [chunks concat]. rewrite <- app_assoc, png_chunk_app by done. rewrite IH by lia. done.
Qed.
Lemma chunks_wf fuel rest cs : bytes_ok rest -> chunks fuel rest = Ok cs -> Forall well_formed cs.
Proof.
  revert rest cs. induction fuel as [|fuel IH]; intros rest cs Hok; cbn [chunks]; [by intros [= <-]|].
  destruct (png_chunk rest) as [[[c after]|]|e] eqn:E; [|by intros [= <-]|done]. apply png_chunk_Some in E as [-> Hc]; [|done].
  apply Forall_app in Hok as [_ Hok]. destruct (chunks fuel after) as [cs'|] eqn:Ec; [|done]. intros [= <-]. constructor; [done|]. by eapply IH.
Qed.
Lemma length_chunks cs : Forall well_formed cs -> (length cs <= length (concat cs))%nat.
Proof. induction 1 as [|c cs [Hc _] _ IH]; [done|]. cbn [concat length]. rewrite length_app. unfold zlen in Hc. lia. Qed.
Lemma find_chunk_spec fuel rest cs : chunks fuel rest = Ok cs -> find_chunk fuel rest = Ok (chunk_data <$> List.find is_exif cs).
Proof.
  revert rest cs. induction fuel as [|fuel IH]; intros rest cs; cbn [chunks find_chunk]; [by intros [= <-]|].
  destruct (png_chunk rest) as [[[c after]|]|e]; cbn [mbind result_bind]; [|by intros [= <-]|done].
  destruct (chunks fuel after) as [cs'|] eqn:Ec; [|done]. intros [= <-]. cbn [List.find]. change (bool_decide (chunk_type c = TYPE_EXIF)) with (is_exif c).
  destruct (is_exif c); [done|by apply IH].
Qed.
(** The chunk the rewrite inserts. *)
Lemma written_chunk typ data : length typ = 4%nat -> zlen data < 4294967296 ->
  well_formed (write_png_chunk typ data) /\ chunk_type (write_png_chunk typ data) = typ /\ chunk_data (write_png_chunk typ data) = data.
Proof.
  intros Ht Hd. pose proof (zlen_nonneg data) as H0. unfold write_png_chunk. rewrite Z.mod_small by lia.
  assert (Hlen : zlen (to_be 4 (zlen data) ++ typ ++ data ++ to_be 4 (crc32 typ data)) = 12 + zlen data).
  { rewrite !zlen_app, !zlen_to_be. unfold zlen at 1. rewrite Ht. lia. }
  split_and!.
  - split; [lia|]. rewrite Hlen, take_app_length' by (symmetry; apply length_to_be). by rewrite from_to_be.
  - unfold chunk_type. rewrite drop_app_length' by (symmetry; apply length_to_be). by rewrite take_app_length'.
  - unfold chunk_data. rewrite !length_app, !length_to_be, Ht. replace (4 + (4 + (length data + 4)) - 12)%nat with (length data) by lia.
    replace 8%nat with (4 + 4)%nat by lia. rewrite <- drop_drop, drop_app_length', drop_app_length' by (done || (symmetry; apply length_to_be)). by rewrite take_app_length.
Qed.
Lemma place_wf exif cs i : well_formed exif -> Forall well_formed cs -> Forall well_formed (place exif cs i).
Proof.
  intros He Hcs. revert i. induction Hcs as [|c cs Hc _ IH]; intros i; cbn [place]; [constructor|]. destruct (is_exif c); [apply IH|].
  destruct (is_ihdr c && negb i); cbn [app]; [by do 2 (constructor; [done|])|by constructor].
Qed.
Lemma place_twice e1 e2 cs i : is_exif e1 = true -> place e2 (place e1 cs i) i = place e2 cs i.
Proof.
  intros He. revert i. induction cs as [|c cs IH]; intros i; cbn [place]; [done|]. destruct (is_exif c) eqn:Ec; [done|].
  destruct (is_ihdr c && negb i) eqn:Eh; cbn [app place]; rewrite Ec, Eh; cbn [app]; [rewrite He|]; by rewrite IH.
Qed.
Lemma place_picture e cs i : is_exif e = true -> base.filter (fun c => is_exif c = false) (place e cs i) = base.filter (fun c => is_exif c = false) cs.
Proof.
  intros He. revert i. induction cs as [|c cs IH]; intros i; cbn [place]; [done|]. destruct (is_exif c) eqn:Ec.
  - by rewrite filter_cons_False by congruence.
  - destruct (is_ihdr c && negb i); cbn [app]; rewrite !(filter_cons_True _ c), ?(filter_cons_False _ e), IH by congruence; done.
Qed.
Lemma place_found e cs : is_exif e = true -> existsb is_ihdr cs = true -> List.find is_exif (place e cs false) = Some e.
Proof.
  intros He. induction cs as [|c cs IH]; [done|]. cbn [existsb place]. destruct (is_exif c) eqn:Ec.
  - destruct (is_ihdr c) eqn:Ei; [by rewrite ihdr_not_exif in Ec|]. apply IH.
  - destruct (is_ihdr c) eqn:Ei; cbn [andb negb orb app List.find]; rewrite Ec; cbn [List.find]; [by rewrite He|by apply IH].
Qed.
Lemma place_ihdr e cs : is_exif e = true -> existsb is_ihdr (place e cs false) = existsb is_ihdr cs.
Proof.
  intros He. assert (Hn : is_ihdr e = false). { destruct (is_ihdr e) eqn:E; [|done]. by rewrite ihdr_not_exif in He. }
  generalize false. induction cs as [|c cs IH]; intros i; cbn [place existsb]; [done|]. destruct (is_exif c) eqn:Ec.
  - rewrite IH. destruct (is_ihdr c) eqn:Ei; [by rewrite ihdr_not_exif in Ec|done].
  - destruct (is_ihdr c && negb i); cbn [app existsb]; rewrite ?Hn; cbn [orb]; by rewrite IH.
Qed.
(** The chunks that are not metadata. *)
Definition picture (data : list Z) : result (list (list Z)) :=
  match chunks (length data) (drop 8 data) with Ok cs => Ok (base.filter (fun c => is_exif c = false) cs) | Err e => Err e end.

Lemma png_prefix data : is_png data = true -> exists rest, data = PNG_SIGNATURE ++ rest.
Proof. apply starts_with_spec. Qed.
(** Rewriting the metadata of a PNG is a lawful update. When it succeeds the
    metadata read back is exactly what was written, every other chunk is kept in
    its order and byte for byte, and writing again has the effect of only the
    last write. *)
Theorem png_exif_laws data tiff out : bytes_ok data -> zlen tiff < 4294967296 -> write_png_exif_chunk data tiff = Ok out ->
  find_png_exif_chunk out = Ok (Some tiff) /\ picture out = picture data /\
  forall tiff', write_png_exif_chunk out tiff' = write_png_exif_chunk data tiff'.
Proof.
  intros Hok Hl Hw. unfold write_png_exif_chunk in Hw. destruct (is_png data) eqn:Hp; [|done]. rewrite write_chunks_spec in Hw.
  destruct (chunks (length data) (drop 8 data)) as [cs|e] eqn:Hcs; [|done]. cbn [orb] in Hw. destruct (existsb is_ihdr cs) eqn:Hi; [|done].
  assert (Hout : out = PNG_SIGNATURE ++ concat (place (write_png_chunk TYPE_EXIF tiff) cs false)) by congruence. clear Hw.
  destruct (written_chunk TYPE_EXIF tiff eq_refl Hl) as (Hwf & Hty & Hda). set (e := write_png_chunk TYPE_EXIF tiff) in *.
  assert (He : is_exif e = true) by (unfold is_exif; by rewrite Hty).
  pose proof (chunks_wf _ _ _ (Forall_drop _ _ _ Hok) Hcs) as Hall. pose proof (place_wf e cs false Hwf Hall) as Hall'.
  assert (Hcs' : chunks (length out) (drop 8 out) = Ok (place e cs false)).
  { rewrite Hout, drop_app_length' by done. rewrite <- (app_nil_r (concat _)) at 2. apply chunks_concat; [done|done|]. rewrite length_app. pose proof (length_chunks _ Hall'). lia. }
  assert (Hp' : is_png out = true) by (rewrite Hout; apply starts_with_spec; by eexists).
  split_and!.
  - unfold find_png_exif_chunk. rewrite Hp', (find_chunk_spec _ _ _ Hcs'), place_found by done. change (Ok (Some (chunk_data e)) = Ok (Some tiff)). by rewrite Hda.
  - unfold picture. by rewrite Hcs', Hcs, place_picture.
  - intros tiff'. unfold write_png_exif_chunk. rewrite Hp', Hp, !write_chunks_spec, Hcs', Hcs, place_ihdr, place_twice by done. done.
Qed.

(** ** Segments *)
(** A segment as it is in the file, with whether it is metadata. *)
Definition piece : Type := list Z * bool.
Definition well_formed_piece (p : piece) : Prop :=
  forall rest, (4 <= length (p.1 ++ rest))%nat -> jpeg_segment (p.1 ++ rest) = (if length p.1 =? 2 then Marker p.1 rest else Block p.1 rest p.2)%nat.
Fixpoint pieces (fuel : nat) (rest : list Z) : result (list piece * list Z) :=
  match fuel with
  | O => Ok ([], rest)
  | S fuel =>
      match jpeg_segment rest with
      | Stop => Ok ([], rest)
      | Marker bytes rest => '(ps, tail) ← pieces fuel rest; Ok ((bytes, false) :: ps, tail)
      | Block bytes rest is_exif => '(ps, tail) ← pieces fuel rest; Ok ((bytes, is_exif) :: ps, tail)
      | Truncated => Err (Exif "truncated JPEG segment")
      end
  end.
Definition joined (ps : list piece) (tail : list Z) : list Z := concat ps.*1 ++ tail.
Definition kept (ps : list piece) : list piece := base.filter (fun p : piece => p.2 = false) ps.
(** The metadata blocks of a JPEG, and everything else of it. *)
Definition jpeg_exif (data : list Z) : result (list (list Z)) :=
  match pieces (length data) (drop 2 data) with
  | Ok (ps, _) => Ok ((fun p : piece => drop 10 p.1) <$> base.filter (fun p : piece => p.2 = true) ps)
  | Err e => Err e
  end.
Definition jpeg_picture (data : list Z) : result (list Z) :=
  match pieces (length data) (drop 2 data) with Ok (ps, tail) => Ok (joined (kept ps) tail) | Err e => Err e end.

Lemma short_stops rest : (length rest < 4)%nat -> jpeg_segment rest = Stop.
Proof. destruct rest as [|? [|? [|? [|? ?]]]]; cbn; (done || lia). Qed.
Lemma marker_piece bytes rest after : jpeg_segment rest = Marker bytes after -> rest = bytes ++ after /\ length bytes = 2%nat /\ well_formed_piece (bytes, false).
Proof.
  unfold well_formed_piece. destruct rest as [|a [|m [|hi [|lo body]]]]; try done. cbn [jpeg_segment]. destruct (negb (a =? 255)) eqn:Ea; [done|]. destruct ((m =? 218) || (m =? 217)) eqn:Em; [done|].
  destruct ((m =? 1) || _) eqn:E1; [|by destruct (if _ <? 2 then None else _) as [[? ?]|]]. intros [= <- <-]. split_and!; [done..|]. intros rest Hl. cbn [fst take app length] in *.
  destruct rest as [|x [|y rest]]; cbn [length] in Hl; [lia..|]. cbn [jpeg_segment Nat.eqb]. by rewrite Ea, Em, E1.
Qed.
Lemma block_piece bytes rest after is_exif : jpeg_segment rest = Block bytes after is_exif -> bytes_ok rest ->
  rest = bytes ++ after /\ (4 <= length bytes)%nat /\ well_formed_piece (bytes, is_exif).
Proof.
  unfold well_formed_piece. destruct rest as [|a [|m [|hi [|lo body]]]]; try done. cbn [jpeg_segment]. destruct (negb (a =? 255)) eqn:Ea; [done|]. destruct ((m =? 218) || (m =? 217)) eqn:Em; [done|].
  destruct ((m =? 1) || _) eqn:E1; [done|]. destruct (from_be [hi; lo] <? 2) eqn:E2; [done|]. destruct (split_at _ _) as [[bs rs]|] eqn:Es; [|done]. intros [= <- <- <-] Hok.
  apply split_at_Some in Es as [Hr Hlen]. apply Z.ltb_ge in E2. assert (H4 : (4 <= length bs)%nat) by (unfold zlen in Hlen; lia).
  destruct bs as [|b1 [|b2 [|b3 [|b4 bs]]]]; cbn [length] in H4; try lia. cbn [app] in Hr. assert (b1 = a /\ b2 = m /\ b3 = hi /\ b4 = lo) as (-> & -> & -> & ->) by (split_and!; congruence).
  split_and!; [done|cbn; lia|]. intros rest _. cbn [fst snd app length Nat.eqb]. cbn [jpeg_segment]. rewrite Ea, Em, E1, (proj2 (Z.ltb_ge _ 2)) by lia.
  change (a :: m :: hi :: lo :: bs ++ rest) with ((a :: m :: hi :: lo :: bs) ++ rest). by rewrite split_at_app.
Qed.
Lemma pieces_shape fuel rest ps tail : bytes_ok rest -> (length rest <= fuel)%nat -> pieces fuel rest = Ok (ps, tail) ->
  rest = joined ps tail /\ Forall well_formed_piece ps /\ Forall (fun p : piece => (2 <= length p.1)%nat) ps /\ jpeg_segment tail = Stop.
Proof.
  unfold joined. revert rest ps tail. induction fuel as [|fuel IH]; intros rest ps tail Hok Hf; cbn [pieces].
  - destruct rest; cbn [length] in Hf; [|lia]. by intros [= <- <-].
  - destruct (jpeg_segment rest) as [|bytes after|bytes after ex|] eqn:E; [intros [= <- <-]; done| | |done].
    + apply marker_piece in E as (-> & Hl & Hw). apply Forall_app in Hok as [_ Hok]. rewrite length_app in Hf.
      destruct (pieces fuel after) as [[ps' tail']|] eqn:Ep; [|done]. cbn. intros [= <- <-]. destruct (IH _ _ _ Hok ltac:(lia) Ep) as (-> & ? & ? & ?).
      cbn [fmap list_fmap concat fst]. rewrite app_assoc. split_and!; [done|by constructor|constructor; [cbn; lia|done]|done].
    + apply block_piece in E as (-> & Hl & Hw); [|done]. apply Forall_app in Hok as [_ Hok]. rewrite length_app in Hf.
      destruct (pieces fuel after) as [[ps' tail']|] eqn:Ep; [|done]. cbn. intros [= <- <-]. destruct (IH _ _ _ Hok ltac:(lia) Ep) as (-> & ? & ? & ?).
      cbn [fmap list_fmap concat fst]. rewrite app_assoc. split_and!; [done|by constructor|constructor; [cbn; lia|done]|done].
Qed.
Lemma copy_segments_spec fuel rest : copy_segments fuel rest = match pieces fuel rest with Ok (ps, tail) => Ok (joined (kept ps) tail) | Err e => Err e end.
Proof.
  unfold joined, kept. revert rest. induction fuel as [|fuel IH]; intros rest; cbn [copy_segments pieces]; [done|].
  destruct (jpeg_segment rest) as [|bytes after|bytes after ex|]; [done| | |done]; rewrite IH; destruct (pieces fuel after) as [[ps tail]|]; try done; cbn.
  - by rewrite app_assoc.
  - destruct ex; cbn; [done|by rewrite app_assoc].
Qed.
(** Reading back what was copied finds no metadata, and joins to the same bytes. *)
Lemma pieces_joined ps tail fuel : Forall well_formed_piece ps -> Forall (fun p : piece => (2 <= length p.1)%nat) ps -> jpeg_segment tail = Stop ->
  Forall (fun p : piece => p.2 = false) ps -> (length (joined ps tail) <= fuel)%nat ->
  exists ps' tail', pieces fuel (joined ps tail) = Ok (ps', tail') /\ joined ps' tail' = joined ps tail /\ Forall (fun p : piece => p.2 = false) ps'.
Proof.
  intros Hw Hl Ht Hn. revert fuel. induction ps as [|[bytes ex] ps IH]; intros fuel Hf.
  - exists [], tail. unfold joined in *. cbn [fmap list_fmap concat app] in *. destruct fuel as [|fuel]; [done|]. cbn [pieces]. by rewrite Ht.
  - apply Forall_cons in Hw as [Hp Hw]. apply Forall_cons in Hl as [Hb Hl]. apply Forall_cons in Hn as [He Hn]. cbn [snd fst] in *. subst ex.
    change (joined ((bytes, false) :: ps) tail) with ((bytes ++ concat ps.*1) ++ tail) in *. rewrite <- app_assoc in *. fold (joined ps tail) in *.
    destruct (decide (4 <= length (bytes ++ joined ps tail))%nat) as [H4|H4].
    + destruct fuel as [|fuel]; [lia|]. rewrite length_app in Hf. destruct (IH Hw Hl Hn fuel ltac:(lia)) as (ps' & tail' & Hps & Hj & Hall).
      exists ((bytes, false) :: ps'), tail'. cbn [pieces]. specialize (Hp (joined ps tail) H4). cbn [fst snd] in Hp. rewrite Hp. split_and!.
      * destruct (length bytes =? 2)%nat; rewrite Hps; done.
      * unfold joined at 1. cbn [fmap list_fmap concat fst]. rewrite <- app_assoc. fold (joined ps' tail'). by rewrite Hj.
      * by constructor.
    + exists [], (bytes ++ joined ps tail). split_and!; [|done|done]. destruct fuel as [|fuel]; cbn [pieces]; [done|]. rewrite short_stops by lia. done.
Qed.
Lemma exif_segment_piece tiff rest : zlen EXIF_PREFIX + zlen tiff + 2 <= 65535 -> jpeg_segment (exif_segment tiff ++ rest) = Block (exif_segment tiff) rest true.
Proof.
  intros Hl. pose proof (zlen_nonneg tiff). change (zlen EXIF_PREFIX) with 6 in *. unfold exif_segment. change (zlen EXIF_PREFIX) with 6.
  set (n := 6 + zlen tiff + 2) in *. assert (Hfb : from_be (to_be 2 n) = n) by (apply from_to_be; cbn; lia). cbn [to_be] in *. set (hi := (n / 256 ^ Z.of_nat 1) mod 256) in *. set (lo := (n / 256 ^ Z.of_nat 0) mod 256) in *.
  cbn [app]. unfold jpeg_segment. cbn [Z.eqb Pos.eqb negb orb andb Z.leb Z.compare Pos.compare Pos.compare_cont]. rewrite Hfb, (proj2 (Z.ltb_ge _ 2)) by lia.
  change (255 :: 225 :: hi :: lo :: (EXIF_PREFIX ++ tiff) ++ rest) with ((255 :: 225 :: hi :: lo :: EXIF_PREFIX ++ tiff) ++ rest).
  rewrite split_at_app by (rewrite !zlen_cons, zlen_app; change (zlen EXIF_PREFIX) with 6; lia). done.
Qed.
Lemma bytes_cut n data a : bytes_ok data -> starts_with a data = true -> length a = n -> exists rest, data = a ++ rest /\ drop n data = rest /\ bytes_ok rest.
Proof. intros Hok [rest ->]%starts_with_spec <-. exists rest. rewrite drop_app_length. split_and!; [done..|]. by apply Forall_app in Hok as [_ Hok]. Qed.
Lemma pieces_exif fuel tiff rest : zlen EXIF_PREFIX + zlen tiff + 2 <= 65535 -> pieces (S fuel) (exif_segment tiff ++ rest) =
  match pieces fuel rest with Ok (ps, tail) => Ok ((exif_segment tiff, true) :: ps, tail) | Err e => Err e end.
Proof. intros H. cbn [pieces]. rewrite exif_segment_piece by done. by destruct (pieces fuel rest) as [[? ?]|]. Qed.
Lemma kept_Forall (P : piece -> Prop) ps : Forall P ps -> Forall P (kept ps).
Proof. rewrite !Forall_forall. intros H p [_ Hp]%list_elem_of_filter. by apply H. Qed.
Lemma kept_not_exif ps : Forall (fun p : piece => p.2 = false) (kept ps).
Proof. rewrite Forall_forall. by intros p [Hp _]%list_elem_of_filter. Qed.
Lemma kept_all ps : Forall (fun p : piece => p.2 = false) ps -> kept ps = ps /\ base.filter (fun p : piece => p.2 = true) ps = [].
Proof. unfold kept. induction 1 as [|p ps Hp _ [IH1 IH2]]; [done|]. rewrite filter_cons_True by done. rewrite (filter_cons_False _ p) by congruence. by rewrite IH1, IH2. Qed.

(** ** Turning the picture *)
(** The orientations without a mirror are the quarter turns. *)
Definition quarters (orientation : Z) : Z := degrees_from_orientation orientation / 90.
Definition upright (orientation : Z) : Prop := orientation ∈ [1; 6; 3; 8].
Lemma rotated_quarters o k : upright o -> upright (rotated o (90 * k)) /\ quarters (rotated o (90 * k)) = (quarters o + k) mod 4.
Proof.
  intros Ho. unfold rotated, orientation_from_degrees. rewrite Z.mod_mod by done.
  assert (E : (degrees_from_orientation o + 90 * k) mod 360 = 90 * ((quarters o + k) mod 4)).
  { replace (degrees_from_orientation o) with (90 * quarters o).
    - change 360 with (90 * 4). rewrite <- Zmult_mod_distr_l. f_equal. lia.
    - unfold upright in Ho. set_unfold in Ho. by destruct Ho as [->|[->|[->|[->|[]]]]]. }
  rewrite E. pose proof (Z.mod_pos_bound (quarters o + k) 4 eq_refl) as Hb. set (q := (quarters o + k) mod 4) in *.
  assert (q = 0 \/ q = 1 \/ q = 2 \/ q = 3) as [->|[->|[->| -> ]]] by lia; cbn; split; (done || (unfold upright; set_solver)).
Qed.
Lemma upright_quarters o o' : upright o -> upright o' -> quarters o = quarters o' -> o = o'.
Proof. unfold upright. intros Ho Ho'. set_unfold in Ho. set_unfold in Ho'. by destruct Ho as [->|[->|[->|[->|[]]]]], Ho' as [->|[->|[->|[->|[]]]]]. Qed.
Section TurnLaws.
Context {Pixbuf : Type} (rotate_simple : PixbufRotation -> Pixbuf -> option Pixbuf) (flip : bool -> Pixbuf -> option Pixbuf) (cw : Pixbuf -> Pixbuf).
Hypothesis clockwise_turns : forall pb, rotate_simple Clockwise pb = Some (cw pb).
Hypothesis upside_down_turns : forall pb, rotate_simple Upsidedown pb = Some (cw (cw pb)).
Hypothesis counterclockwise_turns : forall pb, rotate_simple Counterclockwise pb = Some (cw (cw (cw pb))).
Hypothesis full_turn : forall pb, cw (cw (cw (cw pb))) = pb.
Notation shown := (apply_orientation_to_pixbuf rotate_simple flip).
Lemma shown_quarters pb o : upright o -> shown pb o = Nat.iter (Z.to_nat (quarters o)) cw pb.
Proof.
  intros Ho. unfold upright in Ho. set_unfold in Ho. unfold apply_orientation_to_pixbuf.
  destruct Ho as [->|[->|[->|[->|[]]]]]; cbn; by rewrite ?clockwise_turns, ?upside_down_turns, ?counterclockwise_turns.
Qed.
Lemma turns_mod (a b : nat) pb : (a mod 4 = b mod 4)%nat -> Nat.iter a cw pb = Nat.iter b cw pb.
Proof.
  assert (H : forall n, Nat.iter n cw pb = Nat.iter (n mod 4) cw pb).
  { intros n. transitivity (Nat.iter (n mod 4 + 4 * (n / 4)) cw pb); [f_equal; pose proof (Nat.div_mod_eq n 4); lia|].
    rewrite Nat.iter_add. f_equal. induction (n / 4)%nat as [|q IH]; [done|].
    replace (4 * S q)%nat with (4 + 4 * q)%nat by lia. rewrite Nat.iter_add, IH. apply full_turn. }
  intros E. by rewrite (H a), (H b), E.
Qed.
(** C40: Rotating an upright photo by [k] quarter turns, [k] negative for the other
    direction, turns what the viewer shows by exactly [k] quarter turns, and
    leaves it upright, so that the rotations add up. *)
Theorem rotation_turns_picture pb o k : upright o -> let o' := rotated o (90 * k) in
  upright o' /\ shown pb o' = Nat.iter (Z.to_nat (k mod 4)) cw (shown pb o) /\ forall j, rotated o' (90 * j) = rotated o (90 * (k + j)).
Proof.
  intros Ho o'. destruct (rotated_quarters o k Ho) as [Hu Hq]. fold o' in Hu, Hq. split; [done|].
  pose proof (Z.mod_pos_bound k 4 eq_refl). assert (0 <= quarters o < 4).
  { unfold upright in Ho. set_unfold in Ho. destruct Ho as [->|[->|[->|[->|[]]]]]; by cbn. }
  split.
  - rewrite !shown_quarters, Hq, <- Nat.iter_add by done. apply turns_mod. pose proof (Z.mod_pos_bound (quarters o + k) 4 eq_refl). apply Nat2Z.inj.
    rewrite !Nat2Z.inj_mod, Nat2Z.inj_add, !Z2Nat.id by lia. change (Z.of_nat 4) with 4. rewrite Z.mod_mod, Z.add_mod_idemp_l by done. f_equal. lia.
  - intros j. destruct (rotated_quarters o' j Hu) as [Hu1 H1], (rotated_quarters o (k + j) Ho) as [Hu2 H2]. rewrite Hq in H1.
    apply upright_quarters; [done..|]. rewrite H1, H2, Z.add_mod_idemp_l by done. f_equal. lia.
Qed.
End TurnLaws.
(** A mirrored orientation is read as upright: rotating a mirrored photo, even by
    nothing, drops its mirror. *)
Lemma rotation_drops_mirror o k : o ∈ [2; 4; 5; 7] -> rotated o (90 * k) = rotated 1 (90 * k).
Proof. intros Ho. set_unfold in Ho. by destruct Ho as [->|[->|[->|[->|[]]]]]. Qed.

(** ** Samples *)
(** The checksum of the algorithm's published test input, "123456789". *)
Example crc32_check : crc32 [49; 50; 51; 52] [53; 54; 55; 56; 57] = 3421780262.
Proof. vm_compute. reflexivity. Qed.
Definition sample_ihdr : list Z := write_png_chunk TYPE_IHDR [0; 0; 0; 1; 0; 0; 0; 1; 8; 2; 0; 0; 0].
Definition sample_png : list Z := PNG_SIGNATURE ++ sample_ihdr ++ write_png_chunk TYPE_EXIF [77; 77; 0; 42] ++ write_png_chunk [73; 69; 78; 68] [].
Definition sample_jpeg : list Z := [255; 216; 255; 224; 0; 4; 1; 2] ++ exif_segment [77; 77; 0; 42] ++ [255; 218; 0; 2; 17; 255; 217].
Lemma sample_bytes l : forallb (fun b => (0 <=? b) && (b <? 256)) l = true -> bytes_ok l.
Proof. intros H. apply Forall_forall. intros b Hb. rewrite forallb_forall in H. apply list_elem_of_In, H, andb_prop in Hb as [? ?]. zbool. unfold is_byte. lia. Qed.
Lemma png_exif_laws_witness : exists out, write_png_exif_chunk sample_png [73; 73; 42; 0] = Ok out /\ find_png_exif_chunk out = Ok (Some [73; 73; 42; 0]) /\
  picture out = Ok [sample_ihdr; write_png_chunk [73; 69; 78; 68] []] /\ write_png_exif_chunk out [1] = write_png_exif_chunk sample_png [1].
Proof.
  eexists. split; [vm_compute; reflexivity|]. edestruct (png_exif_laws sample_png [73; 73; 42; 0]) as (H1 & H2 & H3).
  - apply sample_bytes. vm_compute. reflexivity.
  - reflexivity.
  - vm_compute. reflexivity.
  - split; [exact H1|]. split; [|apply H3]. etransitivity; [exact H2|]. vm_compute. reflexivity.
Defined.
(** Two rows of two pixels. *)
Definition Four : Type := Z * Z * Z * Z.
Definition cw4 (p : Four) : Four := let '(a, b, c, d) := p in (c, a, d, b).
Definition rotate4 (r : PixbufRotation) (p : Four) : option Four :=
  match r with Clockwise => Some (cw4 p) | Upsidedown => Some (cw4 (cw4 p)) | Counterclockwise => Some (cw4 (cw4 (cw4 p))) end.
Definition flip4 (horizontal : bool) (p : Four) : option Four := let '(a, b, c, d) := p in Some (if horizontal then (b, a, d, c) else (c, d, a, b)).
Lemma rotation_turns_picture_witness : upright 8 /\ rotated 8 (90 * 2) = 6 /\
  apply_orientation_to_pixbuf rotate4 flip4 (1, 2, 3, 4) (rotated 8 (90 * 2)) = (3, 1, 4, 2) /\ rotated (rotated 8 (90 * 2)) (90 * -1) = rotated 8 90.
Proof.
  assert (Hu : upright 8) by (unfold upright; set_solver).
  destruct (rotation_turns_picture rotate4 flip4 cw4 (fun _ => eq_refl) (fun _ => eq_refl) (fun _ => eq_refl) ltac:(by intros [[[? ?] ?] ?]) (1, 2, 3, 4) 8 2 Hu) as (_ & H & Hj).
  split_and!; [exact Hu|reflexivity|rewrite H; reflexivity|exact (Hj (-1))].
Defined.
End Segments.
