(* ===== verification/Heic.v ===== *)
(** HEIC containers: the box parser of [core/metadata.rs].

    The parser reads untrusted bytes. Every read that Rust checks is an [option]; the
    three places of the extraction that index without a check or add without one are
    an [Outcome] with a panic, an addition wrapping or panicking with the build's
    overflow checks. *)
From Stdlib Require Import Ascii String.
From S2P Require Import Prelude.
From S2P Require Import ByteCodec.
Local Open Scope Z_scope.

Module Heic.
Import Bytes.

(** ** The cursor *)
(** A [Cur] is its unread slice; a read returns what is left. *)
Definition u16 (cur : list Z) : option (Z * list Z) := '(s, cur) ← split_at 2 cur; Some (from_be s, cur).
Definition u32 (cur : list Z) : option (Z * list Z) := '(s, cur) ← split_at 4 cur; Some (from_be s, cur).
Definition u64 (cur : list Z) : option (Z * list Z) := '(s, cur) ← split_at 8 cur; Some (from_be s, cur).
Definition fullbox (cur : list Z) : option ((Z * Z) * list Z) :=
  '(v, cur) ← u32 cur; Some ((Z.shiftr v 24, Z.land v 16777215), cur).
Definition count (v0 : bool) (cur : list Z) : option (Z * list Z) := if v0 then u16 cur else u32 cur.
Definition id (v0 : bool) (cur : list Z) : option (Z * list Z) := if v0 then u16 cur else u32 cur.
Definition sized (size : Z) (cur : list Z) : option (Z * list Z) :=
  if size =? 0 then Some (0, cur) else if size =? 4 then u32 cur else if size =? 8 then u64 cur else None.
(** [usize::checked_add] and [checked_sub] on a 64-bit machine. *)
Definition checked_add (a b : Z) : option Z := if a + b <? 2 ^ 64 then Some (a + b) else None.
Definition checked_sub (a b : Z) : option Z := if a <? b then None else Some (a - b).
Definition box_at_start (cur : list Z) : option (list Z * list Z) :=
  s ← get_range 0 4 cur;
  '(header_len, body_len) ←
    (if from_be s =? 0 then body ← checked_sub (zlen cur) 8; Some (8, body)
     else if from_be s =? 1 then big ← get_range 8 16 cur; body ← checked_sub (from_be big) 16; Some (16, body)
     else body ← checked_sub (from_be s) 8; Some (8, body));
  total ← checked_add header_len body_len;
  split_at total cur.
(** [while cur.remaining() >= 8], with the body of the loop as a step. *)
Fixpoint each_box {St} (step : St -> list Z -> option St) (fuel : nat) (cur : list Z) (st : St) : option St :=
  match fuel with
  | O => None
  | S fuel =>
      if zlen cur <? 8 then Some st
      else
        '(child, cur) ← box_at_start cur;
        st ← step st child;
        each_box step fuel cur st
  end.
Definition children {St} (step : St -> list Z -> option St) (cur : list Z) (st : St) : option St := each_box step (S (length cur)) cur st.
Definition is_type (name : string) (typ : list Z) : bool := bool_decide (typ = ascii_bytes name).

(** ** Dimensions *)
Definition parse_pitm (boxb : list Z) : option Z :=
  e ← get_from 8 boxb;
  '((version, _), e) ← fullbox e;
  '(v, _) ← (if version =? 0 then u16 e else u32 e);
  Some v.
Definition parse_ipco_properties (boxb : list Z) : option (list (list Z)) :=
  cur ← get_from 8 boxb;
  children (fun props prop => Some (props ++ [prop])) cur [].
Fixpoint associations (n : nat) (flags : Z) (cur : list Z) : option (list Z * list Z) :=
  match n with
  | O => Some ([], cur)
  | S n =>
      '(idx, cur) ←
        (if Z.testbit flags 0 then '(v, cur) ← u16 cur; Some (Z.land v 32767, cur)
         else '(b, cur) ← split_at 1 cur; Some (Z.land (from_be b) 127, cur));
      '(rest, cur) ← associations n flags cur;
      Some (idx :: rest, cur)
  end.
Fixpoint ipma_entries (n : nat) (version flags want_id : Z) (cur : list Z) : option (list Z) :=
  match n with
  | O => None
  | S n =>
      '(item_id, cur) ← (if version <? 1 then u16 cur else u32 cur);
      '(c, cur) ← split_at 1 cur;
      '(indices, cur) ← associations (Z.to_nat (from_be c)) flags cur;
      if item_id =? want_id then Some indices else ipma_entries n version flags want_id cur
  end.
Definition parse_ipma_for_item (boxb : list Z) (want_id : Z) : option (list Z) :=
  cur ← get_from 8 boxb;
  '((version, flags), cur) ← fullbox cur;
  '(entry_count, cur) ← u32 cur;
  ipma_entries (Z.to_nat entry_count) version flags want_id cur.
Record DimState := { primary_id : option Z; ipco : option (list Z); ipma : option (list Z) }.
Definition dims_prop (st : DimState) (prop : list Z) : option DimState :=
  pt ← get_range 4 8 prop;
  Some (if is_type "ipco" pt then {| primary_id := primary_id st; ipco := Some prop; ipma := ipma st |}
        else if is_type "ipma" pt then {| primary_id := primary_id st; ipco := ipco st; ipma := Some prop |}
        else st).
Definition dims_child (st : DimState) (child : list Z) : option DimState :=
  typ ← get_range 4 8 child;
  if is_type "pitm" typ then Some {| primary_id := parse_pitm child; ipco := ipco st; ipma := ipma st |}
  else if is_type "iprp" typ then p ← get_from 8 child; children dims_prop p st
  else Some st.
Definition u32_at_ (d : list Z) (a b : Z) : option Z := s ← get_range a b d; Some (from_be s).
(** The first associated property that is an [ispe] box. *)
Fixpoint ispe_of (props : list (list Z)) (indices : list Z) : option (Z * Z) :=
  match indices with
  | [] => None
  | idx :: indices =>
      match (if idx =? 0 then None else props !! Z.to_nat (idx - 1)) with
      | Some prop =>
          if (20 <=? zlen prop) && is_type "ispe" (take 4 (drop 4 prop)) then
            w ← u32_at_ prop 12 16; h ← u32_at_ prop 16 20; Some (w, h)
          else ispe_of props indices
      | None => ispe_of props indices
      end
  end.
(** [extract_heic_dims] after [find_meta_body]. *)
Definition dims_in (body : list Z) : option (Z * Z) :=
  cur ← get_from 4 body;
  st ← children dims_child cur {| primary_id := None; ipco := None; ipma := None |};
  primary ← primary_id st;
  boxb ← ipco st;
  props ← parse_ipco_properties boxb;
  boxb ← ipma st;
  indices ← parse_ipma_for_item boxb primary;
  ispe_of props indices.

(** ** The item list and the item locations *)
Fixpoint iinf_entries (n : nat) (cur : list Z) (exif_id : option Z) : option Z :=
  match n with
  | O => exif_id
  | S n =>
      '(infe, cur) ← box_at_start cur;
      e ← get_from 8 infe;
      '((ever, _), e) ← fullbox e;
      if negb ((ever =? 2) || (ever =? 3)) then iinf_entries n cur exif_id
      else
        '(item_id, e) ← (if ever =? 2 then u16 e else u32 e);
        '(_, e) ← u16 e;
        '(item_type, _) ← split_at 4 e;
        iinf_entries n cur (if is_type "Exif" item_type then Some item_id else exif_id)
  end.
Definition parse_iinf (boxb : list Z) : option Z :=
  cur ← get_from 8 boxb;
  '((version, _), cur) ← fullbox cur;
  '(entry_count, cur) ← count (version =? 0) cur;
  iinf_entries (Z.to_nat entry_count) cur None.
Record ItemLocation := { construction_method : Z; base_offset : Z; extents : list (Z * Z * Z) }.
Fixpoint parse_extents (n : nat) (index_size offset_size length_size : Z) (cur : list Z) : option (list (Z * Z * Z) * list Z) :=
  match n with
  | O => Some ([], cur)
  | S n =>
      '(index, cur) ← sized index_size cur;
      '(offset, cur) ← sized offset_size cur;
      '(len, cur) ← sized length_size cur;
      '(rest, cur) ← parse_extents n index_size offset_size length_size cur;
      Some ((index, offset, len) :: rest, cur)
  end.
Fixpoint iloc_entries (n : nat) (version sizes want_id : Z) (cur : list Z) : option ItemLocation :=
  match n with
  | O => None
  | S n =>
      let indexed := (version =? 1) || (version =? 2) in
      '(item_id, cur) ← id (version <? 2) cur;
      '(method, cur) ← (if indexed then '(v, cur) ← u16 cur; Some (Z.land v 15, cur) else Some (0, cur));
      '(_, cur) ← u16 cur;
      '(base, cur) ← sized (Z.land (Z.shiftr sizes 4) 15) cur;
      '(extent_count, cur) ← u16 cur;
      '(exts, cur) ← parse_extents (Z.to_nat extent_count) (if indexed then Z.land sizes 15 else 0)
                       (Z.shiftr sizes 12) (Z.land (Z.shiftr sizes 8) 15) cur;
      if item_id =? want_id then Some {| construction_method := method; base_offset := base; extents := exts |}
      else iloc_entries n version sizes want_id cur
  end.
Definition parse_iloc (boxb : list Z) (want_id : Z) : option ItemLocation :=
  cur ← get_from 8 boxb;
  '((version, _), cur) ← fullbox cur;
  '(sizes, cur) ← u16 cur;
  '(item_count, cur) ← count (version <? 2) cur;
  iloc_entries (Z.to_nat item_count) version sizes want_id cur.

(** ** The file *)
(** A call panics, returns [None], or returns a value. *)
Inductive Outcome (A : Type) := Panic | Nothing | Got (a : A).
Arguments Panic {A}.
Arguments Nothing {A}.
Arguments Got {A}.
#[export] Instance outcome_bind : MBind Outcome := fun A B f o =>
  match o with Panic => Panic | Nothing => Nothing | Got a => f a end.
Definition try {A} (o : option A) : Outcome A := match o with Some a => Got a | None => Nothing end.
Section Build.
(** Whether the build checks arithmetic for overflow. *)
Context (overflow_checks : bool).
Definition plus (a b : Z) : Outcome Z :=
  if a + b <? 2 ^ 64 then Got (a + b) else if overflow_checks then Panic else Got ((a + b) mod 2 ^ 64).
Definition u32_at (d : list Z) (o : Z) : Outcome Z := e ← plus o 4; s ← try (get_range o e d); Got (from_be s).
Definition u64_at (d : list Z) (o : Z) : Outcome Z := e ← plus o 8; s ← try (get_range o e d); Got (from_be s).
Definition box_header (d : list Z) (off : Z) : Outcome (Z * list Z * Z) :=
  s ← u32_at d off;
  a ← plus off 4; b ← plus off 8; typ ← try (get_range a b d);
  if s =? 1 then a ← plus off 8; size ← u64_at d a; Got (size, typ, 16)
  else if s =? 0 then Got (zlen d - off, typ, 8)
  else Got (s, typ, 8).
Fixpoint find_meta (fuel : nat) (data : list Z) (off : Z) : Outcome (list Z) :=
  match fuel with
  | O => Nothing
  | S fuel =>
      '(size, typ, hdr) ← box_header data off;
      if is_type "meta" typ then a ← plus off hdr; b ← plus off size; try (get_range a b data)
      else if size =? 0 then Nothing
      else off ← try (checked_add off size); find_meta fuel data off
  end.
Definition find_meta_body (data : list Z) : Outcome (list Z) := find_meta (S (length data)) data 0.
Definition extract_heic_dims (data : list Z) : Outcome (Z * Z) := body ← find_meta_body data; try (dims_in body).

Record MetaState := { idat : option (list Z); exif_item_id : option Z; iloc : option (list Z) }.
Definition meta_child (st : MetaState) (child : list Z) : option MetaState :=
  typ ← get_range 4 8 child;
  if is_type "idat" typ then d ← get_from 12 child; Some {| idat := Some d; exif_item_id := exif_item_id st; iloc := iloc st |}
  else if is_type "iinf" typ then Some {| idat := idat st; exif_item_id := parse_iinf child; iloc := iloc st |}
  else if is_type "iloc" typ then Some {| idat := idat st; exif_item_id := exif_item_id st; iloc := Some child |}
  else Some st.
(** The bytes of one extent: what is not in the source is left out. *)
Definition extent_bytes (src : list Z) (start len : Z) : Outcome (list Z) :=
  if len =? 0 then Got (default [] (get_from start src))
  else e ← plus start len; Got (default [] (get_range start e src)).
Fixpoint read_extents (src : list Z) (base : Z) (exts : list (Z * Z * Z)) (buf : list Z) : Outcome (list Z) :=
  match exts with
  | [] => Got buf
  | (_, offset, len) :: exts =>
      start ← try (checked_add base offset);
      seg ← extent_bytes src start len;
      read_extents src base exts (buf ++ seg)
  end.
Definition parse_meta (body file : list Z) : Outcome (list Z) :=
  match get_from 4 body with
  | None => Panic
  | Some cur =>
      st ← try (children meta_child cur {| idat := None; exif_item_id := None; iloc := None |});
      boxb ← try (iloc st); want ← try (exif_item_id st);
      loc ← try (parse_iloc boxb want);
      src ← (if construction_method loc =? 0 then Got file else if construction_method loc =? 1 then try (idat st) else Nothing);
      buf ← read_extents src (base_offset loc) (extents loc) [];
      if zlen buf <? 4 then Nothing
      else
        tiff_offset ← u32_at buf 0;
        try (get_from (4 + tiff_offset) buf)
  end.
Definition extract_heic_exif_tiff (data : list Z) : Outcome (list Z) := body ← find_meta_body data; parse_meta body data.
End Build.

(** ** Reference encoder *)
(** A box of a container, as its type and its content. *)
Definition Box : Type := list Z * list Z.
Definition enc (b : Box) : list Z := to_be 4 (8 + zlen b.2) ++ b.1 ++ b.2.
Definition wf_box (b : Box) : Prop := length b.1 = 4%nat /\ 8 + zlen b.2 < 2 ^ 32.
Definition header (version flags : Z) : list Z := to_be 1 version ++ to_be 3 flags.
Definition named (name : string) (body : list Z) : Box := (ascii_bytes name, body).

Ltac widths := rewrite ?zlen_app, ?zlen_to_be, ?zlen_cons; cbn; lia.
Lemma u16_be v cur : 0 <= v < 65536 -> u16 (to_be 2 v ++ cur) = Some (v, cur).
Proof. intros H. unfold u16. rewrite split_at_app by apply zlen_to_be. cbn [mbind option_bind]. by rewrite from_to_be. Qed.
Lemma u32_be v cur : 0 <= v < 2 ^ 32 -> u32 (to_be 4 v ++ cur) = Some (v, cur).
Proof. intros H. unfold u32. rewrite split_at_app by apply zlen_to_be. cbn [mbind option_bind]. by rewrite from_to_be. Qed.
Lemma fullbox_header version flags cur : 0 <= version < 256 -> 0 <= flags < 16777216 -> fullbox (header version flags ++ cur) = Some ((version, flags), cur).
Proof.
  intros Hv Hf. unfold fullbox, u32, header. rewrite split_at_app by (rewrite zlen_app, !zlen_to_be; done). cbn [mbind option_bind].
  assert (E : from_be (to_be 1 version ++ to_be 3 flags) = version * 2 ^ 24 + flags).
  { unfold from_be. rewrite fold_left_app, from_be_acc. rewrite zlen_to_be. fold (from_be (to_be 1 version)). rewrite !from_to_be by (cbn; lia). done. }
  rewrite E. do 3 f_equal.
  - rewrite Z.shiftr_div_pow2 by lia. rewrite Z.div_add_l by lia. rewrite (Z.div_small flags) by lia. lia.
  - change 16777215 with (Z.ones 24). rewrite Z.land_ones by lia. rewrite Z.add_comm, Z.mod_add by lia. by apply Z.mod_small.
Qed.

Section Boxes.
Context (b : Box) (Hb : wf_box b).
Lemma zlen_enc : zlen (enc b) = 8 + zlen b.2.
Proof using Hb. unfold enc. rewrite !zlen_app, zlen_to_be. destruct Hb as [H _]. unfold zlen at 1. rewrite H. lia. Qed.
Lemma enc_type rest : get_range 4 8 (enc b ++ rest) = Some b.1.
Proof using Hb. unfold enc. rewrite <- !app_assoc. apply get_range_app; [apply zlen_to_be|]. destruct Hb as [H _]. unfold zlen. by rewrite H. Qed.
Lemma enc_body : get_from 8 (enc b) = Some b.2.
Proof using Hb. unfold enc. rewrite app_assoc. apply get_from_app. rewrite zlen_app, zlen_to_be. destruct Hb as [H _]. unfold zlen. by rewrite H. Qed.
Lemma enc_size rest : get_range 0 4 (enc b ++ rest) = Some (to_be 4 (8 + zlen b.2)).
Proof using. unfold enc. rewrite <- !app_assoc. apply (get_range_app 0 4 []); [done|by rewrite zlen_to_be]. Qed.
Lemma enc_size_value : from_be (to_be 4 (8 + zlen b.2)) = 8 + zlen b.2.
Proof using Hb. apply from_to_be. destruct Hb as [_ H]. pose proof (zlen_nonneg b.2). cbn in *. lia. Qed.
Lemma box_at_start_enc rest : box_at_start (enc b ++ rest) = Some (enc b, rest).
Proof using Hb.
  unfold box_at_start. rewrite enc_size. cbn [mbind option_bind]. rewrite enc_size_value. pose proof (zlen_nonneg b.2). destruct Hb as [_ H32].
  rewrite (proj2 (Z.eqb_neq _ 0)), (proj2 (Z.eqb_neq _ 1)) by lia. unfold checked_sub. rewrite (proj2 (Z.ltb_ge _ 8)) by lia. cbn [mbind option_bind].
  unfold checked_add. rewrite (proj2 (Z.ltb_lt _ (2 ^ 64))) by lia. cbn [mbind option_bind]. apply split_at_app. rewrite zlen_enc. lia.
Qed.
End Boxes.
Definition encs (bs : list Box) : list Z := concat (enc <$> bs).
Fixpoint fold_boxes {St} (step : St -> list Z -> option St) (st : St) (bs : list (list Z)) : option St :=
  match bs with [] => Some st | b :: bs => st ← step st b; fold_boxes step st bs end.
Lemma children_encs {St} (step : St -> list Z -> option St) bs st : Forall wf_box bs -> children step (encs bs) st = fold_boxes step st (enc <$> bs).
Proof.
  intros Hbs. unfold children, encs. assert (H : (length bs < S (length (concat (enc <$> bs))))%nat).
  { apply Nat.lt_succ_r. induction Hbs as [|b bs Hb _ IH]; [done|]. cbn [fmap list_fmap concat length]. rewrite length_app. pose proof (zlen_enc b Hb). pose proof (zlen_nonneg b.2). unfold zlen in *. lia. }
  revert H st. generalize (S (length (concat (enc <$> bs)))). induction Hbs as [|b bs Hb _ IH]; intros fuel Hf st; (destruct fuel as [|fuel]; [cbn [length] in Hf; lia|]); [done|].
  cbn [fmap list_fmap concat each_box fold_boxes]. cbn [length] in Hf. pose proof (zlen_nonneg b.2). pose proof (zlen_nonneg (concat (enc <$> bs))).
  rewrite (proj2 (Z.ltb_ge _ 8)) by (rewrite zlen_app, (zlen_enc b Hb); lia). rewrite (box_at_start_enc b Hb). cbn [mbind option_bind].
  destruct (step st (enc b)); [|done]. cbn [mbind option_bind]. apply IH. lia.
Qed.

(** The content of the boxes the parser reads. *)
Definition infe (item : Z * list Z) : Box := named "infe" (header 2 0 ++ to_be 2 item.1 ++ to_be 2 0 ++ item.2 ++ [0]).
Definition iinf_box (items : list (Z * list Z)) : Box := named "iinf" (header 0 0 ++ to_be 2 (zlen items) ++ encs (infe <$> items)).
Definition last_exif (items : list (Z * list Z)) (acc : option Z) : option Z :=
  foldl (fun acc item => if is_type "Exif" item.2 then Some item.1 else acc) acc items.
Definition wf_item (item : Z * list Z) : Prop := 0 <= item.1 < 65536 /\ length item.2 = 4%nat.
Lemma wf_infe item : wf_item item -> wf_box (infe item).
Proof. intros [_ H]. split; [done|]. cbn [snd named infe]. rewrite !zlen_app, !zlen_to_be. unfold zlen. rewrite H. cbn. lia. Qed.
Lemma parse_iinf_box items : Forall wf_item items -> zlen items < 65536 -> wf_box (iinf_box items) ->
  parse_iinf (enc (iinf_box items)) = last_exif items None.
Proof.
  intros Hi Hn Hw. unfold parse_iinf. rewrite (enc_body _ Hw). cbn [mbind option_bind snd iinf_box named].
  rewrite fullbox_header by lia. cbn [mbind option_bind]. unfold count. cbn [Z.eqb]. pose proof (zlen_nonneg items). rewrite u16_be by lia. cbn [mbind option_bind].
  unfold zlen. rewrite Nat2Z.id. unfold encs, last_exif. clear Hn Hw H. generalize (@None Z). induction Hi as [|item items Hitem _ IH]; intros acc; [done|].
  cbn [fmap list_fmap concat length iinf_entries foldl]. pose proof (wf_infe item Hitem) as Hw. rewrite (box_at_start_enc _ Hw). cbn [mbind option_bind].
  rewrite (enc_body _ Hw). cbn [mbind option_bind snd infe named]. rewrite fullbox_header by lia. cbn [mbind option_bind].
  destruct Hitem as [Hid Hty]. cbn [Z.eqb Pos.eqb orb negb]. rewrite u16_be by lia. cbn [mbind option_bind]. rewrite u16_be by lia. cbn [mbind option_bind].
  rewrite split_at_app by (unfold zlen; by rewrite Hty). cbn [mbind option_bind]. apply IH.
Qed.

(** An entry of the location table: item, construction method and extents. *)
Record Location := { item : Z; method : Z; pieces : list (Z * Z) }.
Definition extent_fields (e : Z * Z) : list Z := to_be 4 e.1 ++ to_be 4 e.2.
Definition location_fields (l : Location) : list Z :=
  to_be 2 (item l) ++ to_be 2 (method l) ++ to_be 2 0 ++ to_be 2 (zlen (pieces l)) ++ concat (extent_fields <$> pieces l).
(** Version 1, with offsets and lengths of four bytes and no base offset. *)
Definition iloc_box (ls : list Location) : Box := named "iloc" (header 1 0 ++ to_be 2 17408 ++ to_be 2 (zlen ls) ++ concat (location_fields <$> ls)).
Definition wf_extent (e : Z * Z) : Prop := 0 <= e.1 < 2 ^ 32 /\ 0 <= e.2 < 2 ^ 32.
Definition wf_location (l : Location) : Prop :=
  0 <= item l < 65536 /\ 0 <= method l < 16 /\ zlen (pieces l) < 65536 /\ Forall wf_extent (pieces l).
Definition located (l : Location) : ItemLocation :=
  {| construction_method := method l; base_offset := 0; extents := (fun e => (0, e.1, e.2)) <$> pieces l |}.
Lemma parse_extents_fields es cur : Forall wf_extent es ->
  parse_extents (length es) 0 4 4 (concat (extent_fields <$> es) ++ cur) = Some ((fun e => (0, e.1, e.2)) <$> es, cur).
Proof.
  induction 1 as [|e es [H1 H2] _ IH]; [done|]. cbn [length parse_extents fmap list_fmap concat sized Z.eqb Pos.eqb mbind option_bind].
  unfold extent_fields at 1. rewrite <- !app_assoc. rewrite u32_be by done. cbn [mbind option_bind]. rewrite u32_be by done. cbn [mbind option_bind].
  fold (concat (extent_fields <$> es)). by rewrite IH.
Qed.
Lemma parse_iloc_box ls want : Forall wf_location ls -> zlen ls < 65536 -> wf_box (iloc_box ls) ->
  parse_iloc (enc (iloc_box ls)) want = located <$> List.find (fun l => item l =? want) ls.
Proof.
  intros Hl Hn Hw. unfold parse_iloc. rewrite (enc_body _ Hw). cbn [mbind option_bind snd iloc_box named].
  rewrite fullbox_header by lia. cbn [mbind option_bind]. rewrite u16_be by lia. cbn [mbind option_bind]. unfold count. cbn [Z.ltb Z.compare Pos.compare Pos.compare_cont].
  pose proof (zlen_nonneg ls). rewrite u16_be by lia. cbn [mbind option_bind]. unfold zlen. rewrite Nat2Z.id. clear Hn Hw H.
  induction Hl as [|l ls (Hid & Hm & Hp & He) _ IH]; [done|]. cbn [length fmap list_fmap concat iloc_entries List.find Z.eqb Pos.eqb orb Z.ltb Z.compare Pos.compare Pos.compare_cont].
  unfold location_fields at 1. rewrite <- !app_assoc. unfold id at 1. rewrite u16_be by lia. cbn [mbind option_bind]. rewrite u16_be by lia. cbn [mbind option_bind].
  rewrite u16_be by lia. cbn [mbind option_bind]. change (Z.land (Z.shiftr 17408 4) 15) with 0. cbn [sized Z.eqb mbind option_bind]. pose proof (zlen_nonneg (pieces l)).
  rewrite u16_be by lia. cbn [mbind option_bind]. change (Z.land 17408 15) with 0. change (Z.shiftr 17408 12) with 4. change (Z.land (Z.shiftr 17408 8) 15) with 4.
  unfold zlen. rewrite Nat2Z.id, parse_extents_fields by done. cbn [mbind option_bind]. destruct (item l =? want); [|exact IH].
  cbn [fmap option_fmap option_map]. unfold located. change 15 with (Z.ones 4). rewrite Z.land_ones, Z.mod_small by lia. done.
Qed.

(** ** The boxes of a file *)
Lemma is_type_true name typ : is_type name typ = true -> typ = ascii_bytes name.
Proof. apply bool_decide_eq_true. Qed.
Section Files.
Context (overflow_checks : bool) (file : list Z) (Hfile : zlen file < 2 ^ 63).
Lemma plus_small a b : a + b < 2 ^ 64 -> plus overflow_checks a b = Got (a + b).
Proof using. intros H. unfold plus. by rewrite (proj2 (Z.ltb_lt _ _) H). Qed.
Lemma box_header_enc a b z : file = a ++ enc b ++ z -> wf_box b -> box_header overflow_checks file (zlen a) = Got (8 + zlen b.2, b.1, 8).
Proof using Hfile.
  intros Hf Hb. assert (Hl : zlen file = zlen a + (8 + zlen b.2) + zlen z) by (rewrite Hf, !zlen_app, zlen_enc by done; lia).
  pose proof (zlen_nonneg a). pose proof (zlen_nonneg b.2). pose proof (zlen_nonneg z). unfold box_header, u32_at. rewrite !plus_small by lia. cbn [mbind outcome_bind].
  assert (E4 : get_range (zlen a) (zlen a + 4) file = Some (to_be 4 (8 + zlen b.2))).
  { rewrite Hf. unfold enc. rewrite <- !app_assoc. apply get_range_app; [done|]. rewrite zlen_to_be. lia. }
  rewrite E4. cbn [try mbind outcome_bind]. rewrite enc_size_value by done. cbn [mbind outcome_bind].
  assert (E8 : get_range (zlen a + 4) (zlen a + 8) file = Some b.1).
  { rewrite Hf. unfold enc. rewrite <- !app_assoc, app_assoc. destruct Hb as [Ht _]. apply get_range_app; [by rewrite zlen_app, zlen_to_be|]. unfold zlen. rewrite Ht. lia. }
  rewrite E8. cbn [try mbind outcome_bind]. by rewrite (proj2 (Z.eqb_neq _ 1)), (proj2 (Z.eqb_neq _ 0)) by lia.
Qed.
Lemma find_meta_body_encs pre body post : file = encs pre ++ enc (named "meta" body) ++ post -> Forall wf_box pre -> wf_box (named "meta" body) ->
  Forall (fun b => is_type "meta" b.1 = false) pre -> find_meta_body overflow_checks file = Got body.
Proof using Hfile.
  intros Hf Hpre Hm Hno. unfold find_meta_body.
  assert (H : forall done todo fuel, file = encs done ++ encs todo ++ enc (named "meta" body) ++ post -> Forall wf_box todo -> Forall (fun b => is_type "meta" b.1 = false) todo ->
    (length todo < fuel)%nat -> find_meta overflow_checks fuel file (zlen (encs done)) = Got body).
  { clear Hf Hpre Hno pre. intros dn todo fuel Hf Hw Hno. revert dn fuel Hf. induction Hw as [|b todo Hb _ IH]; intros dn fuel Hf Hfu; (destruct fuel as [|fuel]; [lia|]); cbn [find_meta].
    - cbn [encs fmap list_fmap concat app] in Hf. rewrite (box_header_enc _ _ _ Hf Hm). cbn [mbind outcome_bind fst snd named].
      change (is_type "meta" (ascii_bytes "meta")) with true. cbn beta iota.
      assert (Hl : zlen file = zlen (encs dn) + (8 + zlen body) + zlen post) by (rewrite Hf, !zlen_app, zlen_enc by done; cbn [snd named]; lia). pose proof (zlen_nonneg post). pose proof (zlen_nonneg body). pose proof (zlen_nonneg (encs dn)).
      rewrite !plus_small by lia. cbn [mbind outcome_bind]. rewrite Hf.
      replace (encs dn ++ enc (named "meta" body) ++ post) with ((encs dn ++ to_be 4 (8 + zlen body) ++ ascii_bytes "meta") ++ body ++ post)
        by (unfold enc; cbn [fst snd named]; by rewrite <- !app_assoc).
      rewrite get_range_app; [done| |]; [rewrite !zlen_app, zlen_to_be; done|cbn [snd named]; lia].
    - apply Forall_cons in Hno as [Hn Hno]. change (encs (b :: todo)) with (enc b ++ encs todo) in Hf. rewrite <- app_assoc in Hf. rewrite (box_header_enc _ _ _ Hf Hb).
      cbn [mbind outcome_bind]. rewrite Hn. pose proof (zlen_nonneg b.2). rewrite (proj2 (Z.eqb_neq _ 0)) by lia.
      assert (Hl : zlen (encs (dn ++ [b])) = zlen (encs dn) + (8 + zlen b.2)).
      { unfold encs. rewrite fmap_app, concat_app, zlen_app. cbn [fmap list_fmap concat]. rewrite app_nil_r, zlen_enc by done. done. }
      unfold checked_add. assert (Hlt : zlen (encs dn) + (8 + zlen b.2) < 2 ^ 64).
      { apply (f_equal zlen) in Hf. rewrite !zlen_app, zlen_enc in Hf by done. pose proof (zlen_nonneg (encs todo)). pose proof (zlen_nonneg (enc (named "meta" body))). pose proof (zlen_nonneg post). cbn [snd named] in *. lia. }
      rewrite (proj2 (Z.ltb_lt _ _) Hlt). cbn [try mbind outcome_bind]. rewrite <- Hl. apply IH; [done| |cbn [length] in Hfu; lia].
      unfold encs. rewrite fmap_app, concat_app. cbn [fmap list_fmap concat]. rewrite app_nil_r, <- app_assoc. exact Hf. }
  apply (H [] pre); [done..|]. rewrite Hf, length_app. apply Nat.lt_succ_r. clear -Hpre. induction Hpre as [|b bs Hb _ IH]; [cbn; lia|].
  change (encs (b :: bs)) with (enc b ++ encs bs). rewrite length_app. cbn [length]. pose proof (zlen_enc b Hb). pose proof (zlen_nonneg b.2). unfold zlen in *. lia.
Qed.
End Files.

(** ** The children of the meta box *)
Definition typed (name : string) (bs : list Box) : list Box := base.filter (fun b : Box => is_type name b.1 = true) bs.
(** A loop that keeps the last box of a type. *)
Definition keep_last {A} (name : string) (read : Box -> A) (acc : A) (bs : list Box) : A :=
  foldl (fun acc b => if is_type name b.1 then read b else acc) acc bs.
Lemma keep_last_typed {A} name (read : Box -> A) acc bs : keep_last name read acc bs = keep_last name read acc (typed name bs).
Proof.
  unfold keep_last, typed. revert acc. induction bs as [|b bs IH]; intros acc; [done|]. cbn [foldl]. destruct (is_type name b.1) eqn:E.
  - rewrite filter_cons_True by done. cbn [foldl]. by rewrite E, IH.
  - rewrite filter_cons_False by congruence. apply IH.
Qed.
Lemma keep_last_one {A} name (read : Box -> A) acc bs b : typed name bs = [b] -> keep_last name read acc bs = read b.
Proof.
  intros E. rewrite keep_last_typed, E. unfold keep_last. cbn [foldl].
  assert (Hb : b ∈ typed name bs) by (rewrite E; set_solver). apply list_elem_of_filter in Hb as [-> _]. done.
Qed.
Lemma child_type b : wf_box b -> get_range 4 8 (enc b) = Some b.1.
Proof. intros H. pose proof (enc_type b H []) as E. by rewrite app_nil_r in E. Qed.
Lemma meta_child_enc st b : wf_box b -> is_type "idat" b.1 = false -> meta_child st (enc b) =
  Some {| idat := idat st; exif_item_id := if is_type "iinf" b.1 then parse_iinf (enc b) else exif_item_id st;
          iloc := if is_type "iloc" b.1 then Some (enc b) else iloc st |}.
Proof.
  intros Hb Hi. unfold meta_child. rewrite child_type by done. cbn [mbind option_bind]. rewrite Hi. destruct (is_type "iinf" b.1) eqn:E; [|by destruct (is_type "iloc" b.1), st].
  by rewrite (is_type_true _ _ E).
Qed.
Lemma meta_children bs st : Forall wf_box bs -> typed "idat" bs = [] -> fold_boxes meta_child st (enc <$> bs) =
  Some {| idat := idat st; exif_item_id := keep_last "iinf" (fun b => parse_iinf (enc b)) (exif_item_id st) bs;
          iloc := keep_last "iloc" (fun b => Some (enc b)) (iloc st) bs |}.
Proof.
  unfold typed, keep_last. intros Hbs. revert st. induction Hbs as [|b bs Hb _ IH]; intros st Hno; [by destruct st|].
  destruct (is_type "idat" b.1) eqn:E1; [by rewrite filter_cons_True in Hno|]. rewrite filter_cons_False in Hno by congruence.
  cbn [fmap list_fmap fold_boxes foldl]. rewrite meta_child_enc by done. cbn [mbind option_bind]. rewrite IH by done. done.
Qed.

(** A file with a meta box, its item list and its location table. *)
Record HeicFile := { before : list Box; kids : list Box; after : list Z; items : list (Z * list Z); locations : list Location }.
Definition meta_body (kids : list Box) : list Z := header 0 0 ++ encs kids.
Definition file_bytes (before kids : list Box) (after : list Z) : list Z := encs before ++ enc (named "meta" (meta_body kids)) ++ after.
Record framed (before kids : list Box) (after : list Z) : Prop := {
  framed_size : zlen (file_bytes before kids after) < 2 ^ 63;
  framed_before : Forall (fun b => wf_box b /\ is_type "meta" b.1 = false) before;
  framed_meta : wf_box (named "meta" (meta_body kids));
  framed_kids : Forall wf_box kids }.
Record conforms (f : HeicFile) : Prop := {
  conforms_framed : framed (before f) (kids f) (after f);
  conforms_iinf : typed "iinf" (kids f) = [iinf_box (items f)];
  conforms_iloc : typed "iloc" (kids f) = [iloc_box (locations f)];
  conforms_idat : typed "idat" (kids f) = [];
  conforms_items : Forall wf_item (items f) /\ zlen (items f) < 65536;
  conforms_locations : Forall wf_location (locations f) /\ zlen (locations f) < 65536 }.
(** The bytes an extent names, to the end of the file when it has no length. *)
Definition extent_of (file : list Z) (e : Z * Z) : option (list Z) :=
  if e.2 =? 0 then get_from e.1 file else get_range e.1 (e.1 + e.2) file.
Lemma framed_body oc bs ks a : framed bs ks a -> find_meta_body oc (file_bytes bs ks a) = Got (meta_body ks).
Proof.
  intros [Hs Hb Hm _]. apply Forall_and in Hb as [Hb Hn]. by eapply find_meta_body_encs.
Qed.
Lemma body_children ks : get_from 4 (meta_body ks) = Some (encs ks).
Proof. unfold meta_body, header. apply get_from_app. by rewrite zlen_app, !zlen_to_be. Qed.
Lemma wf_typed name bs b : Forall wf_box bs -> typed name bs = [b] -> wf_box b.
Proof.
  intros Hw E. assert (Hb : b ∈ typed name bs) by (rewrite E; set_solver). apply list_elem_of_filter in Hb as [_ Hb].
  rewrite Forall_forall in Hw. by apply Hw.
Qed.
Lemma read_extents_spec oc file es data buf : Forall wf_extent es -> mapM (extent_of file) es = Some data ->
  read_extents oc file 0 ((fun e : Z * Z => (0, e.1, e.2)) <$> es) buf = Got (buf ++ concat data).
Proof.
  intros Hes. revert data buf. induction Hes as [|e es [H1 H2] _ IH]; intros data buf; cbn [mapM fmap list_fmap read_extents].
  - intros [= <-]. by rewrite app_nil_r.
  - intros Hd. apply bind_Some in Hd as (seg & Hseg & Hd). apply bind_Some in Hd as (rest & Hrest & [= <-]).
    unfold checked_add. rewrite (proj2 (Z.ltb_lt _ _)) by lia. cbn [try mbind outcome_bind]. rewrite Z.add_0_l.
    assert (E : extent_bytes oc file e.1 e.2 = Got seg).
    { unfold extent_bytes, extent_of in *. destruct (e.2 =? 0); [by rewrite Hseg|]. rewrite plus_small by lia. cbn [mbind outcome_bind]. by rewrite Hseg. }
    rewrite E. cbn [mbind outcome_bind]. rewrite (IH rest) by done. cbn [concat]. by rewrite app_assoc.
Qed.

(** ** Dimensions of the primary image *)
Definition pitm_box (primary : Z) : Box := named "pitm" (header 0 0 ++ to_be 2 primary).
Definition association : Type := bool * Z.
Definition association_field (a : association) : list Z := to_be 1 ((if a.1 then 128 else 0) + a.2).
Definition entry_fields (e : Z * list association) : list Z := to_be 2 e.1 ++ to_be 1 (zlen e.2) ++ concat (association_field <$> e.2).
Definition ipma_box (es : list (Z * list association)) : Box := named "ipma" (header 0 0 ++ to_be 4 (zlen es) ++ concat (entry_fields <$> es)).
Definition ipco_box (props : list Box) : Box := named "ipco" (encs props).
Definition iprp_box (props : list Box) (es : list (Z * list association)) : Box := named "iprp" (encs [ipco_box props; ipma_box es]).
Definition ispe_box (w h : Z) : Box := named "ispe" (header 0 0 ++ to_be 4 w ++ to_be 4 h).
Definition wf_association (a : association) : Prop := 0 <= a.2 < 128.
Definition wf_entry (e : Z * list association) : Prop := 0 <= e.1 < 65536 /\ zlen e.2 < 256 /\ Forall wf_association e.2.

Lemma parse_pitm_box primary : 0 <= primary < 65536 -> parse_pitm (enc (pitm_box primary)) = Some primary.
Proof.
  intros H. assert (Hw : wf_box (pitm_box primary)) by (split; [done|reflexivity]). unfold parse_pitm. rewrite (enc_body _ Hw). cbn [mbind option_bind snd pitm_box named].
  rewrite fullbox_header by lia. cbn [mbind option_bind Z.eqb]. rewrite <- (app_nil_r (to_be 2 primary)), u16_be by done. done.
Qed.
Lemma parse_ipco_box props : Forall wf_box props -> wf_box (ipco_box props) -> parse_ipco_properties (enc (ipco_box props)) = Some (enc <$> props).
Proof.
  intros Hp Hw. unfold parse_ipco_properties. rewrite (enc_body _ Hw). cbn [mbind option_bind snd ipco_box named]. rewrite children_encs by done.
  clear Hp Hw. assert (H : forall acc : list (list Z), fold_boxes (fun props prop => Some (props ++ [prop])) acc (enc <$> props) = Some (acc ++ (enc <$> props))).
  { induction props as [|b props IH]; intros acc; [by rewrite app_nil_r|]. cbn [fmap list_fmap fold_boxes mbind option_bind]. rewrite IH, <- app_assoc. done. }
  apply H.
Qed.
Lemma associations_fields ms cur : Forall wf_association ms -> associations (length ms) 0 (concat (association_field <$> ms) ++ cur) = Some (ms.*2, cur).
Proof.
  induction 1 as [|[e i] ms Hi _ IH]; [done|]. cbn [length associations fmap list_fmap concat]. change (Z.testbit 0 0) with false. cbn beta iota. rewrite <- app_assoc.
  unfold association_field at 1. unfold wf_association in Hi. cbn [fst snd] in *. rewrite split_at_app by apply zlen_to_be. cbn [mbind option_bind].
  rewrite from_to_be by (destruct e; cbn; lia). fold (concat (association_field <$> ms)). rewrite IH. cbn [mbind option_bind]. do 3 f_equal.
  change 127 with (Z.ones 7). rewrite Z.land_ones by lia. destruct e; [|by rewrite Z.mod_small by (cbn; lia)]. rewrite <- (Z.mul_1_l 128), Z.add_comm at 1. change 128 with (2 ^ 7). rewrite Z.mod_add by lia. by apply Z.mod_small.
Qed.
Lemma parse_ipma_box es want : Forall wf_entry es -> zlen es < 2 ^ 32 -> wf_box (ipma_box es) ->
  parse_ipma_for_item (enc (ipma_box es)) want = (fun e => e.2.*2) <$> List.find (fun e => e.1 =? want) es.
Proof.
  intros He Hn Hw. unfold parse_ipma_for_item. rewrite (enc_body _ Hw). cbn [mbind option_bind snd ipma_box named]. rewrite fullbox_header by lia. cbn [mbind option_bind].
  pose proof (zlen_nonneg es). rewrite u32_be by lia. cbn [mbind option_bind]. unfold zlen. rewrite Nat2Z.id. clear Hn Hw H.
  induction He as [|[i ms] es (Hi & Hl & Hm) _ IH]; [done|]. cbn [fst snd] in *. cbn [length fmap list_fmap concat ipma_entries List.find fst snd].
  change (0 <? 1) with true. cbn beta iota. unfold entry_fields at 1. cbn [fst snd]. rewrite <- !app_assoc, u16_be by done. cbn [mbind option_bind].
  rewrite split_at_app by apply zlen_to_be. cbn [mbind option_bind]. pose proof (zlen_nonneg ms). rewrite from_to_be by (cbn; lia). unfold zlen. rewrite Nat2Z.id.
  rewrite associations_fields by done. cbn [mbind option_bind]. destruct (i =? want); [done|]. exact IH.
Qed.
Lemma ispe_of_spec props skipped i rest w h : Forall wf_box props ->
  Forall (fun j => forall b, 1 <= j -> props !! Z.to_nat (j - 1) = Some b -> is_type "ispe" b.1 = false) skipped -> Forall (fun j => 0 <= j) skipped ->
  1 <= i -> props !! Z.to_nat (i - 1) = Some (ispe_box w h) -> 0 <= w < 2 ^ 32 -> 0 <= h < 2 ^ 32 ->
  ispe_of (enc <$> props) (skipped ++ i :: rest) = Some (w, h).
Proof.
  intros Hp Hs Hnn Hi Hw Hwb Hhb. induction Hs as [|j skipped Hj Hs IH]; cbn [app ispe_of].
  - rewrite (proj2 (Z.eqb_neq i 0)), list_lookup_fmap, Hw by lia. cbn [fmap option_fmap option_map]. change (is_type "ispe" (take 4 (drop 4 (enc (ispe_box w h))))) with true.
    change (zlen (enc (ispe_box w h))) with 20. cbn [andb Z.leb Z.compare Pos.compare Pos.compare_cont]. unfold u32_at_.
    assert (E1 : get_range 12 16 (enc (ispe_box w h)) = Some (to_be 4 w)) by reflexivity. assert (E2 : get_range 16 20 (enc (ispe_box w h)) = Some (to_be 4 h)) by reflexivity.
    rewrite E1, E2. cbn [mbind option_bind]. by rewrite !from_to_be.
  - apply Forall_cons in Hnn as [Hj0 Hnn]. destruct (j =? 0) eqn:E0; [by apply IH|]. zbool. rewrite list_lookup_fmap. destruct (props !! Z.to_nat (j - 1)) as [b|] eqn:Eb; cbn [fmap option_fmap option_map]; [|by apply IH].
    assert (Ht : is_type "ispe" (take 4 (drop 4 (enc b))) = is_type "ispe" b.1).
    { rewrite Forall_forall in Hp. destruct (Hp b) as [Hlen _]; [by eapply list_elem_of_lookup_2|]. unfold enc. rewrite drop_app_length' by (symmetry; apply length_to_be). by rewrite take_app_length'. }
    rewrite Ht, (Hj b), andb_false_r by (done || lia). by apply IH.
Qed.
Lemma dims_props props es st : Forall wf_box [ipco_box props; ipma_box es] -> fold_boxes dims_prop st (enc <$> [ipco_box props; ipma_box es]) =
  Some {| primary_id := primary_id st; ipco := Some (enc (ipco_box props)); ipma := Some (enc (ipma_box es)) |}.
Proof.
  intros [H1 [H2 _]%Forall_cons]%Forall_cons. cbn [fmap list_fmap fold_boxes]. unfold dims_prop. rewrite (child_type _ H1). cbn [mbind option_bind].
  rewrite (child_type _ H2). done.
Qed.
Lemma dims_child_iprp props es st : wf_box (iprp_box props es) -> Forall wf_box [ipco_box props; ipma_box es] -> dims_child st (enc (iprp_box props es)) =
  Some {| primary_id := primary_id st; ipco := Some (enc (ipco_box props)); ipma := Some (enc (ipma_box es)) |}.
Proof.
  intros Hb Hin. unfold dims_child. rewrite (child_type _ Hb). cbn [mbind option_bind]. change (is_type "pitm" (iprp_box props es).1) with false.
  change (is_type "iprp" (iprp_box props es).1) with true. cbn beta iota. rewrite (enc_body _ Hb). cbn [mbind option_bind snd iprp_box named].
  rewrite children_encs by done. by apply dims_props.
Qed.
Lemma dims_child_other b st : wf_box b -> is_type "iprp" b.1 = false -> dims_child st (enc b) =
  Some {| primary_id := if is_type "pitm" b.1 then parse_pitm (enc b) else primary_id st; ipco := ipco st; ipma := ipma st |}.
Proof.
  intros Hb Hi. unfold dims_child. rewrite (child_type _ Hb). cbn [mbind option_bind]. rewrite Hi. by destruct (is_type "pitm" b.1), st.
Qed.
Lemma dims_children bs st props es : Forall wf_box bs -> typed "iprp" bs = [iprp_box props es] -> Forall wf_box [ipco_box props; ipma_box es] ->
  fold_boxes dims_child st (enc <$> bs) =
  Some {| primary_id := keep_last "pitm" (fun b => parse_pitm (enc b)) (primary_id st) bs; ipco := Some (enc (ipco_box props)); ipma := Some (enc (ipma_box es)) |}.
Proof.
  intros Hbs Hone Hin.
  assert (H : fold_boxes dims_child st (enc <$> bs) =
    Some {| primary_id := keep_last "pitm" (fun b => parse_pitm (enc b)) (primary_id st) bs;
            ipco := if decide (typed "iprp" bs = []) then ipco st else Some (enc (ipco_box props));
            ipma := if decide (typed "iprp" bs = []) then ipma st else Some (enc (ipma_box es)) |}); [|rewrite H, Hone; done].
  assert (Hall : Forall (fun b => b = iprp_box props es) (typed "iprp" bs)) by (rewrite Hone; by constructor). clear Hone.
  unfold typed, keep_last in *. revert st Hall. induction Hbs as [|b bs Hb _ IH]; intros st Hall; [by destruct st|].
  cbn [fmap list_fmap fold_boxes foldl]. destruct (is_type "iprp" b.1) eqn:E.
  - rewrite filter_cons_True in * by done. apply Forall_cons in Hall as [-> Hall]. rewrite dims_child_iprp by done. cbn [mbind option_bind]. rewrite IH by done.
    rewrite (decide_False (P := _ :: _ = [])) by done. by destruct (decide _).
  - rewrite filter_cons_False in * by congruence. rewrite dims_child_other by done. cbn [mbind option_bind]. by rewrite IH.
Qed.
(** The dimensions of a conforming file are read without decoding it: they are
    those of the first image-extent property associated with the primary item,
    whatever the other boxes, items and properties are. *)
Theorem heic_dims_roundtrip overflow_checks before kids after props es primary entry skipped i rest w h : framed before kids after ->
  typed "pitm" kids = [pitm_box primary] -> 0 <= primary < 65536 -> typed "iprp" kids = [iprp_box props es] ->
  Forall wf_box [ipco_box props; ipma_box es] -> Forall wf_box props -> Forall wf_entry es -> zlen es < 2 ^ 32 ->
  List.find (fun e => e.1 =? primary) es = Some entry -> entry.2.*2 = skipped ++ i :: rest ->
  Forall (fun j => forall b, 1 <= j -> props !! Z.to_nat (j - 1) = Some b -> is_type "ispe" b.1 = false) skipped ->
  1 <= i -> props !! Z.to_nat (i - 1) = Some (ispe_box w h) -> 0 <= w < 2 ^ 32 -> 0 <= h < 2 ^ 32 ->
  extract_heic_dims overflow_checks (file_bytes before kids after) = Got (w, h).
Proof.
  intros Hfr Hpitm Hprim Hiprp Hin Hprops Hes Hn Hfind Hidx Hskip Hi Hprop Hw Hh. unfold extract_heic_dims. rewrite framed_body by done. cbn [mbind outcome_bind].
  unfold dims_in. rewrite body_children. cbn [mbind option_bind]. rewrite children_encs, (dims_children _ _ props es) by (done || apply Hfr). cbn [mbind option_bind primary_id ipco ipma].
  rewrite (keep_last_one _ _ _ _ _ Hpitm), parse_pitm_box by done. pose proof Hin as [H1 [H2 _]%Forall_cons]%Forall_cons. cbn [mbind option_bind].
  rewrite parse_ipco_box by done. cbn [mbind option_bind].
  assert (E : parse_ipma_for_item (enc (ipma_box es)) primary = Some (skipped ++ i :: rest)).
  { rewrite parse_ipma_box, Hfind by done. exact (f_equal Some Hidx). }
  rewrite E. cbn [mbind option_bind]. rewrite (ispe_of_spec props skipped i rest w h); [done..| |done|done|done|done].
  apply List.find_some in Hfind as [He _]. rewrite Forall_forall in Hes. destruct (Hes entry) as (_ & _ & Hm); [by apply list_elem_of_In|].
  assert (Hall : Forall (fun j => 0 <= j) (skipped ++ i :: rest)).
  { rewrite <- Hidx. apply Forall_fmap. eapply Forall_impl; [exact Hm|]. intros a Ha. unfold wf_association in Ha. cbn. lia. }
  by apply Forall_app in Hall as [? _].
Qed.

(** ** Panics *)
Lemma try_total {A} (o : option A) : try o <> Panic.
Proof. by destruct o. Qed.
Lemma bind_total {A B} (o : Outcome A) (f : A -> Outcome B) : o <> Panic -> (forall a, o = Got a -> f a <> Panic) -> (o ≫= f) <> Panic.
Proof. destruct o; cbn; auto. Qed.
Lemma plus_total a b : plus false a b <> Panic.
Proof. unfold plus. by destruct (_ <? _). Qed.
Create HintDb total.
#[local] Hint Resolve try_total plus_total : total.
(** A computation of binds whose parts do not panic. *)
Ltac total := repeat first [apply bind_total; [by eauto with total|intros ? ?] | case_match | by eauto with total | done].
Lemma u32_at_total d o : u32_at false d o <> Panic.
Proof. unfold u32_at. total. Qed.
Lemma u64_at_total d o : u64_at false d o <> Panic.
Proof. unfold u64_at. total. Qed.
#[local] Hint Resolve u32_at_total u64_at_total : total.
Lemma box_header_total d o : box_header false d o <> Panic.
Proof. unfold box_header. total. Qed.
#[local] Hint Resolve box_header_total : total.
Lemma find_meta_total fuel d o : find_meta false fuel d o <> Panic.
Proof. revert o. induction fuel as [|fuel IH]; intros o; cbn [find_meta]; [done|]. total. Qed.
Lemma extent_bytes_total src a n : extent_bytes false src a n <> Panic.
Proof. unfold extent_bytes. total. Qed.
#[local] Hint Resolve find_meta_total extent_bytes_total : total.
Lemma read_extents_total src base es buf : read_extents false src base es buf <> Panic.
Proof. revert buf. induction es as [|[[? ?] ?] es IH]; intros buf; cbn [read_extents]; [done|]. total. Qed.
#[local] Hint Resolve read_extents_total : total.
(** C39: In a build without overflow checks reading the dimensions never panics,
    whatever the bytes, and extracting the metadata panics on exactly the files
    whose meta box is too short for its version field. *)
Theorem heic_panics data : extract_heic_dims false data <> Panic /\
  (extract_heic_exif_tiff false data = Panic <-> exists body, find_meta_body false data = Got body /\ zlen body < 4).
Proof.
  split; [unfold extract_heic_dims, find_meta_body; total|]. unfold extract_heic_exif_tiff.
  pose proof (find_meta_total (S (length data)) data 0) as Ht. fold (find_meta_body false data) in Ht. destruct (find_meta_body false data) as [| |body]; [done| |]; cbn [mbind outcome_bind].
  { split; [done|]. by intros (? & ? & _). }
  assert (Hshort : get_from 4 body = None <-> zlen body < 4).
  { unfold get_from. destruct (4 <=? zlen body) eqn:E; zbool; cbn [andb Z.leb Z.compare Pos.compare Pos.compare_cont]; split; (done || lia). }
  unfold parse_meta. destruct (get_from 4 body) as [cur|].
  - split; [|intros (b & Hb & Hl); assert (b = body) as -> by congruence; by apply Hshort in Hl]. intros E. exfalso. revert E. change (?x = Panic -> False) with (x <> Panic). total.
  - split; [|done]. intros _. exists body. split; [done|]. by apply Hshort.
Qed.

(** ** Samples *)
Definition ftyp : Box := named "ftyp" (ascii_bytes "heic").
Definition sample_props : list Box := [named "colr" [1; 2]; ispe_box 100 50; ispe_box 4032 3024].
Definition sample_entries : list (Z * list association) := [(1, [(false, 1); (true, 2)]); (2, [(true, 1); (false, 3)])].
Definition sample_items : list (Z * list Z) := [(1, ascii_bytes "hvc1"); (3, ascii_bytes "Exif")].
(** The metadata lies in two extents at the end of the file. *)
Definition sample_locations (offset : Z) : list Location := [{| item := 1; method := 0; pieces := [(0, 9)] |}; {| item := 3; method := 0; pieces := [(offset, 6); (offset + 6, 0)] |}].
Definition sample_kids (offset : Z) : list Box :=
  [iinf_box sample_items; pitm_box 2; iprp_box sample_props sample_entries; iloc_box (sample_locations offset)].
Definition sample_mdat : Box := named "mdat" ([0; 0; 0; 2; 7; 7] ++ [77; 77; 0; 42]).
Definition sample_offset : Z := zlen (file_bytes [ftyp] (sample_kids 0) []) + 8.
Definition sample_heic : HeicFile :=
  {| before := [ftyp]; kids := sample_kids sample_offset; after := enc sample_mdat; items := sample_items; locations := sample_locations sample_offset |}.
Lemma sample_framed : framed (before sample_heic) (kids sample_heic) (after sample_heic).
Proof. split; [reflexivity|by repeat constructor|by repeat constructor|by repeat constructor]. Qed.
Lemma sample_conforms : conforms sample_heic.
Proof.
  split; [apply sample_framed|by vm_compute..| |].
  - split; [|reflexivity]. by repeat constructor.
  - split; [|reflexivity]. repeat constructor; vm_compute; (done || congruence).
Qed.
Lemma heic_dims_roundtrip_witness : framed (before sample_heic) (kids sample_heic) (after sample_heic) /\
  extract_heic_dims true (file_bytes (before sample_heic) (kids sample_heic) (after sample_heic)) = Got (4032, 3024).
Proof.
  split; [exact sample_framed|].
  eapply (heic_dims_roundtrip true _ _ _ sample_props sample_entries 2 (2, [(true, 1); (false, 3)]) [1] 3 []); [exact sample_framed|..].
  - reflexivity.
  - lia.
  - reflexivity.
  - repeat constructor.
  - repeat constructor.
  - repeat constructor; vm_compute; (done || congruence).
  - reflexivity.
  - reflexivity.
  - reflexivity.
  - constructor; [|constructor]. intros b _ [= <-]. reflexivity.
  - lia.
  - reflexivity.
  - lia.
  - lia.
Defined.
(** A file of eight bytes that panics the extraction: a meta box with no content. *)
Example empty_meta_panics : extract_heic_exif_tiff false (enc (named "meta" [])) = Panic.
Proof. vm_compute. reflexivity. Qed.
(** A box whose size overflows the offset panics a build with overflow checks. *)
Example huge_box_panics : extract_heic_dims true (enc ftyp ++ to_be 4 1 ++ ascii_bytes "meta" ++ to_be 8 (2 ^ 64 - 1)) = Panic.
Proof. vm_compute. reflexivity. Qed.
(** An extent without a length is the rest of the file, so a table of many of them
    makes the metadata many times the file. *)
Example extents_repeat_the_file : read_extents false [1; 2; 3] 0 (replicate 3 (0, 0, 0)) [] = Got [1; 2; 3; 1; 2; 3; 1; 2; 3].
Proof. reflexivity. Qed.
(** A data box is a plain box: the parser skips its first four bytes as if it had a
    version field. *)
Example data_box_loses_four_bytes st : meta_child st (enc (named "idat" [1; 2; 3; 4; 5])) = Some {| idat := Some [5]; exif_item_id := exif_item_id st; iloc := iloc st |}.
Proof. reflexivity. Qed.
End Heic.
