(* ===== verification/ThumbnailQueue.v ===== *)
(** The thumbnail loader: [core/thumbnails.rs] and [core/thumbnails/queue.rs].

    Requests, prioritisation, cancellation and prewarming race with a pool of
    workers on two locks. Each section that holds a lock is one action; a request
    that has registered but not yet queued its work, and the waiters a worker has
    taken but not yet answered, are part of the state, so every interleaving of the
    sections is a list of actions. Decoding is the result an action carries; the
    caches that forget are a parameter. A lock is never poisoned. *)
From Stdlib Require Import Ascii String.
From S2P Require Import Prelude.
Local Open Scope Z_scope.

Module Thumbs.

Inductive ThumbnailSize := Small | Medium | Large.
#[export] Instance size_eq_dec : EqDecision ThumbnailSize.
Proof. solve_decision. Defined.
Definition max_dim (s : ThumbnailSize) : Z := match s with Small => 256 | Medium => 512 | Large => 1024 end.
Definition size_rank (s : ThumbnailSize) : Z := match s with Small => 0 | Medium => 1 | Large => 2 end.
Definition TIER_BOOST : Z := 0.
Definition TIER_NORMAL : Z := 1.
Definition TIER_BACKGROUND : Z := 2.

(** A work item without the time that only its trace reads. *)
Record PriItem := { tier : Z; seq : Z; cache_key : string; uri : string; size : ThumbnailSize; mtime : option Z; media_id : Z }.
(** [Ordering::then_with]. *)
Definition then_with (a b : comparison) : comparison := match a with Eq => b | _ => a end.
Definition option_cmp (a b : option Z) : comparison :=
  match a, b with None, None => Eq | None, Some _ => Lt | Some _, None => Gt | Some a, Some b => Z.compare a b end.
Definition priority_cmp (a b : PriItem) : comparison :=
  then_with (Z.compare (tier a) (tier b)) (then_with (Z.compare (seq a) (seq b)) (then_with (String.compare (cache_key a) (cache_key b))
    (then_with (String.compare (uri a) (uri b)) (then_with (Z.compare (size_rank (size a)) (size_rank (size b))) (option_cmp (mtime a) (mtime b)))))).
(** [BinaryHeap<Reverse<PriItem>>::pop]: a least item and the others. *)
Fixpoint heap_pop (heap : list PriItem) : option (PriItem * list PriItem) :=
  match heap with
  | [] => None
  | x :: heap =>
      match heap_pop heap with
      | None => Some (x, [])
      | Some (y, rest) => match priority_cmp x y with Gt => Some (y, x :: rest) | _ => Some (x, y :: rest) end
      end
  end.

Record QueuedEntry := { e_tier : Z; e_uri : string; e_size : ThumbnailSize; e_mtime : option Z; e_media_id : Z }.
Record QueueState := { heap : list PriItem; queued : gmap string QueuedEntry; next_seq : Z; closed : bool }.
(** A caller and its cancellation flag, when it has one. *)
Record Waiter := { reply : nat; cancellation : option nat }.
Definition is_cancelled (flags : gset nat) (w : Waiter) : bool :=
  match cancellation w with Some f => bool_decide (f ∈ flags) | None => false end.
Record BackgroundPullState := { enabled : bool; puller_busy : bool; offset : Z; prewarm_size : ThumbnailSize; worker_count : Z }.
(** What a caller asks for, under its key. *)
Record Request := { r_tier : Z; r_key : string; r_uri : string; r_size : ThumbnailSize; r_mtime : option Z; r_media_id : Z }.

Definition entry_of (r : Request) : QueuedEntry :=
  {| e_tier := r_tier r; e_uri := r_uri r; e_size := r_size r; e_mtime := r_mtime r; e_media_id := r_media_id r |}.
Definition item_of (r : Request) (seq : Z) : PriItem :=
  {| tier := r_tier r; seq := seq; cache_key := r_key r; uri := r_uri r; size := r_size r; mtime := r_mtime r; media_id := r_media_id r |}.

(** ** The queue *)
(** The section of [request_inner] under the queue lock: whether it is queued. *)
Definition enqueue (capacity : nat) (r : Request) (q : QueueState) : bool * QueueState :=
  if (capacity <=? base.size (queued q))%nat then (false, q)
  else
    let seq := next_seq q + 1 in
    (true, {| heap := item_of r seq :: heap q; queued := <[r_key r := entry_of r]> (queued q); next_seq := seq; closed := closed q |}).
Definition prioritize_key (q : QueueState) (key : string) : QueueState :=
  match queued q !! key with
  | None => q
  | Some e =>
      if e_tier e =? TIER_BOOST then q
      else
        let seq := next_seq q + 1 in
        {| heap := {| tier := TIER_BOOST; seq := seq; cache_key := key; uri := e_uri e; size := e_size e; mtime := e_mtime e; media_id := e_media_id e |} :: heap q;
           queued := <[key := {| e_tier := TIER_BOOST; e_uri := e_uri e; e_size := e_size e; e_mtime := e_mtime e; e_media_id := e_media_id e |}]> (queued q);
           next_seq := seq; closed := closed q |}
  end.
Definition prioritize_keys (q : QueueState) (keys : list string) : QueueState := foldl prioritize_key q keys.
(** The inner loop of [next_request_or_pull]: the first item that is not stale. *)
Fixpoint pop_live (fuel : nat) (q : QueueState) : option PriItem * QueueState :=
  match fuel with
  | O => (None, q)
  | S fuel =>
      match heap_pop (heap q) with
      | None => (None, q)
      | Some (item, rest) =>
          if bool_decide (e_tier <$> queued q !! cache_key item = Some (tier item))
          then (Some item, {| heap := rest; queued := delete (cache_key item) (queued q); next_seq := next_seq q; closed := closed q |})
          else pop_live fuel {| heap := rest; queued := queued q; next_seq := next_seq q; closed := closed q |}
      end
  end.
Definition next_request (q : QueueState) : option PriItem * QueueState :=
  if closed q then (None, q) else pop_live (S (length (heap q))) q.

(** ** The loader *)
Section Loader.
Context {Loaded Lru : Type} (lru_get lru_pop : string -> Lru -> option Loaded * Lru) (lru_put : string -> Loaded -> Lru -> Lru) (lru_clear : Lru -> Lru).
Context (capacity : nat).
Record LoaderState := { mem_cache : Lru; prewarm_mem_cache : Lru; exif_cache : Lru; in_flight : gmap string (list Waiter) }.
Definition set_in_flight (f : gmap string (list Waiter)) (st : LoaderState) : LoaderState :=
  {| mem_cache := mem_cache st; prewarm_mem_cache := prewarm_mem_cache st; exif_cache := exif_cache st; in_flight := f |}.
Definition set_caches (mem prewarm : Lru) (st : LoaderState) : LoaderState :=
  {| mem_cache := mem; prewarm_mem_cache := prewarm; exif_cache := exif_cache st; in_flight := in_flight st |}.
Definition load_mem_cached_locked (key : string) (st : LoaderState) : option Loaded * LoaderState :=
  let '(hit, mem) := lru_get key (mem_cache st) in
  match hit with
  | Some l => (Some l, set_caches mem (prewarm_mem_cache st) st)
  | None =>
      let '(hit, prewarm) := lru_pop key (prewarm_mem_cache st) in
      match hit with
      | Some l => (Some l, set_caches (lru_put key l mem) prewarm st)
      | None => (None, set_caches mem prewarm st)
      end
  end.
(** The section of [request_inner] under the state lock. *)
Inductive Registered := Hit (l : Loaded) | Joined | New.
Definition register (key : string) (w : Waiter) (st : LoaderState) : Registered * LoaderState :=
  let '(hit, st) := load_mem_cached_locked key st in
  match hit with
  | Some l => (Hit l, st)
  | None =>
      match in_flight st !! key with
      | Some waiters => (Joined, set_in_flight (<[key := waiters ++ [w]]> (in_flight st)) st)
      | None => (New, set_in_flight (<[key := [w]]> (in_flight st)) st)
      end
  end.
(** [cancel_cancellable_request] after it has set the flag. *)
Definition sweep (flags : gset nat) (key : string) (st : LoaderState) (q : QueueState) : LoaderState * QueueState :=
  match in_flight st !! key with
  | None => (st, q)
  | Some waiters =>
      let waiters := base.filter (fun w => is_cancelled flags w = false) waiters in
      match waiters, queued q !! key with
      | [], Some _ => (set_in_flight (delete key (in_flight st)) st, {| heap := heap q; queued := delete key (queued q); next_seq := next_seq q; closed := closed q |})
      | _, _ => (set_in_flight (<[key := waiters]> (in_flight st)) st, q)
      end
  end.
(** The loop of [pull_batch_and_enqueue] over the page. *)
Definition pull_item (acc : LoaderState * QueueState * option PriItem) (r : Request) : LoaderState * QueueState * option PriItem :=
  let '(st, q, first) := acc in
  if bool_decide (is_Some (in_flight st !! r_key r)) || bool_decide (is_Some (queued q !! r_key r)) then acc
  else
    match first with
    | None => (set_in_flight (<[r_key r := []]> (in_flight st)) st, q, Some (item_of r 0))
    | Some _ =>
        if (base.size (queued q) <? capacity)%nat then
          (set_in_flight (<[r_key r := []]> (in_flight st)) st,
           {| heap := item_of r 0 :: heap q; queued := <[r_key r := entry_of r]> (queued q); next_seq := next_seq q; closed := closed q |}, first)
        else acc
    end.
Definition set_offset (o : Z) (bg : BackgroundPullState) : BackgroundPullState :=
  {| enabled := enabled bg; puller_busy := puller_busy bg; offset := o; prewarm_size := prewarm_size bg; worker_count := worker_count bg |}.
Definition set_busy (b : bool) (bg : BackgroundPullState) : BackgroundPullState :=
  {| enabled := enabled bg; puller_busy := b; offset := offset bg; prewarm_size := prewarm_size bg; worker_count := worker_count bg |}.
(** [pull_batch_and_enqueue]; [page] answers the query at an offset, [None] when it
    fails, its rows as background requests at the prewarm size. *)
Definition pull_batch_and_enqueue (page : Z -> Z -> option (list Request)) (bg : BackgroundPullState) (st : LoaderState) (q : QueueState) :
    BackgroundPullState * LoaderState * QueueState * option PriItem :=
  let start := offset bg in
  let bg := set_offset (u32_saturating_add start (worker_count bg)) bg in
  match page start (worker_count bg) with
  | None => (bg, st, q, None)
  | Some [] => (set_offset 0 bg, st, q, None)
  | Some rows => let '(st, q, first) := foldl pull_item (st, q, None) rows in (bg, st, q, first)
  end.
(** The end of a successful generation under the state lock: the waiters it takes. *)
Definition finish (item : PriItem) (l : Loaded) (st : LoaderState) : list Waiter * LoaderState :=
  let st := if tier item =? TIER_BACKGROUND then set_caches (mem_cache st) (lru_put (cache_key item) l (prewarm_mem_cache st)) st
            else set_caches (lru_put (cache_key item) l (mem_cache st)) (prewarm_mem_cache st) st in
  (default [] (in_flight st !! cache_key item), set_in_flight (delete (cache_key item) (in_flight st)) st).
Definition drop_in_flight (key : string) (st : LoaderState) : LoaderState := set_in_flight (delete key (in_flight st)) st.
Definition invalidate_cached_thumbnail (keys : list string) (exif : option string) (st : LoaderState) : LoaderState :=
  let drop_key st key := set_caches (lru_pop key (mem_cache st)).2 (lru_pop key (prewarm_mem_cache st)).2 st in
  let st := foldl drop_key st keys in
  {| mem_cache := mem_cache st; prewarm_mem_cache := prewarm_mem_cache st;
     exif_cache := match exif with Some key => (lru_pop key (exif_cache st)).2 | None => exif_cache st end; in_flight := in_flight st |}.
Definition clear_mem_cache (st : LoaderState) : LoaderState :=
  {| mem_cache := lru_clear (mem_cache st); prewarm_mem_cache := lru_clear (prewarm_mem_cache st); exif_cache := lru_clear (exif_cache st); in_flight := ∅ |}.

(** ** Interleavings *)
(** Why a caller gets no thumbnail. *)
Inductive Reason := Cancelled | Failed | Full | Cleared | NoKey.
Record World := {
  st : LoaderState; q : QueueState; bg : BackgroundPullState; flags : gset nat;
  (** Requests between the two locks, and keys whose request found the queue full. *)
  requesting : list Request; refused : list string;
  (** Items being generated, with whether the worker owns the background slot, and
      workers about to give the slot back. *)
  working : list (PriItem * bool); releasing : nat;
  (** Waiters a worker has taken, and what became of every caller. *)
  delivering : list (Waiter * Loaded); submitted : list Waiter; replied : list (Waiter * Loaded); dropped : list (Waiter * Reason) }.
Definition with_st (f : LoaderState) (w : World) : World :=
  {| st := f; q := q w; bg := bg w; flags := flags w; requesting := requesting w; refused := refused w; working := working w; releasing := releasing w;
     delivering := delivering w; submitted := submitted w; replied := replied w; dropped := dropped w |}.
Definition with_q (f : QueueState) (w : World) : World :=
  {| st := st w; q := f; bg := bg w; flags := flags w; requesting := requesting w; refused := refused w; working := working w; releasing := releasing w;
     delivering := delivering w; submitted := submitted w; replied := replied w; dropped := dropped w |}.
Definition with_bg (f : BackgroundPullState) (w : World) : World :=
  {| st := st w; q := q w; bg := f; flags := flags w; requesting := requesting w; refused := refused w; working := working w; releasing := releasing w;
     delivering := delivering w; submitted := submitted w; replied := replied w; dropped := dropped w |}.
Definition with_flags (f : gset nat) (w : World) : World :=
  {| st := st w; q := q w; bg := bg w; flags := f; requesting := requesting w; refused := refused w; working := working w; releasing := releasing w;
     delivering := delivering w; submitted := submitted w; replied := replied w; dropped := dropped w |}.
Definition with_pending (rs : list Request) (ks : list string) (w : World) : World :=
  {| st := st w; q := q w; bg := bg w; flags := flags w; requesting := rs; refused := ks; working := working w; releasing := releasing w;
     delivering := delivering w; submitted := submitted w; replied := replied w; dropped := dropped w |}.
Definition with_working (ws : list (PriItem * bool)) (n : nat) (w : World) : World :=
  {| st := st w; q := q w; bg := bg w; flags := flags w; requesting := requesting w; refused := refused w; working := ws; releasing := n;
     delivering := delivering w; submitted := submitted w; replied := replied w; dropped := dropped w |}.
Definition with_delivering (ds : list (Waiter * Loaded)) (w : World) : World :=
  {| st := st w; q := q w; bg := bg w; flags := flags w; requesting := requesting w; refused := refused w; working := working w; releasing := releasing w;
     delivering := ds; submitted := submitted w; replied := replied w; dropped := dropped w |}.
Definition submit (x : Waiter) (w : World) : World :=
  {| st := st w; q := q w; bg := bg w; flags := flags w; requesting := requesting w; refused := refused w; working := working w; releasing := releasing w;
     delivering := delivering w; submitted := submitted w ++ [x]; replied := replied w; dropped := dropped w |}.
Definition answer (x : Waiter) (l : Loaded) (w : World) : World :=
  {| st := st w; q := q w; bg := bg w; flags := flags w; requesting := requesting w; refused := refused w; working := working w; releasing := releasing w;
     delivering := delivering w; submitted := submitted w; replied := replied w ++ [(x, l)]; dropped := dropped w |}.
Definition discard (xs : list Waiter) (why : Reason) (w : World) : World :=
  {| st := st w; q := q w; bg := bg w; flags := flags w; requesting := requesting w; refused := refused w; working := working w; releasing := releasing w;
     delivering := delivering w; submitted := submitted w; replied := replied w; dropped := dropped w ++ ((fun x => (x, why)) <$> xs) |}.
Definition waiters_of (key : string) (w : World) : list Waiter := default [] (in_flight (st w) !! key).

Inductive Action :=
  | Submit (key : option string) (r : Request) (x : Waiter)
  | Enqueue (i : nat) | Rollback (i : nat)
  | SetFlag (f : nat) | Sweep (key : string)
  | Prioritize (keys : list string)
  | Take | Pull (page : Z -> Z -> option (list Request))
  | Finish (i : nat) (result : option Loaded) | Release | Deliver (i : nat)
  | StartPrewarm | Redirect (o : Z) | SetPrewarmSize (s : ThumbnailSize)
  | Invalidate (keys : list string) (exif : option string) | Clear | Shutdown.
Definition with_key (key : string) (r : Request) : Request :=
  {| r_tier := r_tier r; r_key := key; r_uri := r_uri r; r_size := r_size r; r_mtime := r_mtime r; r_media_id := r_media_id r |}.
Definition act (a : Action) (w : World) : World :=
  match a with
  | Submit key r x =>
      let w := submit x w in
      if is_cancelled (flags w) x then discard [x] Cancelled w
      else match key with
           | None => discard [x] NoKey w
           | Some key =>
               let '(res, s) := register key x (st w) in
               let w := with_st s w in
               match res with
               | Hit l => answer x l w
               | Joined => w
               | New => with_pending (requesting w ++ [with_key key r]) (refused w) w
               end
           end
  | Enqueue i =>
      match (requesting w !! i : option Request) with
      | None => w
      | Some r =>
          let '(queued, q') := enqueue capacity r (q w) in
          with_pending (delete i (requesting w)) (if queued then refused w else refused w ++ [r_key r]) (with_q q' w)
      end
  | Rollback i =>
      match (refused w !! i : option string) with
      | None => w
      | Some key => with_pending (requesting w) (delete i (refused w)) (with_st (drop_in_flight key (st w)) (discard (waiters_of key w) Full w))
      end
  | SetFlag f => with_flags ({[f]} ∪ flags w) w
  | Sweep key =>
      let '(s, q') := sweep (flags w) key (st w) (q w) in
      with_st s (with_q q' (discard (base.filter (fun x => is_cancelled (flags w) x = true) (waiters_of key w)) Cancelled w))
  | Prioritize keys => with_q (prioritize_keys (q w) keys) w
  | Take =>
      let '(item, q') := next_request (q w) in
      let w := with_q q' w in
      match item with Some item => with_working (working w ++ [(item, false)]) (releasing w) w | None => w end
  | Pull page =>
      if enabled (bg w) && negb (puller_busy (bg w)) then
        let '(b, s, q', first) := pull_batch_and_enqueue page (set_busy true (bg w)) (st w) (q w) in
        let w := with_st s (with_q q' w) in
        match first with
        | Some item => with_working (working w ++ [(item, true)]) (releasing w) (with_bg b w)
        | None => with_bg (set_busy false b) w
        end
      else w
  | Finish i result =>
      match (working w !! i : option (PriItem * bool)) with
      | None => w
      | Some (item, owns) =>
          let w := with_working (delete i (working w)) (if owns then S (releasing w) else releasing w) w in
          match result with
          | Some l => let '(taken, s) := finish item l (st w) in with_delivering (delivering w ++ ((fun x => (x, l)) <$> taken)) (with_st s w)
          | None => with_st (drop_in_flight (cache_key item) (st w)) (discard (waiters_of (cache_key item) w) Failed w)
          end
      end
  | Release => match releasing w with O => w | S n => with_bg (set_busy false (bg w)) (with_working (working w) n w) end
  | Deliver i =>
      match (delivering w !! i : option (Waiter * Loaded)) with
      | None => w
      | Some (x, l) =>
          let w := with_delivering (delete i (delivering w)) w in
          if is_cancelled (flags w) x then discard [x] Cancelled w else answer x l w
      end
  | StartPrewarm => with_bg {| enabled := true; puller_busy := puller_busy (bg w); offset := 0; prewarm_size := prewarm_size (bg w); worker_count := worker_count (bg w) |} w
  | Redirect o => with_bg (set_offset o (bg w)) w
  | SetPrewarmSize s =>
      if bool_decide (prewarm_size (bg w) = s) then w
      else with_bg {| enabled := enabled (bg w); puller_busy := puller_busy (bg w); offset := 0; prewarm_size := s; worker_count := worker_count (bg w) |} w
  | Invalidate keys exif => with_st (invalidate_cached_thumbnail keys exif (st w)) w
  | Clear => with_st (clear_mem_cache (st w)) (discard (concat (map_to_list (in_flight (st w))).*2) Cleared w)
  | Shutdown => with_q {| heap := heap (q w); queued := queued (q w); next_seq := next_seq (q w); closed := true |} w
  end.
Definition run (w : World) (actions : list Action) : World := foldl (fun w a => act a w) w actions.
Definition initial (cache : Lru) : World :=
  {| st := {| mem_cache := cache; prewarm_mem_cache := cache; exif_cache := cache; in_flight := ∅ |};
     q := {| heap := []; queued := ∅; next_seq := 0; closed := false |};
     bg := {| enabled := false; puller_busy := false; offset := 0; prewarm_size := Small; worker_count := 1 |};
     flags := ∅; requesting := []; refused := []; working := []; releasing := 0; delivering := []; submitted := []; replied := []; dropped := [] |}.

(** ** What each section does to the waiters *)
Lemma load_in_flight key s : in_flight (load_mem_cached_locked key s).2 = in_flight s.
Proof. unfold load_mem_cached_locked. destruct (lru_get _ _) as [[l|] mem]; [done|]. by destruct (lru_pop _ _) as [[l|] pre]. Qed.
Lemma register_in_flight key x s : match register key x s with
  | (Hit _, s') => in_flight s' = in_flight s
  | (Joined, s') => exists ws, in_flight s !! key = Some ws /\ in_flight s' = <[key := ws ++ [x]]> (in_flight s)
  | (New, s') => in_flight s !! key = None /\ in_flight s' = <[key := [x]]> (in_flight s) end.
Proof.
  unfold register. pose proof (load_in_flight key s) as E. destruct (load_mem_cached_locked key s) as [[l|] s']; [exact E|]. cbn in E.
  destruct (in_flight s' !! key) as [ws|] eqn:Ek; rewrite <- E; [by exists ws|done].
Qed.
(** The waiters of a map of waiter lists. *)
Definition waiting (m : gmap string (list Waiter)) : list Waiter := concat (map_to_list m).*2.
Lemma waiting_insert m key ws : waiting (<[key := ws]> m) ≡ₚ ws ++ waiting (delete key m).
Proof. unfold waiting. rewrite <- insert_delete_eq, map_to_list_insert by apply lookup_delete_eq. done. Qed.
Lemma waiting_delete m key : waiting m ≡ₚ default [] (m !! key) ++ waiting (delete key m).
Proof.
  destruct (m !! key) as [ws|] eqn:E; cbn [default].
  - rewrite <- (insert_id m key ws E) at 1. apply waiting_insert.
  - by rewrite delete_id.
Qed.
Lemma waiting_empty : waiting ∅ = [].
Proof. unfold waiting. by rewrite map_to_list_empty. Qed.
Lemma filter_split (P : Waiter -> bool) ws : ws ≡ₚ base.filter (fun x => P x = true) ws ++ base.filter (fun x => P x = false) ws.
Proof.
  induction ws as [|x ws IH]; [done|]. destruct (P x) eqn:E.
  - rewrite filter_cons_True, (filter_cons_False _ x) by congruence. cbn [app]. by rewrite <- IH.
  - rewrite filter_cons_False, (filter_cons_True _ x) by congruence. rewrite <- Permutation_middle. by rewrite <- IH.
Qed.
Lemma sweep_waiting fl key s qu : let '(s', _) := sweep fl key s qu in
  waiting (in_flight s) ≡ₚ base.filter (fun x => is_cancelled fl x = true) (default [] (in_flight s !! key)) ++ waiting (in_flight s').
Proof.
  unfold sweep. destruct (in_flight s !! key) as [ws|] eqn:E; [|done]. cbn [default]. 
  assert (H : waiting (in_flight s) ≡ₚ base.filter (fun x => is_cancelled fl x = true) ws ++ base.filter (fun x => is_cancelled fl x = false) ws ++ waiting (delete key (in_flight s))).
  { rewrite (waiting_delete (in_flight s) key), E. cbn [default]. by rewrite (filter_split (is_cancelled fl) ws) at 1; rewrite app_assoc. }
  destruct (base.filter (fun x => is_cancelled fl x = false) ws) as [|y ys]; [destruct (queued qu !! key)|]; cbn [in_flight set_in_flight]; rewrite H, ?waiting_insert; done.
Qed.
Lemma pull_items_waiting rs acc : waiting (in_flight (foldl pull_item acc rs).1.1) ≡ₚ waiting (in_flight acc.1.1).
Proof.
  revert acc. induction rs as [|r rs IH]; intros [[s qu] first]; [done|]. cbn [foldl]. rewrite IH. unfold pull_item.
  destruct (in_flight s !! r_key r) eqn:E1; [rewrite bool_decide_true by eauto; done|]. rewrite bool_decide_false by (by intros [? ?]). cbn [orb].
  destruct (bool_decide (is_Some (queued qu !! r_key r))); [done|]. destruct first; [destruct (_ <? _)%nat|]; cbn [fst in_flight set_in_flight]; rewrite ?waiting_insert, ?delete_id by done; done.
Qed.
Lemma pull_waiting page b s qu : waiting (in_flight (pull_batch_and_enqueue page b s qu).1.1.2) ≡ₚ waiting (in_flight s).
Proof.
  unfold pull_batch_and_enqueue. destruct (page _ _) as [[|r rs]|]; [done| |done]. pose proof (pull_items_waiting (r :: rs) (s, qu, None)) as E.
  destruct (foldl pull_item _ _) as [[s' q'] first]. exact E.
Qed.
Lemma invalidate_in_flight keys exif s : in_flight (invalidate_cached_thumbnail keys exif s) = in_flight s.
Proof. unfold invalidate_cached_thumbnail. cbn [in_flight]. revert s. induction keys as [|k keys IH]; intros s; [done|]. cbn [foldl]. by rewrite IH. Qed.
Lemma finish_spec item l s : let '(taken, s') := finish item l s in
  taken = default [] (in_flight s !! cache_key item) /\ in_flight s' = delete (cache_key item) (in_flight s).
Proof. unfold finish. by destruct (tier item =? TIER_BACKGROUND). Qed.

(** Where every caller is. *)
Definition accounted (w : World) : list Waiter := waiting (in_flight (st w)) ++ (delivering w).*1 ++ (replied w).*1 ++ (dropped w).*1.
Lemma fmap_pair_fst {A B} (xs : list A) (b : B) : ((fun x => (x, b)) <$> xs).*1 = xs.
Proof. induction xs; cbn; congruence. Qed.
Definition conserved (w : World) : Prop := submitted w ≡ₚ accounted w.
Lemma act_conserved a w : conserved w -> conserved (act a w).
Proof.
  unfold conserved, accounted. intros H. destruct a; cbn [act].
  - destruct (is_cancelled _ _); [cbn; rewrite H, fmap_app; cbn; solve_Permutation|]. destruct key as [key|]; [|cbn; rewrite H, fmap_app; cbn; solve_Permutation].
    cbn [st submit]. pose proof (register_in_flight key x (st w)) as Hr. destruct (register key x (st w)) as [[l| |] s].
    + cbn. rewrite H, Hr, fmap_app. cbn. solve_Permutation.
    + destruct Hr as (ws & E & Hs). cbn. rewrite H, Hs, waiting_insert, (waiting_delete (in_flight (st w)) key), E. cbn. solve_Permutation.
    + destruct Hr as [E Hs]. cbn. rewrite H, Hs, waiting_insert, delete_id by done. cbn. solve_Permutation.
  - destruct (requesting w !! i) as [r|]; [|done]. by destruct (enqueue capacity r (q w)).
  - destruct (refused w !! i) as [key|]; [|done]. cbn. unfold waiters_of. rewrite H, (waiting_delete (in_flight (st w)) key), fmap_app, fmap_pair_fst. solve_Permutation.
  - exact H.
  - pose proof (sweep_waiting (flags w) key (st w) (q w)) as E. destruct (sweep _ _ _ _) as [s' q']. cbn. unfold waiters_of. rewrite H, E, fmap_app, fmap_pair_fst. solve_Permutation.
  - exact H.
  - destruct (next_request (q w)) as [[item|] q']; exact H.
  - destruct (_ && _); [|done]. pose proof (pull_waiting page (set_busy true (bg w)) (st w) (q w)) as E.
    destruct (pull_batch_and_enqueue _ _ _ _) as [[[b s'] q'] [item|]]; cbn in *; by rewrite H, E.
  - destruct (working w !! i) as [[item owns]|]; [|done]. destruct result as [l|].
    + pose proof (finish_spec item l (st w)) as E. cbn [st with_working]. destruct (finish item l (st w)) as [taken s']. destruct E as [-> E].
      cbn. rewrite H, E, (waiting_delete (in_flight (st w)) (cache_key item)), fmap_app, fmap_pair_fst. solve_Permutation.
    + cbn. unfold waiters_of. rewrite H, (waiting_delete (in_flight (st w)) (cache_key item)), fmap_app, fmap_pair_fst. solve_Permutation.
  - by destruct (releasing w).
  - destruct (delivering w !! i) as [[x l]|] eqn:E; [|done]. apply delete_Permutation in E.
    assert (E' : (delivering w).*1 ≡ₚ x :: (delete i (delivering w)).*1) by (by rewrite E at 1).
    destruct (is_cancelled _ x); cbn; rewrite H, E', fmap_app; cbn; solve_Permutation.
  - exact H.
  - exact H.
  - by destruct (bool_decide _).
  - cbn -[invalidate_cached_thumbnail]. by rewrite invalidate_in_flight.
  - cbn. rewrite H, fmap_app, fmap_pair_fst, waiting_empty. unfold waiting. solve_Permutation.
  - exact H.
Qed.

(** ** No waiter is stranded *)
(** The work a key in flight waits for. *)
Definition owed (w : World) (key : string) : Prop :=
  key ∈ r_key <$> requesting w \/ key ∈ refused w \/ is_Some (queued (q w) !! key) \/ key ∈ (fun p => cache_key p.1) <$> working w.
Definition housed (w : World) : Prop := forall key, is_Some (in_flight (st w) !! key) -> owed w key.
Lemma pop_live_queued fuel qu : match pop_live fuel qu with
  | (Some item, qu') => queued qu' = delete (cache_key item) (queued qu) /\ e_tier <$> queued qu !! cache_key item = Some (tier item)
  | (None, qu') => queued qu' = queued qu end.
Proof.
  revert qu. induction fuel as [|fuel IH]; intros qu; [done|]. cbn [pop_live]. destruct (heap_pop (heap qu)) as [[item rest]|]; [|done].
  destruct (bool_decide _) eqn:E; [by apply bool_decide_eq_true in E|]. apply (IH {| heap := rest; queued := queued qu; next_seq := next_seq qu; closed := closed qu |}).
Qed.
Lemma next_request_queued qu : match next_request qu with
  | (Some item, qu') => queued qu' = delete (cache_key item) (queued qu) /\ e_tier <$> queued qu !! cache_key item = Some (tier item)
  | (None, qu') => queued qu' = queued qu end.
Proof. unfold next_request. destruct (closed qu); [done|]. apply pop_live_queued. Qed.
Lemma prioritize_queued keys qu key : is_Some (queued (prioritize_keys qu keys) !! key) <-> is_Some (queued qu !! key).
Proof.
  unfold prioritize_keys. revert qu. induction keys as [|k keys IH]; intros qu; [done|]. cbn [foldl]. rewrite IH. unfold prioritize_key.
  destruct (queued qu !! k) eqn:E; [|done]. destruct (_ =? _); [done|]. cbn [queued]. rewrite lookup_insert_is_Some. destruct (decide (k = key)) as [<-|]; [rewrite E; naive_solver|tauto].
Qed.
(** A key in flight after a pull was in flight before, is queued, or is the pulled item. *)
Lemma pull_items_housed rs acc key : is_Some (in_flight (foldl pull_item acc rs).1.1 !! key) ->
  is_Some (in_flight acc.1.1 !! key) \/ is_Some (queued (foldl pull_item acc rs).1.2 !! key) \/ cache_key <$> (foldl pull_item acc rs).2 = Some key.
Proof.
  assert (Hk : forall rs acc, (is_Some (queued acc.1.2 !! key) -> is_Some (queued (foldl pull_item acc rs).1.2 !! key)) /\
    (forall i, acc.2 = Some i -> (foldl pull_item acc rs).2 = Some i)).
  { clear. intros rs. induction rs as [|r rs IH]; intros [[s qu] first]; [done|]. cbn [foldl]. destruct (IH (pull_item (s, qu, first) r)) as [H1 H2]. split.
    - intros Hq. apply H1. unfold pull_item. destruct (_ || _); [done|]. destruct first; [destruct (_ <? _)%nat|]; cbn [fst snd queued] in *; try done. apply lookup_insert_is_Some. destruct (decide (r_key r = key)); auto.
    - intros i Hi. apply H2. cbn [snd] in *. subst first. unfold pull_item. destruct (_ || _); [done|]. by destruct (_ <? _)%nat. }
  revert acc. induction rs as [|r rs IH]; intros [[s qu] first]; [by left|]. cbn [foldl]. intros H. apply IH in H as [H|[H|H]]; [|by right; left|by right; right].
  unfold pull_item in H |- *. cbn [fst] in *. destruct (_ || _) eqn:E0; [by left|]. destruct first as [i|].
  - destruct (base.size (queued qu) <? capacity)%nat eqn:E; [|by left]. cbn [fst snd in_flight set_in_flight] in H. apply lookup_insert_is_Some in H as [<-|[_ H]]; [|by left].
    right. left. apply Hk. cbn [fst snd queued]. rewrite lookup_insert_eq. by eexists.
  - cbn [fst snd in_flight set_in_flight] in H. apply lookup_insert_is_Some in H as [<-|[_ H]]; [|by left]. right. right.
    erewrite (proj2 (Hk _ _)); [|reflexivity]. done.
Qed.
Lemma pull_queued_mono rs acc key : is_Some (queued acc.1.2 !! key) -> is_Some (queued (foldl pull_item acc rs).1.2 !! key).
Proof.
  revert acc. induction rs as [|r rs IH]; intros [[s qu] first] H; [done|]. cbn [foldl]. apply IH. unfold pull_item. destruct (_ || _); [done|].
  destruct first; [destruct (_ <? _)%nat|]; cbn [fst snd queued] in *; try done. apply lookup_insert_is_Some. destruct (decide (r_key r = key)); auto.
Qed.
Lemma elem_of_delete_list {A} (l : list A) i x y : l !! i = Some x -> y ∈ l -> y = x \/ y ∈ delete i l.
Proof. intros H Hy. pose proof (delete_Permutation l i x H) as E. assert (Hy' : y ∈ x :: delete i l) by (by rewrite <- E). by apply elem_of_cons in Hy'. Qed.
Lemma act_housed a w : housed w -> housed (act a w).
Proof.
  unfold housed. intros H. destruct a; cbn [act].
  - destruct (is_cancelled _ _); [exact H|]. destruct key as [key|]; [|exact H].
    pose proof (register_in_flight key x (st (submit x w))) as Hr. destruct (register key x _) as [[l| |] s]; cbn in *.
    + rewrite Hr. exact H.
    + destruct Hr as (ws & E & ->). intros k Hk. apply H. apply lookup_insert_is_Some in Hk as [<-|[_ Hk]]; [by eexists|done].
    + destruct Hr as [_ ->]. intros k Hk. unfold owed. cbn. rewrite fmap_app, elem_of_app. apply lookup_insert_is_Some in Hk as [<-|[_ Hk]]; [set_solver|]. destruct (H k Hk) as [|[|[|]]]; auto.
  - destruct (requesting w !! i) as [r|] eqn:E; [|exact H]. unfold enqueue. destruct (capacity <=? _)%nat; intros k Hk; destruct (H k Hk) as [Hr|[Hr|[Hr|Hr]]]; unfold owed; cbn;
      rewrite ?elem_of_app, ?lookup_insert_is_Some; try tauto.
    + apply list_elem_of_fmap in Hr as (r' & -> & Hr). apply (elem_of_delete_list _ _ _ _ E) in Hr as [->|Hr]; [set_solver|]. left. by apply list_elem_of_fmap_2.
    + apply list_elem_of_fmap in Hr as (r' & -> & Hr). apply (elem_of_delete_list _ _ _ _ E) in Hr as [->|Hr]; [tauto|]. left. by apply list_elem_of_fmap_2.
    + destruct (decide (r_key r = k)); tauto.
  - destruct (refused w !! i) as [key|] eqn:E; [|exact H]. cbn. intros k Hk. apply lookup_delete_is_Some in Hk as [Hne Hk]. destruct (H k Hk) as [Hr|[Hr|[Hr|Hr]]]; unfold owed; cbn; auto.
    apply (elem_of_delete_list _ _ _ _ E) in Hr as [->|Hr]; [done|auto].
  - exact H.
  - unfold sweep. destruct (in_flight (st w) !! key) as [ws|] eqn:E; [|exact H].
    destruct (base.filter _ ws) as [|y ys]; [destruct (queued (q w) !! key) eqn:Eq|]; cbn; intros k Hk.
    + apply lookup_delete_is_Some in Hk as [Hne Hk]. destruct (H k Hk) as [Hr|[Hr|[Hr|Hr]]]; unfold owed; cbn; auto. right. right. left. by apply lookup_delete_is_Some.
    + apply H. apply lookup_insert_is_Some in Hk as [<-|[_ Hk]]; [by eexists|done].
    + apply H. apply lookup_insert_is_Some in Hk as [<-|[_ Hk]]; [by eexists|done].
  - intros k Hk. destruct (H k Hk) as [Hr|[Hr|[Hr|Hr]]]; unfold owed; cbn; auto. right. right. left. by apply prioritize_queued.
  - pose proof (next_request_queued (q w)) as E. destruct (next_request (q w)) as [[item|] q'].
    + destruct E as [E _]. intros k Hk. destruct (H k Hk) as [Hr|[Hr|[Hr|Hr]]]; unfold owed; cbn; rewrite fmap_app, elem_of_app; auto.
      rewrite E, lookup_delete_is_Some. destruct (decide (cache_key item = k)) as [<-|]; [set_solver|auto].
    + intros k Hk. unfold owed. cbn. rewrite E. by apply H.
  - destruct (_ && _); [|exact H]. unfold pull_batch_and_enqueue. destruct (page _ _) as [[|r rs]|]; [exact H| |exact H].
    pose proof (pull_items_housed (r :: rs) (st w, q w, None)) as E. pose proof (pull_queued_mono (r :: rs) (st w, q w, None)) as E'.
    destruct (foldl pull_item _ _) as [[s' q'] first]. cbn [fst snd] in *.
    assert (Hgoal : forall k, is_Some (in_flight s' !! k) -> (k ∈ r_key <$> requesting w \/ k ∈ refused w \/ is_Some (queued q' !! k) \/ k ∈ (fun p => cache_key p.1) <$> working w) \/ cache_key <$> first = Some k).
    { intros k Hk. destruct (E k Hk) as [Hr|[Hr|Hr]]; [|by left; right; right; left|by right]. left. destruct (H k Hr) as [|[|[|]]]; auto. }
    destruct first as [item|]; intros k Hk; destruct (Hgoal k Hk) as [Hr|Hr]; unfold owed; cbn; try done; rewrite fmap_app, elem_of_app; [tauto|]. injection Hr as <-. set_solver.
  - destruct (working w !! i) as [[item owns]|] eqn:E; [|exact H].
    assert (Hd : forall w', in_flight (st w') = delete (cache_key item) (in_flight (st w)) -> requesting w' = requesting w -> refused w' = refused w -> q w' = q w -> working w' = delete i (working w) ->
      forall k, is_Some (in_flight (st w') !! k) -> owed w' k).
    { intros w' Hs Hreq Href Hq Hwk k. rewrite Hs. intros Hk. apply lookup_delete_is_Some in Hk as [Hne Hk]. unfold owed. rewrite Hreq, Href, Hq, Hwk. destruct (H k Hk) as [Hr|[Hr|[Hr|Hr]]]; auto.
      apply list_elem_of_fmap in Hr as (p & -> & Hr). apply (elem_of_delete_list _ _ _ _ E) in Hr as [->|Hr]; [done|]. right. right. right. apply list_elem_of_fmap. by exists p. }
    destruct result as [l|]; [|by apply Hd]. pose proof (finish_spec item l (st w)) as Ef. cbn [st with_working]. destruct (finish item l (st w)) as [taken s']. destruct Ef as [_ Ef]. by apply Hd.
  - destruct (releasing w); exact H.
  - destruct (delivering w !! i) as [[x l]|]; [|exact H]. destruct (is_cancelled _ _); exact H.
  - exact H.
  - exact H.
  - destruct (bool_decide _); exact H.
  - cbn -[invalidate_cached_thumbnail]. rewrite invalidate_in_flight. exact H.
  - cbn. intros k [? Hk]. by rewrite lookup_empty in Hk.
  - exact H.
Qed.

(** ** The order of the queue *)
Definition no_later (x y : PriItem) : Prop := tier x < tier y \/ tier x = tier y /\ seq x <= seq y.
Lemma priority_no_later x y : match priority_cmp x y with Gt => no_later y x | _ => no_later x y end.
Proof.
  unfold priority_cmp, then_with, no_later. destruct (Z.compare_spec (tier x) (tier y)) as [Et|Et|Et]; [|lia..].
  destruct (Z.compare_spec (seq x) (seq y)) as [Es|Es|Es]; [|lia..]. destruct (String.compare _ _); [|lia..]. destruct (String.compare _ _); [|lia..].
  destruct (Z.compare _ _); [|lia..]. destruct (option_cmp _ _); lia.
Qed.
Lemma heap_pop_spec h : match heap_pop h with None => h = [] | Some (y, rest) => h ≡ₚ y :: rest /\ Forall (no_later y) h end.
Proof.
  induction h as [|x h IH]; [done|]. cbn [heap_pop]. destruct (heap_pop h) as [[y rest]|].
  - destruct IH as [Hp Hall]. pose proof (priority_no_later x y) as Hc. destruct (priority_cmp x y).
    1,2: split; [by rewrite Hp|constructor; [unfold no_later; lia|]]; eapply Forall_impl; [exact Hall|]; unfold no_later in *; intros z Hz; lia.
    split; [rewrite Hp; apply Permutation_swap|]. by constructor.
  - subst h. split; [done|]. constructor; [unfold no_later; lia|done].
Qed.
(** An item that speaks for a queued entry, and every entry has one. *)
Definition current (qu : QueueState) (z : PriItem) : Prop := e_tier <$> queued qu !! cache_key z = Some (tier z).
Definition covered (qu : QueueState) : Prop := forall key e, queued qu !! key = Some e -> exists z, z ∈ heap qu /\ cache_key z = key /\ tier z = e_tier e.
Lemma pop_live_spec fuel qu : covered qu -> (length (heap qu) < fuel)%nat -> match pop_live fuel qu with
  | (Some item, qu') => covered qu' /\ Forall (fun z => current qu z -> no_later item z) (heap qu)
  | (None, qu') => queued qu = ∅ /\ covered qu' end.
Proof.
  revert qu. induction fuel as [|fuel IH]; intros qu Hc Hf; [lia|]. cbn [pop_live]. pose proof (heap_pop_spec (heap qu)) as Hp.
  destruct (heap_pop (heap qu)) as [[y rest]|].
  - destruct Hp as [Hp Hall]. destruct (bool_decide _) eqn:E.
    + split; [|by eapply Forall_impl; [exact Hall|]]. intros key e He. cbn [queued heap] in *. apply lookup_delete_Some in He as [Hne He].
      destruct (Hc key e He) as (z & Hz & Hk & Ht). exists z. split; [|done]. rewrite Hp in Hz. apply elem_of_cons in Hz as [->|Hz]; [done|exact Hz].
    + apply bool_decide_eq_false in E. set (qu' := {| heap := rest; queued := queued qu; next_seq := next_seq qu; closed := closed qu |}).
      assert (Hc' : covered qu').
      { intros key e He. cbn [queued heap qu'] in *. destruct (Hc key e He) as (z & Hz & Hk & Ht). exists z. split; [|done]. rewrite Hp in Hz. apply elem_of_cons in Hz as [->|Hz]; [|exact Hz].
        destruct E. by rewrite Hk, He, Ht. }
      assert (Hl : length (heap qu) = S (length rest)) by (by rewrite Hp). specialize (IH qu' Hc' ltac:(cbn; lia)). destruct (pop_live fuel qu') as [[item|] q''].
      * destruct IH as [H1 H2]. split; [done|]. rewrite Forall_forall in H2 |- *. intros z Hz Hcur. rewrite Hp in Hz. apply elem_of_cons in Hz as [->|Hz]; [done|]. by apply H2.
      * exact IH.
  - split; [|done]. apply map_empty. intros key. destruct (queued qu !! key) eqn:Ek; [|done]. destruct (Hc _ _ Ek) as (z & Hz & _). rewrite Hp in Hz. set_solver.
Qed.
Lemma covered_push item e qu n : covered qu -> tier item = e_tier e ->
  covered {| heap := item :: heap qu; queued := <[cache_key item := e]> (queued qu); next_seq := n; closed := closed qu |}.
Proof.
  intros Hc Ht key e' He. cbn [queued heap] in *. apply lookup_insert_Some in He as [[<- <-]|[_ He]]; [exists item; split; [left|done]|].
  destruct (Hc key e' He) as (z & Hz & Hk & Hzt). exists z. split; [by right|done].
Qed.
Lemma covered_delete qu key : covered qu -> covered {| heap := heap qu; queued := delete key (queued qu); next_seq := next_seq qu; closed := closed qu |}.
Proof. intros Hc k e He. cbn [queued heap] in *. apply lookup_delete_Some in He as [_ He]. by apply Hc. Qed.

(** What holds of the queue and of the worker that prewarms. *)
Definition slots (w : World) : nat := (length (base.filter (fun p : PriItem * bool => p.2 = true) (working w)) + releasing w)%nat.
Record orderly (w : World) : Prop := {
  orderly_covered : covered (q w);
  orderly_size : (base.size (queued (q w)) <= capacity)%nat;
  orderly_slot : slots w = if puller_busy (bg w) then 1%nat else 0%nat;
  orderly_cancelled : Forall (fun p : Waiter * Reason => p.2 = Cancelled -> is_cancelled (flags w) p.1 = true) (dropped w) }.
Lemma enqueue_orderly r qu : covered qu -> (base.size (queued qu) <= capacity)%nat -> covered (enqueue capacity r qu).2 /\ (base.size (queued (enqueue capacity r qu).2) <= capacity)%nat.
Proof.
  intros Hc Hs. unfold enqueue. destruct (capacity <=? _)%nat eqn:E; [done|]. apply Nat.leb_gt in E. split.
  - by apply (covered_push (item_of r _) (entry_of r)).
  - cbn [snd queued]. rewrite map_size_insert. destruct (queued qu !! r_key r); cbn; lia.
Qed.
Lemma prioritize_key_orderly key qu : covered qu -> covered (prioritize_key qu key) /\ base.size (queued (prioritize_key qu key)) = base.size (queued qu).
Proof.
  intros Hc. unfold prioritize_key. destruct (queued qu !! key) as [e|] eqn:E; [|done]. destruct (_ =? _); [done|]. split.
  - by apply (covered_push {| tier := TIER_BOOST; seq := next_seq qu + 1; cache_key := key; uri := e_uri e; size := e_size e; mtime := e_mtime e; media_id := e_media_id e |}
      {| e_tier := TIER_BOOST; e_uri := e_uri e; e_size := e_size e; e_mtime := e_mtime e; e_media_id := e_media_id e |}).
  - cbn [queued]. by rewrite map_size_insert, E.
Qed.
Lemma prioritize_orderly keys qu : covered qu -> covered (prioritize_keys qu keys) /\ base.size (queued (prioritize_keys qu keys)) = base.size (queued qu).
Proof.
  unfold prioritize_keys. revert qu. induction keys as [|k keys IH]; intros qu Hc; [done|]. cbn [foldl]. destruct (prioritize_key_orderly k qu Hc) as [H1 H2].
  rewrite <- H2. by apply IH.
Qed.
Lemma sweep_orderly fl key s qu : covered qu -> covered (sweep fl key s qu).2 /\ (base.size (queued (sweep fl key s qu).2) <= base.size (queued qu))%nat.
Proof.
  intros Hc. unfold sweep. destruct (in_flight s !! key) as [ws|]; [|done]. destruct (base.filter _ ws); [|done]. destruct (queued qu !! key) eqn:E; [|done]. cbn [snd]. split; [by apply covered_delete|].
  cbn [queued]. rewrite map_size_delete, E. lia.
Qed.
Lemma pull_items_orderly rs acc : covered acc.1.2 -> (base.size (queued acc.1.2) <= capacity)%nat ->
  covered (foldl pull_item acc rs).1.2 /\ (base.size (queued (foldl pull_item acc rs).1.2) <= capacity)%nat.
Proof.
  revert acc. induction rs as [|r rs IH]; intros [[s qu] first] Hc Hs; [done|]. cbn [foldl]. apply IH; unfold pull_item; (destruct (_ || _); [done|]); (destruct first; [|done]);
    destruct (base.size (queued qu) <? capacity)%nat eqn:E; try done; cbn [fst snd] in *.
  - by apply (covered_push (item_of r 0) (entry_of r)).
  - apply Nat.ltb_lt in E. cbn [queued]. rewrite map_size_insert. destruct (queued qu !! r_key r); cbn; lia.
Qed.
Lemma next_request_orderly qu : covered qu -> covered (next_request qu).2 /\ (base.size (queued (next_request qu).2) <= base.size (queued qu))%nat.
Proof.
  intros Hc. unfold next_request. destruct (closed qu); [done|]. pose proof (pop_live_spec (S (length (heap qu))) qu Hc ltac:(lia)) as H1. pose proof (pop_live_queued (S (length (heap qu))) qu) as H2.
  destruct (pop_live _ qu) as [[item|] qu']; cbn [snd].
  - destruct H1 as [H1 _], H2 as [H2 _]. split; [done|]. rewrite H2, map_size_delete. destruct (queued qu !! cache_key item); cbn; lia.
  - destruct H1 as [_ H1]. rewrite H2. done.
Qed.
Lemma dropped_orderly w w' xs why : Forall (fun p : Waiter * Reason => p.2 = Cancelled -> is_cancelled (flags w) p.1 = true) (dropped w) -> flags w' = flags w ->
  dropped w' = dropped w ++ ((fun x => (x, why)) <$> xs) -> (why = Cancelled -> Forall (fun x => is_cancelled (flags w) x = true) xs) ->
  Forall (fun p : Waiter * Reason => p.2 = Cancelled -> is_cancelled (flags w') p.1 = true) (dropped w').
Proof.
  intros H Hf Hd Hx. rewrite Hf, Hd, Forall_app. split; [done|]. apply Forall_fmap. rewrite Forall_forall in *. intros x Hin Hw. cbn in *. by apply (Hx Hw).
Qed.
Lemma slots_delete w i item (owns : bool) : working w !! i = Some (item, owns) ->
  length (base.filter (fun p : PriItem * bool => p.2 = true) (working w)) = ((if owns then 1 else 0) + length (base.filter (fun p : PriItem * bool => p.2 = true) (delete i (working w))))%nat.
Proof.
  intros E. apply delete_Permutation in E. rewrite E at 1. destruct owns; [by rewrite filter_cons_True|by rewrite filter_cons_False].
Qed.
Lemma slots_take w item (owns : bool) : length (base.filter (fun p : PriItem * bool => p.2 = true) (working w ++ [(item, owns)])) =
  (length (base.filter (fun p : PriItem * bool => p.2 = true) (working w)) + if owns then 1 else 0)%nat.
Proof. rewrite filter_app, length_app. by destruct owns. Qed.
Lemma act_orderly a w : orderly w -> orderly (act a w).
Proof.
  intros [Hc Hs Hb Hd]. destruct a; cbn [act].
  - destruct (is_cancelled (flags (submit x w)) x) eqn:Ex; [split; [done..|]; apply (dropped_orderly w _ [x] Cancelled); [done..|]; by repeat constructor|].
    destruct key as [key|]; [|split; [done..|]; by apply (dropped_orderly w _ [x] NoKey)]. by destruct (register _ _ _) as [[l| |] s].
  - destruct (requesting w !! i) as [r|]; [|done]. destruct (enqueue_orderly r (q w) Hc Hs) as [H1 H2]. by destruct (enqueue _ _ _) as [b q'].
  - destruct (refused w !! i) as [key|]; [|done]. split; [done..|]. by apply (dropped_orderly w _ (waiters_of key w) Full).
  - split; [done..|]. cbn. eapply Forall_impl; [exact Hd|]. intros [x why] Hx Hw. specialize (Hx Hw). unfold is_cancelled in *. cbn in *. destruct (cancellation x); [|done].
    apply bool_decide_eq_true in Hx. apply bool_decide_eq_true. set_solver.
  - destruct (sweep_orderly (flags w) key (st w) (q w) Hc) as [H1 H2]. destruct (sweep _ _ _ _) as [s' q']. cbn [snd] in *. split; [done|cbn; lia|done|].
    apply (dropped_orderly w _ (base.filter (fun x => is_cancelled (flags w) x = true) (waiters_of key w)) Cancelled); [done..|]. intros _. apply Forall_forall. by intros x [Hx _]%list_elem_of_filter.
  - destruct (prioritize_orderly keys (q w) Hc) as [H1 H2]. split; [done|cbn; lia|done|done].
  - destruct (next_request_orderly (q w) Hc) as [H1 H2]. destruct (next_request (q w)) as [[item|] q']; cbn [snd] in *; (split; [done|cbn; lia| |done]); [|done].
    unfold slots in *. cbn. rewrite slots_take. lia.
  - destruct (_ && _) eqn:E; [|done]. apply andb_prop in E as [_ E]. apply negb_true_iff in E. rewrite E in Hb. unfold pull_batch_and_enqueue.
    destruct (page _ _) as [[|r rs]|]; [by split| |by split]. destruct (pull_items_orderly (r :: rs) (st w, q w, None) Hc Hs) as [H1 H2].
    destruct (foldl pull_item _ _) as [[s' q'] [item|]]; (split; [done|done| |done]); unfold slots in *; cbn; [|done]. rewrite slots_take. lia.
  - destruct (working w !! i) as [[item owns]|] eqn:E; [|done]. unfold slots in Hb. rewrite (slots_delete _ _ _ _ E) in Hb.
    assert (Hb' : (length (base.filter (fun p : PriItem * bool => p.2 = true) (delete i (working w))) + (if owns then S (releasing w) else releasing w))%nat = if puller_busy (bg w) then 1%nat else 0%nat) by (destruct owns; lia).
    destruct result as [l|]; [by destruct (finish _ _ _)|]. split; [done..|]. by apply (dropped_orderly w _ (waiters_of (cache_key item) w) Failed).
  - destruct (releasing w) as [|n] eqn:E; [by split|]. split; [done|done| |done]. unfold slots in *. cbn. rewrite E in Hb. destruct (puller_busy (bg w)); lia.
  - destruct (delivering w !! i) as [[x l]|]; [|done]. destruct (is_cancelled _ x) eqn:Ex; [|done]. split; [done..|]. apply (dropped_orderly w _ [x] Cancelled); [done..|]. by repeat constructor.
  - by split.
  - by split.
  - destruct (bool_decide _); by split.
  - by split.
  - split; [done..|]. by apply (dropped_orderly w _ (concat (map_to_list (in_flight (st w))).*2) Cleared).
  - by split.
Qed.

(** ** Each key has one owner *)
Definition keys {A} (m : gmap string A) : list string := (map_to_list m).*1.
Lemma keys_insert_new {A} (m : gmap string A) k v : m !! k = None -> keys (<[k := v]> m) ≡ₚ k :: keys m.
Proof. intros H. unfold keys. by rewrite map_to_list_insert. Qed.
Lemma keys_delete {A} (m : gmap string A) k : is_Some (m !! k) -> keys m ≡ₚ k :: keys (delete k m).
Proof. intros [v H]. unfold keys. by rewrite <- (map_to_list_delete _ _ _ H). Qed.
Lemma keys_insert_old {A} (m : gmap string A) k v : is_Some (m !! k) -> keys (<[k := v]> m) ≡ₚ keys m.
Proof. intros H. rewrite (keys_delete m k H), <- insert_delete_eq. apply keys_insert_new, lookup_delete_eq. Qed.
Lemma elem_of_keys {A} (m : gmap string A) k : k ∈ keys m <-> is_Some (m !! k).
Proof.
  unfold keys. rewrite list_elem_of_fmap. split; [intros ([k' v] & -> & H%elem_of_map_to_list); by exists v|]. intros [v H]. exists (k, v). split; [done|]. by apply elem_of_map_to_list.
Qed.
Lemma NoDup_keys {A} (m : gmap string A) : NoDup (keys m).
Proof. apply NoDup_fst_map_to_list. Qed.
Definition working_keys (w : World) : list string := (fun p => cache_key p.1) <$> working w.
Definition owners (w : World) : list string := (r_key <$> requesting w) ++ refused w ++ keys (queued (q w)) ++ working_keys w.
Definition owned_once (w : World) : Prop := owners w ≡ₚ keys (in_flight (st w)).
Lemma owner_flying w key : owned_once w -> key ∈ owners w -> is_Some (in_flight (st w) !! key).
Proof. unfold owned_once. intros H Hk. rewrite H in Hk. by apply elem_of_keys. Qed.
Lemma owners_NoDup w : owned_once w -> NoDup (owners w).
Proof. unfold owned_once. intros ->. apply NoDup_keys. Qed.
Lemma fmap_delete_Permutation {A B} (f : A -> B) (l : list A) i x : l !! i = Some x -> f <$> l ≡ₚ f x :: (f <$> delete i l).
Proof. intros H. apply delete_Permutation in H. by rewrite H at 1. Qed.
Lemma prioritize_keys_same ks qu : keys (queued (prioritize_keys qu ks)) ≡ₚ keys (queued qu).
Proof.
  unfold prioritize_keys. revert qu. induction ks as [|k ks IH]; intros qu; [done|]. cbn [foldl]. rewrite IH. unfold prioritize_key. destruct (queued qu !! k) eqn:E; [|done].
  destruct (_ =? _); [done|]. cbn [queued]. apply keys_insert_old. by rewrite E.
Qed.
Definition pulled (first : option PriItem) : list string := match first with Some i => [cache_key i] | None => [] end.
Lemma pull_items_owned rs acc others : others ++ keys (queued acc.1.2) ++ pulled acc.2 ≡ₚ keys (in_flight acc.1.1) ->
  others ++ keys (queued (foldl pull_item acc rs).1.2) ++ pulled (foldl pull_item acc rs).2 ≡ₚ keys (in_flight (foldl pull_item acc rs).1.1).
Proof.
  revert acc. induction rs as [|r rs IH]; intros [[s qu] first] H; [done|]. cbn [foldl]. apply IH. unfold pull_item.
  destruct (bool_decide (is_Some (in_flight s !! r_key r))) eqn:E1; [done|]. destruct (bool_decide (is_Some (queued qu !! r_key r))) eqn:E2; [done|]. cbn [orb].
  apply bool_decide_eq_false in E1, E2. apply eq_None_not_Some in E1. apply eq_None_not_Some in E2. cbn [fst snd] in H.
  destruct first as [i|]; [destruct (_ <? _)%nat; [|done]|]; cbn [fst snd in_flight set_in_flight queued pulled] in *; rewrite (keys_insert_new (in_flight s)), <- H by done.
  - rewrite keys_insert_new by done. solve_Permutation.
  - cbn [cache_key item_of]. solve_Permutation.
Qed.
Lemma act_owned_once a w : a <> Clear -> owned_once w -> owned_once (act a w).
Proof.
  unfold owned_once. intros Ha H. destruct a; cbn [act]; try done.
  - destruct (is_cancelled _ _); [exact H|]. destruct key as [key|]; [|exact H].
    pose proof (register_in_flight key x (st (submit x w))) as Hr. destruct (register key x _) as [[l| |] s]; cbn in *.
    + by rewrite Hr.
    + destruct Hr as (ws & E & ->). rewrite keys_insert_old by (by eexists). exact H.
    + destruct Hr as [E ->]. rewrite keys_insert_new, <- H by done. unfold owners. cbn. rewrite fmap_app. cbn. unfold working_keys. cbn. solve_Permutation.
  - destruct (requesting w !! i) as [r|] eqn:E; [|exact H]. pose proof (fmap_delete_Permutation r_key _ _ _ E) as Ep. pose proof (owners_NoDup w H) as Hnd. unfold owners, working_keys in *.
    unfold enqueue. destruct (capacity <=? _)%nat; cbn; rewrite <- H, Ep; [solve_Permutation|].
    assert (Hn : queued (q w) !! r_key r = None).
    { destruct (queued (q w) !! r_key r) eqn:Eq; [|done]. assert (Hin : r_key r ∈ keys (queued (q w))) by (apply elem_of_keys; by eexists). rewrite Ep in Hnd. cbn in Hnd. apply NoDup_cons in Hnd as [Hno _]. set_solver. }
    rewrite keys_insert_new by done. solve_Permutation.
  - destruct (refused w !! i) as [key|] eqn:E; [|exact H]. assert (Hf : is_Some (in_flight (st w) !! key)).
    { apply owner_flying; [exact H|]. unfold owners. rewrite !elem_of_app. right. left. by eapply list_elem_of_lookup_2. }
    apply delete_Permutation in E. unfold owners, working_keys in *. cbn. apply (Permutation_cons_inv (a := key)). rewrite <- keys_delete, <- H by done. rewrite E at 2. solve_Permutation.
  - unfold sweep. destruct (in_flight (st w) !! key) as [ws|] eqn:E; [|exact H].
    destruct (base.filter _ ws) as [|y ys]; [destruct (queued (q w) !! key) eqn:Eq|]; unfold owners, working_keys in *; cbn; try (rewrite keys_insert_old by (by eexists); exact H).
    apply (Permutation_cons_inv (a := key)). rewrite <- keys_delete, <- H by (by eexists). rewrite (keys_delete (queued (q w)) key) by (by eexists). solve_Permutation.
  - unfold owners, working_keys in *. cbn. by rewrite prioritize_keys_same.
  - pose proof (next_request_queued (q w)) as E. destruct (next_request (q w)) as [[item|] q']; unfold owners, working_keys in *; cbn.
    + destruct E as [E E2]. rewrite E, fmap_app, <- H. cbn. rewrite (keys_delete (queued (q w)) (cache_key item)); [solve_Permutation|]. destruct (queued (q w) !! cache_key item); [by eexists|done].
    + by rewrite E.
  - destruct (_ && _); [|exact H]. unfold pull_batch_and_enqueue. destruct (page _ _) as [[|r rs]|]; [exact H| |exact H].
    pose proof (pull_items_owned (r :: rs) (st w, q w, None) ((r_key <$> requesting w) ++ refused w ++ working_keys w)) as E. cbn [fst snd pulled] in E.
    destruct (foldl pull_item _ _) as [[s' q'] first]. cbn [fst snd] in E. unfold owners, working_keys in *.
    destruct first as [item|]; cbn; (rewrite <- E; [|rewrite <- H; solve_Permutation]); cbn [pulled]; rewrite ?fmap_app; cbn; solve_Permutation.
  - destruct (working w !! i) as [[item owns]|] eqn:E; [|exact H]. pose proof (fmap_delete_Permutation (fun p => cache_key p.1) _ _ _ E) as Ep. cbn in Ep.
    assert (Hf : is_Some (in_flight (st w) !! cache_key item)).
    { apply owner_flying; [exact H|]. unfold owners, working_keys. rewrite Ep. set_solver. }
    assert (Hg : (r_key <$> requesting w) ++ refused w ++ keys (queued (q w)) ++ ((fun p : PriItem * bool => cache_key p.1) <$> delete i (working w)) ≡ₚ keys (delete (cache_key item) (in_flight (st w)))).
    { apply (Permutation_cons_inv (a := cache_key item)). rewrite <- keys_delete, <- H by done. unfold owners, working_keys. rewrite Ep. solve_Permutation. }
    destruct result as [l|]; [|exact Hg]. pose proof (finish_spec item l (st w)) as Ef. cbn [st with_working]. destruct (finish item l (st w)) as [taken s']. destruct Ef as [_ Ef].
    unfold owners, working_keys in *. cbn. by rewrite Ef.
  - destruct (releasing w); exact H.
  - destruct (delivering w !! i) as [[x l]|]; [|exact H]. destruct (is_cancelled _ _); exact H.
  - destruct (bool_decide _); exact H.
  - unfold owners, working_keys in *. cbn -[invalidate_cached_thumbnail]. by rewrite invalidate_in_flight.
Qed.

(** ** Runs *)
Lemma run_ind (P : World -> Prop) (ok : Action -> Prop) w actions : P w -> (forall a w, ok a -> P w -> P (act a w)) -> Forall ok actions -> P (run w actions).
Proof. intros Hw Hstep Hok. unfold run. revert w Hw. induction Hok as [|a actions Ha _ IH]; intros w Hw; [done|]. cbn [foldl]. apply IH. by apply Hstep. Qed.
Lemma all_ok actions : Forall (fun _ : Action => True) actions.
Proof. by apply Forall_true. Qed.
Lemma run_app w a b : run w (a ++ b) = run (run w a) b.
Proof. apply foldl_app. Qed.
Lemma initial_conserved c : conserved (initial c).
Proof. unfold conserved, accounted. cbn. by rewrite waiting_empty. Qed.
Lemma initial_housed c : housed (initial c).
Proof. intros key [? H]. cbn in H. by rewrite lookup_empty in H. Qed.
Lemma initial_orderly c : orderly (initial c).
Proof. split; [|cbn; rewrite map_size_empty; lia|done|by cbn]. intros key e H. cbn in H. by rewrite lookup_empty in H. Qed.
Lemma initial_owned c : owned_once (initial c).
Proof. unfold owned_once, owners, working_keys, keys. cbn. by rewrite !map_to_list_empty. Qed.

(** The steps of requests under way and of workers whose decoder is [decode]. *)
Definition serving (decode : PriItem -> option Loaded) (w : World) (a : Action) : Prop :=
  match a with
  | Enqueue _ | Rollback _ | Take | Deliver _ => True
  | Finish i result => forall item owns, working w !! i = Some (item, owns) -> result = decode item
  | _ => False
  end.
Fixpoint serves (decode : PriItem -> option Loaded) (w : World) (more : list Action) : Prop :=
  match more with [] => True | a :: more => serving decode w a /\ serves decode (act a w) more end.
Lemma serves_app decode w a b : serves decode w a -> serves decode (run w a) b -> serves decode w (a ++ b).
Proof. revert w. induction a as [|x a IH]; intros w; [done|]. intros [H1 H2] H3. split; [done|]. by apply IH. Qed.
(** Repeating a step until a measure is exhausted. *)
Lemma stage decode (next : World -> Action) (m : World -> nat) (P : World -> Prop) w :
  (forall w, P w -> m w <> 0%nat -> serving decode w (next w) /\ P (act (next w) w) /\ (m (act (next w) w) < m w)%nat) -> P w ->
  exists more, serves decode w more /\ P (run w more) /\ m (run w more) = 0%nat.
Proof.
  intros Hstep. remember (m w) as n eqn:Hn. revert w Hn. induction n as [n IH] using lt_wf_ind. intros w -> Hw. destruct (decide (m w = 0)%nat) as [H0|H0]; [by exists []|].
  destruct (Hstep w Hw H0) as (Ha & Hp & Hlt). destruct (IH _ Hlt _ eq_refl Hp) as (more & H1 & H2 & H3). by exists (next w :: more).
Qed.
(** What the stages keep: the invariants, the callers, and an open queue. *)
Record going (callers : list Waiter) (w : World) : Prop := {
  going_orderly : orderly w; going_housed : housed w; going_conserved : conserved w; going_open : closed (q w) = false; going_callers : submitted w = callers }.
Lemma next_request_closed qu : closed (next_request qu).2 = closed qu.
Proof.
  unfold next_request. destruct (closed qu) eqn:E; [done|]. rewrite <- E. clear E. generalize (S (length (heap qu))) as fuel. intros fuel. revert qu. induction fuel as [|fuel IH]; intros qu; [done|]. cbn [pop_live].
  destruct (heap_pop _) as [[item rest]|]; [|done]. destruct (bool_decide _); [done|]. by rewrite IH.
Qed.
Lemma going_act callers a decode w : serving decode w a -> going callers w -> going callers (act a w).
Proof.
  intros Ha [H1 H2 H3 H4 H5]. split; [by apply act_orderly|by apply act_housed|by apply act_conserved| |]; destruct a; try done; cbn [act].
  - destruct (requesting w !! i) as [r|]; [|done]. unfold enqueue. by destruct (_ <=? _)%nat.
  - by destruct (refused w !! i).
  - pose proof (next_request_closed (q w)) as E. destruct (next_request (q w)) as [[item|] q']; cbn in *; congruence.
  - destruct (working w !! i) as [[item owns]|]; [|done]. destruct result; [|done]. by destruct (finish _ _ _).
  - destruct (delivering w !! i) as [[x l]|]; [|done]. by destruct (is_cancelled _ _).
  - destruct (requesting w !! i) as [r|]; [|done]. by destruct (enqueue _ _ _).
  - by destruct (refused w !! i).
  - by destruct (next_request (q w)) as [[item|] q'].
  - destruct (working w !! i) as [[item owns]|]; [|done]. destruct result; [|done]. by destruct (finish _ _ _).
  - destruct (delivering w !! i) as [[x l]|]; [|done]. by destruct (is_cancelled _ _).
Qed.
Lemma take_serves w : orderly w -> closed (q w) = false -> queued (q w) <> ∅ ->
  exists item q', next_request (q w) = (Some item, q') /\ (base.size (queued q') < base.size (queued (q w)))%nat.
Proof.
  intros [Hc _ _ _] Ho Hne. pose proof (next_request_queued (q w)) as H2. unfold next_request in *. rewrite Ho in *. pose proof (pop_live_spec (S (length (heap (q w)))) (q w) Hc ltac:(lia)) as H1.
  destruct (pop_live _ (q w)) as [[item|] q']; [|by destruct H1]. exists item, q'. split; [done|]. destruct H2 as [-> H2]. rewrite map_size_delete.
  destruct (queued (q w) !! cache_key item) eqn:E; [|done]. cbn. assert (base.size (queued (q w)) <> 0%nat) by (by rewrite map_size_non_empty_iff). lia.
Qed.

Lemma stage_enqueue callers decode w : going callers w -> exists more, serves decode w more /\ going callers (run w more) /\ requesting (run w more) = [].
Proof.
  intros Hw. destruct (stage decode (fun _ => Enqueue 0) (fun w => length (requesting w)) (going callers) w) as (more & H1 & H2 & H3%nil_length_inv); [|done|by exists more].
  intros v Hv Hm. split; [done|]. split; [by apply (going_act _ _ decode)|]. cbn [act]. destruct (requesting v) as [|r rs] eqn:E; [done|]. cbn. destruct (enqueue _ _ _). cbn. lia.
Qed.
Lemma stage_rollback callers decode w : going callers w -> requesting w = [] ->
  exists more, serves decode w more /\ (going callers (run w more) /\ requesting (run w more) = []) /\ refused (run w more) = [].
Proof.
  intros Hw Hr. destruct (stage decode (fun _ => Rollback 0) (fun w => length (refused w)) (fun w => going callers w /\ requesting w = []) w) as (more & H1 & H2 & H3%nil_length_inv); [|done|by exists more].
  intros v [Hv Hq] Hm. split; [done|]. split; [split; [by apply (going_act _ _ decode)|]|]; cbn [act]; (destruct (refused v) as [|r rs] eqn:E; [done|]); cbn; [done|lia].
Qed.
Lemma stage_take callers decode w : going callers w -> requesting w = [] -> refused w = [] ->
  exists more, serves decode w more /\ (going callers (run w more) /\ requesting (run w more) = [] /\ refused (run w more) = []) /\ base.size (queued (q (run w more))) = 0%nat.
Proof.
  intros Hw Hr Hf. apply (stage decode (fun _ => Take) (fun w => base.size (queued (q w))) (fun w => going callers w /\ requesting w = [] /\ refused w = [])); [|done].
  intros v (Hv & Hq & Hf') Hm. split; [done|]. assert (Hne : queued (q v) <> ∅) by (intros E; apply Hm; rewrite E; apply map_size_empty).
  destruct (take_serves v (going_orderly _ _ Hv) (going_open _ _ Hv) Hne) as (item & q' & E & Hlt). split; [split; [by apply (going_act _ _ decode)|]|]; cbn [act]; rewrite E; cbn; [done|exact Hlt].
Qed.
Definition finish_first (decode : PriItem -> option Loaded) (w : World) : Action :=
  Finish 0 (match working w with (item, _) :: _ => decode item | [] => None end).
Lemma stage_finish callers decode w : going callers w -> requesting w = [] -> refused w = [] -> queued (q w) = ∅ ->
  exists more, serves decode w more /\ (going callers (run w more) /\ requesting (run w more) = [] /\ refused (run w more) = [] /\ queued (q (run w more)) = ∅) /\ length (working (run w more)) = 0%nat.
Proof.
  intros Hw Hr Hf Hq. apply (stage decode (finish_first decode) (fun w => length (working w)) (fun w => going callers w /\ requesting w = [] /\ refused w = [] /\ queued (q w) = ∅)); [|done].
  intros v (Hv & Hr' & Hf' & Hq') Hm. unfold finish_first. destruct (working v) as [|[item owns] rest] eqn:E; [done|].
  assert (Hs : serving decode v (Finish 0 (decode item))) by (cbn; rewrite E; by intros ? ? [= -> ->]). split; [done|]. split; [split; [by apply (going_act _ _ decode)|]|]; cbn [act]; rewrite E; cbn;
    (destruct (decode item) as [l|]; [destruct (finish item l (st v))|]); cbn; (done || lia).
Qed.
Lemma stage_deliver callers decode w : going callers w -> requesting w = [] /\ refused w = [] /\ queued (q w) = ∅ /\ working w = [] ->
  exists more, serves decode w more /\ (going callers (run w more) /\ requesting (run w more) = [] /\ refused (run w more) = [] /\ queued (q (run w more)) = ∅ /\ working (run w more) = []) /\ length (delivering (run w more)) = 0%nat.
Proof.
  intros Hw Hrest. apply (stage decode (fun _ => Deliver 0) (fun w => length (delivering w)) (fun w => going callers w /\ requesting w = [] /\ refused w = [] /\ queued (q w) = ∅ /\ working w = [])); [|done].
  intros v (Hv & Hr') Hm. split; [done|]. split; [split; [by apply (going_act _ _ decode)|]|]; cbn [act]; (destruct (delivering v) as [|[x l] ds] eqn:E; [done|]); cbn; (destruct (is_cancelled _ _); cbn; (done || lia)).
Qed.
Lemma settled callers w : going callers w -> requesting w = [] /\ refused w = [] /\ queued (q w) = ∅ /\ working w = [] -> delivering w = [] ->
  callers ≡ₚ (replied w).*1 ++ (dropped w).*1.
Proof.
  intros [_ Hh Hc _ <-] (Hr & Hf & Hq & Hw) Hd. unfold conserved, accounted in Hc. rewrite Hc, Hd. assert (He : in_flight (st w) = ∅).
  { apply map_empty. intros key. destruct (in_flight (st w) !! key) eqn:E; [|done]. exfalso. destruct (Hh key) as [H|[H|[[? H]|H]]]; [by eexists|..].
    - rewrite Hr in H. by apply elem_of_nil in H.
    - rewrite Hf in H. by apply elem_of_nil in H.
    - by rewrite Hq, lookup_empty in H.
    - rewrite Hw in H. by apply elem_of_nil in H. }
  by rewrite He, waiting_empty.
Qed.
Lemma going_run c actions : closed (q (run (initial c) actions)) = false -> going (submitted (run (initial c) actions)) (run (initial c) actions).
Proof.
  intros Ho. split; [| | |done|done].
  - apply (run_ind _ (fun _ => True)); [apply initial_orderly|by intros; apply act_orderly|apply all_ok].
  - apply (run_ind _ (fun _ => True)); [apply initial_housed|by intros; apply act_housed|apply all_ok].
  - apply (run_ind _ (fun _ => True)); [apply initial_conserved|by intros; apply act_conserved|apply all_ok].
Qed.

(** C20: A caller of the thumbnail loader is never lost. After any interleaving of
    requests, cancellations, prioritising, prewarming, generation, cache clearing and
    shutdown, every caller is in exactly one place: waiting, about to be answered,
    answered, or refused with a reason; a key somebody waits for has work under way;
    and only callers that raised their flag were dropped as cancelled. *)
Theorem thumbnail_callers_conserved c actions : let w := run (initial c) actions in
  submitted w ≡ₚ waiting (in_flight (st w)) ++ (delivering w).*1 ++ (replied w).*1 ++ (dropped w).*1 /\
  (forall key, is_Some (in_flight (st w) !! key) -> owed w key) /\
  (forall x, (x, Cancelled) ∈ dropped w -> is_cancelled (flags w) x = true).
Proof.
  intros w. split; [|split].
  - apply (run_ind conserved (fun _ => True)); [apply initial_conserved|by intros; apply act_conserved|apply all_ok].
  - apply (run_ind housed (fun _ => True)); [apply initial_housed|by intros; apply act_housed|apply all_ok].
  - assert (H : orderly w) by (apply (run_ind _ (fun _ => True)); [apply initial_orderly|by intros; apply act_orderly|apply all_ok]).
    intros x Hx. pose proof (orderly_cancelled w H) as Hd. rewrite Forall_forall in Hd. by apply (Hd _ Hx).
Qed.
(** The queue serves what is visible first. Unless it was shut down, taking work
    from it fails only when nothing is queued; the item taken speaks for a queued
    entry, no queued entry has a better tier, and among the entries of its tier none
    was queued before it. *)
Theorem queue_serves_visible_first c actions : let w := run (initial c) actions in closed (q w) = false ->
  match next_request (q w) with
  | (Some item, q') => current (q w) item /\ queued q' = delete (cache_key item) (queued (q w)) /\
      (forall key e, queued (q w) !! key = Some e -> tier item <= e_tier e) /\
      (forall z, z ∈ heap (q w) -> current (q w) z -> tier z = tier item -> seq item <= seq z)
  | (None, _) => queued (q w) = ∅
  end.
Proof.
  intros w Ho. pose proof (orderly_covered w (going_orderly _ _ (going_run c actions Ho))) as Hc. pose proof (next_request_queued (q w)) as H2. unfold next_request in *. fold w in Ho, Hc. rewrite Ho in *.
  pose proof (pop_live_spec (S (length (heap (q w)))) (q w) Hc ltac:(lia)) as H1. destruct (pop_live _ (q w)) as [[item|] q']; [|by destruct H1].
  destruct H1 as [_ H1], H2 as [H2 H3]. rewrite Forall_forall in H1. split_and!; [done|done| |].
  - intros key e He. destruct (Hc key e He) as (z & Hz & Hk & Ht). assert (Hcur : current (q w) z) by (unfold current; by rewrite Hk, He, Ht). destruct (H1 z Hz Hcur); lia.
  - intros z Hz Hcur Ht. destruct (H1 z Hz Hcur); lia.
Qed.
(** C21: Every request is settled. From every state the open loader can reach, and
    whatever the decoder answers, the workers and the requests under way have a
    finite number of steps after which every caller has its thumbnail or was
    refused with a reason. *)
Theorem thumbnail_requests_settle c actions decode : let w := run (initial c) actions in closed (q w) = false ->
  exists more, serves decode w more /\ submitted w ≡ₚ (replied (run w more)).*1 ++ (dropped (run w more)).*1.
Proof.
  intros w Ho. pose proof (going_run c actions Ho) as Hw. fold w in Hw. set (callers := submitted w) in *.
  destruct (stage_enqueue callers decode w Hw) as (m1 & S1 & G1 & R1). destruct (stage_rollback callers decode _ G1 R1) as (m2 & S2 & [G2 R2] & F2).
  destruct (stage_take callers decode _ G2 R2 F2) as (m3 & S3 & (G3 & R3 & F3) & Q3). apply map_size_empty_iff in Q3.
  destruct (stage_finish callers decode _ G3 R3 F3 Q3) as (m4 & S4 & (G4 & R4 & F4 & Q4) & W4). apply nil_length_inv in W4.
  destruct (stage_deliver callers decode _ G4) as (m5 & S5 & (G5 & R5) & D5); [done|]. apply nil_length_inv in D5.
  exists (m1 ++ m2 ++ m3 ++ m4 ++ m5). split; [|rewrite !run_app; by apply settled].
  apply serves_app; [done|]. apply serves_app; [done|]. apply serves_app; [done|]. by apply serves_app.
Qed.
(** While the memory cache is not cleared, a thumbnail is generated once at a
    time: no two workers have the same key, a key being generated is not queued
    again, and a key that is queued, requested or being generated is the one key
    its callers wait for. *)
Theorem thumbnail_generated_once c actions : Forall (fun a => a <> Clear) actions -> let w := run (initial c) actions in
  NoDup (working_keys w) /\ (forall key, key ∈ working_keys w -> queued (q w) !! key = None) /\ owners w ≡ₚ keys (in_flight (st w)).
Proof.
  intros Hok w. assert (H : owned_once w) by (apply (run_ind _ (fun a => a <> Clear)); [apply initial_owned|by intros; apply act_owned_once|done]).
  pose proof (owners_NoDup w H) as Hnd. unfold owners in Hnd. rewrite !NoDup_app in Hnd. destruct Hnd as (_ & _ & _ & _ & _ & Hq & Hw). split; [done|]. split; [|done].
  intros key Hk. destruct (queued (q w) !! key) eqn:E; [|done]. exfalso. apply (Hq key); [apply elem_of_keys; by eexists|done].
Qed.
(** The queue never holds more than its capacity and one worker at most prewarms. *)
Lemma thumbnail_queue_bounds c actions : let w := run (initial c) actions in
  (base.size (queued (q w)) <= capacity)%nat /\ (slots w <= 1)%nat.
Proof.
  intros w. assert (H : orderly w) by (apply (run_ind _ (fun _ => True)); [apply initial_orderly|by intros; apply act_orderly|apply all_ok]).
  split; [apply H|]. rewrite (orderly_slot w H). destruct (puller_busy _); lia.
Qed.
End Loader.

(** ** Samples *)
(** A cache that forgets nothing, of thumbnails numbered by their item. *)
Module Sample.
Definition get (key : string) (c : gmap string Z) : option Z * gmap string Z := (c !! key, c).
Definition pop (key : string) (c : gmap string Z) : option Z * gmap string Z := (c !! key, delete key c).
Definition put (key : string) (l : Z) (c : gmap string Z) : gmap string Z := <[key := l]> c.
Definition clear (_ : gmap string Z) : gmap string Z := ∅.
Definition ask (tier media : Z) : Request := {| r_tier := tier; r_key := ""; r_uri := "file:///p.jpg"; r_size := Small; r_mtime := Some 0; r_media_id := media |}.
Definition caller (n : nat) : Waiter := {| reply := n; cancellation := Some n |}.
Notation runs := (run get pop put clear 2).
Definition start : World (Loaded := Z) := initial (∅ : gmap string Z).
(** Two requests, the second brought into view, and a third that finds no room. *)
Definition busy : list (Action (Loaded := Z)) :=
  [Submit (Some "a") (ask 1 1) (caller 1); Enqueue 0; Submit (Some "b") (ask 1 2) (caller 2); Enqueue 0; Submit (Some "c") (ask 1 3) (caller 3); Enqueue 0;
   Submit (Some "a") (ask 1 1) (caller 4); Prioritize ["b"]; SetFlag 4].
(** A key cleared while it is generated is generated again at the same time. *)
Definition cleared : list (Action (Loaded := Z)) :=
  [Submit (Some "a") (ask 1 1) (caller 1); Enqueue 0; Take; Clear; Submit (Some "a") (ask 1 1) (caller 2); Enqueue 0; Take].
End Sample.
Lemma clear_generates_twice : working_keys (Sample.runs Sample.start Sample.cleared) = ["a"; "a"].
Proof. vm_compute. reflexivity. Qed.
Lemma queue_serves_visible_first_witness : closed (q (Sample.runs Sample.start Sample.busy)) = false /\
  match next_request (q (Sample.runs Sample.start Sample.busy)) with
  | (Some item, _) => cache_key item = "b" /\ (forall key e, queued (q (Sample.runs Sample.start Sample.busy)) !! key = Some e -> tier item <= e_tier e)
  | (None, _) => False end.
Proof.
  assert (Ho : closed (q (Sample.runs Sample.start Sample.busy)) = false) by (vm_compute; reflexivity). split; [exact Ho|].
  pose proof (queue_serves_visible_first Sample.get Sample.pop Sample.put Sample.clear 2 ∅ Sample.busy Ho) as H.
  assert (E : cache_key <$> (next_request (q (Sample.runs Sample.start Sample.busy))).1 = Some "b") by (vm_compute; reflexivity).
  fold (@initial Z (gmap string Z) ∅) in H. fold Sample.start in H. destruct (next_request (q (Sample.runs Sample.start Sample.busy))) as [[item|] q']; [|discriminate E].
  split; [by injection E|]. exact (proj1 (proj2 (proj2 H))).
Defined.
Lemma thumbnail_requests_settle_witness : exists more, let w := Sample.runs Sample.start (Sample.busy ++ more) in
  [1; 2; 3; 4]%nat ≡ₚ (reply <$> ((replied w).*1 ++ (dropped w).*1)).
Proof.
  assert (Ho : closed (q (Sample.runs Sample.start Sample.busy)) = false) by (vm_compute; reflexivity).
  destruct (thumbnail_requests_settle Sample.get Sample.pop Sample.put Sample.clear 2 ∅ Sample.busy (fun item => Some (media_id item)) Ho) as (more & _ & H).
  exists more. cbn zeta. rewrite run_app. apply (fmap_Permutation reply) in H. etransitivity; [|exact H].
  assert (E : reply <$> submitted (Sample.runs Sample.start Sample.busy) = [1; 2; 3; 4]%nat) by (vm_compute; reflexivity). rewrite <- E. reflexivity.
Defined.
Lemma thumbnail_generated_once_witness : let w := Sample.runs Sample.start (Sample.busy ++ [Take; Take]) in NoDup (working_keys w) /\ working_keys w = ["b"; "a"].
Proof.
  assert (E : working_keys (Sample.runs Sample.start (Sample.busy ++ [Take; Take])) = ["b"; "a"]) by (vm_compute; reflexivity).
  split; [|exact E]. refine (proj1 (thumbnail_generated_once Sample.get Sample.pop Sample.put Sample.clear 2 ∅ (Sample.busy ++ [Take; Take]) _)). by repeat constructor.
Defined.
End Thumbs.
