(* ===== verification/SearchText.v ===== *)
(** Search terms (the text side of [core/db.rs]): how a term becomes a [LIKE]
    pattern, and what that pattern matches.

    Text is a list of characters, each the UTF-8 bytes of one Unicode scalar
    value; [chars] cuts a string into them. [like] is SQLite's [LIKE] with an
    [ESCAPE] character, which folds the case of ASCII letters only, as [lower]
    does. *)
From Stdlib Require Import Ascii String.
From S2P Require Import Prelude.
From S2P Require Import Media.
Local Open Scope Z_scope.

Module Text.
Local Open Scope string_scope.
Local Open Scope list_scope.

Definition Text := list string.

(** ** Characters *)
Definition continuation (c : ascii) : bool := bool_decide (128 <= Z.of_nat (nat_of_ascii c) < 192).
Fixpoint chars (s : string) : Text :=
  match s with
  | EmptyString => []
  | String c rest =>
      match chars rest with
      | String d h :: t => if continuation d then String c (String d h) :: t else String c "" :: String d h :: t
      | l => String c "" :: l
      end
  end.
Definition byte_char (bytes : list Z) : string :=
  foldr (fun b s => String (ascii_of_nat (Z.to_nat b)) s) "" bytes.
(** Unicode [White_Space], the characters [str::trim] removes. *)
Definition WHITESPACE : list string :=
  (byte_char <$> [[9]; [10]; [11]; [12]; [13]; [32]; [194; 133]; [194; 160]; [225; 154; 128]; [226; 128; 168];
    [226; 128; 169]; [226; 128; 175]; [226; 129; 159]; [227; 128; 128]])
  ++ ((fun k => byte_char [226; 128; 128 + k]) <$> seqZ 0 11).
Definition is_whitespace (c : string) : bool := bool_decide (c ∈ WHITESPACE).

(** [trim_start_matches], [trim_end_matches] and [trim]. *)
Fixpoint trim_start (P : string -> bool) (t : Text) : Text :=
  match t with c :: rest => if P c then trim_start P rest else t | [] => [] end.
Definition trim_end (P : string -> bool) (t : Text) : Text := reverse (trim_start P (reverse t)).
Definition trim (t : Text) : Text := trim_end is_whitespace (trim_start is_whitespace t).

(** ** The pattern of a term *)
(** The replacements of [search_like_pattern]: Chinese year and month marks and
    slashes become dashes, the day mark disappears. *)
Definition normalized_char (c : string) : Text :=
  if bool_decide (c = "年") || bool_decide (c = "月") || bool_decide (c = "/") then ["-"]
  else if bool_decide (c = "日") then [] else [c].
Definition normalized (term : string) : Text :=
  trim_end (fun c => bool_decide (c = "-")) (trim (chars term) ≫= normalized_char).
Definition ESCAPE : string := "\".
Definition escape_char (c : string) : Text :=
  if bool_decide (c = "%") || bool_decide (c = "_") || bool_decide (c = "\") then [ESCAPE; c] else [c].
Definition search_like_pattern (term : string) : Text := "%" :: (normalized term ≫= escape_char) ++ ["%"].

(** ** LIKE *)
Definition lower_char : string -> string := Media.to_ascii_lowercase.
Definition lower (t : Text) : Text := lower_char <$> t.
Definition same_char (a b : string) : bool := bool_decide (lower_char a = lower_char b).
Fixpoint any_suffix (f : Text -> bool) (t : Text) : bool :=
  f t || match t with [] => false | _ :: t => any_suffix f t end.
Fixpoint like (pattern text : Text) : bool :=
  match pattern with
  | [] => bool_decide (text = [])
  | p :: rest =>
      if bool_decide (p = "%") then any_suffix (like rest) text
      else if bool_decide (p = "_") then match text with [] => false | _ :: t => like rest t end
      else if bool_decide (p = ESCAPE) then
        match rest, text with c :: rest, d :: t => same_char c d && like rest t | _, _ => false end
      else match text with [] => false | d :: t => same_char p d && like rest t end
  end.

(** ** What a search matches *)
Definition contains (text sub : Text) : Prop := exists a b, lower text = a ++ lower sub ++ b.

Lemma like_percent rest text : like ("%" :: rest) text = true <-> exists a b, text = a ++ b /\ like rest b = true.
Proof.
  cbn [like]. rewrite bool_decide_true by done. induction text as [|c text IH]; cbn [any_suffix].
  - rewrite orb_false_r. split; [by exists [], []|]. intros (a & b & Heq & H). by destruct a, b.
  - rewrite orb_true_iff, IH. split.
    + intros [H|(a & b & -> & H)]; [by exists [], (c :: text)|by exists (c :: a), b].
    + intros ([|c' a] & b & Heq & H); simplify_eq/=; [by left|]. right. by exists a, b.
Qed.
Lemma like_escaped c rest text :
  like (escape_char c ++ rest) text = match text with [] => false | d :: t => same_char c d && like rest t end.
Proof.
  unfold escape_char. destruct (bool_decide (c = "%") || bool_decide (c = "_") || bool_decide (c = "\")) eqn:E.
  - cbn [app like]. rewrite !(bool_decide_false (ESCAPE = _)) by done. by rewrite bool_decide_true.
  - apply orb_false_elim in E as [[E1 E2]%orb_false_elim E3]. cbn [app like]. unfold ESCAPE. by rewrite E1, E2, E3.
Qed.
Lemma like_literal sub rest text :
  like ((sub ≫= escape_char) ++ rest) text = true <->
  exists a b, text = a ++ b /\ lower a = lower sub /\ like rest b = true.
Proof.
  revert text. induction sub as [|c sub IH]; intros text.
  - split; [by exists [], text|]. by intros ([] & b & -> & [=] & H).
  - rewrite bind_cons, <- app_assoc, like_escaped. destruct text as [|d text].
    + split; [done|]. by intros ([] & b & [=] & [=] & H).
    + rewrite andb_true_iff, IH. unfold same_char. rewrite bool_decide_eq_true. split.
      * intros (Hc & a & b & -> & Ha & H). exists (d :: a), b. split_and!; [done| |done]. unfold lower in *. rewrite !fmap_cons. by f_equal.
      * intros (a & b & Heq & Ha & H). destruct a as [|d' a]; [done|]. unfold lower in *. rewrite !fmap_cons in Ha.
        injection Ha as Hd Ha. injection Heq as -> ->. split; [done|]. by exists a, b.
Qed.

(** A search term matches a text exactly when the text, with ASCII case folded,
    contains the normalised term: the wildcards [%] and [_] and the backslash of
    a term stand for themselves. *)
Lemma like_contains term text : like (search_like_pattern term) text = true <-> contains text (normalized term).
Proof.
  unfold search_like_pattern, contains. rewrite like_percent. split.
  - intros (a & b & -> & (s & r & -> & Hs & _)%like_literal). exists (lower a), (lower r).
    unfold lower in *. by rewrite !fmap_app, Hs.
  - intros (a & b & H). unfold lower in H. apply fmap_app_inv in H as (a' & r & -> & H & ->).
    symmetry in H. apply fmap_app_inv in H as (s & b' & Hs & -> & ->). exists a', (s ++ b'). split; [done|].
    apply like_literal. exists s, b'. split_and!; [done|by unfold lower|]. apply like_percent. exists b', []. by rewrite app_nil_r.
Qed.
Lemma same_char_lower_l c d : same_char (lower_char c) d = same_char c d.
Proof.
  unfold same_char. replace (lower_char (lower_char c)) with (lower_char c); [done|]. induction c as [|x c IH]; [done|].
  unfold lower_char in *. cbn. rewrite <- IH. f_equal. by destruct x as [[] [] [] [] [] [] [] []].
Qed.
Lemma same_char_lower_r c d : same_char c (lower_char d) = same_char c d.
Proof.
  assert (Hsym : forall a b, same_char a b = same_char b a) by (intros; unfold same_char; by apply bool_decide_ext).
  by rewrite Hsym, same_char_lower_l.
Qed.
(** The three characters with a meaning in a pattern have no case. *)
Lemma lower_special c x : x = "%"%char \/ x = "_"%char \/ x = "\"%char ->
  bool_decide (lower_char c = String x "") = bool_decide (c = String x "").
Proof.
  intros Hx. apply bool_decide_ext. destruct c as [|y c]; [done|]. unfold lower_char. cbn. split.
  - intros [= Hy Hc]. destruct c; [|done]. f_equal. destruct Hx as [->|[->| ->]]; by destruct y as [[] [] [] [] [] [] [] []].
  - intros [= -> ->]. by destruct Hx as [->|[->| ->]].
Qed.
(** [lower] on either side does not change what [LIKE] matches. *)
Lemma like_lower pattern text : like (lower pattern) (lower text) = like pattern text.
Proof.
  assert (Hlen : forall n p t, (length p <= n)%nat -> like (lower p) (lower t) = like p t); [|by eapply Hlen].
  induction n as [|n IH]; intros [|c p] t Hn; cbn [length] in Hn; try lia; try by destruct t.
  change (lower (c :: p)) with (lower_char c :: lower p). cbn [like]. unfold ESCAPE. rewrite !lower_special by auto.
  destruct (bool_decide (c = "%")).
  { induction t as [|d t IHt]; cbn [any_suffix]; [by rewrite <- (IH p []) by lia|]. change (lower (d :: t)) with (lower_char d :: lower t).
    cbn [any_suffix]. rewrite IHt. f_equal. apply (IH p (d :: t)). lia. }
  destruct t as [|d t]; [by destruct (bool_decide (c = "_")), (bool_decide (c = "\")), p|]. change (lower (d :: t)) with (lower_char d :: lower t). cbn.
  destruct (bool_decide (c = "_")); [apply IH; lia|]. destruct (bool_decide (c = "\")).
  - destruct p as [|e p]; [done|]. cbn [length] in Hn. change (lower (e :: p)) with (lower_char e :: lower p).
    cbn. rewrite same_char_lower_l, same_char_lower_r. f_equal. apply IH. lia.
  - rewrite same_char_lower_l, same_char_lower_r. f_equal. apply IH. lia.
Qed.
End Text.
