(* ===== verification/SectionModel.v ===== *)
(** * Date sections (src/src/core/section_model.rs)

    Grouping of media by year, month or day, the library-wide section counts
    and the lookup of the section a global media offset falls into. A
    [HashMap<SectionKey, u32>] is a [gmap]; its iteration order is unspecified
    in Rust, so the results below are shown not to depend on it. *)
From S2P Require Import Prelude.
From S2P Require Import Media.
From stdpp Require Import pretty.
Local Open Scope Z_scope.

Module Sections.

Inductive GroupBy := Year | Month | Day.

Record SectionKey := mkKey { year : option Z; month : option Z; day : option Z }.

#[export] Instance SectionKey_eq_dec : EqDecision SectionKey.
Proof. solve_decision. Defined.
#[export] Instance SectionKey_countable : Countable SectionKey.
Proof.
  refine (inj_countable' (fun k => (year k, month k, day k))
            (fun t => mkKey t.1.1 t.1.2 t.2) _).
  by intros [].
Defined.

Inductive Weekday := Sun | Mon | Tue | Wed | Thu | Fri | Sat.

Definition key_for (mode : GroupBy) (y m d : Z) : SectionKey :=
  match mode with
  | Year => mkKey (Some y) None None
  | Month => mkKey (Some y) (Some m) None
  | Day => mkKey (Some y) (Some m) (Some d)
  end.

(** [date_rank]: [None] components sink to the bottom. *)
Definition date_rank (k : SectionKey) : Z * Z * Z :=
  (default I64_MIN (year k), default 0 (month k), default 0 (day k)).

(** Lexicographic order of Rust tuples. *)
Definition rank_le (a b : Z * Z * Z) : Prop :=
  a.1.1 < b.1.1 \/ (a.1.1 = b.1.1 /\ (a.1.2 < b.1.2 \/ (a.1.2 = b.1.2 /\ a.2 <= b.2))).
#[export] Instance rank_le_dec a b : Decision (rank_le a b).
Proof. unfold rank_le. apply _. Defined.

(** Newest first: [sort_unstable_by_key(|(k, _)| Reverse(date_rank(k)))]. *)
Definition newer_first (x y : SectionKey * Z) : Prop :=
  rank_le (date_rank y.1) (date_rank x.1).
#[export] Instance newer_first_dec : RelDecision newer_first.
Proof. intros x y. unfold newer_first. apply _. Defined.

Definition ordered_sections (counts : gmap SectionKey Z) : list (SectionKey * Z) :=
  merge_sort newer_first (map_to_list counts).

(** The walk over the ordered sections, with the running upper bound. *)
Fixpoint section_walk (ordered : list (SectionKey * Z)) (acc offset : Z)
  : option SectionKey :=
  match ordered with
  | [] => None
  | (key, count) :: rest =>
      let upper := u32_saturating_add acc count in
      if offset <? upper then Some key else section_walk rest upper offset
  end.

Definition section_for_global_offset (counts : gmap SectionKey Z) (offset : Z)
  : option SectionKey :=
  if decide (counts = ∅) then None
  else
    let ordered := ordered_sections counts in
    match section_walk ordered 0 offset with
    | Some key => Some key
    | None => fst <$> last ordered
    end.

(** [counts_from_date_groups]: fold full-date counts into the mode's keys. *)
Definition add_date_group (mode : GroupBy) (m : gmap SectionKey Z)
    (g : Z * Z * Z * Z) : gmap SectionKey Z :=
  let '(y, mo, d, count) := g in
  let key := key_for mode y mo d in
  <[key := default 0 (m !! key) + count]> m.

Definition counts_from_date_groups (groups : list (Z * Z * Z * Z)) (mode : GroupBy)
  : gmap SectionKey Z :=
  foldl (add_date_group mode) ∅ groups.

Record MediaSection := mkSection {
  sec_key : SectionKey;
  sec_label : string;
  sec_items : list Media.MediaItem
}.

(** The civil date of a timestamp, the weekday of a civil date ([None] when
    chrono rejects the date) and the translation function are the section's
    parameters: they belong to chrono and to the process-wide locale. *)
Section Grouping.
Context (civil : Z -> Z * Z * Z).
Context (weekday : Z -> Z -> Z -> option Weekday).
Context (trf : string -> list (string * string) -> string).

Definition make_key (item : Media.MediaItem) (mode : GroupBy) : SectionKey :=
  let '(y, m, d) := civil (Media.sort_datetime item) in key_for mode y m d.

Definition weekday_cn (d : Weekday) : string :=
  trf (match d with
       | Sun => "date.weekday.sun"
       | Mon => "date.weekday.mon"
       | Tue => "date.weekday.tue"
       | Wed => "date.weekday.wed"
       | Thu => "date.weekday.thu"
       | Fri => "date.weekday.fri"
       | Sat => "date.weekday.sat"
       end)%string [].

Definition make_label (key : SectionKey) (count : Z) : string :=
  let count_s := pretty count in
  match year key, month key, day key with
  | Some y, Some m, Some d =>
      let wname := default ""%string (weekday_cn <$> weekday y m d) in
      trf "section.label.day"
        [("year"%string, pretty y); ("month"%string, pretty m); ("day"%string, pretty d);
         ("weekday"%string, wname); ("count"%string, count_s)]
  | Some y, Some m, None =>
      trf "section.label.month"
        [("year"%string, pretty y); ("month"%string, pretty m); ("count"%string, count_s)]
  | Some y, None, None =>
      trf "section.label.year" [("year"%string, pretty y); ("count"%string, count_s)]
  | _, _, _ => trf "section.label.unknown" [("count"%string, count_s)]
  end.

Definition make_label_nocount (key : SectionKey) : string :=
  match year key, month key, day key with
  | Some y, Some m, Some d =>
      trf "section.label.day.nocount"
        [("year"%string, pretty y); ("month"%string, pretty m); ("day"%string, pretty d)]
  | Some y, Some m, None =>
      trf "section.label.month.nocount" [("year"%string, pretty y); ("month"%string, pretty m)]
  | Some y, None, None => trf "section.label.year.nocount" [("year"%string, pretty y)]
  | _, _, _ => trf "section.label.unknown.nocount" []
  end.

Definition make_visible_range_label (first_visible last_visible : SectionKey) : string :=
  if decide (first_visible = last_visible) then make_label_nocount first_visible
  else
    let '(start, stop) :=
      if decide (rank_le (date_rank first_visible) (date_rank last_visible))
      then (first_visible, last_visible) else (last_visible, first_visible) in
    (make_label_nocount start +:+ " – " +:+ make_label_nocount stop)%string.

(** The grouping loop: known sections in first-occurrence order, the position
    of each key, and the section of items without any date. *)
Record GroupState := mkGroup {
  sections : list MediaSection;
  section_positions : gmap SectionKey nat;
  unknown_section : option MediaSection
}.

Definition push_item (item : Media.MediaItem) (s : MediaSection) : MediaSection :=
  mkSection (sec_key s) (sec_label s) (sec_items s ++ [item]).

Definition group_step (mode : GroupBy) (st : GroupState) (item : Media.MediaItem)
  : GroupState :=
  let key := make_key item mode in
  if decide (year key = None /\ month key = None /\ day key = None) then
    match unknown_section st with
    | Some sec => mkGroup (sections st) (section_positions st) (Some (push_item item sec))
    | None => mkGroup (sections st) (section_positions st)
                (Some (mkSection key "" [item]))
    end
  else
    match section_positions st !! key with
    | Some idx =>
        mkGroup (alter (push_item item) idx (sections st)) (section_positions st)
          (unknown_section st)
    | None =>
        let idx := length (sections st) in
        mkGroup (sections st ++ [mkSection key "" [item]])
          (<[key := idx]> (section_positions st)) (unknown_section st)
    end.

Definition relabel (s : MediaSection) : MediaSection :=
  mkSection (sec_key s) (make_label (sec_key s) (Z.of_nat (length (sec_items s)))) (sec_items s).

Definition group_items (items : list Media.MediaItem) (mode : GroupBy) : list MediaSection :=
  let st := foldl (group_step mode) (mkGroup [] ∅ None) items in
  let labelled := relabel <$> sections st in
  match unknown_section st with
  | Some sec => labelled ++ [relabel sec]
  | None => labelled
  end.

Definition apply_authoritative_counts (secs : list MediaSection)
    (counts : gmap SectionKey Z) : list MediaSection :=
  (fun sec => match counts !! sec_key sec with
              | Some true_count =>
                  mkSection (sec_key sec) (make_label (sec_key sec) true_count) (sec_items sec)
              | None => sec
              end) <$> secs.

(** *** Reference grouping

    The keys in first-occurrence order, each with the items of that key in
    their original order. *)
Fixpoint first_keys (seen : list SectionKey) (keys : list SectionKey) : list SectionKey :=
  match keys with
  | [] => []
  | k :: ks => if decide (k ∈ seen) then first_keys seen ks
               else k :: first_keys (k :: seen) ks
  end.

Definition items_of (mode : GroupBy) (items : list Media.MediaItem) (k : SectionKey)
  : list Media.MediaItem :=
  filter (fun i => make_key i mode = k) items.

Definition group_reference (items : list Media.MediaItem) (mode : GroupBy)
  : list MediaSection :=
  (fun k => mkSection k (make_label k (Z.of_nat (length (items_of mode items k))))
              (items_of mode items k))
  <$> first_keys [] ((fun i => make_key i mode) <$> items).

Lemma make_key_year item mode : exists y, year (make_key item mode) = Some y.
Proof.
  unfold make_key. destruct (civil _) as [[y m] d]. exists y. by destruct mode.
Qed.

Lemma items_of_app mode xs it k :
  items_of mode (xs ++ [it]) k
  = items_of mode xs k ++ (if decide (make_key it mode = k) then [it] else []).
Proof. unfold items_of. by rewrite filter_app. Qed.

Lemma items_of_app_ne mode xs it k :
  make_key it mode <> k -> items_of mode (xs ++ [it]) k = items_of mode xs k.
Proof. intros Hne. by rewrite items_of_app, decide_False, app_nil_r. Qed.

Lemma items_of_fresh mode xs k :
  k ∉ (fun i => make_key i mode) <$> xs -> items_of mode xs k = [].
Proof.
  intros Hk. destruct (items_of mode xs k) as [|it l] eqn:E; [done|].
  assert (it ∈ items_of mode xs k) as Hin by (rewrite E; left).
  unfold items_of in Hin. apply list_elem_of_filter in Hin as [<- Hin].
  by apply (list_elem_of_fmap_2 (fun i => make_key i mode)) in Hin.
Qed.

Lemma first_keys_snoc seen ks k :
  first_keys seen (ks ++ [k])
  = first_keys seen ks ++ (if decide (k ∈ seen ++ ks) then [] else [k]).
Proof.
  revert seen. induction ks as [|k' ks IH]; intros seen; simpl.
  - rewrite app_nil_r. by destruct (decide _).
  - destruct (decide (k' ∈ seen)).
    + rewrite IH. f_equal. repeat case_decide; set_solver.
    + rewrite IH. simpl. f_equal. f_equal. repeat case_decide; set_solver.
Qed.

Lemma elem_of_first_keys seen ks k :
  k ∈ first_keys seen ks <-> k ∈ ks /\ k ∉ seen.
Proof.
  revert seen. induction ks as [|k' ks IH]; intros seen; simpl.
  - set_solver.
  - case_decide; rewrite ?elem_of_cons, IH, ?not_elem_of_cons;
      destruct (decide (k = k')); naive_solver.
Qed.

Lemma first_keys_NoDup seen ks : NoDup (first_keys seen ks).
Proof.
  revert seen. induction ks as [|k' ks IH]; intros seen; simpl; [constructor|].
  case_decide; [apply IH|]. constructor; [|apply IH].
  rewrite elem_of_first_keys, not_elem_of_cons. naive_solver.
Qed.

(** What the loop has built after a prefix [xs] of the items. *)
Definition keys_of (mode : GroupBy) (xs : list Media.MediaItem) : list SectionKey :=
  first_keys [] ((fun i => make_key i mode) <$> xs).

Record group_inv (mode : GroupBy) (xs : list Media.MediaItem) (st : GroupState) : Prop := {
  gi_unknown : unknown_section st = None;
  gi_positions : forall k i, section_positions st !! k = Some i <-> keys_of mode xs !! i = Some k;
  gi_sections : sections st = (fun k => mkSection k "" (items_of mode xs k)) <$> keys_of mode xs
}.

Lemma keys_of_snoc mode xs it :
  keys_of mode (xs ++ [it])
  = keys_of mode xs ++ (if decide (make_key it mode ∈ keys_of mode xs) then [] else [make_key it mode]).
Proof.
  unfold keys_of. rewrite fmap_app. simpl. rewrite first_keys_snoc. f_equal.
  repeat case_decide; rewrite elem_of_first_keys in *; set_solver.
Qed.

Lemma group_step_old mode xs st it i :
  group_inv mode xs st -> section_positions st !! make_key it mode = Some i ->
  group_inv mode (xs ++ [it])
    (mkGroup (alter (push_item it) i (sections st)) (section_positions st) (unknown_section st)).
Proof.
  intros [Hu Hpos Hsec] Hp. pose proof (proj1 (Hpos _ _) Hp) as Hi.
  assert (Hks : keys_of mode (xs ++ [it]) = keys_of mode xs).
  { rewrite keys_of_snoc, decide_True, app_nil_r; [done|]. by eapply list_elem_of_lookup_2. }
  constructor; simpl; rewrite ?Hks; [done|done|]. rewrite Hsec.
  apply list_eq. intros j. rewrite list_lookup_alter, !list_lookup_fmap.
  case_decide as Hij.
  - subst j. rewrite Hi. simpl. unfold push_item. simpl.
    by rewrite items_of_app, decide_True.
  - destruct (keys_of mode xs !! j) as [k|] eqn:Hj; simpl; [|done].
    rewrite items_of_app_ne; [done|]. intros Heq. subst k. apply Hij.
    by eapply NoDup_lookup; [apply first_keys_NoDup| |].
Qed.

Lemma group_step_new mode xs st it :
  group_inv mode xs st -> section_positions st !! make_key it mode = None ->
  group_inv mode (xs ++ [it])
    (mkGroup (sections st ++ [mkSection (make_key it mode) "" [it]])
       (<[make_key it mode := length (sections st)]> (section_positions st))
       (unknown_section st)).
Proof.
  intros [Hu Hpos Hsec] Hp.
  assert (Hnot : make_key it mode ∉ keys_of mode xs).
  { intros (j & Hj)%list_elem_of_lookup. apply Hpos in Hj. congruence. }
  assert (Hlen : length (sections st) = length (keys_of mode xs)) by by rewrite Hsec, length_fmap.
  constructor; simpl; [done| |]; rewrite keys_of_snoc, decide_False by done.
  - intros k i. rewrite lookup_insert, lookup_snoc_Some, Hlen.
    case_decide as Heq; [subst k|rewrite Hpos]; split.
    + intros [= <-]. by right.
    + intros [[_ Hl]|[-> _]]; [|done]. by apply list_elem_of_lookup_2 in Hl.
    + intros Hl. left. split; [by eapply lookup_lt_Some|done].
    + intros [[_ Hl]|[_ Hl]]; [done|]. by destruct Heq.
  - rewrite fmap_app, Hsec. simpl. f_equal.
    + apply list_fmap_ext. intros j k Hj. f_equal. symmetry. apply items_of_app_ne.
      intros Hk. subst k. by apply list_elem_of_lookup_2 in Hj.
    + rewrite items_of_app, decide_True, items_of_fresh; [done| |done].
      intros Hin. apply Hnot. unfold keys_of. rewrite elem_of_first_keys. set_solver.
Qed.

Lemma group_step_inv mode xs st it :
  group_inv mode xs st -> group_inv mode (xs ++ [it]) (group_step mode st it).
Proof.
  intros Hinv. destruct (make_key_year it mode) as [y Hy].
  unfold group_step. rewrite decide_False by (rewrite Hy; naive_solver).
  destruct (section_positions st !! make_key it mode) as [i|] eqn:Hp.
  - by apply group_step_old.
  - by apply group_step_new.
Qed.

Lemma group_fold_inv mode items :
  group_inv mode items (foldl (group_step mode) (mkGroup [] ∅ None) items).
Proof.
  induction items as [|it xs IH] using rev_ind.
  - constructor; simpl; [done| |done]. intros k i. unfold keys_of. simpl. by rewrite lookup_empty, lookup_nil.
  - rewrite foldl_app. by apply group_step_inv.
Qed.

Lemma group_items_eq_reference items mode :
  group_items items mode = group_reference items mode.
Proof.
  unfold group_items, group_reference. destruct (group_fold_inv mode items) as [-> _ ->].
  rewrite <- list_fmap_compose. apply list_fmap_ext. by intros.
Qed.

End Grouping.

(** ** Counts and global offsets *)

#[export] Instance rank_le_refl : Reflexive rank_le.
Proof. intros x. unfold rank_le. lia. Qed.
#[export] Instance rank_le_trans : Transitive rank_le.
Proof. intros x y z. unfold rank_le. lia. Qed.
#[export] Instance rank_le_total : Total rank_le.
Proof. intros x y. unfold rank_le. lia. Qed.
#[export] Instance rank_le_antisymm : AntiSymm (=) rank_le.
Proof.
  intros [[a b] c] [[a' b'] c']. unfold rank_le. simpl. intros. do 2 f_equal; lia.
Qed.

#[export] Instance newer_first_trans : Transitive newer_first.
Proof. intros x y z. unfold newer_first. intros. by etrans. Qed.
#[export] Instance newer_first_total : Total newer_first.
Proof. intros x y. unfold newer_first. apply (total rank_le). Qed.

(** The order of keys alone, newest first. *)
Definition newer (a b : SectionKey) : Prop := rank_le (date_rank b) (date_rank a).
#[export] Instance newer_refl : Reflexive newer.
Proof. intros a. unfold newer. reflexivity. Qed.

Lemma section_walk_expand l acc offset :
  Forall (fun p => 0 <= p.2) l -> 0 <= acc <= offset -> acc + run_total l <= U32_MAX ->
  section_walk l acc offset = expand l !! Z.to_nat (offset - acc).
Proof.
  intros Hall. revert acc. induction Hall as [|[k c] l Hc Hall IH]; intros acc Hoff Htot; simpl in *.
  - by rewrite lookup_nil.
  - pose proof (run_total_nonneg _ Hall).
    replace (u32_saturating_add acc c) with (acc + c) by solve_u32.
    destruct (offset <? acc + c) eqn:E; zbool.
    + rewrite lookup_app_l by (rewrite length_replicate; lia).
      symmetry. apply lookup_replicate. split; [done|lia].
    + rewrite IH by lia. rewrite lookup_app_r by (rewrite length_replicate; lia).
      rewrite length_replicate. f_equal. lia.
Qed.

Lemma section_for_global_offset_expand counts offset :
  map_Forall (fun _ c => 0 <= c) counts -> 0 <= offset < run_total (ordered_sections counts) ->
  run_total (ordered_sections counts) <= U32_MAX ->
  section_for_global_offset counts offset
  = expand (ordered_sections counts) !! Z.to_nat offset.
Proof.
  intros Hnn Hoff Htot. unfold section_for_global_offset.
  assert (Forall (fun p => 0 <= p.2) (ordered_sections counts)) as Hall.
  { unfold ordered_sections. rewrite merge_sort_Permutation.
    apply Forall_forall. intros [k c] Hin%elem_of_map_to_list. by apply (Hnn k c). }
  rewrite decide_False.
  2: { intros ->. unfold ordered_sections in Hoff. rewrite map_to_list_empty in Hoff.
       simpl in Hoff. lia. }
  rewrite section_walk_expand by (done || lia).
  rewrite Z.sub_0_r.
  destruct (expand (ordered_sections counts) !! Z.to_nat offset) eqn:E; [done|].
  apply lookup_ge_None in E. pose proof (length_expand _ Hall). lia.
Qed.

(** A group row of the database stands for [count] items of that date. *)
Definition group_keys (mode : GroupBy) (g : Z * Z * Z * Z) : list SectionKey :=
  let '(y, m, d, count) := g in replicate (Z.to_nat count) (key_for mode y m d).

Lemma add_date_group_expand mode m g :
  map_Forall (fun _ c => 0 <= c) m -> 0 <= g.2 ->
  map_Forall (fun _ c => 0 <= c) (add_date_group mode m g) /\
  expand (map_to_list (add_date_group mode m g))
  ≡ₚ expand (map_to_list m) ++ group_keys mode g.
Proof.
  intros Hm Hg. destruct g as [[[y mo] d] c]. simpl in *. set (k := key_for mode y mo d).
  destruct (m !! k) as [old|] eqn:E; simpl.
  - pose proof (Hm _ _ E) as Hold. simpl in Hold. split.
    { apply map_Forall_insert_2; [lia|done]. }
    rewrite <- insert_delete_eq.
    rewrite (expand_Permutation (map_to_list (<[k:=old + c]> (delete k m)))
               ((k, old + c) :: map_to_list (delete k m)))
      by (apply map_to_list_insert, lookup_delete_eq).
    rewrite (expand_Permutation (map_to_list m) ((k, old) :: map_to_list (delete k m))).
    2: { rewrite <- map_to_list_insert by apply lookup_delete_eq.
         by rewrite insert_delete_eq, insert_id. }
    simpl. rewrite Z2Nat.inj_add, replicate_add, <- !(assoc_L (++)) by lia.
    by rewrite (Permutation_app_comm (replicate (Z.to_nat c) k)), (assoc_L (++)).
  - split; [apply map_Forall_insert_2; [lia|done]|].
    rewrite (expand_Permutation _ ((k, 0 + c) :: map_to_list m)) by by apply map_to_list_insert.
    simpl. apply Permutation_app_comm.
Qed.

Lemma counts_expand mode groups :
  Forall (fun g => 0 <= g.2) groups ->
  map_Forall (fun _ c => 0 <= c) (counts_from_date_groups groups mode) /\
  expand (map_to_list (counts_from_date_groups groups mode))
  ≡ₚ groups ≫= group_keys mode.
Proof.
  unfold counts_from_date_groups. induction groups as [|g gs IH] using rev_ind.
  - split; [by apply map_Forall_empty|]. simpl. by rewrite map_to_list_empty.
  - intros [Hgs Hg]%Forall_app. destruct (IH Hgs) as [Hnn Hperm].
    rewrite foldl_app. simpl. apply Forall_cons in Hg as [Hg _].
    destruct (add_date_group_expand mode _ g Hnn Hg) as [Hnn' Hperm']. split; [done|].
    rewrite Hperm', Hperm, bind_app. simpl. by rewrite app_nil_r.
Qed.

Lemma ordered_expand counts :
  expand (ordered_sections counts) ≡ₚ expand (map_to_list counts)
  /\ StronglySorted newer (expand (ordered_sections counts)).
Proof.
  split.
  - apply expand_Permutation, merge_sort_Permutation.
  - apply expand_StronglySorted; [apply _|].
    apply (StronglySorted_merge_sort newer_first).
Qed.

(** Dates newest first, as the grid lists them. *)
Definition date_ge (a b : Z * Z * Z) : Prop := rank_le b a.

Lemma key_for_newer mode a b :
  date_ge a b -> newer (key_for mode a.1.1 a.1.2 a.2) (key_for mode b.1.1 b.1.2 b.2).
Proof.
  destruct a as [[y m] d], b as [[y' m'] d'].
  unfold date_ge, newer, rank_le, date_rank. destruct mode; simpl; lia.
Qed.

Lemma key_for_rank_inj mode a b :
  date_rank (key_for mode a.1.1 a.1.2 a.2) = date_rank (key_for mode b.1.1 b.1.2 b.2) ->
  key_for mode a.1.1 a.1.2 a.2 = key_for mode b.1.1 b.1.2 b.2.
Proof.
  destruct a as [[y m] d], b as [[y' m'] d']. unfold date_rank.
  destruct mode; simpl; intros; simplify_eq; done.
Qed.

Lemma group_keys_dates mode groups :
  groups ≫= group_keys mode
  = (fun t => key_for mode t.1.1 t.1.2 t.2)
    <$> (groups ≫= fun g => replicate (Z.to_nat g.2) g.1).
Proof.
  induction groups as [|[[[y m] d] c] gs IH]; simpl; [done|].
  rewrite fmap_app, fmap_replicate. f_equal. apply IH.
Qed.

(** The section of a global offset is the section of the item the grid
    shows there: if the database's date groups count exactly the items of the
    library ([dates] lists their civil dates newest first) and the library has
    at most [u32::MAX] items, then looking an offset up in the folded counts
    gives the key of the item at that offset, in every grouping mode. *)
Theorem section_for_global_offset_correct mode groups dates i :
  Forall (fun g => 0 <= g.2) groups ->
  (groups ≫= fun g => replicate (Z.to_nat g.2) g.1) ≡ₚ dates ->
  StronglySorted date_ge dates ->
  Z.of_nat (length dates) <= U32_MAX ->
  (i < length dates)%nat ->
  section_for_global_offset (counts_from_date_groups groups mode) (Z.of_nat i)
  = (fun t => key_for mode t.1.1 t.1.2 t.2) <$> dates !! i.
Proof.
  intros Hnn Hperm Hsort Hlen Hi.
  destruct (counts_expand mode groups Hnn) as [Hcnn Hcp].
  destruct (ordered_expand (counts_from_date_groups groups mode)) as [Hop Hos].
  set (counts := counts_from_date_groups groups mode) in *.
  set (keyf := fun t : Z * Z * Z => key_for mode t.1.1 t.1.2 t.2).
  assert (Heq : expand (ordered_sections counts) = keyf <$> dates).
  { apply (StronglySorted_unique_strong newer).
    - intros k1 k2 H1 H2%list_elem_of_fmap Hle1 Hle2. destruct H2 as (b & -> & _).
      rewrite Hop, Hcp, group_keys_dates, Hperm in H1.
      apply list_elem_of_fmap in H1 as (a & -> & _). apply key_for_rank_inj.
      by apply (anti_symm rank_le).
    - done.
    - clear -Hsort. induction Hsort as [|x l _ IH Hall]; simpl; constructor; [done|].
      apply Forall_fmap. eapply Forall_impl; [done|]. intros y. apply key_for_newer.
    - by rewrite Hop, Hcp, group_keys_dates, Hperm. }
  assert (Hall : Forall (fun p => 0 <= p.2) (ordered_sections counts)).
  { unfold ordered_sections. rewrite merge_sort_Permutation.
    apply Forall_forall. intros [k c] Hin%elem_of_map_to_list. by apply (Hcnn k c). }
  pose proof (length_expand _ Hall) as Htot. rewrite Heq, length_fmap in Htot.
  rewrite section_for_global_offset_expand by (done || lia).
  by rewrite Nat2Z.id, Heq, list_lookup_fmap.
Qed.

(** [group_items] builds exactly the reference grouping: one section per
    key in first-occurrence order, holding all items of that key in their
    original order, labelled with their number; the branch for undated items
    is never taken. *)
Theorem group_items_correct civil weekday trf items mode :
  group_items civil weekday trf items mode = group_reference civil weekday trf items mode.
Proof. apply group_items_eq_reference. Qed.

Lemma section_for_global_offset_correct_witness :
  section_for_global_offset (counts_from_date_groups [(2024, 5, 1, 1); (2024, 5, 2, 1)] Day) 1
  = Some (key_for Day 2024 5 1).
Proof.
  apply (section_for_global_offset_correct Day [(2024, 5, 1, 1); (2024, 5, 2, 1)] [(2024, 5, 2); (2024, 5, 1)] 1).
  - repeat constructor; cbn; lia.
  - apply Permutation_swap.
  - repeat constructor; unfold date_ge, rank_le; cbn; lia.
  - vm_compute. discriminate.
  - cbn. lia.
Defined.
End Sections.
