(* ===== verification/LayoutIndex.v ===== *)
(** * Physical slot index of the virtual grid
      (src/src/ui/virtual_media_grid/layout_index.rs)

    One span per date section maps logical media offsets to physical grid
    slots; every section is padded with filler slots to whole rows. All
    quantities are [u32]; starts saturate as in the source. *)
From S2P Require Import Prelude.
From S2P Require Import SectionModel.
Local Open Scope Z_scope.
Import Sections.

Module Layout.

Record SectionSpan := mkSpan {
  key : SectionKey;
  media_start : Z;
  media_len : Z;
  slot_start : Z;
  slot_len : Z
}.

Definition media_end (s : SectionSpan) : Z := u32_saturating_add (media_start s) (media_len s).
Definition slot_end (s : SectionSpan) : Z := u32_saturating_add (slot_start s) (slot_len s).
Definition filler_len (s : SectionSpan) : Z := u32_saturating_sub (slot_len s) (media_len s).

Inductive GridSlot :=
  | MediaOffset (offset : Z)
  | Filler (section : nat).

Record VirtualGridLayoutIndex := mkIndex {
  columns : Z;
  sections : list SectionSpan;
  media_count : Z;
  slot_count : Z
}.

Definition aligned_slot_len (len cols : Z) : Z :=
  let remainder := len mod cols in
  if remainder =? 0 then len else u32_saturating_add len (cols - remainder).

(** [section_sort_key], with [false < true] as 0 and 1, and the lexicographic
    order of Rust tuples. *)
Definition is_some_z {A} (o : option A) : Z := match o with Some _ => 1 | None => 0 end.

Definition section_sort_key (k : SectionKey) : list Z :=
  [default I64_MIN (year k); default 0 (month k); default 0 (day k);
   is_some_z (year k); is_some_z (month k); is_some_z (day k)].

Fixpoint lex_le (a b : list Z) : Prop :=
  match a, b with
  | [], _ => True
  | _ :: _, [] => False
  | x :: xs, y :: ys => x < y \/ (x = y /\ lex_le xs ys)
  end.
#[export] Instance lex_le_dec : RelDecision lex_le.
Proof.
  intros a. induction a as [|x a IH]; intros [|y b]; simpl; [left; done|left; done|right; tauto|].
  destruct (IH b), (decide (x < y)), (decide (x = y));
    solve [left; tauto | right; tauto].
Defined.

Definition newest_first (x y : SectionKey * Z) : Prop :=
  lex_le (section_sort_key y.1) (section_sort_key x.1).
#[export] Instance newest_first_dec : RelDecision newest_first.
Proof. intros x y. unfold newest_first. apply _. Defined.

Definition ordered_counts (entries : list (SectionKey * Z)) : list (SectionKey * Z) :=
  merge_sort newest_first (filter (fun p => 0 < p.2) entries).

(** The span-building loop; it stops at the first section that no longer fits
    the [u32] position space. *)
Fixpoint build_spans (cols : Z) (ordered : list (SectionKey * Z)) (ms ss : Z)
  : list SectionSpan * Z * Z :=
  match ordered with
  | [] => ([], ms, ss)
  | (k, count) :: rest =>
      let remaining_media := u32_saturating_sub U32_MAX ms in
      let remaining_slots := u32_saturating_sub U32_MAX ss in
      let mlen := Z.min (Z.min count remaining_media) remaining_slots in
      if mlen =? 0 then ([], ms, ss)
      else
        let slen := Z.min (aligned_slot_len mlen cols) remaining_slots in
        let '(spans, mc, sc) :=
          build_spans cols rest (u32_saturating_add ms mlen) (u32_saturating_add ss slen) in
        (mkSpan k ms mlen ss slen :: spans, mc, sc)
  end.

(** [new] on the entries in the order the hash map yields them. *)
Definition new_from (entries : list (SectionKey * Z)) (cols : Z) : VirtualGridLayoutIndex :=
  let cols := Z.max cols 1 in
  let '(spans, mc, sc) := build_spans cols (ordered_counts entries) 0 0 in
  mkIndex cols spans mc sc.

Definition new (section_counts : gmap SectionKey Z) (cols : Z) : VirtualGridLayoutIndex :=
  new_from (map_to_list section_counts) cols.

(** [slice::partition_point]: the number of leading elements satisfying [p]. *)
Fixpoint partition_point {A} (p : A -> bool) (l : list A) : nat :=
  match l with
  | [] => 0
  | x :: xs => if p x then S (partition_point p xs) else 0
  end.

Definition span_index_for_slot (ix : VirtualGridLayoutIndex) (position : Z) : option nat :=
  if slot_count ix <=? position then None
  else
    let index := partition_point (fun s => slot_end s <=? position) (sections ix) in
    match sections ix !! index with
    | None => None
    | Some span =>
        if (slot_start span <=? position) && (position <? slot_end span)
        then Some index else None
    end.

Definition span_index_for_media_offset (ix : VirtualGridLayoutIndex) (offset : Z) : option nat :=
  if media_count ix <=? offset then None
  else
    let index := partition_point (fun s => media_end s <=? offset) (sections ix) in
    match sections ix !! index with
    | None => None
    | Some span =>
        if (media_start span <=? offset) && (offset <? media_end span)
        then Some index else None
    end.

Definition span_for_slot (ix : VirtualGridLayoutIndex) (position : Z) : option SectionSpan :=
  span_index_for_slot ix position ≫= fun section => sections ix !! section.
Definition span_for_media_offset (ix : VirtualGridLayoutIndex) (offset : Z) : option SectionSpan :=
  span_index_for_media_offset ix offset ≫= fun section => sections ix !! section.
Definition section_for_slot (ix : VirtualGridLayoutIndex) (position : Z) : option SectionKey :=
  key <$> span_for_slot ix position.
Definition section_for_media_offset (ix : VirtualGridLayoutIndex) (offset : Z) : option SectionKey :=
  key <$> span_for_media_offset ix offset.

Definition slot_at (ix : VirtualGridLayoutIndex) (position : Z) : option GridSlot :=
  section ← span_index_for_slot ix position;
  span ← sections ix !! section;
  let offset_in_section := position - slot_start span in
  if offset_in_section <? media_len span
  then Some (MediaOffset (u32_saturating_add (media_start span) offset_in_section))
  else Some (Filler section).

Definition slot_for_media_offset (ix : VirtualGridLayoutIndex) (offset : Z) : option Z :=
  section ← span_index_for_media_offset ix offset;
  span ← sections ix !! section;
  Some (u32_saturating_add (slot_start span) (u32_saturating_sub offset (media_start span))).

Definition slot_for_media_offset_clamped (ix : VirtualGridLayoutIndex) (offset : Z) : option Z :=
  last_offset ← u32_checked_sub (media_count ix) 1;
  slot_for_media_offset ix (Z.min offset last_offset).

Definition media_offset_at_slot (ix : VirtualGridLayoutIndex) (position : Z) : option Z :=
  match slot_at ix position with
  | Some (MediaOffset offset) => Some offset
  | Some (Filler _) | None => None
  end.

Definition anchor_media_offset_for_slot (ix : VirtualGridLayoutIndex) (position : Z) : option Z :=
  span ← span_for_slot ix position;
  let offset_in_section := position - slot_start span in
  if offset_in_section <? media_len span
  then Some (u32_saturating_add (media_start span) offset_in_section)
  else u32_checked_sub (media_end span) 1.

(** [insert_media_slot]: one media slot more in [section], later sections
    shifted by one; [None] if any field would leave [u32]. *)
Definition grow_span (s : SectionSpan) : option SectionSpan :=
  ml ← u32_checked_add (media_len s) 1;
  sl ← u32_checked_add (slot_len s) 1;
  Some (mkSpan (key s) (media_start s) ml (slot_start s) sl).

Definition shift_span (s : SectionSpan) : option SectionSpan :=
  ms ← u32_checked_add (media_start s) 1;
  ss ← u32_checked_add (slot_start s) 1;
  Some (mkSpan (key s) ms (media_len s) ss (slot_len s)).

Fixpoint insert_spans (l : list SectionSpan) (section : nat) : option (list SectionSpan) :=
  match l, section with
  | [], _ => None
  | s :: rest, O => s' ← grow_span s; rest' ← mapM shift_span rest; Some (s' :: rest')
  | s :: rest, S n => rest' ← insert_spans rest n; Some (s :: rest')
  end.

Definition insert_media_slot (ix : VirtualGridLayoutIndex) (section : nat)
  : option VirtualGridLayoutIndex :=
  spans ← insert_spans (sections ix) section;
  mc ← u32_checked_add (media_count ix) 1;
  sc ← u32_checked_add (slot_count ix) 1;
  Some (mkIndex (columns ix) spans mc sc).

(** ** Contiguous spans *)
Section Contig.
Context (start len : SectionSpan -> Z).

Fixpoint contig (a : Z) (l : list SectionSpan) : Prop :=
  match l with
  | [] => True
  | s :: rest => start s = a /\ 0 < len s /\ contig (a + len s) rest
  end.

Definition sum_len (l : list SectionSpan) : Z := foldr (fun s acc => len s + acc) 0 l.

Lemma sum_len_nonneg a l : contig a l -> 0 <= sum_len l.
Proof.
  revert a. induction l as [|s l IH]; simpl; [lia|]. intros a (_ & ? & ?%IH). lia.
Qed.

Lemma contig_bounds a l i s :
  contig a l -> l !! i = Some s -> a <= start s /\ 0 < len s /\ start s + len s <= a + sum_len l.
Proof.
  revert a i. induction l as [|s0 l IH]; intros a [|i] Hc Hi; simpl in *; simplify_eq.
  - destruct Hc as (Hs & ? & Hc). pose proof (sum_len_nonneg _ _ Hc). lia.
  - destruct Hc as (Hs & ? & Hc). pose proof (IH _ _ Hc Hi). lia.
Qed.

(** The span with the position, found by the partition point. *)
Lemma contig_partition (stop : SectionSpan -> Z) a l pos :
  contig a l -> (forall i s, l !! i = Some s -> stop s = start s + len s) ->
  a <= pos < a + sum_len l ->
  exists s, l !! partition_point (fun s => stop s <=? pos) l = Some s
            /\ start s <= pos < start s + len s.
Proof.
  revert a. induction l as [|s0 l IH]; intros a Hc Hstop Hpos; simpl in *; [lia|].
  destruct Hc as (Hs & Hl & Hc). pose proof (Hstop 0%nat s0 eq_refl) as H0.
  destruct (stop s0 <=? pos) eqn:E; zbool.
  - apply (IH _ Hc); [|lia]. intros i s. apply (Hstop (S i)).
  - exists s0. split; [done|lia].
Qed.

Lemma contig_unique a l i j si sj pos :
  contig a l -> l !! i = Some si -> l !! j = Some sj ->
  start si <= pos < start si + len si -> start sj <= pos < start sj + len sj -> i = j.
Proof.
  revert a i j. induction l as [|s0 l IH]; intros a [|i] [|j] Hc Hi Hj Hpi Hpj; simpl in *;
    simplify_eq; destruct Hc as (Hs & Hl & Hc); try done.
  - pose proof (contig_bounds _ _ _ _ Hc Hj). lia.
  - pose proof (contig_bounds _ _ _ _ Hc Hi). lia.
  - f_equal. by eapply IH.
Qed.

Lemma contig_lt a l i j si sj :
  contig a l -> l !! i = Some si -> l !! j = Some sj -> (i < j)%nat ->
  start si + len si <= start sj.
Proof.
  revert a i j. induction l as [|s0 l IH]; intros a [|i] [|j] Hc Hi Hj Hij; simpl in *;
    simplify_eq; destruct Hc as (Hs & Hl & Hc); try lia.
  - pose proof (contig_bounds _ _ _ _ Hc Hj). lia.
  - eapply IH; [done..|lia].
Qed.
End Contig.

(** ** Well-formed indexes *)
Record wf (ix : VirtualGridLayoutIndex) : Prop := {
  wf_columns : 1 <= columns ix;
  wf_media : contig media_start media_len 0 (sections ix);
  wf_slot : contig slot_start slot_len 0 (sections ix);
  wf_fit : Forall (fun s => media_len s <= slot_len s) (sections ix);
  wf_media_count : media_count ix = sum_len media_len (sections ix);
  wf_slot_count : slot_count ix = sum_len slot_len (sections ix);
  wf_u32 : slot_count ix <= U32_MAX
}.

Lemma wf_media_le_slot ix : wf ix -> media_count ix <= slot_count ix.
Proof.
  intros [_ _ _ Hfit -> -> _]. induction Hfit; simpl; lia.
Qed.

Lemma wf_span ix i s :
  wf ix -> sections ix !! i = Some s ->
  0 <= media_start s /\ 0 < media_len s <= slot_len s /\ 0 <= slot_start s /\
  media_end s = media_start s + media_len s /\ media_end s <= media_count ix /\
  slot_end s = slot_start s + slot_len s /\ slot_end s <= slot_count ix.
Proof.
  intros Hwf Hi. pose proof (wf_media_le_slot _ Hwf). destruct Hwf.
  pose proof (contig_bounds _ _ _ _ _ _ wf_media0 Hi) as ?.
  pose proof (contig_bounds _ _ _ _ _ _ wf_slot0 Hi) as ?.
  pose proof (Forall_lookup_1 _ _ _ _ wf_fit0 Hi) as ?.
  unfold media_end, slot_end. simpl in *. solve_u32.
Qed.

(** The two index searches, characterised by the span they find. *)
Lemma span_index_for_slot_spec ix pos i :
  wf ix -> 0 <= pos ->
  span_index_for_slot ix pos = Some i <->
  exists s, sections ix !! i = Some s /\ slot_start s <= pos < slot_start s + slot_len s.
Proof.
  intros Hwf Hpos. unfold span_index_for_slot. split.
  - destruct (slot_count ix <=? pos); [done|].
    destruct (sections ix !! _) as [s|] eqn:Hs; [|done].
    destruct ((slot_start s <=? pos) && (pos <? slot_end s)) eqn:E; [|done].
    intros [= <-]. zbool. exists s. split; [done|].
    pose proof (wf_span _ _ _ Hwf Hs). lia.
  - intros (s & Hs & Hin). pose proof (wf_span _ _ _ Hwf Hs) as Hb.
    rewrite (proj2 (Z.leb_gt _ _)) by lia.
    destruct (contig_partition slot_start slot_len slot_end 0 (sections ix) pos)
      as (s' & Hs' & Hin').
    + apply Hwf.
    + intros j sj Hj. apply (wf_span _ _ _ Hwf Hj).
    + rewrite <- (wf_slot_count _ Hwf). lia.
    + rewrite Hs'. pose proof (wf_span _ _ _ Hwf Hs').
      rewrite (proj2 (Z.leb_le _ _)), (proj2 (Z.ltb_lt _ _)) by lia. simpl. f_equal.
      eapply (contig_unique slot_start slot_len); [apply Hwf|done|done|done|done].
Qed.

Lemma span_index_for_media_offset_spec ix off i :
  wf ix -> 0 <= off ->
  span_index_for_media_offset ix off = Some i <->
  exists s, sections ix !! i = Some s /\ media_start s <= off < media_start s + media_len s.
Proof.
  intros Hwf Hpos. unfold span_index_for_media_offset. split.
  - destruct (media_count ix <=? off); [done|].
    destruct (sections ix !! _) as [s|] eqn:Hs; [|done].
    destruct ((media_start s <=? off) && (off <? media_end s)) eqn:E; [|done].
    intros [= <-]. zbool. exists s. split; [done|].
    pose proof (wf_span _ _ _ Hwf Hs). lia.
  - intros (s & Hs & Hin). pose proof (wf_span _ _ _ Hwf Hs) as Hb.
    rewrite (proj2 (Z.leb_gt _ _)) by lia.
    destruct (contig_partition media_start media_len media_end 0 (sections ix) off)
      as (s' & Hs' & Hin').
    + apply Hwf.
    + intros j sj Hj. apply (wf_span _ _ _ Hwf Hj).
    + rewrite <- (wf_media_count _ Hwf). lia.
    + rewrite Hs'. pose proof (wf_span _ _ _ Hwf Hs').
      rewrite (proj2 (Z.leb_le _ _)), (proj2 (Z.ltb_lt _ _)) by lia. simpl. f_equal.
      eapply (contig_unique media_start media_len); [apply Hwf|done|done|done|done].
Qed.

Lemma slot_has_span ix pos :
  wf ix -> 0 <= pos < slot_count ix ->
  exists i s, span_index_for_slot ix pos = Some i /\ sections ix !! i = Some s /\
              slot_start s <= pos < slot_start s + slot_len s.
Proof.
  intros Hwf Hpos.
  destruct (contig_partition slot_start slot_len slot_end 0 (sections ix) pos) as (s & Hs & Hin).
  - apply Hwf.
  - intros j sj Hj. apply (wf_span _ _ _ Hwf Hj).
  - rewrite <- (wf_slot_count _ Hwf). lia.
  - eexists _, s. split; [|by split]. apply span_index_for_slot_spec; [done|lia|]. by exists s.
Qed.

Lemma media_has_span ix off :
  wf ix -> 0 <= off < media_count ix ->
  exists i s, span_index_for_media_offset ix off = Some i /\ sections ix !! i = Some s /\
              media_start s <= off < media_start s + media_len s.
Proof.
  intros Hwf Hpos.
  destruct (contig_partition media_start media_len media_end 0 (sections ix) off) as (s & Hs & Hin).
  - apply Hwf.
  - intros j sj Hj. apply (wf_span _ _ _ Hwf Hj).
  - rewrite <- (wf_media_count _ Hwf). lia.
  - eexists _, s. split; [|by split]. apply span_index_for_media_offset_spec; [done|lia|]. by exists s.
Qed.

Lemma slot_for_media_offset_total ix off :
  wf ix -> 0 <= off < media_count ix ->
  exists i s, sections ix !! i = Some s /\ media_start s <= off < media_start s + media_len s /\
    slot_for_media_offset ix off = Some (slot_start s + (off - media_start s)) /\
    slot_at ix (slot_start s + (off - media_start s)) = Some (MediaOffset off).
Proof.
  intros Hwf Hoff. destruct (media_has_span _ _ Hwf Hoff) as (i & s & Hi & Hs & Hin).
  pose proof (wf_span _ _ _ Hwf Hs) as Hb. pose proof (wf_u32 _ Hwf) as Hu.
  pose proof (wf_media_le_slot _ Hwf) as Hle.
  exists i, s. split_and!; [done|lia|lia| |].
  - unfold slot_for_media_offset. rewrite Hi. simpl. rewrite Hs. simpl. f_equal. solve_u32.
  - unfold slot_at.
    assert (span_index_for_slot ix (slot_start s + (off - media_start s)) = Some i) as ->.
    { apply span_index_for_slot_spec; [done|lia|]. exists s. split; [done|lia]. }
    simpl. rewrite Hs. simpl.
    rewrite (proj2 (Z.ltb_lt _ _)) by lia. do 2 f_equal. solve_u32.
Qed.

(** Media offsets and physical slots are inverse to each other: every
    offset below [media_count] has a slot, that slot resolves back to the
    offset, and every slot that resolves to an offset is the slot of that
    offset. *)
Theorem slot_media_roundtrip ix :
  wf ix ->
  (forall off, 0 <= off < media_count ix ->
     exists pos, slot_for_media_offset ix off = Some pos /\ 0 <= pos < slot_count ix /\
                 slot_at ix pos = Some (MediaOffset off)) /\
  (forall pos off, 0 <= pos -> slot_at ix pos = Some (MediaOffset off) ->
     0 <= off < media_count ix /\ slot_for_media_offset ix off = Some pos).
Proof.
  intros Hwf. split.
  - intros off Hoff. destruct (slot_for_media_offset_total _ _ Hwf Hoff) as (i & s & Hs & Hin & Hsl & Hat).
    pose proof (wf_span _ _ _ Hwf Hs). eexists. split_and!; [done|lia|lia|done].
  - intros pos off Hpos Hat. unfold slot_at in Hat.
    destruct (span_index_for_slot ix pos) as [i|] eqn:Hi; [|done]. simpl in Hat.
    apply (span_index_for_slot_spec _ _ _ Hwf Hpos) in Hi as (s & Hs & Hin).
    rewrite Hs in Hat. simpl in Hat.
    destruct (pos - slot_start s <? media_len s) eqn:E; [|done]. zbool. simplify_eq.
    pose proof (wf_span _ _ _ Hwf Hs). pose proof (wf_u32 _ Hwf).
    pose proof (wf_media_le_slot _ Hwf).
    assert (Hoff : u32_saturating_add (media_start s) (pos - slot_start s)
                   = media_start s + (pos - slot_start s)) by solve_u32.
    rewrite Hoff. split; [lia|].
    destruct (slot_for_media_offset_total ix (media_start s + (pos - slot_start s)) Hwf ltac:(lia))
      as (j & s' & Hs' & Hin' & -> & _).
    assert (i = j) as <- by (eapply (contig_unique media_start media_len);
      [apply Hwf|exact Hs|exact Hs'| |exact Hin']; lia).
    simplify_eq. f_equal. lia.
Qed.

(** ** Building an index *)
#[export] Instance lex_le_refl : Reflexive lex_le.
Proof. intros a. induction a; simpl; auto. Qed.
#[export] Instance lex_le_trans : Transitive lex_le.
Proof.
  intros a. induction a as [|x a IH]; intros [|y b] [|z c]; simpl; try tauto.
  intros [?|[-> Hab]] [?|[-> Hbc]]; [left; lia|by left|by left|right; split; [done|by eapply IH]].
Qed.
#[export] Instance lex_le_total : Total lex_le.
Proof.
  intros a. induction a as [|x a IH]; intros [|y b]; simpl; try tauto.
  destruct (Z.lt_trichotomy x y) as [?|[->|?]]; [tauto| |tauto].
  destruct (IH b); tauto.
Qed.
#[export] Instance lex_le_antisymm : AntiSymm (=) lex_le.
Proof.
  intros a. induction a as [|x a IH]; intros [|y b]; simpl; try tauto.
  intros [?|[-> Hab]] [?|[? Hba]]; try lia. f_equal. by apply IH.
Qed.

#[export] Instance section_sort_key_inj : Inj (=) (=) section_sort_key.
Proof.
  intros [y m d] [y' m' d']. unfold section_sort_key. simpl.
  destruct y, m, d, y', m', d'; simpl; intros; simplify_eq; done.
Qed.

#[export] Instance newest_first_trans : Transitive newest_first.
Proof. intros x y z. unfold newest_first. intros. by etrans. Qed.
#[export] Instance newest_first_total : Total newest_first.
Proof. intros x y. unfold newest_first. apply (total lex_le). Qed.

Lemma ordered_counts_pos entries : Forall (fun p => 0 < p.2) (ordered_counts entries).
Proof.
  unfold ordered_counts. rewrite merge_sort_Permutation.
  apply Forall_forall. by intros p [? _]%list_elem_of_filter.
Qed.

Lemma aligned_slot_len_ge len cols :
  0 < len <= U32_MAX -> 1 <= cols -> len <= aligned_slot_len len cols.
Proof.
  intros ? ?. unfold aligned_slot_len. pose proof (Z.mod_pos_bound len cols ltac:(lia)).
  case_zbool; [lia|]. solve_u32.
Qed.

Lemma build_spans_spec cols ordered ms ss :
  1 <= cols -> Forall (fun p => 0 < p.2) ordered -> 0 <= ms <= ss -> ss <= U32_MAX ->
  let '(spans, mc, sc) := build_spans cols ordered ms ss in
  contig media_start media_len ms spans /\ contig slot_start slot_len ss spans /\
  Forall (fun s => media_len s <= slot_len s) spans /\
  mc = ms + sum_len media_len spans /\ sc = ss + sum_len slot_len spans /\ sc <= U32_MAX.
Proof.
  intros Hcols Hpos. revert ms ss. induction Hpos as [|[k c] ordered Hc _ IH]; intros ms ss Hms Hss; simpl.
  { split_and!; try done; lia. }
  set (mlen := Z.min _ _). destruct (mlen =? 0) eqn:E; zbool.
  { simpl. split_and!; try done; lia. }
  assert (Hm : 0 < mlen <= U32_MAX /\ mlen <= U32_MAX - ss) by (subst mlen; simpl in *; solve_u32).
  set (slen := Z.min (aligned_slot_len mlen cols) _).
  assert (Hs : mlen <= slen /\ slen <= U32_MAX - ss).
  { pose proof (aligned_slot_len_ge mlen cols ltac:(lia) Hcols).
    subst slen. clearbody mlen. solve_u32. }
  assert (u32_saturating_add ms mlen = ms + mlen) as -> by solve_u32.
  assert (u32_saturating_add ss slen = ss + slen) as -> by solve_u32.
  specialize (IH (ms + mlen) (ss + slen) ltac:(lia) ltac:(lia)).
  destruct (build_spans cols ordered (ms + mlen) (ss + slen)) as [[spans mc] sc].
  destruct IH as (? & ? & ? & ? & ? & ?). simpl.
  split_and!; try done; try lia. constructor; simpl; [lia|done].
Qed.

Lemma new_from_wf entries cols : wf (new_from entries cols).
Proof.
  unfold new_from.
  pose proof (build_spans_spec (Z.max cols 1) (ordered_counts entries) 0 0
                ltac:(lia) (ordered_counts_pos _) ltac:(lia) ltac:(solve_u32)) as H.
  destruct (build_spans _ _ _ _) as [[spans mc] sc].
  destruct H as (? & ? & ? & ? & ? & ?). constructor; simpl; auto; lia.
Qed.

(** Whatever the section counts and the requested column count (zero
    included), [new] builds a well-formed index: spans are contiguous from
    zero both in media offsets and in slots, no section holds more media than
    slots, the totals are the sums, and no position leaves [u32]. *)
Theorem new_wf section_counts cols : wf (new section_counts cols).
Proof. apply new_from_wf. Qed.

(** When every padded section fits [u32], nothing is cut off. *)
Definition padded_total (cols : Z) (ordered : list (SectionKey * Z)) : Z :=
  foldr (fun p acc => aligned_slot_len p.2 cols + acc) 0 ordered.

Lemma padded_total_nonneg cols ordered :
  1 <= cols -> Forall (fun p => 0 < p.2) ordered -> Forall (fun p => p.2 <= U32_MAX) ordered ->
  0 <= padded_total cols ordered.
Proof.
  intros Hc Hp Hu. induction ordered as [|[k c] l IH]; simpl; [done|].
  apply Forall_cons in Hp as [Hp Hp'], Hu as [Hu Hu']. simpl in *.
  pose proof (aligned_slot_len_ge c cols ltac:(lia) Hc). specialize (IH Hp' Hu'). lia.
Qed.

Lemma aligned_slot_len_exact len cols :
  0 < len -> 1 <= cols -> aligned_slot_len len cols <= U32_MAX - 1 ->
  aligned_slot_len len cols mod cols = 0 /\ 0 <= aligned_slot_len len cols - len < cols.
Proof.
  intros Hl Hc. unfold aligned_slot_len.
  pose proof (Z.mod_pos_bound len cols ltac:(lia)) as Hr.
  pose proof (Z.div_mod len cols ltac:(lia)) as Hdm.
  destruct (len mod cols =? 0) eqn:E; zbool; intros Hu; [lia|].
  revert E Hr Hdm Hu. generalize (len mod cols), (len / cols). intros r q E Hr Hdm Hu.
  unfold u32_saturating_add in *.
  replace (Z.min (len + (cols - r)) U32_MAX) with (len + (cols - r)) in * by lia.
  split; [|lia]. replace (len + (cols - r)) with ((q + 1) * cols) by lia.
  apply Z.mod_mul. lia.
Qed.

Lemma build_spans_aligned cols ordered ms ss :
  1 <= cols -> Forall (fun p => 0 < p.2 <= U32_MAX) ordered -> 0 <= ms <= ss ->
  ss mod cols = 0 -> ss + padded_total cols ordered < U32_MAX ->
  let '(spans, _, _) := build_spans cols ordered ms ss in
  Forall2 (fun p s => key s = p.1 /\ media_len s = p.2 /\ slot_start s mod cols = 0 /\
                      slot_len s mod cols = 0 /\ 0 <= slot_len s - media_len s < cols) ordered spans.
Proof.
  intros Hcols Hpos. revert ms ss. induction Hpos as [|[k c] ordered Hc Hrest IH];
    intros ms ss Hms Hal Htot; simpl in *; [constructor|].
  assert (0 <= padded_total cols ordered) as Hnn.
  { apply padded_total_nonneg; [done| |]; (eapply Forall_impl; [exact Hrest|]; simpl; lia). }
  pose proof (aligned_slot_len_ge c cols Hc Hcols) as Hge.
  assert (Z.min (Z.min c (u32_saturating_sub U32_MAX ms)) (u32_saturating_sub U32_MAX ss) = c) as ->
    by solve_u32.
  rewrite (proj2 (Z.eqb_neq _ _)) by lia.
  assert (Z.min (aligned_slot_len c cols) (u32_saturating_sub U32_MAX ss) = aligned_slot_len c cols) as ->
    by solve_u32.
  assert (u32_saturating_add ms c = ms + c) as -> by solve_u32.
  assert (u32_saturating_add ss (aligned_slot_len c cols) = ss + aligned_slot_len c cols) as -> by solve_u32.
  destruct (aligned_slot_len_exact c cols ltac:(lia) Hcols ltac:(lia)) as [Hmod Hfill].
  specialize (IH (ms + c) (ss + aligned_slot_len c cols) ltac:(lia)).
  destruct (build_spans cols ordered _ _) as [[spans mc] sc].
  constructor; simpl; [split_and!; try done; lia|]. apply IH; [|lia].
  rewrite Z.add_mod, Hal, Hmod by lia. by rewrite Z.mod_0_l by lia.
Qed.

(** If the padded sections fit below [u32::MAX], the index lists every
    non-empty section with its full count, each section starts on a row
    boundary, occupies whole rows and has fewer fillers than columns. *)
Theorem new_rows_aligned section_counts cols :
  let ordered := ordered_counts (map_to_list section_counts) in
  let columns := Z.max cols 1 in
  map_Forall (fun _ c => c <= U32_MAX) section_counts ->
  padded_total columns ordered < U32_MAX ->
  Forall2 (fun p s => key s = p.1 /\ media_len s = p.2 /\ slot_start s mod columns = 0 /\
                      slot_len s mod columns = 0 /\ 0 <= filler_len s < columns)
    ordered (sections (new section_counts cols)).
Proof.
  intros ordered columns Hu Htot. unfold new, new_from. fold ordered. fold columns.
  assert (Forall (fun p => 0 < p.2 <= U32_MAX) ordered) as Hb.
  { unfold ordered, ordered_counts. rewrite merge_sort_Permutation. apply Forall_forall.
    intros [k c] [Hp Hin%elem_of_map_to_list]%list_elem_of_filter. split; [done|].
    by apply (Hu k c). }
  pose proof (build_spans_aligned columns ordered 0 0 ltac:(lia) Hb ltac:(lia)
                ltac:(by apply Z.mod_0_l; lia) ltac:(lia)) as H.
  destruct (build_spans columns ordered 0 0) as [[spans mc] sc]. simpl.
  eapply Forall2_impl; [exact H|]. intros p s (? & ? & ? & ? & ?).
  split_and!; try done; unfold filler_len; solve_u32.
Qed.

(** The index does not depend on the hash map's iteration order: any
    listing of the same counts gives the same index. *)
Theorem new_order_independent section_counts entries cols :
  entries ≡ₚ map_to_list section_counts ->
  new_from entries cols = new section_counts cols.
Proof.
  intros Hperm. unfold new, new_from.
  assert (ordered_counts entries = ordered_counts (map_to_list section_counts)) as ->; [|done].
  unfold ordered_counts. apply (StronglySorted_unique_strong newest_first).
  - intros [k1 c1] [k2 c2] H1 H2 Hle1 Hle2.
    assert (k1 = k2) as ->.
    { apply (inj section_sort_key). by apply (anti_symm lex_le). }
    rewrite merge_sort_Permutation, Hperm in H1. rewrite merge_sort_Permutation in H2.
    apply list_elem_of_filter in H1 as [_ H1%elem_of_map_to_list].
    apply list_elem_of_filter in H2 as [_ H2%elem_of_map_to_list]. congruence.
  - apply (StronglySorted_merge_sort newest_first).
  - apply (StronglySorted_merge_sort newest_first).
  - by rewrite !merge_sort_Permutation, Hperm.
Qed.

(** ** Anchors and insertion *)
Lemma slot_at_span ix j s pos :
  wf ix -> sections ix !! j = Some s -> slot_start s <= pos < slot_start s + slot_len s ->
  slot_at ix pos = Some (if pos - slot_start s <? media_len s
                         then MediaOffset (media_start s + (pos - slot_start s)) else Filler j).
Proof.
  intros Hwf Hs Hin. pose proof (wf_span _ _ _ Hwf Hs). pose proof (wf_u32 _ Hwf).
  pose proof (wf_media_le_slot _ Hwf). unfold slot_at.
  assert (span_index_for_slot ix pos = Some j) as ->
    by (apply span_index_for_slot_spec; [done|lia|by exists s]).
  simpl. rewrite Hs. simpl. case_zbool; [|done]. do 2 f_equal. solve_u32.
Qed.

Lemma slot_at_outside ix pos : slot_count ix <= pos -> slot_at ix pos = None.
Proof.
  intros H. unfold slot_at, span_index_for_slot. by rewrite (proj2 (Z.leb_le _ _)).
Qed.

(** Every physical slot has an anchor media offset in its own section; a
    media slot is its own anchor, a filler slot is anchored at the last media
    item of the section it pads. *)
Theorem anchor_in_section ix pos :
  wf ix -> 0 <= pos < slot_count ix ->
  exists off s, anchor_media_offset_for_slot ix pos = Some off /\
    0 <= off < media_count ix /\
    span_for_slot ix pos = Some s /\ span_for_media_offset ix off = Some s /\
    (slot_at ix pos = Some (MediaOffset off)
     \/ ((exists j, slot_at ix pos = Some (Filler j)) /\ off = media_start s + media_len s - 1)).
Proof.
  intros Hwf Hpos. destruct (slot_has_span _ _ Hwf Hpos) as (i & s & Hi & Hs & Hin).
  pose proof (wf_span _ _ _ Hwf Hs) as Hb. pose proof (wf_u32 _ Hwf) as Hu.
  pose proof (wf_media_le_slot _ Hwf) as Hle.
  pose proof (slot_at_span _ _ _ _ Hwf Hs Hin) as Hat.
  assert (Hsp : span_for_slot ix pos = Some s) by (unfold span_for_slot; rewrite Hi; done).
  unfold anchor_media_offset_for_slot. rewrite Hsp. simpl.
  assert (Hm : forall off, media_start s <= off < media_start s + media_len s ->
                span_for_media_offset ix off = Some s).
  { intros off Hoff. unfold span_for_media_offset.
    assert (span_index_for_media_offset ix off = Some i) as ->; [|done].
    apply span_index_for_media_offset_spec; [done|lia|by exists s]. }
  destruct (pos - slot_start s <? media_len s) eqn:E; zbool.
  - eexists _, s. split_and!; [done| | |done|apply Hm|left; rewrite Hat; do 2 f_equal]; solve_u32.
  - unfold u32_checked_sub. rewrite (proj2 (Z.leb_le _ _)) by lia.
    eexists _, s. split_and!; [done|lia|lia|done|apply Hm; lia|right; split; [by eexists|lia]].
Qed.

Lemma mapM_shift_lookup l l' j :
  mapM shift_span l = Some l' -> l' !! j = (l !! j) ≫= shift_span.
Proof.
  intros H%mapM_Some. revert j. induction H as [|s s' l l' Hs _ IH]; intros [|j]; simpl; auto.
Qed.

(** What [insert_spans] leaves at each position. *)
Lemma insert_spans_lookup l i l' j :
  insert_spans l i = Some l' ->
  l' !! j = if decide (j < i)%nat then l !! j
            else if decide (j = i) then (l !! j) ≫= grow_span
            else (l !! j) ≫= shift_span.
Proof.
  revert i l' j. induction l as [|s l IH]; intros [|i] l' j; simpl; try done.
  - destruct (grow_span s) as [s'|] eqn:Hg; [|done]. simpl.
    destruct (mapM shift_span l) as [r|] eqn:Hm; [|done]. simpl. intros [= <-].
    destruct j as [|j]; simpl; [by rewrite Hg|]. by apply mapM_shift_lookup.
  - destruct (insert_spans l i) as [r|] eqn:Hr; [|done]. simpl. intros [= <-].
    destruct j as [|j]; simpl; [done|]. rewrite (IH _ _ j Hr).
    repeat case_decide; try lia; done.
Qed.

Lemma insert_spans_grown l i l' :
  insert_spans l i = Some l' ->
  forall s, l !! i = Some s -> exists g, grow_span s = Some g /\ l' !! i = Some g.
Proof.
  revert i l'. induction l as [|s0 l IH]; intros [|i] l'; simpl; try done.
  - destruct (grow_span s0) as [g|] eqn:Hg; [|done]. simpl.
    destruct (mapM shift_span l); [|done]. intros [= <-] s [= <-]. by exists g.
  - destruct (insert_spans l i) as [r|] eqn:Hr; [|done]. intros [= <-] s Hs.
    exact (IH _ _ Hr _ Hs).
Qed.

Lemma insert_spans_shifted l i l' :
  insert_spans l i = Some l' ->
  forall j s, (i < j)%nat -> l !! j = Some s -> exists g, shift_span s = Some g /\ l' !! j = Some g.
Proof.
  revert i l'. induction l as [|s0 l IH]; intros [|i] l'; simpl; try done.
  - destruct (grow_span s0) as [g|]; [|done]. simpl.
    destruct (mapM shift_span l) as [r|] eqn:Hm; [|done]. intros [= <-] [|j] s Hj Hs; [lia|].
    apply mapM_Some in Hm. simpl in *.
    destruct (Forall2_lookup_l _ _ _ _ _ Hm Hs) as (g' & ? & ?). by exists g'.
  - destruct (insert_spans l i) as [r|] eqn:Hr; [|done]. intros [= <-] [|j] s Hj Hs; [lia|].
    exact (IH _ _ Hr j s ltac:(lia) Hs).
Qed.

Section InsertContig.
Context (start len : SectionSpan -> Z).
Context (Hgrow : forall s s', grow_span s = Some s' -> start s' = start s /\ len s' = len s + 1).
Context (Hshift : forall s s', shift_span s = Some s' -> start s' = start s + 1 /\ len s' = len s).

Lemma mapM_shift_contig l l' a :
  contig start len a l -> mapM shift_span l = Some l' ->
  contig start len (a + 1) l' /\ sum_len len l' = sum_len len l.
Proof using Hshift.
  intros Hc H%mapM_Some. revert a Hc. induction H as [|s s' l l' Hs _ IH]; intros a Hc; simpl in *; [done|].
  destruct Hc as (Ha & Hl & Hc). destruct (Hshift _ _ Hs) as [E1 E2].
  destruct (IH _ Hc) as [Hc' Hsum]. rewrite E1, E2, Hsum.
  replace (a + 1 + len s) with (a + len s + 1) by lia. split_and!; try done; lia.
Qed.

Lemma insert_spans_contig l i l' a :
  contig start len a l -> insert_spans l i = Some l' ->
  contig start len a l' /\ sum_len len l' = sum_len len l + 1.
Proof using Hgrow Hshift.
  revert i l' a. induction l as [|s l IH]; intros [|i] l' a Hc; simpl in *; try done;
    destruct Hc as (Ha & Hl & Hc).
  - destruct (grow_span s) as [s'|] eqn:Hg; [|done]. simpl.
    destruct (mapM shift_span l) as [r|] eqn:Hm; [|done]. intros [= <-]. simpl.
    destruct (Hgrow _ _ Hg) as [E1 E2]. destruct (mapM_shift_contig _ _ _ Hc Hm) as [Hc' Hsum].
    rewrite E1, E2, Hsum. replace (a + (len s + 1)) with (a + len s + 1) by lia.
    split_and!; try done; lia.
  - destruct (insert_spans l i) as [r|] eqn:Hr; [|done]. simpl. intros [= <-]. simpl.
    destruct (IH _ _ _ Hc Hr) as [Hc' Hsum]. rewrite Hsum. split_and!; try done; lia.
Qed.
End InsertContig.

Lemma grow_span_Some s s' :
  grow_span s = Some s' ->
  s' = mkSpan (key s) (media_start s) (media_len s + 1) (slot_start s) (slot_len s + 1).
Proof.
  unfold grow_span, u32_checked_add.
  destruct (media_len s + 1 <=? _); simpl; [|done]. destruct (slot_len s + 1 <=? _); simpl; congruence.
Qed.

Lemma shift_span_Some s s' :
  shift_span s = Some s' ->
  s' = mkSpan (key s) (media_start s + 1) (media_len s) (slot_start s + 1) (slot_len s).
Proof.
  unfold shift_span, u32_checked_add.
  destruct (media_start s + 1 <=? _); simpl; [|done]. destruct (slot_start s + 1 <=? _); simpl; congruence.
Qed.

Lemma insert_spans_fit l i l' :
  Forall (fun s => media_len s <= slot_len s) l -> insert_spans l i = Some l' ->
  Forall (fun s => media_len s <= slot_len s) l'.
Proof.
  intros Hf Hi. apply Forall_lookup. intros j s' Hj.
  rewrite (insert_spans_lookup _ _ _ _ Hi) in Hj.
  destruct (l !! j) as [s|] eqn:Hs.
  - pose proof (Forall_lookup_1 _ _ _ _ Hf Hs). simpl in *.
    repeat case_decide; [simplify_eq; lia|apply grow_span_Some in Hj as ->; simpl; lia|
      apply shift_span_Some in Hj as ->; simpl; lia].
  - repeat case_decide; done.
Qed.

Lemma insert_media_slot_wf ix i ix' :
  wf ix -> insert_media_slot ix i = Some ix' ->
  wf ix' /\ media_count ix' = media_count ix + 1 /\ slot_count ix' = slot_count ix + 1.
Proof.
  intros Hwf. unfold insert_media_slot.
  destruct (insert_spans (sections ix) i) as [l'|] eqn:Hi; [|done]. simpl.
  unfold u32_checked_add.
  destruct (media_count ix + 1 <=? U32_MAX) eqn:E1; [|done]. simpl.
  destruct (slot_count ix + 1 <=? U32_MAX) eqn:E2; [|done]. intros [= <-]. zbool. simpl.
  destruct Hwf as [Hcol Hm Hs Hf Hmc Hsc Hu].
  destruct (insert_spans_contig media_start media_len) with (l := sections ix) (i := i) (l' := l') (a := 0)
    as [? ?]; [by intros ?? ->%grow_span_Some|by intros ?? ->%shift_span_Some|done|done|].
  destruct (insert_spans_contig slot_start slot_len) with (l := sections ix) (i := i) (l' := l') (a := 0)
    as [? ?]; [by intros ?? ->%grow_span_Some|by intros ?? ->%shift_span_Some|done|done|].
  split; [|done]. constructor; simpl; try done.
  - by eapply insert_spans_fit.
  - lia.
  - lia.
Qed.

(** The spans of the index after an insertion. *)
Lemma insert_media_slot_sections ix i ix' :
  insert_media_slot ix i = Some ix' ->
  (forall j, (j < i)%nat -> sections ix' !! j = sections ix !! j) /\
  (forall s, sections ix !! i = Some s ->
     sections ix' !! i = Some (mkSpan (key s) (media_start s) (media_len s + 1)
                                 (slot_start s) (slot_len s + 1))) /\
  (forall j s, (i < j)%nat -> sections ix !! j = Some s ->
     sections ix' !! j = Some (mkSpan (key s) (media_start s + 1) (media_len s)
                                 (slot_start s + 1) (slot_len s))).
Proof.
  unfold insert_media_slot. intros Hins.
  destruct (insert_spans (sections ix) i) as [l'|] eqn:Hi; [|done]. simpl in Hins.
  assert (sections ix' = l') as ->.
  { destruct (u32_checked_add (media_count ix) 1); simpl in Hins; [|done].
    destruct (u32_checked_add (slot_count ix) 1); simpl in Hins; by simplify_eq. }
  split_and!.
  - intros j Hj. by rewrite (insert_spans_lookup _ _ _ j Hi), decide_True.
  - intros s Hs. destruct (insert_spans_grown _ _ _ Hi _ Hs) as (g & Hg & ->).
    by apply grow_span_Some in Hg as ->.
  - intros j s Hj Hs. destruct (insert_spans_shifted _ _ _ Hi _ _ Hj Hs) as (g & Hg & ->).
    by apply shift_span_Some in Hg as ->.
Qed.

(** The slot an old slot's content has after the insertion. *)
Definition shift_slot (g : GridSlot) : GridSlot :=
  match g with MediaOffset o => MediaOffset (o + 1) | Filler j => Filler j end.

Lemma insert_spans_total l i :
  Forall (fun s => media_start s < U32_MAX /\ media_len s < U32_MAX /\
                   slot_start s < U32_MAX /\ slot_len s < U32_MAX) l ->
  (i < length l)%nat -> is_Some (insert_spans l i).
Proof.
  intros Hl. revert i. induction Hl as [|s l (? & ? & ? & ?) Hl IH]; intros [|i] Hi; simpl in *; [lia..| |].
  - unfold grow_span, u32_checked_add. repeat (rewrite (proj2 (Z.leb_le _ _)) by lia; simpl).
    assert (is_Some (mapM shift_span l)) as [r ->]; [|by eexists].
    apply mapM_is_Some. eapply Forall_impl; [exact Hl|]. intros x (? & ? & ? & ?).
    unfold compose, shift_span, u32_checked_add. repeat (rewrite (proj2 (Z.leb_le _ _)) by lia; simpl). by eexists.
  - destruct (IH i ltac:(lia)) as [r ->]. by eexists.
Qed.

Lemma insert_media_slot_total ix i :
  wf ix -> (i < length (sections ix))%nat -> slot_count ix < U32_MAX ->
  is_Some (insert_media_slot ix i).
Proof.
  intros Hwf Hi Hu. pose proof (wf_media_le_slot _ Hwf).
  assert (is_Some (insert_spans (sections ix) i)) as [l Hl].
  { apply insert_spans_total; [|done]. apply Forall_lookup. intros j s Hj.
    pose proof (wf_span _ _ _ Hwf Hj). lia. }
  unfold insert_media_slot, u32_checked_add. rewrite Hl. simpl.
  repeat (rewrite (proj2 (Z.leb_le _ _)) by lia; simpl). by eexists.
Qed.

(** Inserting a media slot into a section succeeds while a slot position
    is left in [u32] and announces exactly one new slot,
    right after that section's last media item: slots before it keep their
    content, the new slot shows the new offset, and every later slot moves by
    one with its media offset increased by one. The result is well formed. *)
Theorem insert_media_slot_correct ix i s :
  wf ix -> sections ix !! i = Some s -> slot_count ix < U32_MAX ->
  exists ix', insert_media_slot ix i = Some ix' /\ wf ix' /\
  slot_count ix' = slot_count ix + 1 /\
  let p := slot_start s + media_len s in
  (forall pos, 0 <= pos < p -> slot_at ix' pos = slot_at ix pos) /\
  slot_at ix' p = Some (MediaOffset (media_start s + media_len s)) /\
  (forall pos, p <= pos -> slot_at ix' (pos + 1) = shift_slot <$> slot_at ix pos).
Proof.
  intros Hwf Hs Hu.
  destruct (insert_media_slot_total ix i Hwf (lookup_lt_Some _ _ _ Hs) Hu) as [ix' Hins].
  exists ix'. split; [done|].
  destruct (insert_media_slot_wf _ _ _ Hwf Hins) as (Hwf' & Hmc & Hsc).
  split; [done|]. split; [done|]. intros p. pose proof (wf_span _ _ _ Hwf Hs) as Hb.
  destruct (insert_media_slot_sections _ _ _ Hins) as [Hlt [Hat Hgt]].
  specialize (Hat _ Hs). split_and!.
  - intros pos Hpos.
    destruct (slot_has_span ix pos Hwf ltac:(lia)) as (j & sj & _ & Hj & Hin).
    rewrite (slot_at_span _ _ _ _ Hwf Hj Hin).
    destruct (Nat.lt_trichotomy j i) as [Hji|[->|Hji]].
    + by rewrite (slot_at_span _ j sj pos Hwf') by (rewrite ?Hlt; done).
    + simplify_eq. rewrite (slot_at_span _ _ _ pos Hwf' Hat) by (simpl; lia). simpl.
      by rewrite !(proj2 (Z.ltb_lt _ _)) by lia.
    + pose proof (contig_lt _ _ _ _ _ _ _ _ (wf_slot _ Hwf) Hs Hj Hji). lia.
  - rewrite (slot_at_span _ _ _ p Hwf' Hat) by (simpl; lia). simpl.
    rewrite (proj2 (Z.ltb_lt _ _)) by lia. do 2 f_equal. lia.
  - intros pos Hpos. destruct (Z.lt_ge_cases pos (slot_count ix)) as [Hin|Hout].
    2: { by rewrite !slot_at_outside by lia. }
    destruct (slot_has_span ix pos Hwf ltac:(lia)) as (j & sj & _ & Hj & Hsp).
    rewrite (slot_at_span _ _ _ _ Hwf Hj Hsp).
    destruct (Nat.lt_trichotomy j i) as [Hji|[->|Hji]].
    + pose proof (contig_lt _ _ _ _ _ _ _ _ (wf_slot _ Hwf) Hj Hs Hji). lia.
    + simplify_eq. rewrite (slot_at_span _ _ _ (pos + 1) Hwf' Hat) by (simpl; lia). simpl.
      by rewrite !(proj2 (Z.ltb_ge _ _)) by lia.
    + rewrite (slot_at_span _ _ _ (pos + 1) Hwf' (Hgt _ _ Hji Hj)) by (simpl; lia). simpl.
      replace (pos + 1 - (slot_start sj + 1)) with (pos - slot_start sj) by lia.
      destruct (_ <? _); simpl; [|done]. do 2 f_equal. lia.
Qed.

(** *** Agreement with the date lookup of [Sections] *)
Lemma build_spans_lookup cols ordered ms ss :
  let '(spans, mc, _) := build_spans cols ordered ms ss in
  1 <= cols -> Forall (fun p => 0 < p.2 <= U32_MAX) ordered -> 0 <= ms <= ss ->
  ss mod cols = 0 -> ss + padded_total cols ordered < U32_MAX ->
  forall off s i, spans !! i = Some s -> media_start s <= off < media_start s + media_len s ->
  expand ordered !! Z.to_nat (off - ms) = Some (key s).
Proof.
  pose proof (build_spans_aligned cols ordered ms ss) as Hal.
  pose proof (build_spans_spec cols ordered ms ss) as Hsp.
  destruct (build_spans cols ordered ms ss) as [[spans mc] sc].
  intros Hc Hb Hms Hmod Htot.
  assert (Hpos : Forall (fun p => 0 < p.2) ordered) by (eapply Forall_impl; [exact Hb|]; simpl; lia).
  assert (0 <= padded_total cols ordered) as Hnn.
  { apply padded_total_nonneg; [done..|]. eapply Forall_impl; [exact Hb|]; simpl; lia. }
  specialize (Hal Hc Hb Hms Hmod Htot). destruct (Hsp Hc Hpos Hms ltac:(lia)) as (Hcg & _).
  clear -Hal Hcg. revert ms Hcg.
  induction Hal as [|[k c] s0 ordered spans (Hk & Hl & _) _ IH]; intros ms Hcg off s [|i] Hi Hin;
    simpl in *; simplify_eq; destruct Hcg as (Hm & Hpos & Hcg).
  - rewrite lookup_app_l by (rewrite length_replicate; lia). apply lookup_replicate. split; [done|lia].
  - pose proof (contig_bounds _ _ _ _ _ _ Hcg Hi).
    rewrite lookup_app_r by (rewrite length_replicate; lia). rewrite length_replicate.
    rewrite <- (IH _ Hcg off s i Hi Hin). f_equal. lia.
Qed.

(** Nothing is cut off, so the index holds every item. *)
Lemma build_spans_total cols ordered :
  let '(_, mc, sc) := build_spans cols ordered 0 0 in
  1 <= cols -> Forall (fun p => 0 < p.2 <= U32_MAX) ordered ->
  padded_total cols ordered < U32_MAX -> mc = run_total ordered /\ mc <= U32_MAX.
Proof.
  pose proof (build_spans_aligned cols ordered 0 0) as Hal.
  pose proof (build_spans_spec cols ordered 0 0) as Hsp.
  destruct (build_spans cols ordered 0 0) as [[spans mc] sc].
  intros Hc Hb Htot.
  assert (Hpos : Forall (fun p => 0 < p.2) ordered) by (eapply Forall_impl; [exact Hb|]; simpl; lia).
  specialize (Hal Hc Hb ltac:(lia) ltac:(by apply Z.mod_0_l; lia) ltac:(lia)).
  destruct (Hsp Hc Hpos ltac:(lia) ltac:(solve_u32)) as (_ & _ & Hfit & -> & Hsc & Hle).
  assert (sum_len media_len spans <= sum_len slot_len spans).
  { clear -Hfit. induction Hfit; simpl in *; lia. }
  assert (sum_len media_len spans = run_total ordered).
  { clear -Hal. induction Hal as [|[k c] s ? ? (_ & Hl & _) _ IH]; simpl in *; lia. }
  lia.
Qed.

Lemma newest_first_newer x y : newest_first x y -> newer x.1 y.1.
Proof.
  unfold newest_first, newer, date_rank, rank_le, section_sort_key. simpl. lia.
Qed.

(** With every count positive and all keys of one mode, the two orders list
    the same runs. *)
Lemma ordered_counts_sections mode counts :
  map_Forall (fun k c => 0 < c <= U32_MAX /\ exists y m d, k = key_for mode y m d) counts ->
  ordered_counts (map_to_list counts) ≡ₚ ordered_sections counts /\
  expand (ordered_counts (map_to_list counts)) = expand (ordered_sections counts).
Proof.
  intros Hk. assert (Hperm : ordered_counts (map_to_list counts) ≡ₚ ordered_sections counts).
  { unfold ordered_counts, ordered_sections. rewrite !merge_sort_Permutation.
    rewrite filter_all; [done|]. apply Forall_forall.
    intros [k c] Hin%elem_of_map_to_list. destruct (Hk k c Hin). simpl. lia. }
  split; [done|]. apply (StronglySorted_unique_strong newer).
  - intros k1 k2 H1 H2 Hle1 Hle2. rewrite (expand_Permutation _ _ Hperm) in H1.
    unfold ordered_sections in *.
    apply elem_of_expand in H1 as [c1 H1], H2 as [c2 H2].
    rewrite merge_sort_Permutation in H1, H2.
    apply elem_of_map_to_list in H1, H2.
    destruct (Hk _ _ H1) as (_ & y & m & d & ->), (Hk _ _ H2) as (_ & y' & m' & d' & ->).
    apply (key_for_rank_inj mode (y, m, d) (y', m', d')). by apply (anti_symm rank_le).
  - apply expand_StronglySorted; [apply _|].
    eapply StronglySorted_weaken; [apply newest_first_newer|].
    apply (StronglySorted_merge_sort newest_first).
  - apply expand_StronglySorted; [apply _|].
    apply (StronglySorted_merge_sort newer_first).
  - by apply expand_Permutation.
Qed.

(** The grid and the date indicator agree: when all keys come from one
    grouping mode and the padded library fits [u32], the section the layout
    index assigns to a media offset is the one the library-wide lookup
    [section_for_global_offset] gives for that offset. *)
Theorem layout_agrees_with_section_lookup mode section_counts cols off :
  map_Forall (fun k c => 0 < c <= U32_MAX /\ exists y m d, k = key_for mode y m d) section_counts ->
  padded_total (Z.max cols 1) (ordered_counts (map_to_list section_counts)) < U32_MAX ->
  0 <= off < media_count (new section_counts cols) ->
  section_for_media_offset (new section_counts cols) off
  = section_for_global_offset section_counts off.
Proof.
  intros Hk Htot Hoff. pose proof (new_wf section_counts cols) as Hwf.
  destruct (media_has_span _ _ Hwf Hoff) as (i & s & Hi & Hs & Hin).
  unfold section_for_media_offset, span_for_media_offset. rewrite Hi. simpl. rewrite Hs. simpl.
  set (ordered := ordered_counts (map_to_list section_counts)) in *.
  assert (Hb : Forall (fun p => 0 < p.2 <= U32_MAX) ordered).
  { unfold ordered, ordered_counts. rewrite merge_sort_Permutation. apply Forall_forall.
    intros [k c] [Hp Hin'%elem_of_map_to_list]%list_elem_of_filter. by apply (Hk k c). }
  pose proof (build_spans_lookup (Z.max cols 1) ordered 0 0) as Hlk.
  pose proof (build_spans_total (Z.max cols 1) ordered) as Hmc.
  unfold new, new_from in Hs, Hoff. fold ordered in Hs, Hoff.
  destruct (build_spans (Z.max cols 1) ordered 0 0) as [[spans mc] sc]. simpl in *.
  specialize (Hmc ltac:(lia) Hb ltac:(lia)).
  rewrite <- (Hlk ltac:(lia) Hb ltac:(lia) ltac:(by apply Z.mod_0_l; lia) ltac:(lia) _ _ _ Hs Hin).
  rewrite Z.sub_0_r. symmetry.
  destruct (ordered_counts_sections mode section_counts Hk) as [Hperm Hexp].
  fold ordered in Hperm, Hexp. rewrite Hexp.
  apply section_for_global_offset_expand.
  - intros k c Hc. destruct (Hk k c Hc). simpl. lia.
  - rewrite <- (run_total_Permutation _ _ Hperm). lia.
  - rewrite <- (run_total_Permutation _ _ Hperm). lia.
Qed.
(** ** Examples *)
Definition sample_counts : gmap SectionKey Z := {[ key_for Day 2024 5 1 := 3; key_for Day 2024 5 2 := 5 ]}.
Definition sample_index : VirtualGridLayoutIndex := new sample_counts 4.
Lemma sample_wf : wf sample_index.
Proof. unfold sample_index, new. apply new_from_wf. Qed.
Lemma slot_media_roundtrip_witness :
  exists pos, slot_for_media_offset sample_index 6 = Some pos /\ slot_at sample_index pos = Some (MediaOffset 6).
Proof.
  destruct (proj1 (slot_media_roundtrip sample_index sample_wf) 6 ltac:(vm_compute; intuition congruence))
    as (pos & Hp & _ & Hs). exists pos. exact (conj Hp Hs).
Defined.
Lemma insert_media_slot_correct_witness :
  exists ix', insert_media_slot sample_index 0 = Some ix' /\ wf ix' /\ slot_count ix' = slot_count sample_index + 1.
Proof.
  destruct (insert_media_slot_correct sample_index 0 (mkSpan (key_for Day 2024 5 2) 0 5 0 8)
    sample_wf) as (ix' & Hi & Hw & Hc & _);
    [vm_compute; reflexivity|vm_compute; reflexivity|]. exists ix'. exact (conj Hi (conj Hw Hc)).
Defined.
Lemma layout_agrees_with_section_lookup_witness :
  section_for_media_offset sample_index 6 = section_for_global_offset sample_counts 6.
Proof.
  apply (layout_agrees_with_section_lookup Day sample_counts 4 6).
  - unfold sample_counts. apply map_Forall_insert_2; [|apply map_Forall_singleton];
      (split; [unfold U32_MAX; lia|by eexists _, _, _]).
  - vm_compute. reflexivity.
  - vm_compute. intuition congruence.
Defined.
End Layout.
