(* ===== verification/RangeCache.v ===== *)
(** Residency bookkeeping of the virtual grid ([ui/virtual_media_grid/range_cache.rs])
    and the loop that lands range queries ([VirtualMediaGrid::start_range_request]).

    The coordinator keeps the resident ranges sorted, non-empty and
    non-touching; it allows one request in flight and one pending intent. The
    second part models a landing of a range query as a step on the grid's
    fetch state and shows that the landing chain drains the target window. *)
From S2P Require Import Prelude.
From stdpp Require Import sorting.
Local Open Scope Z_scope.

Module RangeCache.

(** ** Ranges *)
Record MediaRange := mkRange { start : Z; end_ : Z }.
#[export] Instance MediaRange_eq_dec : EqDecision MediaRange.
Proof. solve_decision. Defined.

Definition is_empty (r : MediaRange) : bool := end_ r <=? start r.
Definition len (r : MediaRange) : Z := u32_saturating_sub (end_ r) (start r).
Definition contains (r : MediaRange) (offset : Z) : bool :=
  (start r <=? offset) && (offset <? end_ r).
Definition covers (r other : MediaRange) : bool :=
  (start r <=? start other) && (end_ other <=? end_ r).
Definition touches (r other : MediaRange) : bool :=
  (start r <=? end_ other) && (start other <=? end_ r).
Definition union (r other : MediaRange) : MediaRange :=
  mkRange (Z.min (start r) (start other)) (Z.max (end_ r) (end_ other)).
Definition clamp (r : MediaRange) (total : Z) : MediaRange :=
  mkRange (Z.min (start r) total) (Z.min (end_ r) total).

Record RangeRequest := mkRequest { req_generation : Z; req_range : MediaRange }.

Inductive RequestDisposition :=
  | Covered
  | Started (r : RangeRequest)
  | Coalesced.

Record Completion := mkCompletion { apply_result : bool; next : option RangeRequest }.

Record RangeCoordinator := mkCoord {
  generation : Z;
  in_flight : option RangeRequest;
  pending : option RangeRequest;
  resident : list MediaRange
}.

(** [RangeCoordinator::default()]. *)
Definition default_coord : RangeCoordinator := mkCoord 0 None None [].

(** ** Operations *)
(** The scan of [first_uncovered_range] from [cursor]. *)
Fixpoint scan_uncovered (l : list MediaRange) (cursor stop : Z) : option MediaRange :=
  match l with
  | [] => Some (mkRange cursor stop)
  | r :: rest =>
      if end_ r <=? cursor then scan_uncovered rest cursor stop
      else if stop <=? start r then Some (mkRange cursor stop)
      else if cursor <? start r then Some (mkRange cursor (Z.min (start r) stop))
      else
        let cursor := Z.max cursor (end_ r) in
        if stop <=? cursor then None else scan_uncovered rest cursor stop
  end.

Definition first_uncovered_range (c : RangeCoordinator) (requested : MediaRange)
  : option MediaRange :=
  if is_empty requested then None
  else scan_uncovered (resident c) (start requested) (end_ requested).

Definition request_covers (o : option RangeRequest) (requested : MediaRange) : bool :=
  match o with Some r => covers (req_range r) requested | None => false end.

Definition request (c : RangeCoordinator) (requested : MediaRange)
  : RangeCoordinator * RequestDisposition :=
  match first_uncovered_range c requested with
  | None => (c, Covered)
  | Some requested =>
      if request_covers (in_flight c) requested || request_covers (pending c) requested
      then (c, Coalesced)
      else
        match in_flight c with
        | Some _ =>
            (mkCoord (generation c) (in_flight c)
               (Some (mkRequest (generation c) requested)) (resident c), Coalesced)
        | None =>
            let g := u64_saturating_add (generation c) 1 in
            let r := mkRequest g requested in
            (mkCoord g (Some r) (pending c) (resident c), Started r)
        end
  end.

(** One iteration of the merge loop; [merged] is kept last element first. *)
Definition merge_step (merged : list MediaRange) (r : MediaRange) : list MediaRange :=
  match merged with
  | last :: rest => if touches last r then union last r :: rest else r :: merged
  | [] => [r]
  end.

Definition merge_ranges (sorted : list MediaRange) : list MediaRange :=
  reverse (fold_left merge_step sorted []).

Definition by_start (a b : MediaRange) : Prop := start a <= start b.
#[export] Instance by_start_dec : RelDecision by_start.
Proof. intros a b. unfold by_start. apply _. Defined.

Definition mark_resident (c : RangeCoordinator) (range : MediaRange) : RangeCoordinator :=
  if is_empty range then c
  else mkCoord (generation c) (in_flight c) (pending c)
         (merge_ranges (merge_sort by_start (resident c ++ [range]))).

Definition clip (keep range : MediaRange) : option MediaRange :=
  let clipped := mkRange (Z.max (start range) (start keep)) (Z.min (end_ range) (end_ keep)) in
  if is_empty clipped then None else Some clipped.

Definition retain_resident_within (c : RangeCoordinator) (keep : MediaRange) : RangeCoordinator :=
  mkCoord (generation c) (in_flight c) (pending c) (omap (clip keep) (resident c)).

Definition invalidate (c : RangeCoordinator) : RangeCoordinator :=
  mkCoord (u64_saturating_add (generation c) 1) (in_flight c) None [].

Definition finish (c : RangeCoordinator) (gen : Z) : RangeCoordinator * Completion :=
  let apply_result :=
    match in_flight c with Some r => req_generation r =? gen | None => false end
    && (gen =? generation c) in
  (mkCoord (generation c) None None (resident c), mkCompletion apply_result (pending c)).

Definition expanded_visible_range (visible : MediaRange) (total : Z) (moving_forward : bool)
  : MediaRange :=
  if is_empty visible || (total =? 0) then mkRange 0 0
  else
    let overscan := Z.max (len visible) 1 in
    let before := if moving_forward then overscan else u32_saturating_mul overscan 2 in
    let after := if moving_forward then u32_saturating_mul overscan 2 else overscan in
    clamp (mkRange (u32_saturating_sub (start visible) before)
                   (u32_saturating_add (end_ visible) after)) total.

(** ** The landing of a range query *)
(** The part of the grid the fetch loop reads: the coordinator and the frozen
    target window. *)
Record Fetch := mkFetch { range : RangeCoordinator; desired_window : option MediaRange }.

(** [schedule_visible_range], from the point where the desired window is known. *)
Definition schedule (f : Fetch) (desired : MediaRange) : Fetch * RequestDisposition :=
  let '(c, d) := request (range f) desired in
  (mkFetch c (Some desired), d).

(** The main-thread landing of [r]. [ok] says whether the query succeeded,
    [live] is [visible_media_range] expanded, consulted when no window was set. *)
Definition landing (f : Fetch) (r : RangeRequest) (ok : bool) (live : option MediaRange)
  : Fetch * option RequestDisposition :=
  let '(c, completion) := finish (range f) (req_generation r) in
  let c :=
    if apply_result completion && ok then
      let keep := default (req_range r) (match desired_window f with
                                         | Some w => Some w | None => live end) in
      retain_resident_within (mark_resident c (req_range r)) keep
    else c in
  let next_target := match next completion with
                     | Some n => Some (req_range n) | None => desired_window f end in
  match next_target with
  | Some target =>
      let '(c, d) := request c target in (mkFetch c (desired_window f), Some d)
  | None => (mkFetch c (desired_window f), None)
  end.

(** ** Invariant *)
(** The offsets a list of ranges holds. *)
Definition held (l : list MediaRange) (o : Z) : Prop :=
  exists r, r ∈ l /\ start r <= o < end_ r.

Definition gap_before (a b : MediaRange) : Prop := end_ a < start b.
Definition nonempty (r : MediaRange) : Prop := start r < end_ r.

(** Sorted, non-empty, and no two ranges touch. *)
Definition normal (l : list MediaRange) : Prop :=
  Forall nonempty l /\ StronglySorted gap_before l.

Record inv (c : RangeCoordinator) : Prop := {
  inv_resident : normal (resident c);
  inv_generation : 0 <= generation c <= U64_MAX;
  inv_in_flight : forall r, in_flight c = Some r ->
    req_generation r <= generation c /\ nonempty (req_range r);
  inv_pending : forall r, pending c = Some r -> is_Some (in_flight c) /\ nonempty (req_range r)
}.

Ltac unfold_range :=
  unfold is_empty, contains, covers, touches, nonempty, gap_before, by_start, len in *.

Lemma held_nil o : ~ held [] o.
Proof. by intros (r & ?%elem_of_nil & _). Qed.

Lemma held_cons r l o : held (r :: l) o <-> start r <= o < end_ r \/ held l o.
Proof.
  unfold held. split.
  - intros (r' & [->|Hin]%elem_of_cons & H); [by left|right; eauto].
  - intros [H|(r' & Hin & H)]; [exists r|exists r']; split; try done; by constructor.
Qed.

Lemma held_Permutation l1 l2 o : l1 ≡ₚ l2 -> held l1 o <-> held l2 o.
Proof. intros H. unfold held. by setoid_rewrite H. Qed.

Lemma held_app l1 l2 o : held (l1 ++ l2) o <-> held l1 o \/ held l2 o.
Proof.
  induction l1 as [|r l1 IH]; simpl.
  - split; [by right|intros [[]%held_nil|H]; done].
  - rewrite !held_cons, IH. tauto.
Qed.

(** Resident ranges after the head lie strictly beyond its end. *)
Lemma normal_cons_inv r l : normal (r :: l) ->
  nonempty r /\ normal l /\ forall o, held l o -> end_ r < o.
Proof.
  intros [[Hr Hl]%Forall_cons Hs]. apply StronglySorted_inv in Hs as [Hs Hall].
  split_and!; try done. intros o (r' & Hin & Ho). rewrite Forall_forall in Hall.
  specialize (Hall _ Hin). unfold_range. lia.
Qed.

Lemma normal_next_gap r l x : normal (r :: l) -> x ∈ l -> end_ r < start x /\ start x < end_ x.
Proof.
  intros [[_ Hl]%Forall_cons Hs] Hx. apply StronglySorted_inv in Hs as [_ Hall].
  rewrite Forall_forall in Hall, Hl. split; [apply (Hall _ Hx)|apply (Hl _ Hx)].
Qed.

(** *** The gap scan *)
Lemma scan_uncovered_spec l cursor stop :
  normal l -> cursor < stop ->
  match scan_uncovered l cursor stop with
  | None => forall o, cursor <= o < stop -> held l o
  | Some g => nonempty g /\ cursor <= start g /\ end_ g <= stop /\
      (forall o, cursor <= o < start g -> held l o) /\
      (forall o, start g <= o < end_ g -> ~ held l o)
  end.
Proof.
  revert cursor. induction l as [|r l IH]; intros cursor Hn Hlt; simpl.
  { split_and!; simpl; try (done || lia). intros o _. apply held_nil. }
  destruct (normal_cons_inv _ _ Hn) as (Hr & Hn' & Hbeyond).
  assert (Hhd : forall o, held (r :: l) o -> start r <= o).
  { intros o [H|H%Hbeyond]%held_cons; unfold nonempty in *; lia. }
  destruct (end_ r <=? cursor) eqn:E1; zbool.
  { specialize (IH cursor Hn' Hlt). destruct (scan_uncovered l cursor stop) as [g|].
    - destruct IH as (? & ? & ? & Hc & Hu). split_and!; try done.
      + intros o Ho. rewrite held_cons. right; auto.
      + intros o Ho [?|?]%held_cons; [lia|by eapply Hu].
    - intros o Ho. rewrite held_cons. right; auto. }
  destruct (stop <=? start r) eqn:E2; zbool.
  { split_and!; simpl; try (done || lia). intros o Ho H%Hhd. lia. }
  destruct (cursor <? start r) eqn:E3; zbool.
  { split_and!; simpl; unfold nonempty; simpl; try lia. intros o Ho H%Hhd. lia. }
  destruct (stop <=? Z.max cursor (end_ r)) eqn:E4; zbool.
  { intros o Ho. rewrite held_cons. left. lia. }
  specialize (IH (Z.max cursor (end_ r)) Hn' ltac:(lia)).
  destruct (scan_uncovered l _ stop) as [g|].
  - destruct IH as (? & ? & ? & Hc & Hu). split_and!; try (done || lia).
    + intros o Ho. rewrite held_cons.
      destruct (Z.lt_ge_cases o (end_ r)); [left; lia|right; apply Hc; lia].
    + intros o Ho [?|?]%held_cons; [lia|by eapply Hu].
  - intros o Ho. rewrite held_cons.
    destruct (Z.lt_ge_cases o (end_ r)); [left; lia|right; apply IH; lia].
Qed.

(** *** The merge *)
(** [acc] is the reversed output of the merge so far. *)
Definition merged_acc (acc : list MediaRange) : Prop := normal (reverse acc).

Lemma StronglySorted_snoc {A} (R : relation A) l x :
  StronglySorted R (l ++ [x]) <-> StronglySorted R l /\ Forall (fun y => R y x) l.
Proof.
  induction l as [|y l IH]; simpl.
  - split; intros _; repeat constructor.
  - split.
    + intros [[Hs Hf]%IH Hall]%StronglySorted_inv. apply Forall_app in Hall as [Hall Hx].
      rewrite Forall_singleton in Hx. split; by constructor.
    + intros [[Hs Hall]%StronglySorted_inv [Hx Hf]%Forall_cons]. constructor; [by apply IH|].
      apply Forall_app. split; [done|by apply Forall_singleton].
Qed.

Lemma normal_snoc l x :
  normal (l ++ [x]) <-> normal l /\ nonempty x /\ Forall (fun y => end_ y < start x) l.
Proof.
  unfold normal. rewrite Forall_app, Forall_singleton, StronglySorted_snoc.
  unfold gap_before. tauto.
Qed.

Lemma merge_step_spec acc r :
  merged_acc acc -> nonempty r -> Forall (fun a => start a <= start r) acc ->
  merged_acc (merge_step acc r) /\
  (forall o, held (merge_step acc r) o <-> held acc o \/ start r <= o < end_ r) /\
  (forall b, start r <= start b -> Forall (fun a => start a <= start b) (merge_step acc r)).
Proof.
  unfold merged_acc, merge_step. intros Hacc Hr Hle. destruct acc as [|last rest].
  - split_and!.
    + split; repeat constructor; done.
    + intros o. rewrite held_cons. pose proof (held_nil o). tauto.
    + intros b Hb. by repeat constructor.
  - apply Forall_cons in Hle as [Hlast Hrest].
    rewrite reverse_cons in Hacc. apply normal_snoc in Hacc as (Hn & Hl & Hgap).
    destruct (touches last r) eqn:Ht; unfold_range; zbool.
    + split_and!.
      * rewrite reverse_cons. apply normal_snoc. split_and!; [done|unfold nonempty, union; simpl; lia|].
        eapply Forall_impl; [exact Hgap|]. intros y Hy. unfold union. simpl in *. lia.
      * intros o. rewrite !held_cons. unfold union. simpl. unfold nonempty in *.
        split; [intros [?|?]; [|tauto]|intros [[?|?]|?]; [|tauto|]]; lia.
      * intros b Hb. constructor; [unfold union; simpl; lia|].
        eapply Forall_impl; [exact Hrest|]. simpl. lia.
    + assert (end_ last < start r) by (apply andb_false_iff in Ht as [?|?]; zbool; lia).
      split_and!.
      * rewrite reverse_cons. apply normal_snoc. rewrite reverse_cons, normal_snoc.
        split_and!; try done. apply Forall_app. split; [|by apply Forall_singleton].
        eapply Forall_impl; [exact Hgap|]. intros y Hy. unfold nonempty in *. simpl in *. lia.
      * intros o. rewrite !held_cons. tauto.
      * intros b Hb. repeat constructor; [done|lia|].
        eapply Forall_impl; [exact Hrest|]. simpl. lia.
Qed.

Lemma merge_ranges_spec l :
  Forall nonempty l -> StronglySorted by_start l ->
  normal (merge_ranges l) /\ forall o, held (merge_ranges l) o <-> held l o.
Proof.
  intros Hne Hs. unfold merge_ranges.
  assert (Hgen : forall acc, merged_acc acc ->
    Forall (fun r => Forall (fun a => start a <= start r) acc) l ->
    merged_acc (fold_left merge_step l acc) /\
    forall o, held (fold_left merge_step l acc) o <-> held acc o \/ held l o).
  { induction l as [|r l IH]; intros acc Hacc Hle; simpl.
    { split; [done|]. intros o. pose proof (held_nil o). tauto. }
    apply Forall_cons in Hne as [Hr Hne], Hle as [Hle Hle'].
    apply StronglySorted_inv in Hs as [Hs Hall].
    destruct (merge_step_spec acc r Hacc Hr Hle) as (H1 & H2 & H3).
    destruct (IH Hne Hs (merge_step acc r) H1) as [H4 H5].
    { eapply Forall_impl; [exact Hall|]. intros b Hb. apply H3, Hb. }
    split; [done|]. intros o. rewrite H5, H2, held_cons. tauto. }
  destruct (Hgen []) as [H1 H2].
  { split; constructor. }
  { apply Forall_forall. intros; constructor. }
  split; [done|]. intros o. rewrite (held_Permutation _ _ o (reverse_Permutation _)), H2.
  pose proof (held_nil o). tauto.
Qed.

Lemma normal_all l : normal l -> Forall nonempty l.
Proof. by intros [? _]. Qed.

(** A normal list is determined by the offsets it holds. *)
Lemma normal_ext l1 l2 : normal l1 -> normal l2 -> (forall o, held l1 o <-> held l2 o) -> l1 = l2.
Proof.
  revert l2. induction l1 as [|r1 l1 IH]; intros [|r2 l2] H1 H2 Heq; [done|..].
  - destruct (normal_cons_inv _ _ H2) as (Hr & _). unfold nonempty in Hr.
    destruct (held_nil (start r2)). apply Heq. rewrite held_cons. left; lia.
  - destruct (normal_cons_inv _ _ H1) as (Hr & _). unfold nonempty in Hr.
    destruct (held_nil (start r1)). apply Heq. rewrite held_cons. left; lia.
  - destruct (normal_cons_inv _ _ H1) as (Hr1 & Hn1 & Hb1).
    destruct (normal_cons_inv _ _ H2) as (Hr2 & Hn2 & Hb2). unfold nonempty in *.
    assert (Hq : forall o, start r1 <= o < end_ r1 \/ held l1 o <-> start r2 <= o < end_ r2 \/ held l2 o).
    { intros o. rewrite <- !held_cons. apply Heq. }
    assert (r1 = r2) as ->.
    { assert (start r2 <= start r1)
        by (destruct (proj1 (Hq (start r1)) ltac:(left; lia)) as [?|?%Hb2]; lia).
      assert (start r1 <= start r2)
        by (destruct (proj2 (Hq (start r2)) ltac:(left; lia)) as [?|?%Hb1]; lia).
      assert (~ end_ r1 < end_ r2).
      { intros ?. destruct (proj2 (Hq (end_ r1)) ltac:(left; lia)) as [?|?%Hb1]; lia. }
      assert (~ end_ r2 < end_ r1).
      { intros ?. destruct (proj1 (Hq (end_ r2)) ltac:(left; lia)) as [?|?%Hb2]; lia. }
      destruct r1 as [a b], r2 as [c d]; simpl in *. f_equal; lia. }
    f_equal. apply IH; [done..|]. intros o. split; intros Ho.
    + destruct (proj1 (Hq o) (or_intror Ho)) as [?|?]; [|done]. apply Hb1 in Ho. lia.
    + destruct (proj2 (Hq o) (or_intror Ho)) as [?|?]; [|done]. apply Hb2 in Ho. lia.
Qed.

#[export] Instance by_start_trans : Transitive by_start.
Proof. intros a b c. unfold by_start. lia. Qed.
#[export] Instance by_start_total : Total by_start.
Proof. intros a b. unfold by_start. lia. Qed.

Lemma contains_true r o : contains r o = true <-> start r <= o < end_ r.
Proof. unfold contains. by rewrite andb_true_iff, Z.leb_le, Z.ltb_lt. Qed.

Lemma is_empty_false r : is_empty r = false <-> nonempty r.
Proof. unfold is_empty, nonempty. by rewrite Z.leb_gt. Qed.

(** Any sort of the extended list merges to the same offsets. *)
Lemma merge_extended l range sorted :
  normal l -> nonempty range -> sorted ≡ₚ l ++ [range] -> StronglySorted by_start sorted ->
  normal (merge_ranges sorted) /\
  forall o, held (merge_ranges sorted) o <-> held l o \/ contains range o = true.
Proof.
  intros Hn Hr Hp Hs. destruct (merge_ranges_spec sorted) as [H1 H2]; [|done|].
  { rewrite Hp. apply Forall_app. split; [by apply normal_all|by apply Forall_singleton]. }
  split; [done|]. intros o. rewrite H2, (held_Permutation _ _ o Hp), held_app, held_cons, contains_true.
  pose proof (held_nil o). tauto.
Qed.

Lemma mark_resident_spec c range :
  normal (resident c) ->
  normal (resident (mark_resident c range)) /\
  forall o, held (resident (mark_resident c range)) o
            <-> held (resident c) o \/ contains range o = true.
Proof.
  intros Hn. unfold mark_resident. destruct (is_empty range) eqn:E; simpl.
  - split; [done|]. intros o. rewrite contains_true. unfold is_empty in E. zbool.
    split; [by left|]. intros [?|?]; [done|lia].
  - apply merge_extended; [done|by apply is_empty_false|apply merge_sort_Permutation|].
    apply (StronglySorted_merge_sort by_start).
Qed.

(** A landed range becomes resident exactly: after [mark_resident] the
    resident offsets are the old ones and those of the range, held in sorted,
    non-empty, pairwise non-touching ranges; and since such a list is
    determined by its offsets, the unstable order of equal starts in the sort
    cannot be observed. *)
Theorem mark_resident_correct c range :
  normal (resident c) ->
  normal (resident (mark_resident c range)) /\
  (forall o, held (resident (mark_resident c range)) o
             <-> held (resident c) o \/ contains range o = true) /\
  (forall sorted, sorted ≡ₚ resident c ++ [range] -> StronglySorted by_start sorted ->
     is_empty range = false -> merge_ranges sorted = resident (mark_resident c range)).
Proof.
  intros Hn. destruct (mark_resident_spec c range Hn) as [H1 H2]. split_and!; [done..|].
  intros l Hp Hs E. destruct (merge_extended (resident c) range l) as [H3 H4];
    [done|by apply is_empty_false|done..|].
  apply normal_ext; [done..|]. intros o. by rewrite H2, H4.
Qed.

Lemma first_uncovered_spec c requested :
  normal (resident c) ->
  match first_uncovered_range c requested with
  | None => forall o, contains requested o = true -> held (resident c) o
  | Some gap => is_empty gap = false /\ covers requested gap = true /\
      (forall o, start requested <= o < start gap -> held (resident c) o) /\
      (forall o, contains gap o = true -> ~ held (resident c) o)
  end.
Proof.
  intros Hn. unfold first_uncovered_range. destruct (is_empty requested) eqn:E.
  { intros o Ho%contains_true. unfold is_empty in E. zbool. lia. }
  unfold is_empty in E. zbool.
  pose proof (scan_uncovered_spec (resident c) (start requested) (end_ requested) Hn E) as H.
  destruct (scan_uncovered _ _ _) as [g|].
  - destruct H as (? & ? & ? & ? & Hu). split_and!; [by apply is_empty_false| |done|].
    + unfold covers. rewrite andb_true_iff, !Z.leb_le. lia.
    + intros o Ho%contains_true. auto.
  - intros o Ho%contains_true. auto.
Qed.

(** [first_uncovered_range] on a sorted resident list: [None] exactly when
    nothing of the requested range is missing; otherwise a non-empty gap
    inside the request, none of it resident, with everything before it
    resident. *)
Theorem first_uncovered_range_correct c requested :
  normal (resident c) ->
  match first_uncovered_range c requested with
  | None => forall o, contains requested o = true -> held (resident c) o
  | Some gap => is_empty gap = false /\ covers requested gap = true /\
      (forall o, start requested <= o < start gap -> held (resident c) o) /\
      (forall o, contains gap o = true -> ~ held (resident c) o)
  end.
Proof. apply first_uncovered_spec. Qed.

(** ** Sequences of operations *)
Inductive Op :=
  | ORequest (r : MediaRange)
  | OMark (r : MediaRange)
  | ORetain (r : MediaRange)
  | OInvalidate
  | OFinish (generation : Z).

Definition exec (c : RangeCoordinator) (op : Op) : RangeCoordinator :=
  match op with
  | ORequest r => (request c r).1
  | OMark r => mark_resident c r
  | ORetain r => retain_resident_within c r
  | OInvalidate => invalidate c
  | OFinish g => (finish c g).1
  end.

Lemma clip_Some keep r r' :
  clip keep r = Some r' ->
  nonempty r' /\ start r <= start r' /\ end_ r' <= end_ r /\
  forall o, start r' <= o < end_ r' <-> start r <= o < end_ r /\ start keep <= o < end_ keep.
Proof.
  unfold clip. destruct (is_empty _) eqn:E; [done|]. intros [= <-].
  apply is_empty_false in E. unfold nonempty in *. simpl in *. split_and!; try lia.
Qed.

Lemma clip_None keep r o :
  clip keep r = None -> ~ (start r <= o < end_ r /\ start keep <= o < end_ keep).
Proof.
  unfold clip. destruct (is_empty _) eqn:E; [|done]. intros _. unfold is_empty in E. zbool.
  simpl in E. lia.
Qed.

Lemma omap_clip_spec keep l :
  normal l ->
  normal (omap (clip keep) l) /\
  forall o, held (omap (clip keep) l) o <-> held l o /\ contains keep o = true.
Proof.
  induction l as [|r l IH]; intros Hn.
  { split; [done|]. intros o. pose proof (held_nil o). tauto. }
  destruct (normal_cons_inv _ _ Hn) as (Hr & Hn' & Hb). destruct (IH Hn') as [H1 H2].
  cbn [omap list_omap]. destruct (clip keep r) as [r'|] eqn:Ec.
  - apply clip_Some in Ec as (Hne & Hs & He & Heq). split.
    + split; [constructor; [done|apply H1]|constructor; [apply H1|]].
      apply Forall_forall. intros x Hx. apply list_elem_of_omap in Hx as (y & Hy & Hc).
      destruct (normal_next_gap _ _ _ Hn Hy).
      apply clip_Some in Hc as (_ & ? & _). unfold gap_before. lia.
    + intros o. rewrite !held_cons, H2, contains_true, Heq. tauto.
  - split; [done|]. intros o. rewrite held_cons, H2, contains_true.
    pose proof (clip_None _ _ o Ec). tauto.
Qed.

Lemma first_uncovered_nonempty c r g :
  normal (resident c) -> first_uncovered_range c r = Some g -> nonempty g.
Proof.
  intros Hn. unfold first_uncovered_range. destruct (is_empty r) eqn:E; [done|].
  apply is_empty_false in E. pose proof (scan_uncovered_spec _ _ _ Hn E) as H.
  intros Hg. rewrite Hg in H. apply H.
Qed.

Lemma exec_inv c op : inv c -> inv (exec c op).
Proof.
  intros [Hn Hg Hf Hp]. destruct op as [r|r|r| |g]; simpl.
  - unfold request. destruct (first_uncovered_range c r) as [gap|] eqn:E; [|done].
    apply first_uncovered_nonempty in E; [|done].
    destruct (_ || _); [done|]. destruct (in_flight c) as [f|] eqn:Ef; simpl.
    + constructor; simpl; rewrite ?Ef; try done. intros x [= <-]. split; [by eexists|done].
    + constructor; simpl; [done|solve_u32| |].
      * intros x [= <-]. simpl. split; [lia|done].
      * intros x Hx. destruct (Hp x Hx) as [[y [=]] _].
  - destruct (mark_resident_spec c r Hn) as [Hn' _]. unfold mark_resident in *.
    destruct (is_empty r); [done|]. by constructor.
  - constructor; simpl; try done. by apply omap_clip_spec.
  - constructor; simpl; [split; constructor|solve_u32| |done].
    intros x Hx. destruct (Hf x Hx). split; [solve_u32|done].
  - by constructor.
Qed.

Lemma default_inv : inv default_coord.
Proof. constructor; simpl; [split; constructor|solve_u32|done|done]. Qed.

(** C34: In every state the coordinator can reach, the resident ranges are
    sorted, non-empty and pairwise non-touching, the generation stays in
    [u64], a request in flight never carries a later generation, and an
    intent is pending only while a request is in flight. *)
Theorem coordinator_invariant ops : inv (fold_left exec ops default_coord).
Proof.
  generalize default_inv. generalize default_coord. induction ops as [|op ops IH]; intros c Hc; simpl; [done|].
  by apply IH, exec_inv.
Qed.

Lemma exec_generation_mono c op :
  generation c <= U64_MAX -> generation c <= generation (exec c op) <= U64_MAX.
Proof.
  intros Hu. destruct op as [r|r|r| |g]; simpl; try lia.
  - unfold request. destruct (first_uncovered_range c r); [|simpl; lia].
    destruct (_ || _); [simpl; lia|]. destruct (in_flight c); solve_u32.
  - unfold mark_resident. destruct (is_empty r); simpl; lia.
  - solve_u32.
Qed.

Lemma exec_ops_generation_mono ops c :
  generation c <= U64_MAX -> generation c <= generation (fold_left exec ops c).
Proof.
  revert c. induction ops as [|op ops IH]; intros c Hu; simpl; [lia|].
  pose proof (exec_generation_mono c op Hu). specialize (IH (exec c op)). lia.
Qed.

Lemma invalidate_generation c :
  generation c < U64_MAX -> generation (invalidate c) = generation c + 1.
Proof. cbn [invalidate generation]. unfold u64_saturating_add. lia. Qed.

(** After [invalidate], the result of any request issued before it is
    dropped, whatever happens in between, as long as the generation counter
    has not saturated. *)
Theorem stale_result_dropped c r ops :
  inv c -> generation c < U64_MAX -> in_flight c = Some r ->
  apply_result (finish (fold_left exec ops (invalidate c)) (req_generation r)).2 = false.
Proof.
  intros Hc Hu Hr. destruct (inv_in_flight _ Hc r Hr) as [Hle _].
  pose proof (invalidate_generation c Hu) as Hg.
  pose proof (exec_ops_generation_mono ops (invalidate c) ltac:(lia)) as Hm.
  unfold finish. cbn [snd apply_result].
  rewrite (proj2 (Z.eqb_neq (req_generation r) _)) by lia. apply andb_false_r.
Qed.

(** What a request does on each branch. [Covered] exactly when every
    offset is resident; [Started] only when nothing was in flight, with a
    fresh generation and a non-empty, not yet resident part of the request;
    [Coalesced] only while something is in flight, and then either a known
    request already covers the first gap or the gap becomes the pending
    intent. The resident ranges never change. *)
Theorem request_correct c requested :
  inv c ->
  let '(c', d) := request c requested in
  resident c' = resident c /\
  match d with
  | Covered => c' = c /\ forall o, contains requested o = true -> held (resident c) o
  | Started r => in_flight c = None /\ in_flight c' = Some r /\
      req_generation r = generation c' /\ covers requested (req_range r) = true /\
      is_empty (req_range r) = false /\
      (forall o, contains (req_range r) o = true -> ~ held (resident c) o)
  | Coalesced => is_Some (in_flight c) /\ in_flight c' = in_flight c /\
      exists gap, first_uncovered_range c requested = Some gap /\
        (request_covers (in_flight c') gap = true \/ request_covers (pending c') gap = true)
  end.
Proof.
  intros Hc. pose proof (first_uncovered_spec c requested (inv_resident _ Hc)) as Hs.
  unfold request. destruct (first_uncovered_range c requested) as [gap|]; [|by auto].
  destruct (request_covers (in_flight c) gap) eqn:E1; simpl.
  { split_and!; try done; [|by eauto]. by destruct (in_flight c). }
  destruct (request_covers (pending c) gap) eqn:E2; simpl.
  { split_and!; try done; [|by eauto]. destruct (pending c) as [p|] eqn:Ep; [|done].
    by destruct (inv_pending _ Hc p Ep). }
  destruct (in_flight c) as [f|] eqn:Ef; simpl.
  - split_and!; try done. exists gap. split; [done|]. right.
    unfold covers. rewrite !(proj2 (Z.leb_le _ _)) by lia. done.
  - destruct Hs as (? & ? & ? & ?). split_and!; done.
Qed.

(** ** Draining a window *)
(** The chain of landings the grid runs for one started request, every query
    succeeding: a landing that starts a further request is followed by that
    request's landing. [None] when the chain needs more than [fuel] landings. *)
Fixpoint drain (fuel : nat) (f : Fetch) (r : RangeRequest) (live : option MediaRange)
  : option Fetch :=
  match fuel with
  | O => None
  | S fuel =>
      match landing f r true live with
      | (f', Some (Started r')) => drain fuel f' r' live
      | (f', _) => Some f'
      end
  end.

Definition heldb (l : list MediaRange) (o : Z) : bool := existsb (fun r => contains r o) l.

Lemma heldb_held l o : heldb l o = true <-> held l o.
Proof.
  unfold heldb, held. rewrite existsb_exists. setoid_rewrite list_elem_of_In.
  by setoid_rewrite contains_true.
Qed.

(** The offsets of the window that are not resident. *)
Definition missing (w : MediaRange) (l : list MediaRange) : list Z :=
  filter (fun o => heldb l o = false) (seqZ (start w) (end_ w - start w)).

Lemma missing_length w l : Z.of_nat (length (missing w l)) <= Z.max 0 (end_ w - start w).
Proof.
  unfold missing. etrans; [apply inj_le, length_filter|]. rewrite length_seqZ. lia.
Qed.

Lemma filter_impl_length {A} (P Q : A -> Prop) `{!forall x, Decision (P x)} `{!forall x, Decision (Q x)}
    (l : list A) :
  Forall (fun x => P x -> Q x) l -> (length (filter P l) <= length (filter Q l))%nat.
Proof.
  induction 1 as [|y l Hy _ IH]; [done|]. rewrite !filter_cons.
  repeat case_decide; simpl; try lia. naive_solver.
Qed.

Lemma filter_strict {A} (P Q : A -> Prop) `{!forall x, Decision (P x)} `{!forall x, Decision (Q x)}
    (l : list A) x :
  Forall (fun x => P x -> Q x) l -> x ∈ l -> Q x -> ~ P x ->
  (length (filter P l) < length (filter Q l))%nat.
Proof.
  intros Himp Hin HQ HP. induction Himp as [|y l Hy Himp IH]; [by apply elem_of_nil in Hin|].
  rewrite !filter_cons. apply elem_of_cons in Hin as [<-|Hin].
  - rewrite decide_False, decide_True by done. simpl.
    pose proof (filter_impl_length P Q l Himp). lia.
  - specialize (IH Hin). repeat case_decide; simpl; try lia. naive_solver.
Qed.

Lemma missing_decreases w l l' o :
  (forall o, held l o -> start w <= o < end_ w -> held l' o) ->
  start w <= o < end_ w -> ~ held l o -> held l' o ->
  (length (missing w l') < length (missing w l))%nat.
Proof.
  intros Hmono Ho Hn Hh. unfold missing.
  assert (Hfalse : forall l o, heldb l o = false <-> ~ held l o).
  { intros l0 o0. by rewrite <- heldb_held, not_true_iff_false. }
  apply (filter_strict _ _ _ o).
  - apply Forall_forall. intros x Hx%elem_of_seqZ. rewrite !Hfalse. intros Hb Hl.
    apply Hb, Hmono; [done|lia].
  - apply elem_of_seqZ. lia.
  - by apply Hfalse.
  - by rewrite Hfalse; auto.
Qed.

(** A fetch that waits for [r] only, a current request for part of window [w]. *)
Record waiting (w : MediaRange) (f : Fetch) (r : RangeRequest) : Prop := {
  w_inv : inv (range f);
  w_window : desired_window f = Some w;
  w_pending : pending (range f) = None;
  w_flight : in_flight (range f) = Some r;
  w_current : req_generation r = generation (range f);
  w_nonempty : nonempty (req_range r);
  w_inside : start w <= start (req_range r) /\ end_ (req_range r) <= end_ w;
  w_missing : forall o, start (req_range r) <= o < end_ (req_range r) -> ~ held (resident (range f)) o
}.

(** What a request from an idle coordinator leaves. *)
Lemma request_idle c w :
  inv c -> in_flight c = None ->
  match request c w with
  | (c', Covered) => c' = c /\ forall o, start w <= o < end_ w -> held (resident c) o
  | (c', Started r) => waiting w (mkFetch c' (Some w)) r /\ resident c' = resident c
  | (_, Coalesced) => False
  end.
Proof.
  intros Hc Hf. pose proof (exec_inv c (ORequest w) Hc) as Hc'. simpl in Hc'.
  pose proof (first_uncovered_spec c w (inv_resident _ Hc)) as Hs.
  assert (Hp : pending c = None).
  { destruct (pending c) as [p|] eqn:E; [|done]. destruct (inv_pending _ Hc p E) as [[x Hx] _].
    congruence. }
  unfold request in *. destruct (first_uncovered_range c w) as [gap|].
  - rewrite Hf, Hp in *. cbn [request_covers orb fst] in *. destruct Hs as (H1 & H2 & _ & H4).
    split; [|done]. unfold covers in H2. zbool.
    constructor; cbn; try done; [by apply is_empty_false|].
    intros o Ho. apply H4, contains_true, Ho.
  - split; [done|]. intros o Ho. apply Hs, contains_true, Ho.
Qed.

(** One landing: the window is drained, or a strictly smaller part is missing. *)
Lemma landing_progress w f r live :
  waiting w f r ->
  match landing f r true live with
  | (f', Some Covered) => in_flight (range f') = None /\ inv (range f') /\
      forall o, start w <= o < end_ w -> held (resident (range f')) o
  | (f', Some (Started r')) => waiting w f' r' /\
      (length (missing w (resident (range f'))) < length (missing w (resident (range f))))%nat
  | _ => False
  end.
Proof.
  intros [Hi Hw Hp Hf Hg Hne Hin Hm]. unfold landing, finish.
  rewrite Hf, Hp, Hw, Hg, Z.eqb_refl. cbn [andb apply_result next default from_option id].
  set (c0 := mkCoord (generation (range f)) None None (resident (range f))).
  set (c1 := retain_resident_within (mark_resident c0 (req_range r)) w).
  assert (Hi0 : inv c0) by (apply (exec_inv (range f) (OFinish 0) Hi)).
  pose proof (exec_inv _ (ORetain w) (exec_inv _ (OMark (req_range r)) Hi0)) as Hi1.
  cbn [exec] in Hi1. fold c1 in Hi1.
  assert (Hidle : in_flight c1 = None).
  { unfold c1, mark_resident. destruct (is_empty _); done. }
  assert (Hheld : forall o, held (resident c1) o <->
    (held (resident (range f)) o \/ start (req_range r) <= o < end_ (req_range r))
    /\ start w <= o < end_ w).
  { intros o. destruct (mark_resident_spec c0 (req_range r) (inv_resident _ Hi0)) as [Hn1 Hh1].
    destruct (omap_clip_spec w _ Hn1) as [_ Hh2]. cbn [c1 retain_resident_within resident].
    by rewrite Hh2, Hh1, !contains_true. }
  pose proof (request_idle c1 w Hi1 Hidle) as Hreq.
  destruct (request c1 w) as [c2 [|r'|]]; [|..|done].
  - destruct Hreq as [-> Hall]. cbn [range]. auto.
  - destruct Hreq as [Hwait Hres]. split; [done|]. cbn [range]. rewrite Hres.
    apply (missing_decreases w _ _ (start (req_range r))).
    + intros o Ho Hb. apply Hheld. tauto.
    + unfold nonempty in Hne. lia.
    + apply Hm. unfold nonempty in Hne. lia.
    + apply Hheld. unfold nonempty in Hne. split; [right|]; lia.
Qed.

Lemma drain_waiting w live fuel f r :
  waiting w f r -> (length (missing w (resident (range f))) <= fuel)%nat ->
  exists f', drain (S fuel) f r live = Some f' /\ in_flight (range f') = None /\ inv (range f') /\
    forall o, start w <= o < end_ w -> held (resident (range f')) o.
Proof.
  revert f r. induction fuel as [|fuel IH]; intros f r Hwait Hlen;
    pose proof (landing_progress w f r live Hwait) as Hl; simpl;
    destruct (landing f r true live) as [f' [[|r'|]|]]; try done; try (by exists f').
  - destruct Hl as [_ Hl]. lia.
  - destruct Hl as [Hw' Hlt]. apply (IH f' r' Hw'). lia.
Qed.


(** The prefetch window of a viewport stays inside the library, contains
    every visible item of it, and is never larger than four viewports, with
    no wrap-around anywhere in [u32]. *)
Theorem expanded_visible_range_bounds visible total fwd :
  is_u32 (start visible) -> is_u32 (end_ visible) -> is_u32 total ->
  let w := expanded_visible_range visible total fwd in
  0 <= start w <= end_ w /\ end_ w <= total /\
  (forall o, contains visible o = true -> o < total -> contains w o = true) /\
  end_ w - start w <= 4 * len visible.
Proof.
  intros Hs He Ht. unfold expanded_visible_range, len, is_empty, clamp.
  assert (Hc : forall o, contains visible o = true -> start visible <= o < end_ visible)
    by (intros o; apply contains_true).
  destruct (end_ visible <=? start visible) eqn:E1; cbn [orb]; zbool.
  { unfold_width. cbn. split_and!; try lia. intros o Ho%Hc. lia. }
  destruct (total =? 0) eqn:E2; zbool.
  { unfold_width. cbn. split_and!; try lia. intros o Ho%Hc. lia. }
  setoid_rewrite contains_true. unfold_width.
  destruct fwd; cbn [start end_]; split_and!; try lia.
Qed.
(** ** Examples *)
Lemma request_correct_witness :
  request default_coord (mkRange 0 30)
  = (mkCoord 1 (Some (mkRequest 1 (mkRange 0 30))) None [], Started (mkRequest 1 (mkRange 0 30))) /\
  covers (mkRange 0 30) (mkRange 0 30) = true.
Proof.
  split; [reflexivity|]. pose proof (request_correct default_coord (mkRange 0 30) default_inv) as H.
  cbn in H. apply H.
Defined.
Lemma stale_result_dropped_witness :
  apply_result (finish (invalidate (request default_coord (mkRange 0 30)).1) 1).2 = false.
Proof.
  apply (stale_result_dropped (request default_coord (mkRange 0 30)).1 (mkRequest 1 (mkRange 0 30)) []);
    [|reflexivity|reflexivity].
  apply (exec_inv _ (ORequest (mkRange 0 30))), default_inv.
Defined.
End RangeCache.
