(* ===== verification/Content.v ===== *)
(** Digest encodings of the sync layer ([sync/content.rs]): lowercase hex,
    padded Base64, the conversion between the two, and the bounded search for a
    thumbnail that fits. *)
From Stdlib Require Import Ascii String.
From stdpp Require Import pretty.
From S2P Require Import Prelude.
Local Open Scope Z_scope.

Module Content.

(** A byte is a [Z] in [0, 256). *)
Definition is_byte (b : Z) : Prop := 0 <= b < 256.

(** ** Hex *)
Definition HEX_DIGITS : list ascii :=
  ["0"; "1"; "2"; "3"; "4"; "5"; "6"; "7"; "8"; "9"; "a"; "b"; "c"; "d"; "e"; "f"]%char.
(** [char::from_digit(d, 16).unwrap_or('0')]. *)
Definition hex_digit (d : Z) : ascii := default "0"%char (HEX_DIGITS !! Z.to_nat d).

Fixpoint to_hex (bytes : list Z) : string :=
  match bytes with
  | [] => EmptyString
  | byte :: rest =>
      String (hex_digit (Z.shiftr byte 4)) (String (hex_digit (Z.land byte 15)) (to_hex rest))
  end.

(** ** Base64 *)
Definition BASE64 : list ascii :=
  String.list_ascii_of_string "ABCDEFGHIJKLMNOPQRSTUVWXYZabcdefghijklmnopqrstuvwxyz0123456789+/"%string.

(** [BASE64[i] as char]; the index is masked to 63 at every use. *)
Definition base64_char (i : Z) : ascii := default "A"%char (BASE64 !! Z.to_nat i).

(** One chunk of at most three bytes; [len] is the chunk's length. *)
Definition encode_chunk (len b0 b1 b2 : Z) : list ascii :=
  let n := Z.lor (Z.lor (Z.shiftl b0 16) (Z.shiftl b1 8)) b2 in
  [base64_char (Z.land (Z.shiftr n 18) 63);
   base64_char (Z.land (Z.shiftr n 12) 63);
   if 1 <? len then base64_char (Z.land (Z.shiftr n 6) 63) else "="%char;
   if 2 <? len then base64_char (Z.land n 63) else "="%char].

(** [to_base64], over [bytes.chunks(3)]. *)
Fixpoint to_base64 (bytes : list Z) : list ascii :=
  match bytes with
  | [] => []
  | [b0] => encode_chunk 1 b0 0 0
  | [b0; b1] => encode_chunk 2 b0 b1 0
  | b0 :: b1 :: b2 :: rest => encode_chunk 3 b0 b1 b2 ++ to_base64 rest
  end.

(** [BASE64.iter().position(..)]. *)
Definition position (c : ascii) : option Z :=
  (fun p => Z.of_nat p.1) <$> list_find (fun d => d = c) BASE64.

(** The 24-bit buffer of one group. *)
Fixpoint fill (group : list ascii) (buffer : Z) : option Z :=
  match group with
  | [] => Some buffer
  | c :: rest =>
      if bool_decide (c = "="%char) then fill rest (Z.shiftl buffer 6)
      else match position c with
           | Some index => fill rest (Z.lor (Z.shiftl buffer 6) index)
           | None => None
           end
  end.

Definition padding (group : list ascii) : nat := length (filter (fun c => c = "="%char) group).

(** [(buffer >> (16 - index * 8)) as u8]. *)
Definition byte_at (buffer index : Z) : Z := Z.shiftr buffer (16 - index * 8) mod 256.

Definition decode_group (group : list ascii) : option (list Z) :=
  if (2 <? padding group)%nat then None
  else
    buffer ← fill group 0;
    Some (take (3 - padding group) [byte_at buffer 0; byte_at buffer 1; byte_at buffer 2]).

(** [from_base64], over [bytes.chunks(4)]; a short last chunk is the length check. *)
Fixpoint from_base64 (value : list ascii) : option (list Z) :=
  match value with
  | [] => Some []
  | a :: b :: c :: d :: rest =>
      out ← decode_group [a; b; c; d];
      tail ← from_base64 rest;
      Some (out ++ tail)
  | _ => None
  end.

(** [ContentDigest::hex_from_descriptor_base64]. *)
Definition hex_from_descriptor_base64 (checksum : string) : option string :=
  to_hex <$> from_base64 (String.list_ascii_of_string checksum).

(** ** Digests *)
Record ContentDigest := mkContentDigest { digest_size : Z; hex : string; base64 : string }.

Section Digests.
(** [Sha256::digest]. *)
Context (sha256 : list Z -> list Z).
(** [ContentDigest::of]. *)
Definition digest_of (bytes : list Z) : ContentDigest :=
  mkContentDigest (Z.of_nat (length bytes)) (to_hex (sha256 bytes))
    (String.string_of_list_ascii (to_base64 (sha256 bytes))).
End Digests.

(** ** Fitting a thumbnail *)
Definition MAX_THUMBNAIL_ATTEMPTS : nat := 10.
Definition MIN_THUMBNAIL_QUALITY : Z := 40.
Definition MIN_THUMBNAIL_EDGE : Z := 64.

Section Thumbnail.
(** The renderer: the JPEG bytes at an edge and quality, or an error. *)
Context (sha256 : list Z -> list Z) (render : Z -> Z -> result (list Z)).

Fixpoint fit (attempts : nat) (edge quality max_bytes : Z) : result (list Z * ContentDigest) :=
  match attempts with
  | O => Err (Backend ("the thumbnail could not be rendered within " +:+ pretty max_bytes +:+ " bytes")%string)
  | S attempts =>
      match render edge quality with
      | Err e => Err e
      | Ok bytes =>
          if Z.of_nat (length bytes) <=? max_bytes then Ok (bytes, digest_of sha256 bytes)
          else if MIN_THUMBNAIL_QUALITY <? quality then fit attempts edge (quality - 10) max_bytes
          else fit attempts (Z.max (edge / 2) MIN_THUMBNAIL_EDGE) 80 max_bytes
      end
  end.

(** [thumbnail_from]. *)
Definition thumbnail_from (max_edge max_bytes : Z) : result (list Z * ContentDigest) :=
  fit MAX_THUMBNAIL_ATTEMPTS max_edge 90 max_bytes.
End Thumbnail.

(** ** Properties *)
Lemma lor_disjoint a x k : 0 <= k -> 0 <= a -> 0 <= x < 2 ^ k -> Z.lor (Z.shiftl a k) x = a * 2 ^ k + x.
Proof.
  intros Hk Ha Hx. rewrite <- Z.shiftl_mul_pow2 by done.
  rewrite <- Z.add_lor_land. assert (Z.land (Z.shiftl a k) x = 0) as ->; [|lia].
  apply Z.bits_inj'. intros n Hn. rewrite Z.land_spec, Z.bits_0.
  destruct (Z.lt_ge_cases n k) as [Hlt|Hge].
  - by rewrite Z.shiftl_spec_low.
  - assert (Z.testbit x n = false) as ->; [|apply andb_false_r].
    destruct (Z.eq_dec x 0) as [->|Hx0]; [apply Z.bits_0|].
    apply Z.bits_above_log2; [lia|]. assert (Z.log2 x < k) by (apply Z.log2_lt_pow2; lia). lia.
Qed.

Lemma land_63 n : Z.land n 63 = n mod 64.
Proof. exact (Z.land_ones n 6 ltac:(lia)). Qed.

Lemma position_base64_char i : 0 <= i < 64 -> position (base64_char i) = Some i /\ base64_char i <> "="%char.
Proof.
  intros Hi. assert (Hall : forallb (fun k => bool_decide (position (base64_char (Z.of_nat k)) = Some (Z.of_nat k))
    && negb (bool_decide (base64_char (Z.of_nat k) = "="%char))) (seq 0 64) = true) by (vm_compute; reflexivity).
  rewrite forallb_forall in Hall. specialize (Hall (Z.to_nat i)).
  rewrite Z2Nat.id in Hall by lia.
  destruct (andb_prop _ _ (Hall ltac:(apply in_seq; lia))) as [H1%bool_decide_eq_true H2].
  split; [done|]. apply negb_true_iff in H2. by apply bool_decide_eq_false in H2.
Qed.

Lemma fill_digit i rest buffer : 0 <= i < 64 -> 0 <= buffer ->
  fill (base64_char i :: rest) buffer = fill rest (buffer * 64 + i).
Proof.
  intros Hi Hb. destruct (position_base64_char i Hi) as [Hp Hne]. cbn [fill].
  rewrite bool_decide_false, Hp by done. by rewrite (lor_disjoint buffer i 6) by lia.
Qed.
Lemma fill_pad rest buffer : fill ("="%char :: rest) buffer = fill rest (buffer * 64).
Proof. cbn [fill]. rewrite bool_decide_true by done. by rewrite Z.shiftl_mul_pow2 by lia. Qed.

(** The 24-bit word of a chunk, and its four digits. *)
Definition word (b0 b1 b2 : Z) : Z := b0 * 65536 + b1 * 256 + b2.

Lemma chunk_word b0 b1 b2 : is_byte b0 -> is_byte b1 -> is_byte b2 ->
  Z.lor (Z.lor (Z.shiftl b0 16) (Z.shiftl b1 8)) b2 = word b0 b1 b2.
Proof.
  unfold is_byte, word. intros H0 H1 H2.
  rewrite (lor_disjoint b0 (Z.shiftl b1 8) 16) by (rewrite ?Z.shiftl_mul_pow2; lia).
  rewrite Z.shiftl_mul_pow2 by lia.
  replace (b0 * 2 ^ 16 + b1 * 2 ^ 8) with (Z.shiftl (b0 * 256 + b1) 8) by (rewrite Z.shiftl_mul_pow2; lia).
  rewrite lor_disjoint by lia. lia.
Qed.

Definition digit (n k : Z) : Z := n / 2 ^ k mod 64.
Lemma digit_land n k : 0 <= k -> Z.land (Z.shiftr n k) 63 = digit n k.
Proof. intros Hk. by rewrite land_63, Z.shiftr_div_pow2. Qed.
Lemma digit_bounds n k : 0 <= digit n k < 64.
Proof. unfold digit. apply Z.mod_pos_bound. lia. Qed.

Lemma digits_word n : 0 <= n < 16777216 ->
  ((digit n 18 * 64 + digit n 12) * 64 + digit n 6) * 64 + digit n 0 = n.
Proof. unfold digit. simpl (2 ^ _). intros Hn. Z.to_euclidean_division_equations. lia. Qed.

Lemma word_bytes b0 b1 b2 : is_byte b0 -> is_byte b1 -> is_byte b2 ->
  byte_at (word b0 b1 b2) 0 = b0 /\ byte_at (word b0 b1 b2) 1 = b1 /\ byte_at (word b0 b1 b2) 2 = b2.
Proof.
  unfold is_byte, byte_at, word. intros H0 H1 H2. simpl (16 - _ * 8).
  rewrite !Z.shiftr_div_pow2 by lia. simpl (2 ^ _). Z.to_euclidean_division_equations. lia.
Qed.

Lemma padding_digit i rest : 0 <= i < 64 -> padding (base64_char i :: rest) = padding rest.
Proof.
  intros Hi. unfold padding. rewrite filter_cons_False; [done|].
  by destruct (position_base64_char i Hi).
Qed.
Lemma padding_pad rest : padding ("="%char :: rest) = S (padding rest).
Proof. unfold padding. by rewrite filter_cons_True. Qed.

(** One encoded chunk decodes to its bytes. *)
Lemma decode_encode_chunk len b0 b1 b2 :
  is_byte b0 -> is_byte b1 -> is_byte b2 ->
  (len = 3 \/ len = 2 /\ b2 = 0 \/ len = 1 /\ b1 = 0 /\ b2 = 0) ->
  decode_group (encode_chunk len b0 b1 b2) = Some (take (Z.to_nat len) [b0; b1; b2]).
Proof.
  intros H0 H1 H2 Hlen. unfold encode_chunk. rewrite (chunk_word b0 b1 b2) by done.
  set (n := word b0 b1 b2).
  assert (Hn : 0 <= n < 16777216) by (subst n; unfold word, is_byte in *; lia).
  assert (E0 : Z.land n 63 = digit n 0) by (unfold digit; by rewrite land_63, Z.div_1_r).
  cbv zeta. rewrite !digit_land, E0 by lia.
  pose proof (digits_word n Hn) as Hw. destruct (word_bytes b0 b1 b2 H0 H1 H2) as (W0 & W1 & W2). fold n in W0, W1, W2.
  pose proof (digit_bounds n 18). pose proof (digit_bounds n 12).
  pose proof (digit_bounds n 6). pose proof (digit_bounds n 0).
  unfold decode_group. destruct Hlen as [->|[[-> ->]|(-> & -> & ->)]]; cbn [Z.ltb Z.compare Pos.compare Pos.compare_cont].
  - assert (Hf : fill [base64_char (digit n 18); base64_char (digit n 12); base64_char (digit n 6);
                       base64_char (digit n 0)] 0 = Some n).
    { rewrite !fill_digit by lia. cbn [fill]. f_equal. lia. }
    rewrite Hf, !padding_digit by done. cbn. by rewrite W0, W1, W2.
  - assert (Hz : digit n 0 = 0)
      by (subst n; unfold word, digit; simpl (2 ^ _); Z.to_euclidean_division_equations; lia).
    assert (Hf : fill [base64_char (digit n 18); base64_char (digit n 12); base64_char (digit n 6); "="%char] 0
                 = Some n).
    { rewrite !fill_digit, fill_pad by lia. cbn [fill]. f_equal. lia. }
    rewrite Hf, !padding_digit, padding_pad by done. cbn. by rewrite W0, W1.
  - assert (Hz : digit n 0 = 0 /\ digit n 6 = 0)
      by (subst n; unfold word, digit; simpl (2 ^ _); Z.to_euclidean_division_equations; lia).
    assert (Hf : fill [base64_char (digit n 18); base64_char (digit n 12); "="%char; "="%char] 0 = Some n).
    { rewrite !fill_digit, !fill_pad by lia. cbn [fill]. f_equal. lia. }
    rewrite Hf, !padding_digit, !padding_pad by done. cbn. by rewrite W0.
Qed.

Lemma encode_chunk_length len b0 b1 b2 : exists w x y z, encode_chunk len b0 b1 b2 = [w; x; y; z].
Proof. unfold encode_chunk. eauto. Qed.

(** A group in front of an encoding decodes on its own. *)
Lemma from_base64_chunk len b0 b1 b2 rest :
  from_base64 (encode_chunk len b0 b1 b2 ++ rest)
  = (out ← decode_group (encode_chunk len b0 b1 b2); tail ← from_base64 rest; Some (out ++ tail)).
Proof. destruct (encode_chunk_length len b0 b1 b2) as (w & x & y & z & ->). done. Qed.

(** Strong induction on a byte list in steps of three. *)
Lemma bytes_ind3 (P : list Z -> Prop) :
  P [] -> (forall a, P [a]) -> (forall a b, P [a; b]) -> (forall a b c l, P l -> P (a :: b :: c :: l)) ->
  forall l, P l.
Proof.
  intros H0 H1 H2 H3. fix IH 1. intros [|a [|b [|c l]]]; [done|apply H1|apply H2|]. apply H3, IH.
Qed.

Lemma decode_encode bytes : Forall is_byte bytes -> from_base64 (to_base64 bytes) = Some bytes.
Proof.
  induction bytes as [|a|a b|a b c l IH] using bytes_ind3; intros Hb.
  - done.
  - apply Forall_cons in Hb as [Ha _]. cbn [to_base64]. rewrite <- (app_nil_r (encode_chunk _ _ _ _)).
    rewrite from_base64_chunk, decode_encode_chunk by (done || (unfold is_byte; lia) || (right; right; done)).
    done.
  - apply Forall_cons in Hb as [Ha [Hb _]%Forall_cons]. cbn [to_base64].
    rewrite <- (app_nil_r (encode_chunk _ _ _ _)).
    rewrite from_base64_chunk, decode_encode_chunk by (done || (unfold is_byte; lia) || (right; left; done)).
    done.
  - apply Forall_cons in Hb as [Ha [Hb [Hc Hl]%Forall_cons]%Forall_cons]. cbn [to_base64].
    rewrite from_base64_chunk, decode_encode_chunk by (done || by left). cbn. by rewrite (IH Hl).
Qed.

(** The two names of one digest agree. The service reports a checksum in
    Base64 and expects hex elsewhere; for any content, converting the Base64
    form of its digest gives exactly the hex form of that digest, and two
    digests with one Base64 form are equal. *)
Theorem hex_of_base64_digest sha256 bytes bytes' :
  (forall b, Forall is_byte (sha256 b)) ->
  hex_from_descriptor_base64 (base64 (digest_of sha256 bytes)) = Some (hex (digest_of sha256 bytes)) /\
  (base64 (digest_of sha256 bytes) = base64 (digest_of sha256 bytes') -> sha256 bytes = sha256 bytes').
Proof.
  intros Hb. unfold hex_from_descriptor_base64, digest_of. cbn [hex base64]. split.
  - rewrite String.list_ascii_of_string_of_list_ascii, decode_encode by done. done.
  - intros Heq. apply (f_equal String.list_ascii_of_string) in Heq.
    rewrite !String.list_ascii_of_string_of_list_ascii in Heq.
    pose proof (decode_encode _ (Hb bytes)) as H1. pose proof (decode_encode _ (Hb bytes')) as H2. congruence.
Qed.

(** The attempts a search makes, in order. *)
Fixpoint ladder (attempts : nat) (edge quality : Z) : list (Z * Z) :=
  match attempts with
  | O => []
  | S attempts =>
      (edge, quality) :: if MIN_THUMBNAIL_QUALITY <? quality then ladder attempts edge (quality - 10)
                         else ladder attempts (Z.max (edge / 2) MIN_THUMBNAIL_EDGE) 80
  end.

(** The thumbnail search is bounded and honest: it returns only bytes
    within the ceiling that the renderer produced for one of the ten rungs of
    its ladder; if no rung fits (and rendering itself does not fail) it reports
    the limit instead of trying again. *)
Theorem thumbnail_from_bounded sha256 render max_edge max_bytes :
  match thumbnail_from sha256 render max_edge max_bytes with
  | Ok (bytes, digest) => Z.of_nat (length bytes) <= max_bytes /\ digest = digest_of sha256 bytes /\
      exists eq, eq ∈ ladder MAX_THUMBNAIL_ATTEMPTS max_edge 90 /\ render eq.1 eq.2 = Ok bytes
  | Err _ => Forall (fun eq => exists b, render eq.1 eq.2 = Ok b /\ max_bytes < Z.of_nat (length b))
               (ladder MAX_THUMBNAIL_ATTEMPTS max_edge 90)
             \/ exists eq e, eq ∈ ladder MAX_THUMBNAIL_ATTEMPTS max_edge 90 /\ render eq.1 eq.2 = Err e
  end.
Proof.
  unfold thumbnail_from. generalize MAX_THUMBNAIL_ATTEMPTS as n, max_edge as edge, 90 as q.
  induction n as [|n IH]; intros edge q; cbn [fit ladder]; [by left|].
  destruct (render edge q) as [b|e] eqn:Hr.
  - destruct (Z.of_nat (length b) <=? max_bytes) eqn:Hb; zbool.
    { split; [done|]. split; [done|]. exists (edge, q). split; [left|done]. }
    destruct (MIN_THUMBNAIL_QUALITY <? q);
      [specialize (IH edge (q - 10))|specialize (IH (Z.max (edge / 2) MIN_THUMBNAIL_EDGE) 80)];
      (destruct (fit _ _ _ _ _ _) as [[b' d']|e'];
       [destruct IH as (? & ? & eq & ? & ?); split; [done|]; split; [done|]; exists eq; split; [by right|done]
       |destruct IH as [Hf|(eq & e & ? & ?)];
        [left; constructor; [by exists b|done]|right; exists eq, e; split; [by right|done]]]).
  - right. exists (edge, q), e. split; [left|done].
Qed.

(** A stand-in for the hash: the bytes of the content themselves. *)
Definition sample_hash (bytes : list Z) : list Z := (fun b => b mod 256) <$> bytes.
Lemma hex_of_base64_digest_witness :
  hex_from_descriptor_base64 (base64 (digest_of sample_hash [0; 171; 255; 16])) = Some "00abff10"%string.
Proof.
  apply (hex_of_base64_digest sample_hash [0; 171; 255; 16] []).
  intros b. unfold sample_hash. apply Forall_fmap, Forall_true. intros x. apply Z.mod_pos_bound. lia.
Defined.
End Content.
