(* ===== verification/SyncError.v ===== *)
(** Failure causes ([sync/error/mod.rs]): how a stored failure text is turned
    back into a cause, what class of action the cause needs, and the scheduler's
    decision to retry unattended ([service/scheduling.rs]). *)
From S2P Require Import Prelude.
Local Open Scope Z_scope.
Local Open Scope string_scope.

Module SyncErrors.

Inductive SyncError :=
  | Authentication
  | NotFound (detail : string)
  | PreconditionFailed (detail : string)
  | RateLimited
  | Offline (detail : string)
  | Unsupported (detail : string)
  | Protocol (detail : string)
  | Io (detail : string).

(** The [#[error]] messages ([Display]). *)
Definition display (e : SyncError) : string :=
  match e with
  | Authentication => "authentication failed"
  | NotFound d => "remote object not found: " ++ d
  | PreconditionFailed d => "remote version changed: " ++ d
  | RateLimited => "remote service is rate limiting requests"
  | Offline d => "network is unavailable: " ++ d
  | Unsupported d => "provider capability is unsupported: " ++ d
  | Protocol d => "invalid provider response: " ++ d
  | Io d => "local I/O failed: " ++ d
  end.

Inductive SyncCause :=
  Quota | Network | Credential | ServerBusy | Conflict | Incompatible | Checksum | Unknown.
#[export] Instance SyncCause_eq_dec : EqDecision SyncCause.
Proof. solve_decision. Defined.

Inductive SyncClass := Retryable | NeedsUser | ClassUnsupported.
#[export] Instance SyncClass_eq_dec : EqDecision SyncClass.
Proof. solve_decision. Defined.

Definition class (c : SyncCause) : SyncClass :=
  match c with
  | Quota | Credential => NeedsUser
  | Incompatible => ClassUnsupported
  | Network | ServerBusy | Conflict | Checksum | Unknown => Retryable
  end.

Definition headline_key (c : SyncCause) : string :=
  match c with
  | Quota => "photos.overview.sync.quota"
  | Network => "photos.overview.sync.network"
  | Credential => "photos.overview.sync.credential"
  | ServerBusy => "photos.overview.sync.busy"
  | Conflict => "photos.overview.sync.conflict"
  | Incompatible => "photos.overview.sync.incompatible"
  | Checksum => "photos.overview.sync.checksum"
  | Unknown => "photos.overview.sync.failed"
  end.

Definition detail_key (c : SyncCause) : string :=
  match c with
  | Quota => "photos.overview.sync.quota_detail"
  | Network => "photos.overview.sync.network_detail"
  | Credential => "photos.overview.sync.credential_detail"
  | ServerBusy => "photos.overview.sync.busy_detail"
  | Conflict => "photos.overview.sync.conflict_detail"
  | Incompatible => "photos.overview.sync.incompatible_detail"
  | Checksum => "photos.overview.sync.checksum_detail"
  | Unknown => "photos.overview.sync.failed_detail"
  end.

Definition SERVICE_CODES : list (string * SyncCause) :=
  [("STORAGE_QUOTA_EXCEEDED", Quota);
   ("AUTHENTICATION_REQUIRED", Credential);
   ("SERVER_BUSY", ServerBusy);
   ("UPLOAD_TIMEOUT", ServerBusy);
   ("PATH_CONFLICT", Conflict);
   ("IDEMPOTENCY_CONFLICT", Conflict);
   ("UPLOAD_STATE_CONFLICT", Conflict);
   ("UPLOAD_PHASE_MISMATCH", Conflict);
   ("UPLOAD_LEASE_LOST", Conflict);
   ("UPLOAD_LOCK_BUSY", Conflict);
   ("UPLOAD_BUSY", Conflict);
   ("EXPIRED_SYNC_TOKEN", Conflict);
   ("UNSUPPORTED_CAPABILITY", Incompatible);
   ("UNSUPPORTED_MEDIA_TYPE", Incompatible);
   ("CHECKSUM_MISMATCH", Checksum);
   ("UPLOAD_SIZE_MISMATCH", Checksum);
   ("UPLOAD_INTERRUPTED", Checksum);
   ("INVALID_THUMBNAIL", Checksum)].

(** [str::contains]. *)
Fixpoint contains (s pat : string) : bool :=
  bool_decide (is_Some (strip_prefix pat s))
  || match s with EmptyString => false | String _ rest => contains rest pat end.

Definition classify_detail (detail : string) : SyncCause :=
  match List.find (fun code => contains detail code.1) SERVICE_CODES with
  | Some code => code.2
  | None =>
      if contains detail "network is unavailable" then Network
      else if contains detail "authentication failed" || contains detail "HTTP 401"
              || contains detail "HTTP 403" then Credential
      else if contains detail "rate limiting" || contains detail "HTTP 429"
              || contains detail "HTTP 503" then ServerBusy
      else if contains detail "capability is unsupported" || contains detail "HTTP 413" then Incompatible
      else if contains detail "HTTP 404" then Conflict
      else Unknown
  end.

Definition cause (e : SyncError) : SyncCause := classify_detail (display e).
Definition error_class (e : SyncError) : SyncClass := class (cause e).

(** [unattended_retry_is_worthwhile]. *)
Definition unattended_retry_is_worthwhile (c : option SyncCause) : bool :=
  match c with Some c => negb (bool_decide (class c = NeedsUser)) | None => true end.

(** ** Properties *)
Lemma contains_spec s pat : contains s pat = true <-> exists pre post, s = (pre ++ pat ++ post)%string.
Proof.
  induction s as [|c s IH]; simpl.
  - rewrite orb_false_r, bool_decide_eq_true. split.
    + intros [r Hr]. apply strip_prefix_Some in Hr. exists "", r. done.
    + intros (pre & post & Heq). destruct pre; [|done]. simpl in Heq. exists post.
      by apply strip_prefix_Some.
  - rewrite orb_true_iff, bool_decide_eq_true, IH. split.
    + intros [[r Hr]|(pre & post & ->)].
      * apply strip_prefix_Some in Hr. by exists "", r.
      * by exists (String c pre), post.
    + intros (pre & post & Heq). destruct pre as [|d pre]; simpl in Heq.
      * left. exists post. by apply strip_prefix_Some.
      * injection Heq as _ ->. right. by exists pre, post.
Qed.

(** The codes that classify a detail before code [i]. *)
Definition no_code_before (detail : string) (i : nat) : Prop :=
  Forall (fun code => contains detail code.1 = false) (take i SERVICE_CODES).

Lemma find_first {A} (f : A -> bool) l i x :
  l !! i = Some x -> f x = true -> Forall (fun y => f y = false) (take i l) -> List.find f l = Some x.
Proof.
  revert i. induction l as [|y l IH]; intros [|i] Hi Hx Hf; simpl in *; simplify_eq.
  - by rewrite Hx.
  - apply Forall_cons in Hf as [-> Hf]. by apply (IH i).
Qed.

(** A service code survives storage: a detail that carries a published
    service code, wherever it stands in the text, and none listed before it, is
    classified with that code's cause, whatever else the detail says. *)
Theorem classify_service_code detail i code c pre post :
  SERVICE_CODES !! i = Some (code, c) -> detail = (pre ++ code ++ post)%string ->
  no_code_before detail i -> classify_detail detail = c.
Proof.
  intros Hi Hd Hn. unfold classify_detail.
  rewrite (find_first _ SERVICE_CODES i (code, c) Hi); [done| |done].
  apply contains_spec. by exists pre, post.
Qed.

(** The transport failures keep their own cause when their detail names no
    service code: a lost connection stays [Network] and is worth retrying
    unattended, a rejected credential is [Credential] and is not, a rate limit
    is [ServerBusy] and is. *)
Theorem transport_causes detail :
  Forall (fun code => contains (display (Offline detail)) code.1 = false) SERVICE_CODES ->
  cause (Offline detail) = Network /\ cause Authentication = Credential /\
  cause RateLimited = ServerBusy /\
  unattended_retry_is_worthwhile (Some (cause (Offline detail))) = true /\
  unattended_retry_is_worthwhile (Some (cause Authentication)) = false /\
  unattended_retry_is_worthwhile (Some (cause RateLimited)) = true.
Proof.
  intros Hn.
  assert (Hoff : cause (Offline detail) = Network).
  { unfold cause, classify_detail.
    destruct (List.find _ SERVICE_CODES) as [code|] eqn:E.
    - apply find_some in E as [Hin HP]. rewrite Forall_forall in Hn.
      rewrite (Hn code) in HP; [done|]. by apply list_elem_of_In.
    - assert (contains (display (Offline detail)) "network is unavailable" = true) as ->; [|done].
      apply contains_spec. by exists "", (": " ++ detail)%string. }
  rewrite Hoff. split_and!; vm_compute; done.
Qed.
End SyncErrors.
