(* ===== verification/SyncDb.v ===== *)
(** The synchronization database as a value: one finite map per table of
    [core/schema.sql], with the columns the synchronization store reads and
    writes, plus the vocabulary its SQL statements use (update and delete with
    a predicate, existence tests, rows in id order).

    A statement is a function on [Db]; a command is a [Tx Db] computation run by
    [transact], so an error leaves the database unchanged, as dropping a
    [rusqlite] transaction does. Columns of one concept that are written
    together are one field here: a category's version, acknowledged version and
    edit event ([Track]); the remote identity columns ([Remote]); the cached
    digest; a [RemotePhoto] stored as typed record rows ([e_baseline],
    [p_projection], [x_remote]). Bookkeeping timestamps that no statement of the
    store reads back ([created_at], [updated_at], [resolved_at]) are left out;
    [last_started_at] and [last_completed_at], which the overview reads, are
    kept and take the clock as an argument. *)
From S2P Require Import Prelude.
From S2P Require Import Json.
Local Open Scope Z_scope.

Module Db.

(** An edit event: [EditEventStamp] of [store/dirty.rs] and [EditEvent] of [native/receive.rs]. *)
Record EditEvent := mkEvent {
  edited_at_ms : Z;
  ev_source : string;
  ev_id : string
}.
#[export] Instance EditEvent_eq_dec : EqDecision EditEvent.
Proof. solve_decision. Defined.

(** [EditEvents] of [native/receive.rs]. *)
Record EditEvents := mkEvents {
  ev_metadata : option EditEvent;
  ev_content : option EditEvent;
  ev_deletion : option EditEvent
}.
#[export] Instance EditEvents_eq_dec : EqDecision EditEvents.
Proof. solve_decision. Defined.

(** [AssetDescriptor] of [native/records.rs]. *)
Record AssetDescriptor := mkAsset {
  asset_id : string;
  a_size : Z;
  file_checksum : string;
  mime_type : string;
  a_width : option Z;
  a_height : option Z
}.
#[export] Instance AssetDescriptor_eq_dec : EqDecision AssetDescriptor.
Proof. solve_decision. Defined.

(** [RemotePhoto] of [native/records.rs]. *)
Record RemotePhoto := mkPhoto {
  photo_id : string;
  master_id : string;
  content_generation : string;
  relative_path : string;
  is_favorite : bool;
  asset_date_ms : option Z;
  is_hidden : bool;
  original : AssetDescriptor;
  thumbnail : AssetDescriptor;
  thumbnail_source_sha256 : string;
  events : EditEvents
}.
#[export] Instance RemotePhoto_eq_dec : EqDecision RemotePhoto.
Proof. solve_decision. Defined.
Definition set_relative_path (v : string) (r : RemotePhoto) : RemotePhoto :=
  mkPhoto (photo_id r) (master_id r) (content_generation r) v (is_favorite r) (asset_date_ms r) (is_hidden r) (original r) (thumbnail r) (thumbnail_source_sha256 r) (events r).
Definition set_is_favorite (v : bool) (r : RemotePhoto) : RemotePhoto :=
  mkPhoto (photo_id r) (master_id r) (content_generation r) (relative_path r) v (asset_date_ms r) (is_hidden r) (original r) (thumbnail r) (thumbnail_source_sha256 r) (events r).
Definition set_asset_date_ms (v : option Z) (r : RemotePhoto) : RemotePhoto :=
  mkPhoto (photo_id r) (master_id r) (content_generation r) (relative_path r) (is_favorite r) v (is_hidden r) (original r) (thumbnail r) (thumbnail_source_sha256 r) (events r).
Definition set_events (v : EditEvents) (r : RemotePhoto) : RemotePhoto :=
  mkPhoto (photo_id r) (master_id r) (content_generation r) (relative_path r) (is_favorite r) (asset_date_ms r) (is_hidden r) (original r) (thumbnail r) (thumbnail_source_sha256 r) v.

(** ** Tables *)
(** The columns of [media_items]. A [REAL] duration is kept as an opaque number
    and [indexed_at], which nothing reads, is left out. *)
Record Media := mkMedia {
  m_uri : string;
  m_path : string;
  m_folder : string;
  m_favorite : bool;
  m_taken_at : option Z;
  m_trashed_at : option Z;
  m_location : Z;
  m_thumb_ready : bool;
  m_mtime_ns : Z;
  m_mime : string;
  m_width : option Z;
  m_height : option Z;
  m_size : Z;
  m_mtime : Z;
  m_kind : string;
  m_subkind : string;
  m_attributes : string;
  m_flags : Z;
  m_duration : option Z;
  m_hash : string;
  m_generated_at : option Z
}.
#[export] Instance Media_eq_dec : EqDecision Media.
Proof. solve_decision. Defined.
Definition set_m_uri (v : string) (r : Media) : Media :=
  mkMedia v (m_path r) (m_folder r) (m_favorite r) (m_taken_at r) (m_trashed_at r) (m_location r) (m_thumb_ready r) (m_mtime_ns r) (m_mime r) (m_width r) (m_height r) (m_size r) (m_mtime r) (m_kind r) (m_subkind r) (m_attributes r) (m_flags r) (m_duration r) (m_hash r) (m_generated_at r).
Definition set_m_path (v : string) (r : Media) : Media :=
  mkMedia (m_uri r) v (m_folder r) (m_favorite r) (m_taken_at r) (m_trashed_at r) (m_location r) (m_thumb_ready r) (m_mtime_ns r) (m_mime r) (m_width r) (m_height r) (m_size r) (m_mtime r) (m_kind r) (m_subkind r) (m_attributes r) (m_flags r) (m_duration r) (m_hash r) (m_generated_at r).
Definition set_m_folder (v : string) (r : Media) : Media :=
  mkMedia (m_uri r) (m_path r) v (m_favorite r) (m_taken_at r) (m_trashed_at r) (m_location r) (m_thumb_ready r) (m_mtime_ns r) (m_mime r) (m_width r) (m_height r) (m_size r) (m_mtime r) (m_kind r) (m_subkind r) (m_attributes r) (m_flags r) (m_duration r) (m_hash r) (m_generated_at r).
Definition set_m_favorite (v : bool) (r : Media) : Media :=
  mkMedia (m_uri r) (m_path r) (m_folder r) v (m_taken_at r) (m_trashed_at r) (m_location r) (m_thumb_ready r) (m_mtime_ns r) (m_mime r) (m_width r) (m_height r) (m_size r) (m_mtime r) (m_kind r) (m_subkind r) (m_attributes r) (m_flags r) (m_duration r) (m_hash r) (m_generated_at r).
Definition set_m_taken_at (v : option Z) (r : Media) : Media :=
  mkMedia (m_uri r) (m_path r) (m_folder r) (m_favorite r) v (m_trashed_at r) (m_location r) (m_thumb_ready r) (m_mtime_ns r) (m_mime r) (m_width r) (m_height r) (m_size r) (m_mtime r) (m_kind r) (m_subkind r) (m_attributes r) (m_flags r) (m_duration r) (m_hash r) (m_generated_at r).
Definition set_m_trashed_at (v : option Z) (r : Media) : Media :=
  mkMedia (m_uri r) (m_path r) (m_folder r) (m_favorite r) (m_taken_at r) v (m_location r) (m_thumb_ready r) (m_mtime_ns r) (m_mime r) (m_width r) (m_height r) (m_size r) (m_mtime r) (m_kind r) (m_subkind r) (m_attributes r) (m_flags r) (m_duration r) (m_hash r) (m_generated_at r).
Definition set_m_location (v : Z) (r : Media) : Media :=
  mkMedia (m_uri r) (m_path r) (m_folder r) (m_favorite r) (m_taken_at r) (m_trashed_at r) v (m_thumb_ready r) (m_mtime_ns r) (m_mime r) (m_width r) (m_height r) (m_size r) (m_mtime r) (m_kind r) (m_subkind r) (m_attributes r) (m_flags r) (m_duration r) (m_hash r) (m_generated_at r).
Definition set_m_thumb_ready (v : bool) (r : Media) : Media :=
  mkMedia (m_uri r) (m_path r) (m_folder r) (m_favorite r) (m_taken_at r) (m_trashed_at r) (m_location r) v (m_mtime_ns r) (m_mime r) (m_width r) (m_height r) (m_size r) (m_mtime r) (m_kind r) (m_subkind r) (m_attributes r) (m_flags r) (m_duration r) (m_hash r) (m_generated_at r).
Definition set_m_mtime_ns (v : Z) (r : Media) : Media :=
  mkMedia (m_uri r) (m_path r) (m_folder r) (m_favorite r) (m_taken_at r) (m_trashed_at r) (m_location r) (m_thumb_ready r) v (m_mime r) (m_width r) (m_height r) (m_size r) (m_mtime r) (m_kind r) (m_subkind r) (m_attributes r) (m_flags r) (m_duration r) (m_hash r) (m_generated_at r).
Definition set_m_mime (v : string) (r : Media) : Media :=
  mkMedia (m_uri r) (m_path r) (m_folder r) (m_favorite r) (m_taken_at r) (m_trashed_at r) (m_location r) (m_thumb_ready r) (m_mtime_ns r) v (m_width r) (m_height r) (m_size r) (m_mtime r) (m_kind r) (m_subkind r) (m_attributes r) (m_flags r) (m_duration r) (m_hash r) (m_generated_at r).
Definition set_m_width (v : option Z) (r : Media) : Media :=
  mkMedia (m_uri r) (m_path r) (m_folder r) (m_favorite r) (m_taken_at r) (m_trashed_at r) (m_location r) (m_thumb_ready r) (m_mtime_ns r) (m_mime r) v (m_height r) (m_size r) (m_mtime r) (m_kind r) (m_subkind r) (m_attributes r) (m_flags r) (m_duration r) (m_hash r) (m_generated_at r).
Definition set_m_height (v : option Z) (r : Media) : Media :=
  mkMedia (m_uri r) (m_path r) (m_folder r) (m_favorite r) (m_taken_at r) (m_trashed_at r) (m_location r) (m_thumb_ready r) (m_mtime_ns r) (m_mime r) (m_width r) v (m_size r) (m_mtime r) (m_kind r) (m_subkind r) (m_attributes r) (m_flags r) (m_duration r) (m_hash r) (m_generated_at r).
Definition set_m_size (v : Z) (r : Media) : Media :=
  mkMedia (m_uri r) (m_path r) (m_folder r) (m_favorite r) (m_taken_at r) (m_trashed_at r) (m_location r) (m_thumb_ready r) (m_mtime_ns r) (m_mime r) (m_width r) (m_height r) v (m_mtime r) (m_kind r) (m_subkind r) (m_attributes r) (m_flags r) (m_duration r) (m_hash r) (m_generated_at r).
Definition set_m_mtime (v : Z) (r : Media) : Media :=
  mkMedia (m_uri r) (m_path r) (m_folder r) (m_favorite r) (m_taken_at r) (m_trashed_at r) (m_location r) (m_thumb_ready r) (m_mtime_ns r) (m_mime r) (m_width r) (m_height r) (m_size r) v (m_kind r) (m_subkind r) (m_attributes r) (m_flags r) (m_duration r) (m_hash r) (m_generated_at r).
Definition set_m_kind (v : string) (r : Media) : Media :=
  mkMedia (m_uri r) (m_path r) (m_folder r) (m_favorite r) (m_taken_at r) (m_trashed_at r) (m_location r) (m_thumb_ready r) (m_mtime_ns r) (m_mime r) (m_width r) (m_height r) (m_size r) (m_mtime r) v (m_subkind r) (m_attributes r) (m_flags r) (m_duration r) (m_hash r) (m_generated_at r).
Definition set_m_subkind (v : string) (r : Media) : Media :=
  mkMedia (m_uri r) (m_path r) (m_folder r) (m_favorite r) (m_taken_at r) (m_trashed_at r) (m_location r) (m_thumb_ready r) (m_mtime_ns r) (m_mime r) (m_width r) (m_height r) (m_size r) (m_mtime r) (m_kind r) v (m_attributes r) (m_flags r) (m_duration r) (m_hash r) (m_generated_at r).
Definition set_m_attributes (v : string) (r : Media) : Media :=
  mkMedia (m_uri r) (m_path r) (m_folder r) (m_favorite r) (m_taken_at r) (m_trashed_at r) (m_location r) (m_thumb_ready r) (m_mtime_ns r) (m_mime r) (m_width r) (m_height r) (m_size r) (m_mtime r) (m_kind r) (m_subkind r) v (m_flags r) (m_duration r) (m_hash r) (m_generated_at r).
Definition set_m_flags (v : Z) (r : Media) : Media :=
  mkMedia (m_uri r) (m_path r) (m_folder r) (m_favorite r) (m_taken_at r) (m_trashed_at r) (m_location r) (m_thumb_ready r) (m_mtime_ns r) (m_mime r) (m_width r) (m_height r) (m_size r) (m_mtime r) (m_kind r) (m_subkind r) (m_attributes r) v (m_duration r) (m_hash r) (m_generated_at r).
Definition set_m_duration (v : option Z) (r : Media) : Media :=
  mkMedia (m_uri r) (m_path r) (m_folder r) (m_favorite r) (m_taken_at r) (m_trashed_at r) (m_location r) (m_thumb_ready r) (m_mtime_ns r) (m_mime r) (m_width r) (m_height r) (m_size r) (m_mtime r) (m_kind r) (m_subkind r) (m_attributes r) (m_flags r) v (m_hash r) (m_generated_at r).
Definition set_m_hash (v : string) (r : Media) : Media :=
  mkMedia (m_uri r) (m_path r) (m_folder r) (m_favorite r) (m_taken_at r) (m_trashed_at r) (m_location r) (m_thumb_ready r) (m_mtime_ns r) (m_mime r) (m_width r) (m_height r) (m_size r) (m_mtime r) (m_kind r) (m_subkind r) (m_attributes r) (m_flags r) (m_duration r) v (m_generated_at r).
Definition set_m_generated_at (v : option Z) (r : Media) : Media :=
  mkMedia (m_uri r) (m_path r) (m_folder r) (m_favorite r) (m_taken_at r) (m_trashed_at r) (m_location r) (m_thumb_ready r) (m_mtime_ns r) (m_mime r) (m_width r) (m_height r) (m_size r) (m_mtime r) (m_kind r) (m_subkind r) (m_attributes r) (m_flags r) (m_duration r) (m_hash r) v.

(** [sync_connections]. *)
Record Connection := mkConn {
  c_endpoint : string;
  c_credential : string;
  c_enabled : bool;
  c_account : option Z
}.
#[export] Instance Connection_eq_dec : EqDecision Connection.
Proof. solve_decision. Defined.
Definition set_c_endpoint (v : string) (r : Connection) : Connection :=
  mkConn v (c_credential r) (c_enabled r) (c_account r).
Definition set_c_enabled (v : bool) (r : Connection) : Connection :=
  mkConn (c_endpoint r) (c_credential r) v (c_account r).

Inductive SyncDirection := Bidirectional | UploadOnly.
#[export] Instance SyncDirection_eq_dec : EqDecision SyncDirection.
Proof. solve_decision. Defined.
Inductive UploadScope := ScopeAll | ScopeSelectedAlbums.
#[export] Instance UploadScope_eq_dec : EqDecision UploadScope.
Proof. solve_decision. Defined.

(** [sync_jobs]. *)
Record Job := mkJob {
  j_connection : Z;
  j_root : string;
  j_direction : SyncDirection;
  j_scope : UploadScope;
  j_cycle : option string;
  j_paused : bool;
  j_config : Z;
  j_zone : string;
  j_owner : string;
  j_started : option Z;
  j_completed : option Z;
  j_error : option string
}.
#[export] Instance Job_eq_dec : EqDecision Job.
Proof. solve_decision. Defined.
Definition set_j_direction (v : SyncDirection) (r : Job) : Job :=
  mkJob (j_connection r) (j_root r) v (j_scope r) (j_cycle r) (j_paused r) (j_config r) (j_zone r) (j_owner r) (j_started r) (j_completed r) (j_error r).
Definition set_j_scope (v : UploadScope) (r : Job) : Job :=
  mkJob (j_connection r) (j_root r) (j_direction r) v (j_cycle r) (j_paused r) (j_config r) (j_zone r) (j_owner r) (j_started r) (j_completed r) (j_error r).
Definition set_j_cycle (v : option string) (r : Job) : Job :=
  mkJob (j_connection r) (j_root r) (j_direction r) (j_scope r) v (j_paused r) (j_config r) (j_zone r) (j_owner r) (j_started r) (j_completed r) (j_error r).
Definition set_j_paused (v : bool) (r : Job) : Job :=
  mkJob (j_connection r) (j_root r) (j_direction r) (j_scope r) (j_cycle r) v (j_config r) (j_zone r) (j_owner r) (j_started r) (j_completed r) (j_error r).
Definition set_j_config (v : Z) (r : Job) : Job :=
  mkJob (j_connection r) (j_root r) (j_direction r) (j_scope r) (j_cycle r) (j_paused r) v (j_zone r) (j_owner r) (j_started r) (j_completed r) (j_error r).
Definition set_j_started (v : option Z) (r : Job) : Job :=
  mkJob (j_connection r) (j_root r) (j_direction r) (j_scope r) (j_cycle r) (j_paused r) (j_config r) (j_zone r) (j_owner r) v (j_completed r) (j_error r).
Definition set_j_completed (v : option Z) (r : Job) : Job :=
  mkJob (j_connection r) (j_root r) (j_direction r) (j_scope r) (j_cycle r) (j_paused r) (j_config r) (j_zone r) (j_owner r) (j_started r) v (j_error r).
Definition set_j_error (v : option string) (r : Job) : Job :=
  mkJob (j_connection r) (j_root r) (j_direction r) (j_scope r) (j_cycle r) (j_paused r) (j_config r) (j_zone r) (j_owner r) (j_started r) (j_completed r) v.

(** [sync_job_changes] with its [sync_job_change_albums]: [PendingChange] of [store/configuration.rs]. *)
Record Change := mkChange {
  ch_revision : Z;
  ch_direction : option SyncDirection;
  ch_albums : option (list string);
  ch_delete : bool
}.
#[export] Instance Change_eq_dec : EqDecision Change.
Proof. solve_decision. Defined.
Definition set_ch_revision (v : Z) (r : Change) : Change :=
  mkChange v (ch_direction r) (ch_albums r) (ch_delete r).
Definition set_ch_direction (v : option SyncDirection) (r : Change) : Change :=
  mkChange (ch_revision r) v (ch_albums r) (ch_delete r).
Definition set_ch_albums (v : option (list string)) (r : Change) : Change :=
  mkChange (ch_revision r) (ch_direction r) v (ch_delete r).
Definition set_ch_delete (v : bool) (r : Change) : Change :=
  mkChange (ch_revision r) (ch_direction r) (ch_albums r) v.

(** One change category of an entry: [native_<category>_version],
    [native_acked_<category>_version] and the category's edit event. *)
Record Track := mkTrack {
  version : Z;
  acked : Z;
  event : option EditEvent
}.
#[export] Instance Track_eq_dec : EqDecision Track.
Proof. solve_decision. Defined.
Definition set_acked (v : Z) (r : Track) : Track :=
  mkTrack (version r) v (event r).
Definition set_event (v : option EditEvent) (r : Track) : Track :=
  mkTrack (version r) (acked r) v.

(** The stable remote identity of an entry: [native_photo_id], [native_master_id],
    the two record revisions, [native_confirmed_generation] and
    [native_content_generation]. *)
Record Remote := mkRemote {
  r_photo : option string;
  r_master : option string;
  r_asset_revision : option string;
  r_master_revision : option string;
  r_confirmed : option string;
  r_content : option string
}.
#[export] Instance Remote_eq_dec : EqDecision Remote.
Proof. solve_decision. Defined.
Definition set_r_photo (v : option string) (r : Remote) : Remote :=
  mkRemote v (r_master r) (r_asset_revision r) (r_master_revision r) (r_confirmed r) (r_content r).
Definition set_r_master (v : option string) (r : Remote) : Remote :=
  mkRemote (r_photo r) v (r_asset_revision r) (r_master_revision r) (r_confirmed r) (r_content r).
Definition set_r_asset_revision (v : option string) (r : Remote) : Remote :=
  mkRemote (r_photo r) (r_master r) v (r_master_revision r) (r_confirmed r) (r_content r).
Definition set_r_master_revision (v : option string) (r : Remote) : Remote :=
  mkRemote (r_photo r) (r_master r) (r_asset_revision r) v (r_confirmed r) (r_content r).
Definition set_r_confirmed (v : option string) (r : Remote) : Remote :=
  mkRemote (r_photo r) (r_master r) (r_asset_revision r) (r_master_revision r) v (r_content r).
Definition set_r_content (v : option string) (r : Remote) : Remote :=
  mkRemote (r_photo r) (r_master r) (r_asset_revision r) (r_master_revision r) (r_confirmed r) v.

(** The cached digest of the local original. *)
Record LocalDigest := mkDigest {
  d_entry : Z;
  d_version : Z;
  d_sha256 : string;
  d_size : Z
}.
#[export] Instance LocalDigest_eq_dec : EqDecision LocalDigest.
Proof. solve_decision. Defined.

(** ** Record rows *)
(** The [value_kind] column. *)
Inductive ValueKind := KNull | KText | KBoolean | KInteger | KReal | KReference | KAsset.
#[export] Instance ValueKind_eq_dec : EqDecision ValueKind.
Proof. solve_decision. Defined.

(** A row of [sync_record_fields]. *)
Record FieldRow := mkField {
  f_type : option string;
  f_present : bool;
  f_value_present : bool;
  f_kind : ValueKind;
  f_text : option string;
  f_integer : option Z;
  f_real : option Z;
  f_reference : option string;
  f_action : option string;
  f_asset : option string;
  f_checksum : option string;
  f_size : option Z;
  f_mime : option string;
  f_width : option Z;
  f_height : option Z;
  f_algorithm : option string
}.
#[export] Instance FieldRow_eq_dec : EqDecision FieldRow.
Proof. solve_decision. Defined.

(** The three columns of an edit event. *)
Record Stamp := mkStamp { st_ms : option Z; st_source : option string; st_id : option string }.
#[export] Instance Stamp_eq_dec : EqDecision Stamp.
Proof. solve_decision. Defined.

(** A row of [sync_records] with its field rows in name order. *)
Record RecordRow := mkRow {
  w_name : string;
  w_type : option string;
  w_revision : option string;
  w_photo : option string;
  w_master : option string;
  w_path : option string;
  w_generation : option string;
  w_zone_name : option string;
  w_zone_owner : option string;
  w_deleted : bool;
  w_shape : Z;
  w_event_shape : Z;
  w_fields_present : bool;
  w_events_present : bool;
  w_metadata : Stamp;
  w_content : Stamp;
  w_deletion : Stamp;
  w_fields : list (string * FieldRow)
}.
#[export] Instance RecordRow_eq_dec : EqDecision RecordRow.
Proof. solve_decision. Defined.
Definition set_w_photo (v : option string) (w : RecordRow) : RecordRow :=
  mkRow (w_name w) (w_type w) (w_revision w) v (w_master w) (w_path w) (w_generation w)
    (w_zone_name w) (w_zone_owner w) (w_deleted w) (w_shape w) (w_event_shape w) (w_fields_present w)
    (w_events_present w) (w_metadata w) (w_content w) (w_deletion w) (w_fields w).

(** [sync_entries], with the baseline pair and the pending rows of [sync_records]
    (owner kind [pending], position 0 for the master and 1 for the asset). *)
Record Entry := mkEntry {
  e_job : Z;
  e_media : option Z;
  e_path : string;
  e_retired : bool;
  e_dirty : Z;
  e_upload_error : option string;
  e_local : Z;
  e_metadata : Track;
  e_content : Track;
  e_deletion : Track;
  e_digest : option LocalDigest;
  e_remote : Remote;
  e_baseline : option RemotePhoto;
  e_pending_master : option RecordRow;
  e_pending_asset : option RecordRow
}.
#[export] Instance Entry_eq_dec : EqDecision Entry.
Proof. solve_decision. Defined.
Definition set_e_job (v : Z) (r : Entry) : Entry :=
  mkEntry v (e_media r) (e_path r) (e_retired r) (e_dirty r) (e_upload_error r) (e_local r) (e_metadata r) (e_content r) (e_deletion r) (e_digest r) (e_remote r) (e_baseline r) (e_pending_master r) (e_pending_asset r).
Definition set_e_media (v : option Z) (r : Entry) : Entry :=
  mkEntry (e_job r) v (e_path r) (e_retired r) (e_dirty r) (e_upload_error r) (e_local r) (e_metadata r) (e_content r) (e_deletion r) (e_digest r) (e_remote r) (e_baseline r) (e_pending_master r) (e_pending_asset r).
Definition set_e_path (v : string) (r : Entry) : Entry :=
  mkEntry (e_job r) (e_media r) v (e_retired r) (e_dirty r) (e_upload_error r) (e_local r) (e_metadata r) (e_content r) (e_deletion r) (e_digest r) (e_remote r) (e_baseline r) (e_pending_master r) (e_pending_asset r).
Definition set_e_retired (v : bool) (r : Entry) : Entry :=
  mkEntry (e_job r) (e_media r) (e_path r) v (e_dirty r) (e_upload_error r) (e_local r) (e_metadata r) (e_content r) (e_deletion r) (e_digest r) (e_remote r) (e_baseline r) (e_pending_master r) (e_pending_asset r).
Definition set_e_dirty (v : Z) (r : Entry) : Entry :=
  mkEntry (e_job r) (e_media r) (e_path r) (e_retired r) v (e_upload_error r) (e_local r) (e_metadata r) (e_content r) (e_deletion r) (e_digest r) (e_remote r) (e_baseline r) (e_pending_master r) (e_pending_asset r).
Definition set_e_upload_error (v : option string) (r : Entry) : Entry :=
  mkEntry (e_job r) (e_media r) (e_path r) (e_retired r) (e_dirty r) v (e_local r) (e_metadata r) (e_content r) (e_deletion r) (e_digest r) (e_remote r) (e_baseline r) (e_pending_master r) (e_pending_asset r).
Definition set_e_local (v : Z) (r : Entry) : Entry :=
  mkEntry (e_job r) (e_media r) (e_path r) (e_retired r) (e_dirty r) (e_upload_error r) v (e_metadata r) (e_content r) (e_deletion r) (e_digest r) (e_remote r) (e_baseline r) (e_pending_master r) (e_pending_asset r).
Definition set_e_metadata (v : Track) (r : Entry) : Entry :=
  mkEntry (e_job r) (e_media r) (e_path r) (e_retired r) (e_dirty r) (e_upload_error r) (e_local r) v (e_content r) (e_deletion r) (e_digest r) (e_remote r) (e_baseline r) (e_pending_master r) (e_pending_asset r).
Definition set_e_content (v : Track) (r : Entry) : Entry :=
  mkEntry (e_job r) (e_media r) (e_path r) (e_retired r) (e_dirty r) (e_upload_error r) (e_local r) (e_metadata r) v (e_deletion r) (e_digest r) (e_remote r) (e_baseline r) (e_pending_master r) (e_pending_asset r).
Definition set_e_deletion (v : Track) (r : Entry) : Entry :=
  mkEntry (e_job r) (e_media r) (e_path r) (e_retired r) (e_dirty r) (e_upload_error r) (e_local r) (e_metadata r) (e_content r) v (e_digest r) (e_remote r) (e_baseline r) (e_pending_master r) (e_pending_asset r).
Definition set_e_digest (v : option LocalDigest) (r : Entry) : Entry :=
  mkEntry (e_job r) (e_media r) (e_path r) (e_retired r) (e_dirty r) (e_upload_error r) (e_local r) (e_metadata r) (e_content r) (e_deletion r) v (e_remote r) (e_baseline r) (e_pending_master r) (e_pending_asset r).
Definition set_e_remote (v : Remote) (r : Entry) : Entry :=
  mkEntry (e_job r) (e_media r) (e_path r) (e_retired r) (e_dirty r) (e_upload_error r) (e_local r) (e_metadata r) (e_content r) (e_deletion r) (e_digest r) v (e_baseline r) (e_pending_master r) (e_pending_asset r).
Definition set_e_baseline (v : option RemotePhoto) (r : Entry) : Entry :=
  mkEntry (e_job r) (e_media r) (e_path r) (e_retired r) (e_dirty r) (e_upload_error r) (e_local r) (e_metadata r) (e_content r) (e_deletion r) (e_digest r) (e_remote r) v (e_pending_master r) (e_pending_asset r).
Definition set_e_pending_master (v : option RecordRow) (r : Entry) : Entry :=
  mkEntry (e_job r) (e_media r) (e_path r) (e_retired r) (e_dirty r) (e_upload_error r) (e_local r) (e_metadata r) (e_content r) (e_deletion r) (e_digest r) (e_remote r) (e_baseline r) v (e_pending_asset r).
Definition set_e_pending_asset (v : option RecordRow) (r : Entry) : Entry :=
  mkEntry (e_job r) (e_media r) (e_path r) (e_retired r) (e_dirty r) (e_upload_error r) (e_local r) (e_metadata r) (e_content r) (e_deletion r) (e_digest r) (e_remote r) (e_baseline r) (e_pending_master r) v.

(** [Issued.versions]: the local version and the three category versions
    captured when an operation is issued. *)
Record Versions := mkVersions {
  v_local : Z;
  v_metadata : Z;
  v_content : Z;
  v_deletion : Z
}.
#[export] Instance Versions_eq_dec : EqDecision Versions.
Proof. solve_decision. Defined.

(** [Issued] of [store/runtime.rs]: the evidence of an operation sent to the service. *)
Record Issued := mkIssued {
  i_id : string;
  i_job : Z;
  i_config : Z;
  i_entry : Z;
  i_generation : string;
  i_phase : string;
  i_versions : Versions;
  i_dirty : Z;
  i_photo : string;
  i_master : string;
  i_content_generation : string;
  i_body : Json.Value;
  i_preparation : Json.Value
}.
#[export] Instance Issued_eq_dec : EqDecision Issued.
Proof. solve_decision. Defined.

(** [sync_tasks]; [t_issued] stands for the capture columns and the request
    records of an issued operation ([issued::write], [issued::read]). *)
Record Task := mkTask {
  t_operation : string;
  t_job : Z;
  t_entry : option Z;
  t_action : string;
  t_state : string;
  t_config : Z;
  t_error : option string;
  t_issued : option Issued
}.
#[export] Instance Task_eq_dec : EqDecision Task.
Proof. solve_decision. Defined.
Definition set_t_entry (v : option Z) (r : Task) : Task :=
  mkTask (t_operation r) (t_job r) v (t_action r) (t_state r) (t_config r) (t_error r) (t_issued r).
Definition set_t_state (v : string) (r : Task) : Task :=
  mkTask (t_operation r) (t_job r) (t_entry r) (t_action r) v (t_config r) (t_error r) (t_issued r).
Definition set_t_error (v : option string) (r : Task) : Task :=
  mkTask (t_operation r) (t_job r) (t_entry r) (t_action r) (t_state r) (t_config r) v (t_issued r).
Definition set_t_issued (v : option Issued) (r : Task) : Task :=
  mkTask (t_operation r) (t_job r) (t_entry r) (t_action r) (t_state r) (t_config r) (t_error r) v.

(** [sync_conflicts]. *)
Record Conflict := mkConflict {
  x_job : Z;
  x_entry : Z;
  x_kind : string;
  x_state : string;
  x_resolution : option string;
  x_reason : option string;
  x_recovery : option string;
  x_remote : option RemotePhoto
}.
#[export] Instance Conflict_eq_dec : EqDecision Conflict.
Proof. solve_decision. Defined.
Definition set_x_state (v : string) (r : Conflict) : Conflict :=
  mkConflict (x_job r) (x_entry r) (x_kind r) v (x_resolution r) (x_reason r) (x_recovery r) (x_remote r).
Definition set_x_resolution (v : option string) (r : Conflict) : Conflict :=
  mkConflict (x_job r) (x_entry r) (x_kind r) (x_state r) v (x_reason r) (x_recovery r) (x_remote r).
Definition set_x_reason (v : option string) (r : Conflict) : Conflict :=
  mkConflict (x_job r) (x_entry r) (x_kind r) (x_state r) (x_resolution r) v (x_recovery r) (x_remote r).
Definition set_x_recovery (v : option string) (r : Conflict) : Conflict :=
  mkConflict (x_job r) (x_entry r) (x_kind r) (x_state r) (x_resolution r) (x_reason r) v (x_remote r).
Definition set_x_remote (v : option RemotePhoto) (r : Conflict) : Conflict :=
  mkConflict (x_job r) (x_entry r) (x_kind r) (x_state r) (x_resolution r) (x_reason r) (x_recovery r) v.

(** [sync_native_progress]; a job has one configured zone and so one row. *)
Record Progress := mkProgress {
  g_zone : string;
  g_owner : string;
  g_tenant : string;
  g_container : string;
  g_environment : string;
  g_database : string;
  g_generation : string;
  g_scope_digest : string;
  g_snapshot : option string;
  g_bootstrap_started : bool;
  g_discovery : option string;
  g_discovery_complete : bool;
  g_ingest : option string;
  g_applied : option string;
  g_target : option string
}.
#[export] Instance Progress_eq_dec : EqDecision Progress.
Proof. solve_decision. Defined.
Definition set_g_tenant (v : string) (r : Progress) : Progress :=
  mkProgress (g_zone r) (g_owner r) v (g_container r) (g_environment r) (g_database r) (g_generation r) (g_scope_digest r) (g_snapshot r) (g_bootstrap_started r) (g_discovery r) (g_discovery_complete r) (g_ingest r) (g_applied r) (g_target r).
Definition set_g_container (v : string) (r : Progress) : Progress :=
  mkProgress (g_zone r) (g_owner r) (g_tenant r) v (g_environment r) (g_database r) (g_generation r) (g_scope_digest r) (g_snapshot r) (g_bootstrap_started r) (g_discovery r) (g_discovery_complete r) (g_ingest r) (g_applied r) (g_target r).
Definition set_g_environment (v : string) (r : Progress) : Progress :=
  mkProgress (g_zone r) (g_owner r) (g_tenant r) (g_container r) v (g_database r) (g_generation r) (g_scope_digest r) (g_snapshot r) (g_bootstrap_started r) (g_discovery r) (g_discovery_complete r) (g_ingest r) (g_applied r) (g_target r).
Definition set_g_database (v : string) (r : Progress) : Progress :=
  mkProgress (g_zone r) (g_owner r) (g_tenant r) (g_container r) (g_environment r) v (g_generation r) (g_scope_digest r) (g_snapshot r) (g_bootstrap_started r) (g_discovery r) (g_discovery_complete r) (g_ingest r) (g_applied r) (g_target r).
Definition set_g_generation (v : string) (r : Progress) : Progress :=
  mkProgress (g_zone r) (g_owner r) (g_tenant r) (g_container r) (g_environment r) (g_database r) v (g_scope_digest r) (g_snapshot r) (g_bootstrap_started r) (g_discovery r) (g_discovery_complete r) (g_ingest r) (g_applied r) (g_target r).
Definition set_g_scope_digest (v : string) (r : Progress) : Progress :=
  mkProgress (g_zone r) (g_owner r) (g_tenant r) (g_container r) (g_environment r) (g_database r) (g_generation r) v (g_snapshot r) (g_bootstrap_started r) (g_discovery r) (g_discovery_complete r) (g_ingest r) (g_applied r) (g_target r).
Definition set_g_snapshot (v : option string) (r : Progress) : Progress :=
  mkProgress (g_zone r) (g_owner r) (g_tenant r) (g_container r) (g_environment r) (g_database r) (g_generation r) (g_scope_digest r) v (g_bootstrap_started r) (g_discovery r) (g_discovery_complete r) (g_ingest r) (g_applied r) (g_target r).
Definition set_g_bootstrap_started (v : bool) (r : Progress) : Progress :=
  mkProgress (g_zone r) (g_owner r) (g_tenant r) (g_container r) (g_environment r) (g_database r) (g_generation r) (g_scope_digest r) (g_snapshot r) v (g_discovery r) (g_discovery_complete r) (g_ingest r) (g_applied r) (g_target r).
Definition set_g_discovery (v : option string) (r : Progress) : Progress :=
  mkProgress (g_zone r) (g_owner r) (g_tenant r) (g_container r) (g_environment r) (g_database r) (g_generation r) (g_scope_digest r) (g_snapshot r) (g_bootstrap_started r) v (g_discovery_complete r) (g_ingest r) (g_applied r) (g_target r).
Definition set_g_discovery_complete (v : bool) (r : Progress) : Progress :=
  mkProgress (g_zone r) (g_owner r) (g_tenant r) (g_container r) (g_environment r) (g_database r) (g_generation r) (g_scope_digest r) (g_snapshot r) (g_bootstrap_started r) (g_discovery r) v (g_ingest r) (g_applied r) (g_target r).
Definition set_g_ingest (v : option string) (r : Progress) : Progress :=
  mkProgress (g_zone r) (g_owner r) (g_tenant r) (g_container r) (g_environment r) (g_database r) (g_generation r) (g_scope_digest r) (g_snapshot r) (g_bootstrap_started r) (g_discovery r) (g_discovery_complete r) v (g_applied r) (g_target r).
Definition set_g_applied (v : option string) (r : Progress) : Progress :=
  mkProgress (g_zone r) (g_owner r) (g_tenant r) (g_container r) (g_environment r) (g_database r) (g_generation r) (g_scope_digest r) (g_snapshot r) (g_bootstrap_started r) (g_discovery r) (g_discovery_complete r) (g_ingest r) v (g_target r).
Definition set_g_target (v : option string) (r : Progress) : Progress :=
  mkProgress (g_zone r) (g_owner r) (g_tenant r) (g_container r) (g_environment r) (g_database r) (g_generation r) (g_scope_digest r) (g_snapshot r) (g_bootstrap_started r) (g_discovery r) (g_discovery_complete r) (g_ingest r) (g_applied r) v.

(** [sync_bootstrap_types]: [TypeMarker] of [store/receive.rs]. *)
Record TypeMarker := mkMarker {
  tm_complete : bool;
  tm_continuation : option string;
  tm_count : Z
}.
#[export] Instance TypeMarker_eq_dec : EqDecision TypeMarker.
Proof. solve_decision. Defined.

Inductive Role := RoleOriginal | RoleThumbnail.
#[export] Instance Role_eq_dec : EqDecision Role.
Proof. solve_decision. Defined.
#[export] Instance Role_countable : Countable Role.
Proof.
  refine (inj_countable' (fun r => match r with RoleOriginal => true | RoleThumbnail => false end)
                         (fun b : bool => if b then RoleOriginal else RoleThumbnail) _).
  by intros [].
Defined.

(** [ResourceState] of [store/publication.rs]. *)
Inductive ResourceState := RPending | RStaged | RVerified | RRetained | RFailed.
#[export] Instance ResourceState_eq_dec : EqDecision ResourceState.
Proof. solve_decision. Defined.

(** Primary key of [sync_native_resources]: job, generation, asset, role. *)
Notation ResKey := (Z * string * string * Role)%type.
(** [sync_native_resources]. *)
Record Resource := mkResource {
  s_record : option string;
  s_sha256 : option string;
  s_size : option Z;
  s_staging : option string;
  s_state : ResourceState;
  s_cache : option string
}.
#[export] Instance Resource_eq_dec : EqDecision Resource.
Proof. solve_decision. Defined.
Definition set_s_record (v : option string) (r : Resource) : Resource :=
  mkResource v (s_sha256 r) (s_size r) (s_staging r) (s_state r) (s_cache r).
Definition set_s_sha256 (v : option string) (r : Resource) : Resource :=
  mkResource (s_record r) v (s_size r) (s_staging r) (s_state r) (s_cache r).
Definition set_s_size (v : option Z) (r : Resource) : Resource :=
  mkResource (s_record r) (s_sha256 r) v (s_staging r) (s_state r) (s_cache r).
Definition set_s_staging (v : option string) (r : Resource) : Resource :=
  mkResource (s_record r) (s_sha256 r) (s_size r) v (s_state r) (s_cache r).
Definition set_s_state (v : ResourceState) (r : Resource) : Resource :=
  mkResource (s_record r) (s_sha256 r) (s_size r) (s_staging r) v (s_cache r).
Definition set_s_cache (v : option string) (r : Resource) : Resource :=
  mkResource (s_record r) (s_sha256 r) (s_size r) (s_staging r) (s_state r) v.

Inductive PubState := PPending | PPublishing | PComplete | PSuperseded.
#[export] Instance PubState_eq_dec : EqDecision PubState.
Proof. solve_decision. Defined.

(** A scalar column of a publication's captured versions or recovery details. *)
Inductive SqlValue := SqlNull | SqlInteger (n : Z) | SqlText (s : string).
#[export] Instance SqlValue_eq_dec : EqDecision SqlValue.
Proof. solve_decision. Defined.

(** [sync_publications]: [p_capture] is [capture_present] with the columns of
    [CAPTURE], [p_projection] is [capture_projection_present] with the stored
    photo, [p_details] is [recovery_present] with the columns of [DETAILS]. *)
Record Publication := mkPub {
  p_id : string;
  p_job : Z;
  p_entry : option Z;
  p_photo : option string;
  p_master : option string;
  p_original : option string;
  p_thumbnail : option string;
  p_state : PubState;
  p_capture : option (list SqlValue);
  p_projection : option (option RemotePhoto);
  p_details : option (list SqlValue);
  p_old_snapshot : option string
}.
#[export] Instance Publication_eq_dec : EqDecision Publication.
Proof. solve_decision. Defined.
Definition set_p_entry (v : option Z) (r : Publication) : Publication :=
  mkPub (p_id r) (p_job r) v (p_photo r) (p_master r) (p_original r) (p_thumbnail r) (p_state r) (p_capture r) (p_projection r) (p_details r) (p_old_snapshot r).
Definition set_p_original (v : option string) (r : Publication) : Publication :=
  mkPub (p_id r) (p_job r) (p_entry r) (p_photo r) (p_master r) v (p_thumbnail r) (p_state r) (p_capture r) (p_projection r) (p_details r) (p_old_snapshot r).
Definition set_p_thumbnail (v : option string) (r : Publication) : Publication :=
  mkPub (p_id r) (p_job r) (p_entry r) (p_photo r) (p_master r) (p_original r) v (p_state r) (p_capture r) (p_projection r) (p_details r) (p_old_snapshot r).
Definition set_p_state (v : PubState) (r : Publication) : Publication :=
  mkPub (p_id r) (p_job r) (p_entry r) (p_photo r) (p_master r) (p_original r) (p_thumbnail r) v (p_capture r) (p_projection r) (p_details r) (p_old_snapshot r).
Definition set_p_capture (v : option (list SqlValue)) (r : Publication) : Publication :=
  mkPub (p_id r) (p_job r) (p_entry r) (p_photo r) (p_master r) (p_original r) (p_thumbnail r) (p_state r) v (p_projection r) (p_details r) (p_old_snapshot r).
Definition set_p_projection (v : option (option RemotePhoto)) (r : Publication) : Publication :=
  mkPub (p_id r) (p_job r) (p_entry r) (p_photo r) (p_master r) (p_original r) (p_thumbnail r) (p_state r) (p_capture r) v (p_details r) (p_old_snapshot r).
Definition set_p_details (v : option (list SqlValue)) (r : Publication) : Publication :=
  mkPub (p_id r) (p_job r) (p_entry r) (p_photo r) (p_master r) (p_original r) (p_thumbnail r) (p_state r) (p_capture r) (p_projection r) v (p_old_snapshot r).
Definition set_p_old_snapshot (v : option string) (r : Publication) : Publication :=
  mkPub (p_id r) (p_job r) (p_entry r) (p_photo r) (p_master r) (p_original r) (p_thumbnail r) (p_state r) (p_capture r) (p_projection r) (p_details r) v.

(** The single row of [sync_reset_state]. *)
Record ResetIntent := mkReset {
  reset_token : string;
  reset_error : option string
}.
#[export] Instance ResetIntent_eq_dec : EqDecision ResetIntent.
Proof. solve_decision. Defined.
Definition set_reset_error (v : option string) (r : ResetIntent) : ResetIntent :=
  mkReset (reset_token r) v.

(** The whole database. The [db_next_*] counters are the AUTOINCREMENT sequences and
    [db_now] is what [unixepoch()] answers. *)
Record Db := mkDb {
  db_media : gmap Z Media;
  db_connections : gmap Z Connection;
  db_jobs : gmap Z Job;
  db_albums : gset (Z * string);
  db_changes : gmap Z Change;
  db_entries : gmap Z Entry;
  db_tasks : gmap Z Task;
  db_conflicts : gmap Z Conflict;
  db_progress : gmap Z Progress;
  db_bootstrap : gmap (Z * string) TypeMarker;
  db_resources : gmap ResKey Resource;
  db_publications : gmap Z Publication;
  db_settings : gmap string string;
  db_reset : option ResetIntent;
  db_next_media : Z;
  db_next_job : Z;
  db_next_entry : Z;
  db_next_task : Z;
  db_next_conflict : Z;
  db_next_publication : Z;
  db_now : Z
}.
Definition set_db_media (v : gmap Z Media) (r : Db) : Db :=
  mkDb v (db_connections r) (db_jobs r) (db_albums r) (db_changes r) (db_entries r) (db_tasks r) (db_conflicts r) (db_progress r) (db_bootstrap r) (db_resources r) (db_publications r) (db_settings r) (db_reset r) (db_next_media r) (db_next_job r) (db_next_entry r) (db_next_task r) (db_next_conflict r) (db_next_publication r) (db_now r).
Definition set_db_connections (v : gmap Z Connection) (r : Db) : Db :=
  mkDb (db_media r) v (db_jobs r) (db_albums r) (db_changes r) (db_entries r) (db_tasks r) (db_conflicts r) (db_progress r) (db_bootstrap r) (db_resources r) (db_publications r) (db_settings r) (db_reset r) (db_next_media r) (db_next_job r) (db_next_entry r) (db_next_task r) (db_next_conflict r) (db_next_publication r) (db_now r).
Definition set_db_jobs (v : gmap Z Job) (r : Db) : Db :=
  mkDb (db_media r) (db_connections r) v (db_albums r) (db_changes r) (db_entries r) (db_tasks r) (db_conflicts r) (db_progress r) (db_bootstrap r) (db_resources r) (db_publications r) (db_settings r) (db_reset r) (db_next_media r) (db_next_job r) (db_next_entry r) (db_next_task r) (db_next_conflict r) (db_next_publication r) (db_now r).
Definition set_db_albums (v : gset (Z * string)) (r : Db) : Db :=
  mkDb (db_media r) (db_connections r) (db_jobs r) v (db_changes r) (db_entries r) (db_tasks r) (db_conflicts r) (db_progress r) (db_bootstrap r) (db_resources r) (db_publications r) (db_settings r) (db_reset r) (db_next_media r) (db_next_job r) (db_next_entry r) (db_next_task r) (db_next_conflict r) (db_next_publication r) (db_now r).
Definition set_db_changes (v : gmap Z Change) (r : Db) : Db :=
  mkDb (db_media r) (db_connections r) (db_jobs r) (db_albums r) v (db_entries r) (db_tasks r) (db_conflicts r) (db_progress r) (db_bootstrap r) (db_resources r) (db_publications r) (db_settings r) (db_reset r) (db_next_media r) (db_next_job r) (db_next_entry r) (db_next_task r) (db_next_conflict r) (db_next_publication r) (db_now r).
Definition set_db_entries (v : gmap Z Entry) (r : Db) : Db :=
  mkDb (db_media r) (db_connections r) (db_jobs r) (db_albums r) (db_changes r) v (db_tasks r) (db_conflicts r) (db_progress r) (db_bootstrap r) (db_resources r) (db_publications r) (db_settings r) (db_reset r) (db_next_media r) (db_next_job r) (db_next_entry r) (db_next_task r) (db_next_conflict r) (db_next_publication r) (db_now r).
Definition set_db_tasks (v : gmap Z Task) (r : Db) : Db :=
  mkDb (db_media r) (db_connections r) (db_jobs r) (db_albums r) (db_changes r) (db_entries r) v (db_conflicts r) (db_progress r) (db_bootstrap r) (db_resources r) (db_publications r) (db_settings r) (db_reset r) (db_next_media r) (db_next_job r) (db_next_entry r) (db_next_task r) (db_next_conflict r) (db_next_publication r) (db_now r).
Definition set_db_conflicts (v : gmap Z Conflict) (r : Db) : Db :=
  mkDb (db_media r) (db_connections r) (db_jobs r) (db_albums r) (db_changes r) (db_entries r) (db_tasks r) v (db_progress r) (db_bootstrap r) (db_resources r) (db_publications r) (db_settings r) (db_reset r) (db_next_media r) (db_next_job r) (db_next_entry r) (db_next_task r) (db_next_conflict r) (db_next_publication r) (db_now r).
Definition set_db_progress (v : gmap Z Progress) (r : Db) : Db :=
  mkDb (db_media r) (db_connections r) (db_jobs r) (db_albums r) (db_changes r) (db_entries r) (db_tasks r) (db_conflicts r) v (db_bootstrap r) (db_resources r) (db_publications r) (db_settings r) (db_reset r) (db_next_media r) (db_next_job r) (db_next_entry r) (db_next_task r) (db_next_conflict r) (db_next_publication r) (db_now r).
Definition set_db_bootstrap (v : gmap (Z * string) TypeMarker) (r : Db) : Db :=
  mkDb (db_media r) (db_connections r) (db_jobs r) (db_albums r) (db_changes r) (db_entries r) (db_tasks r) (db_conflicts r) (db_progress r) v (db_resources r) (db_publications r) (db_settings r) (db_reset r) (db_next_media r) (db_next_job r) (db_next_entry r) (db_next_task r) (db_next_conflict r) (db_next_publication r) (db_now r).
Definition set_db_resources (v : gmap ResKey Resource) (r : Db) : Db :=
  mkDb (db_media r) (db_connections r) (db_jobs r) (db_albums r) (db_changes r) (db_entries r) (db_tasks r) (db_conflicts r) (db_progress r) (db_bootstrap r) v (db_publications r) (db_settings r) (db_reset r) (db_next_media r) (db_next_job r) (db_next_entry r) (db_next_task r) (db_next_conflict r) (db_next_publication r) (db_now r).
Definition set_db_publications (v : gmap Z Publication) (r : Db) : Db :=
  mkDb (db_media r) (db_connections r) (db_jobs r) (db_albums r) (db_changes r) (db_entries r) (db_tasks r) (db_conflicts r) (db_progress r) (db_bootstrap r) (db_resources r) v (db_settings r) (db_reset r) (db_next_media r) (db_next_job r) (db_next_entry r) (db_next_task r) (db_next_conflict r) (db_next_publication r) (db_now r).
Definition set_db_settings (v : gmap string string) (r : Db) : Db :=
  mkDb (db_media r) (db_connections r) (db_jobs r) (db_albums r) (db_changes r) (db_entries r) (db_tasks r) (db_conflicts r) (db_progress r) (db_bootstrap r) (db_resources r) (db_publications r) v (db_reset r) (db_next_media r) (db_next_job r) (db_next_entry r) (db_next_task r) (db_next_conflict r) (db_next_publication r) (db_now r).
Definition set_db_reset (v : option ResetIntent) (r : Db) : Db :=
  mkDb (db_media r) (db_connections r) (db_jobs r) (db_albums r) (db_changes r) (db_entries r) (db_tasks r) (db_conflicts r) (db_progress r) (db_bootstrap r) (db_resources r) (db_publications r) (db_settings r) v (db_next_media r) (db_next_job r) (db_next_entry r) (db_next_task r) (db_next_conflict r) (db_next_publication r) (db_now r).
Definition set_db_next_media (v : Z) (r : Db) : Db :=
  mkDb (db_media r) (db_connections r) (db_jobs r) (db_albums r) (db_changes r) (db_entries r) (db_tasks r) (db_conflicts r) (db_progress r) (db_bootstrap r) (db_resources r) (db_publications r) (db_settings r) (db_reset r) v (db_next_job r) (db_next_entry r) (db_next_task r) (db_next_conflict r) (db_next_publication r) (db_now r).
Definition set_db_next_job (v : Z) (r : Db) : Db :=
  mkDb (db_media r) (db_connections r) (db_jobs r) (db_albums r) (db_changes r) (db_entries r) (db_tasks r) (db_conflicts r) (db_progress r) (db_bootstrap r) (db_resources r) (db_publications r) (db_settings r) (db_reset r) (db_next_media r) v (db_next_entry r) (db_next_task r) (db_next_conflict r) (db_next_publication r) (db_now r).
Definition set_db_next_entry (v : Z) (r : Db) : Db :=
  mkDb (db_media r) (db_connections r) (db_jobs r) (db_albums r) (db_changes r) (db_entries r) (db_tasks r) (db_conflicts r) (db_progress r) (db_bootstrap r) (db_resources r) (db_publications r) (db_settings r) (db_reset r) (db_next_media r) (db_next_job r) v (db_next_task r) (db_next_conflict r) (db_next_publication r) (db_now r).
Definition set_db_next_task (v : Z) (r : Db) : Db :=
  mkDb (db_media r) (db_connections r) (db_jobs r) (db_albums r) (db_changes r) (db_entries r) (db_tasks r) (db_conflicts r) (db_progress r) (db_bootstrap r) (db_resources r) (db_publications r) (db_settings r) (db_reset r) (db_next_media r) (db_next_job r) (db_next_entry r) v (db_next_conflict r) (db_next_publication r) (db_now r).
Definition set_db_next_conflict (v : Z) (r : Db) : Db :=
  mkDb (db_media r) (db_connections r) (db_jobs r) (db_albums r) (db_changes r) (db_entries r) (db_tasks r) (db_conflicts r) (db_progress r) (db_bootstrap r) (db_resources r) (db_publications r) (db_settings r) (db_reset r) (db_next_media r) (db_next_job r) (db_next_entry r) (db_next_task r) v (db_next_publication r) (db_now r).
Definition set_db_next_publication (v : Z) (r : Db) : Db :=
  mkDb (db_media r) (db_connections r) (db_jobs r) (db_albums r) (db_changes r) (db_entries r) (db_tasks r) (db_conflicts r) (db_progress r) (db_bootstrap r) (db_resources r) (db_publications r) (db_settings r) (db_reset r) (db_next_media r) (db_next_job r) (db_next_entry r) (db_next_task r) (db_next_conflict r) v (db_now r).
Definition set_db_now (v : Z) (r : Db) : Db :=
  mkDb (db_media r) (db_connections r) (db_jobs r) (db_albums r) (db_changes r) (db_entries r) (db_tasks r) (db_conflicts r) (db_progress r) (db_bootstrap r) (db_resources r) (db_publications r) (db_settings r) (db_reset r) (db_next_media r) (db_next_job r) (db_next_entry r) (db_next_task r) (db_next_conflict r) (db_next_publication r) v.

(** ** Statements with foreign keys *)

(** [DELETE FROM sync_entries WHERE P]: conflicts go with their entry; tasks
    and publications keep their row and lose the reference. *)
Definition delete_entries (P : Z -> Entry -> bool) (db : Db) : Db :=
  let gone id := match db_entries db !! id with Some e => P id e | None => false end in
  let gone_opt o := match o with Some id => gone id | None => false end in
  set_db_entries (delete_where P (db_entries db))
    (set_db_conflicts (delete_where (fun _ x => gone (x_entry x)) (db_conflicts db))
      (set_db_tasks (update_where (fun _ t => gone_opt (t_entry t)) (set_t_entry None) (db_tasks db))
        (set_db_publications
          (update_where (fun _ p => gone_opt (p_entry p)) (set_p_entry None) (db_publications db)) db))).

(** [DELETE FROM sync_jobs WHERE id=?1]: everything scoped to the job goes. *)
Definition delete_job_rows (id : Z) (db : Db) : Db :=
  let db := delete_entries (fun _ e => e_job e =? id) db in
  set_db_jobs (delete id (db_jobs db))
    (set_db_albums (filter (fun a => a.1 <> id) (db_albums db))
      (set_db_changes (delete id (db_changes db))
        (set_db_tasks (delete_where (fun _ t => t_job t =? id) (db_tasks db))
          (set_db_conflicts (delete_where (fun _ x => x_job x =? id) (db_conflicts db))
            (set_db_progress (delete id (db_progress db))
              (set_db_bootstrap (delete_where (fun k _ => k.1 =? id) (db_bootstrap db))
                (set_db_resources (delete_where (fun k _ => k.1.1.1 =? id) (db_resources db))
                  (set_db_publications
                    (delete_where (fun _ p => p_job p =? id) (db_publications db)) db)))))))).

(** [DELETE FROM media_items WHERE P]: entries keep their row, unlinked. *)
Definition delete_media (P : Z -> Media -> bool) (db : Db) : Db :=
  let gone o := match o with
                | Some id => match db_media db !! id with Some m => P id m | None => false end
                | None => false end in
  set_db_media (delete_where P (db_media db))
    (set_db_entries (update_where (fun _ e => gone (e_media e)) (set_e_media None) (db_entries db)) db).

(** The connection of a job is enabled. *)
Definition job_enabled (db : Db) (job : Z) : bool :=
  match db_jobs db !! job with
  | Some j => match db_connections db !! j_connection j with
              | Some c => c_enabled c | None => false end
  | None => false
  end.

Definition no_track : Track := mkTrack 0 0 None.
Definition no_remote : Remote := mkRemote None None None None None None.

(** [INSERT INTO sync_entries(job_id,media_id,relative_path,native_dirty)], the
    other columns at their defaults. *)
Definition new_entry (job : Z) (media : option Z) (path : string) (dirty : Z) : Entry :=
  mkEntry job media path false dirty None 0 no_track no_track no_track None no_remote None None None.

(** UNIQUE(job_id, relative_path). *)
Definition path_taken (db : Db) (job : Z) (path : string) : bool :=
  exists_where (fun _ e => (e_job e =? job) && bool_decide (e_path e = path)) (db_entries db).

Definition insert_entry (e : Entry) : Tx Db Z :=
  taken ← gets (fun db => path_taken db (e_job e) (e_path e));
  _ ← ensure (negb taken) (Constraint "sync_entries.job_id, sync_entries.relative_path");
  id ← gets db_next_entry;
  _ ← modify (fun db => set_db_entries (<[id := e]> (db_entries db)) (set_db_next_entry (id + 1) db));
  mret id.

(** [INSERT INTO sync_job_upload_albums], PRIMARY KEY(job_id, relative_album). *)
Definition insert_album (job : Z) (album : string) : Tx Db unit :=
  albums ← gets db_albums;
  _ ← ensure (negb (bool_decide ((job, album) ∈ albums)))
        (Constraint "sync_job_upload_albums.job_id, sync_job_upload_albums.relative_album");
  modify (set_db_albums ({[ (job, album) ]} ∪ albums)).

Lemma insert_album_run job album db :
  (job, album) ∉ db_albums db ->
  insert_album job album db = Ok (tt, set_db_albums ({[ (job, album) ]} ∪ db_albums db) db).
Proof. intros Hn. unfold insert_album. tx_red. by rewrite bool_decide_false. Qed.

(** The replacement of a job's selected albums, shared by the commands that
    install an album selection. *)
Definition replace_albums (job : Z) (albums : list string) : Tx Db unit :=
  _ ← modify (fun db => set_db_albums (filter (fun a => a.1 <> job) (db_albums db)) db);
  for_each albums (insert_album job).

(** [UPDATE sync_jobs SET f WHERE id=?1]. *)
Definition update_job (id : Z) (f : Job -> Job) : Tx Db unit :=
  modify (fun db => set_db_jobs (alter f id (db_jobs db)) db).

Lemma for_each_insert_album job albums db :
  NoDup albums -> (forall a, a ∈ albums -> (job, a) ∉ db_albums db) ->
  exists db', for_each albums (insert_album job) db = Ok (tt, db') /\
    db' = set_db_albums (list_to_set ((fun a => (job, a)) <$> albums) ∪ db_albums db) db.
Proof.
  intros Hnd. revert db. induction Hnd as [|a albums Ha _ IH]; intros db Hfresh; simpl.
  { eexists. split; [done|]. destruct db; unfold set_db_albums; simpl. f_equal. set_solver. }
  rewrite (bind_run _ _ _ _ _ (insert_album_run job a db (Hfresh a ltac:(left)))).
  destruct (IH (set_db_albums ({[(job, a)]} ∪ db_albums db) db)) as (db' & Hrun & Heq).
  { intros b Hb. cbn. intros [[= ->]%elem_of_singleton|Hin]%elem_of_union; [done|].
    by apply (Hfresh b); [right|]. }
  exists db'. split; [done|]. rewrite Heq. destruct db; unfold set_db_albums; simpl. f_equal.
  apply leibniz_equiv. intros x. rewrite !elem_of_union. tauto.
Qed.

(** Keys stay below their sequence, so an inserted id is fresh. *)
Definition entry_ids_ok (db : Db) : Prop :=
  0 < db_next_entry db /\
  forall id e, db_entries db !! id = Some e -> 0 < id < db_next_entry db.

(** UNIQUE(job_id, relative_path) as an invariant of the table. *)
Definition paths_unique (db : Db) : Prop :=
  forall i1 i2 e1 e2, db_entries db !! i1 = Some e1 -> db_entries db !! i2 = Some e2 ->
    e_job e1 = e_job e2 -> e_path e1 = e_path e2 -> i1 = i2.
End Db.
Export Db.

(** A small library the examples run on: one photo under [/photos], one
    enabled account with one job in cycle ["cycle-1"], and the photo's entry
    with one unacknowledged metadata and one content edit. *)
Module Sample.
Definition photo : Media := mkMedia "file:///photos/a.jpg" "/photos/a.jpg" "/photos" false None None 1 false 5 "image/jpeg" None None 11
  0 "image" "standard" "{}" 0 None "" None.
Definition connection : Connection := mkConn "https://cloud.example" "cred-1" true (Some 7).
Definition job : Job :=
  mkJob 1 "/photos" Bidirectional ScopeAll (Some "cycle-1"%string) false 3 "PrimarySync" "_defaultOwner"
    (Some 10) None None.
Definition entry : Entry :=
  mkEntry 1 (Some 1) "a.jpg" false 1 None 2 (mkTrack 1 0 None) (mkTrack 1 0 None) no_track None no_remote None None None.
Definition progress : Progress := mkProgress "PrimarySync" "_defaultOwner" "tenant" "container" "production" "private" "gen-1" "scope" None false None false None None None.
Definition empty_db : Db := mkDb ∅ ∅ ∅ ∅ ∅ ∅ ∅ ∅ ∅ ∅ ∅ ∅ ∅ None 1 1 1 1 1 1 0.
Definition db : Db :=
  mkDb {[1 := photo]} {[1 := connection]} {[1 := job]} ∅ ∅ {[1 := entry]} ∅ ∅ {[1 := progress]} ∅ ∅ ∅ ∅ None
    2 2 2 1 1 1 0.

Lemma entries_are k e : db_entries db !! k = Some e -> k = 1 /\ e = entry.
Proof. cbn [db db_entries]. intros [<- <-]%lookup_singleton_Some. done. Qed.
Lemma no_tasks k t : db_tasks db !! k <> Some t.
Proof. cbn [db db_tasks]. by rewrite lookup_empty. Qed.
End Sample.
