(* ===== verification/NativeRecords.v ===== *)
(** The typed remote graph ([sync/native/records.rs] and the record envelope of
    [sync/native/receive.rs]).

    The wire carries record envelopes. This file models how an envelope is
    decoded ([serde] on the derived structs), how ordered events are replayed
    into the set of live records, and how that set is validated into photos: a
    master and an asset record that name each other, in this zone, at one
    content generation, with a safe and unshared path. A [HashMap] has no
    defined iteration order, so validation takes the iteration as an argument
    and the theorems hold for every one. *)
From Stdlib Require Import Ascii String.
From S2P Require Import Prelude.
From S2P Require Import Json.
From S2P Require Import Media.
From S2P Require Import Content.
From S2P Require Import SyncDb.
Import Json.
Local Open Scope Z_scope.

Module Records.

Definition MASTER_RECORD_TYPE : string := "CPLMaster".
Definition ASSET_RECORD_TYPE : string := "CPLAsset".
Definition DEFAULT_OWNER : string := "_defaultOwner".

(** [ZoneId]. *)
Record ZoneId := mkZone { zone_name : string; owner_record_name : string }.
#[export] Instance ZoneId_eq_dec : EqDecision ZoneId.
Proof. solve_decision. Defined.

(** [NativeRecord]. *)
Record NativeRecord := mkRecord {
  record_name : string;
  record_type : option string;
  zone_id : option ZoneId;
  record_change_tag : option string;
  fields : option Map;
  rec_events : option EditEvents;
  deleted : bool
}.

Definition is_tombstone (r : NativeRecord) : bool :=
  deleted r || bool_decide (fields r = None).

(** ** Decoding *)
(** The members of a derived struct, in declaration order: an object by name
    (others ignored), or an array by position, at most one element a field. *)
Definition struct_members (names : list string) (v : Value) : option (list (option Value)) :=
  match v with
  | Obj m => Some (get m <$> names)
  | Arr l => if (length l <=? length names)%nat
             then Some ((Some <$> l) ++ replicate (length names - length l) None) else None
  | _ => None
  end.

(** An [Option] field with its default: absent and null are [None]. *)
Definition opt_field {A} (decode : Value -> option A) (v : option Value) : option (option A) :=
  match v with
  | None | Some Null => Some None
  | Some v => Some <$> decode v
  end.

Definition EVENT_MEMBERS : list string := ["editedAtMs"; "source"; "eventId"]%string.
Definition event_from_value (v : Value) : option EditEvent :=
  match struct_members EVENT_MEMBERS v with
  | Some [at_ms; source; id] =>
      at_ms ← at_ms ≫= as_i64; source ← source ≫= as_str; id ← id ≫= as_str;
      Some (mkEvent at_ms source id)
  | _ => None
  end.

Definition EVENTS_MEMBERS : list string := ["metadataEvent"; "contentEvent"; "deletionEvent"]%string.
Definition events_from_value (v : Value) : option EditEvents :=
  match struct_members EVENTS_MEMBERS v with
  | Some [m; c; d] =>
      m ← opt_field event_from_value m; c ← opt_field event_from_value c;
      d ← opt_field event_from_value d; Some (mkEvents m c d)
  | _ => None
  end.

Definition ZONE_MEMBERS : list string := ["zoneName"; "ownerRecordName"]%string.
Definition zone_from_value (v : Value) : option ZoneId :=
  match struct_members ZONE_MEMBERS v with
  | Some [name; owner] =>
      name ← name ≫= as_str;
      owner ← match owner with None => Some DEFAULT_OWNER | Some owner => as_str owner end;
      Some (mkZone name owner)
  | _ => None
  end.

Definition RECORD_MEMBERS : list string :=
  ["recordName"; "recordType"; "zoneID"; "recordChangeTag"; "fields"; "_syncserver"; "deleted"]%string.
Definition record_from_value (v : Value) : option NativeRecord :=
  match struct_members RECORD_MEMBERS v with
  | Some [name; type; zone; tag; flds; evs; del] =>
      name ← name ≫= as_str;
      type ← opt_field as_str type;
      zone ← opt_field zone_from_value zone;
      tag ← opt_field as_str tag;
      flds ← opt_field as_object flds;
      evs ← opt_field events_from_value evs;
      del ← match del with None => Some false | Some del => as_bool del end;
      Some (mkRecord name type zone tag flds evs del)
  | _ => None
  end.

(** A [u32] member. *)
Definition as_u32 (v : Value) : option Z :=
  n ← as_u64 v; if n <=? U32_MAX then Some n else None.

Definition ASSET_MEMBERS : list string :=
  ["assetId"; "size"; "fileChecksum"; "mimeType"; "width"; "height"]%string.
Definition asset_from_value (v : Value) : option AssetDescriptor :=
  match struct_members ASSET_MEMBERS v with
  | Some [id; size; checksum; mime; width; height] =>
      id ← id ≫= as_str; size ← size ≫= as_u64; checksum ← checksum ≫= as_str;
      mime ← mime ≫= as_str; width ← opt_field as_u32 width; height ← opt_field as_u32 height;
      Some (mkAsset id size checksum mime width height)
  | _ => None
  end.

(** ** Encoding *)
Definition opt_value {A} (encode : A -> Value) (o : option A) : Value :=
  match o with Some a => encode a | None => Null end.
(** [serde_json::to_value]; members in key order. *)
Definition event_to_value (e : EditEvent) : Value :=
  Obj [("editedAtMs", Int (edited_at_ms e)); ("eventId", Str (ev_id e)); ("source", Str (ev_source e))]%string.
Definition events_to_value (e : EditEvents) : Value :=
  Obj [("contentEvent", opt_value event_to_value (ev_content e));
       ("deletionEvent", opt_value event_to_value (ev_deletion e));
       ("metadataEvent", opt_value event_to_value (ev_metadata e))]%string.
Definition zone_to_value (z : ZoneId) : Value :=
  Obj [("ownerRecordName", Str (owner_record_name z)); ("zoneName", Str (zone_name z))]%string.
Definition record_to_value (r : NativeRecord) : Value :=
  Obj ([("_syncserver"%string, opt_value events_to_value (rec_events r));
        ("deleted"%string, Bool (deleted r))]
       ++ match fields r with Some f => [("fields"%string, Obj f)] | None => [] end
       ++ [("recordChangeTag"%string, opt_value Str (record_change_tag r));
           ("recordName"%string, Str (record_name r));
           ("recordType"%string, opt_value Str (record_type r));
           ("zoneID"%string, opt_value zone_to_value (zone_id r))]).

(** ** Live records *)
(** [RecordSet]: the live records by name. *)
Notation RecordSet := (gmap string NativeRecord).

Definition apply (record : NativeRecord) (live : RecordSet) : RecordSet :=
  if is_tombstone record then delete (record_name record) live
  else <[record_name record := record]> live.

Inductive InboxKind := Created | Updated | Deleted.
#[export] Instance InboxKind_eq_dec : EqDecision InboxKind.
Proof. solve_decision. Defined.
Record InboxEvent := mkInbox {
  in_ordinal : Z;
  in_name : string;
  in_type : string;
  in_tag : string;
  in_kind : InboxKind;
  in_payload : Value
}.

(** [RecordSet::from_events]; [None] is the decoding error. *)
Fixpoint replay (events : list InboxEvent) (live : RecordSet) : option RecordSet :=
  match events with
  | [] => Some live
  | event :: rest =>
      if decide (in_kind event = Deleted) then replay rest (delete (in_name event) live)
      else record ← record_from_value (in_payload event);
           replay rest (<[record_name record := record]> live)
  end.
Definition from_events (events : list InboxEvent) : option RecordSet := replay events ∅.

(** ** Fields *)
(** [field_value]: the [value] inside a typed field envelope. *)
Definition field_value (fields : option Map) (name : string) : option Value :=
  fields ← fields; field ← get fields name; field ← as_object field; get field "value".
Definition reference_target (fields : option Map) (name : string) : option string :=
  v ← field_value fields name; v ← member v "recordName"; as_str v.
Definition string_field (fields : option Map) (name : string) : option string :=
  v ← field_value fields name; as_str v.
Definition int_field (fields : option Map) (name : string) : option Z :=
  v ← field_value fields name; as_i64 v.

(** [is_ascii_hexdigit() && !is_ascii_uppercase()]. *)
Definition is_lower_hex_digit (c : ascii) : bool :=
  let n := Z.of_nat (nat_of_ascii c) in
  (48 <=? n) && (n <=? 57) || (97 <=? n) && (n <=? 102).
Definition is_lower_hex (value : string) : bool :=
  (String.length value =? 64)%nat && forallb is_lower_hex_digit (String.list_ascii_of_string value).

(** [is_safe_relative_path]. *)
Definition is_safe_segment (segment : string) : bool :=
  negb (bool_decide (segment = ""%string)) && negb (bool_decide (segment = "."%string))
  && negb (bool_decide (segment = ".."%string)) && (String.length segment <=? 255)%nat.
Definition is_safe_relative_path (path : string) : bool :=
  if bool_decide (path = ""%string) || String.prefix "/" path
     || bool_decide ("\"%char ∈ String.list_ascii_of_string path)
  then false
  else forallb is_safe_segment (Media.split_slash path).

(** ** Validation *)
Inductive GraphError :=
  | MissingRevision (name : string)
  | DanglingMaster (name master : string)
  | UnreferencedMaster (master : string)
  | MasterPhotoIdMismatch (master claimed actual : string)
  | GenerationMismatch (name master : string)
  | MissingAsset (name field : string)
  | InvalidPath (name : string)
  | DuplicatePath (name path : string)
  | InvalidThumbnailDigest (name : string).

Definition Checked (A : Type) : Type := GraphError + A.
#[export] Instance Checked_ret : MRet Checked := fun A a => inr a.
#[export] Instance Checked_bind : MBind Checked := fun A B k m =>
  match m with inl e => inl e | inr a => k a end.
(** [ok_or_else]. *)
Definition ok_or {A} (o : option A) (e : GraphError) : Checked A :=
  match o with Some a => inr a | None => inl e end.
Definition check (b : bool) (e : GraphError) : Checked unit := if b then inr tt else inl e.

Definition asset_descriptor (fields : option Map) (name photo_id : string) : Checked AssetDescriptor :=
  value ← ok_or (v ← field_value fields name; as_object v) (MissingAsset photo_id name);
  descriptor ← ok_or (asset_from_value (Obj value)) (MissingAsset photo_id name);
  _ ← check (match Content.hex_from_descriptor_base64 (file_checksum descriptor) with
             | Some digest => is_lower_hex digest | None => false end) (MissingAsset photo_id name);
  mret descriptor.

Definition build_photo (photo_id : string) (master asset : NativeRecord) (generation : string)
  : Checked RemotePhoto :=
  original ← asset_descriptor (fields master) "resOriginalRes" photo_id;
  thumbnail ← asset_descriptor (fields master) "resJPEGThumbRes" photo_id;
  path ← ok_or (string_field (fields asset) "relativePath") (MissingAsset photo_id "relativePath");
  _ ← check (is_safe_relative_path path) (InvalidPath photo_id);
  source ← ok_or (string_field (fields master) "thumbnailSourceOriginalSHA256")
             (MissingAsset photo_id "thumbnailSourceOriginalSHA256");
  _ ← check (is_lower_hex source
             && bool_decide (Content.hex_from_descriptor_base64 (file_checksum original) = Some source))
        (InvalidThumbnailDigest photo_id);
  mret (mkPhoto photo_id (record_name master) generation path
          (negb (default 0 (int_field (fields asset) "isFavorite") =? 0))
          (int_field (fields asset) "assetDate")
          (negb (default 0 (int_field (fields asset) "isHidden") =? 0))
          original thumbnail source (default (mkEvents None None None) (rec_events asset))).

Record ProjectedRecord := mkProjected {
  pr_name : string;
  pr_type : string;
  pr_tag : string;
  pr_payload : Value
}.
Record RemoteGraph := mkGraph {
  photos : list RemotePhoto;
  records : list ProjectedRecord;
  tombstones : list string
}.

Definition revision_of (r : NativeRecord) : Checked string :=
  ok_or (record_change_tag r) (MissingRevision (record_name r)).

(** The first loop of [to_graph]: masters, assets and the rest. *)
Fixpoint classify (live : list (string * NativeRecord)) (masters assets : RecordSet)
    (unknown : list ProjectedRecord) : Checked (RecordSet * RecordSet * list ProjectedRecord) :=
  match live with
  | [] => mret (masters, assets, unknown)
  | (_, r) :: rest =>
      if decide (record_type r = Some MASTER_RECORD_TYPE)
      then classify rest (<[record_name r := r]> masters) assets unknown
      else if decide (record_type r = Some ASSET_RECORD_TYPE)
      then classify rest masters (<[record_name r := r]> assets) unknown
      else
        tag ← revision_of r;
        classify rest masters assets
          (unknown ++ [mkProjected (record_name r) (default "" (record_type r))%string tag (record_to_value r)])
  end.

(** The master an asset is paired with, or why it has none. *)
Definition pair_master (zone : ZoneId) (masters : RecordSet) (photo_id : string) (asset : NativeRecord)
  : Checked (string * NativeRecord) :=
  master_ref ← ok_or (reference_target (fields asset) "masterRef")
                 (DanglingMaster photo_id "<missing masterRef>");
  master ← ok_or (masters !! master_ref) (DanglingMaster photo_id master_ref);
  _ ← check (match zone_id master with Some z => bool_decide (z = zone) | None => true end)
        (DanglingMaster photo_id master_ref);
  claimed ← ok_or (string_field (fields master) "photoId")
              (MasterPhotoIdMismatch master_ref "<missing photoId>" photo_id);
  _ ← check (bool_decide (claimed = photo_id)) (MasterPhotoIdMismatch master_ref claimed photo_id);
  mret (master_ref, master).

(** One asset of the second loop: its master's name and its photo. *)
Definition project_asset (zone : ZoneId) (masters : RecordSet) (photo_id : string) (asset : NativeRecord)
  : Checked (string * RemotePhoto) :=
  '(master_ref, master) ← pair_master zone masters photo_id asset;
  match string_field (fields master) "contentGeneration", string_field (fields asset) "contentGeneration" with
  | Some generation, Some asset_generation =>
      if decide (generation = asset_generation)
      then photo ← build_photo photo_id master asset generation; mret (master_ref, photo)
      else inl (GenerationMismatch photo_id master_ref)
  | _, _ => inl (GenerationMismatch photo_id master_ref)
  end.

Fixpoint project_assets (zone : ZoneId) (masters : RecordSet) (assets : list (string * NativeRecord))
    (found : list RemotePhoto) (referenced paths : gset string)
  : Checked (list RemotePhoto * gset string) :=
  match assets with
  | [] => mret (found, referenced)
  | (photo_id, asset) :: rest =>
      '(master_ref, photo) ← project_asset zone masters photo_id asset;
      _ ← check (bool_decide (relative_path photo ∉ paths)) (DuplicatePath photo_id (relative_path photo));
      project_assets zone masters rest (found ++ [photo]) ({[master_ref]} ∪ referenced)
        ({[relative_path photo]} ∪ paths)
  end.

Fixpoint check_referenced (masters : list (string * NativeRecord)) (referenced : gset string) : Checked unit :=
  match masters with
  | [] => mret tt
  | (name, _) :: rest =>
      _ ← check (bool_decide (name ∈ referenced)) (UnreferencedMaster name);
      check_referenced rest referenced
  end.

Definition by_name (a b : ProjectedRecord) : Prop := string_le (pr_name a) (pr_name b).
#[export] Instance by_name_dec : RelDecision by_name.
Proof. intros a b. unfold by_name. apply _. Defined.
#[export] Instance by_name_trans : Transitive by_name.
Proof. intros a b c. apply string_le_trans. Qed.
#[export] Instance by_name_total : Total by_name.
Proof. intros a b. apply string_le_total. Qed.

(** [to_graph]; [iter] is the iteration order of a [HashMap]. *)
Definition to_graph (iter : RecordSet -> list (string * NativeRecord)) (zone : ZoneId) (live : RecordSet)
  : Checked RemoteGraph :=
  '(masters, assets, unknown) ← classify (iter live) ∅ ∅ [];
  '(found, referenced) ← project_assets zone masters (iter assets) [] ∅ ∅;
  _ ← check_referenced (iter masters) referenced;
  mret (mkGraph found (merge_sort by_name unknown) []).

(** ** Latest edit *)
(** Lexicographic [(edited_at_ms, source, event_id)], [key(left) >= key(right)]. *)
Definition key_ge (a b : EditEvent) : bool :=
  (edited_at_ms b <? edited_at_ms a)
  || (edited_at_ms a =? edited_at_ms b)
     && (String.ltb (ev_source b) (ev_source a)
         || bool_decide (ev_source a = ev_source b) && String.leb (ev_id b) (ev_id a)).
Definition latest_event (left right : option EditEvent) : option EditEvent :=
  match left, right with
  | None, None => None
  | Some only, None | None, Some only => Some only
  | Some l, Some r => if key_ge l r then Some l else Some r
  end.
(** ** Replay *)
(** The live records are filed under their own names. *)
Definition named (live : RecordSet) : Prop := forall k r, live !! k = Some r -> record_name r = k.

Lemma named_insert live r : named live -> named (<[record_name r := r]> live).
Proof. intros Hn k r' [[<- <-]|[_ Hk]]%lookup_insert_Some; [done|by apply Hn]. Qed.
Lemma named_delete live k : named live -> named (delete k live).
Proof. intros Hn k' r [_ Hk]%lookup_delete_Some. by apply Hn. Qed.
Lemma named_apply live r : named live -> named (apply r live).
Proof. intros Hn. unfold apply. destruct (is_tombstone r); [by apply named_delete|by apply named_insert]. Qed.

(** Replay of a longer history. *)
Lemma replay_app ev1 ev2 live : replay (ev1 ++ ev2) live = replay ev1 live ≫= replay ev2.
Proof.
  revert live. induction ev1 as [|e ev1 IH]; intros live; simpl; [done|].
  destruct (decide _); [apply IH|]. destruct (record_from_value _); simpl; [apply IH|done].
Qed.
Lemma replay_named events live live' : named live -> replay events live = Some live' -> named live'.
Proof.
  revert live. induction events as [|e events IH]; intros live Hn; simpl; [by intros [= <-]|].
  destruct (decide _); [by apply IH, named_delete|].
  destruct (record_from_value _) as [r|]; simpl; [by apply IH, named_insert|done].
Qed.

(** The name an event is about. *)
Definition touches (e : InboxEvent) (name : string) : Prop :=
  if decide (in_kind e = Deleted) then in_name e = name
  else forall r, record_from_value (in_payload e) = Some r -> record_name r = name.

Lemma replay_untouched events live live' name :
  replay events live = Some live' -> Forall (fun e => ~ touches e name) events -> live' !! name = live !! name.
Proof.
  intros Hr Hu. revert live Hr. induction Hu as [|e events He _ IH]; intros live; simpl; [by intros [= <-]|].
  unfold touches in He. destruct (decide _).
  - intros Hr. rewrite (IH _ Hr). by rewrite lookup_delete_ne.
  - destruct (record_from_value _) as [r|]; simpl; [|done]. intros Hr. rewrite (IH _ Hr).
    apply lookup_insert_ne. intros <-. apply He. by intros ? [= <-].
Qed.

(** ** Validation, declaratively *)
Notation is_master := (fun kr : string * NativeRecord => record_type kr.2 = Some MASTER_RECORD_TYPE).
Notation is_asset := (fun kr : string * NativeRecord => record_type kr.2 = Some ASSET_RECORD_TYPE).
Notation is_unknown := (fun kr : string * NativeRecord =>
  record_type kr.2 <> Some MASTER_RECORD_TYPE /\ record_type kr.2 <> Some ASSET_RECORD_TYPE).

Definition projected (r : NativeRecord) : ProjectedRecord :=
  mkProjected (record_name r) (default "" (record_type r))%string
    (default "" (record_change_tag r))%string (record_to_value r).
(** Every record of an unknown type has a revision. *)
Definition tagged (live : list (string * NativeRecord)) : Prop :=
  Forall (fun kr => is_unknown kr -> is_Some (record_change_tag kr.2)) live.

Lemma check_inr b e u : check b e = inr u <-> b = true.
Proof. unfold check. destruct u, b; split; done. Qed.
Lemma ok_or_inr {A} (o : option A) e a : ok_or o e = inr a <-> o = Some a.
Proof. unfold ok_or. destruct o; split; [by intros [= ->]|by intros [= ->]|done|done]. Qed.
Lemma bind_inr {A B} (m : Checked A) (k : A -> Checked B) b :
  m ≫= k = inr b <-> exists a, m = inr a /\ k a = inr b.
Proof.
  unfold mbind, Checked_bind. destruct m as [e|a]; split; [done|by intros (? & ? & _)|eauto|].
  by intros (? & [= ->] & ?).
Qed.

Lemma types_ne : MASTER_RECORD_TYPE <> ASSET_RECORD_TYPE.
Proof. done. Qed.

Lemma classify_spec live ma assets un res :
  NoDup live.*1 -> (forall k r, (k, r) ∈ live -> record_name r = k) ->
  classify live ma assets un = inr res <->
  tagged live /\
  res = (filter is_master (list_to_map live : RecordSet) ∪ ma,
         filter is_asset (list_to_map live : RecordSet) ∪ assets,
         un ++ (projected <$> (filter is_unknown live).*2)).
Proof.
  intros Hnd Hname. revert ma assets un.
  induction live as [|[k r] live IH]; intros ma assets un; cbn [classify].
  { rewrite !list_to_map_nil, !map_filter_empty, !(left_id_L ∅ (∪)). cbn. rewrite (right_id_L [] (++)).
    unfold mret, Checked_ret. split; [|by intros [_ ->]]. intros [= <-]. split; [constructor|done]. }
  apply NoDup_cons in Hnd as [Hk Hnd]. specialize (IH Hnd ltac:(intros; apply Hname; by right)).
  assert (Hrk : record_name r = k) by (apply Hname; left). rewrite Hrk.
  assert (Hnone : (list_to_map live : RecordSet) !! k = None) by by apply not_elem_of_list_to_map_1.
  assert (Hmf : forall P `{!forall x, Decision (P x)}, filter P (list_to_map live : RecordSet) !! k = None).
  { intros P ?. apply map_lookup_filter_None. left. done. }
  pose proof types_ne as Hty. rewrite !list_to_map_cons. unfold tagged. rewrite Forall_cons. cbn [fst snd].
  case_decide as Hm; [|case_decide as Ha].
  - rewrite IH, map_filter_insert_True, map_filter_insert_False by (cbn; congruence).
    rewrite filter_cons_False by (cbn; tauto). rewrite delete_id by done.
    rewrite <- insert_union_r, <- insert_union_l by apply Hmf. tauto.
  - rewrite IH, map_filter_insert_False, map_filter_insert_True by (cbn; congruence).
    rewrite filter_cons_False by (cbn; tauto). rewrite delete_id by done.
    rewrite <- insert_union_r, <- insert_union_l by apply Hmf. tauto.
  - rewrite bind_inr. rewrite !map_filter_insert_False by (cbn; congruence).
    rewrite filter_cons_True by done. rewrite !delete_id by done. rewrite !fmap_cons.
    unfold revision_of. setoid_rewrite ok_or_inr. setoid_rewrite IH. cbn [snd].
    assert (Hp : projected r = mkProjected k (default "" (record_type r))%string
      (default "" (record_change_tag r))%string (record_to_value r)) by (unfold projected; by rewrite Hrk).
    rewrite Hp. split.
    + intros (tag & Htag & Ht & ->). rewrite Htag. rewrite <- (assoc_L (++)). split; [|done].
      split; [by intros _; eexists|done].
    + intros [[Htag Ht] ->]. destruct (Htag (conj Hm Ha)) as [tag Heq]. exists tag.
      rewrite Heq, <- (assoc_L (++)). done.
Qed.
(** The pairs of master name and photo that validation finds. *)
Definition projects zone masters : string * NativeRecord -> string * RemotePhoto -> Prop :=
  fun a p => project_asset zone masters a.1 a.2 = inr p.

Lemma project_assets_spec zone masters assets found referenced paths res :
  project_assets zone masters assets found referenced paths = inr res <->
  exists prs, Forall2 (projects zone masters) assets prs /\
    NoDup (relative_path <$> prs.*2) /\
    (forall p, p ∈ prs -> relative_path p.2 ∉ paths) /\
    res = (found ++ prs.*2, list_to_set prs.*1 ∪ referenced).
Proof.
  revert found referenced paths. induction assets as [|[id asset] assets IH]; intros found referenced paths.
  { cbn [project_assets]. unfold mret, Checked_ret. split.
    - intros [= <-]. exists []. split_and!; [constructor|constructor|by intros ? ?%elem_of_nil|].
      cbn. by rewrite (right_id_L [] (++)), (left_id_L ∅ (∪)).
    - intros (prs & Hf & _ & _ & ->). apply Forall2_nil_inv_l in Hf as ->. cbn.
      by rewrite (right_id_L [] (++)), (left_id_L ∅ (∪)). }
  cbn [project_assets]. rewrite bind_inr. split.
  - intros ([mr photo] & Hp & Hrun). apply bind_inr in Hrun as (u & Hnew & Hrun).
    apply check_inr, bool_decide_eq_true in Hnew. apply IH in Hrun as (prs & Hf & Hnd & Hfresh & ->).
    exists ((mr, photo) :: prs). split_and!.
    + by constructor.
    + cbn. apply NoDup_cons. split; [|done].
      intros (p & Heq & Hin)%list_elem_of_fmap. apply list_elem_of_fmap in Hin as (q & -> & Hq).
      apply (Hfresh q Hq). rewrite <- Heq. by apply elem_of_union_l, elem_of_singleton.
    + intros p [->|Hin]%elem_of_cons; [done|]. specialize (Hfresh p Hin).
      intros Hbad. apply Hfresh. by apply elem_of_union_r.
    + cbn. by rewrite <- (assoc_L (++)), (assoc_L (∪)), (comm_L (∪) {[mr]}).
  - intros (prs & Hf & Hnd & Hfresh & ->). apply Forall2_cons_inv_l in Hf as ([mr photo] & prs' & Hp & Hf & ->).
    exists (mr, photo). split; [done|]. apply bind_inr. exists tt.
    split; [apply check_inr, bool_decide_eq_true, (Hfresh (mr, photo)); left|]. apply IH. cbn in Hnd. apply NoDup_cons in Hnd as [Hn Hnd]. exists prs'. split_and!; [done|done| |].
    + intros p Hin [Heq%elem_of_singleton|Hbad]%elem_of_union.
      * apply Hn. rewrite <- Heq. by apply list_elem_of_fmap_2, list_elem_of_fmap_2.
      * apply (Hfresh p); [by right|done].
    + cbn. by rewrite <- (assoc_L (++)), (assoc_L (∪)), (comm_L (∪) {[mr]}).
Qed.

Lemma check_referenced_spec masters referenced u :
  check_referenced masters referenced = inr u <-> forall kr, kr ∈ masters -> kr.1 ∈ referenced.
Proof.
  destruct u. induction masters as [|[k r] masters IH]; simpl.
  { split; [by intros _ ? ?%elem_of_nil|done]. }
  rewrite bind_inr. setoid_rewrite check_inr. setoid_rewrite IH. split.
  - intros ([] & Hk%bool_decide_eq_true & Hr) kr [->|Hin]%elem_of_cons; [done|by apply Hr].
  - intros Hall. exists tt. split; [apply bool_decide_eq_true, (Hall (k, r)); left|].
    intros kr Hin. apply Hall. by right.
Qed.

Section Validation.
Context (iter : RecordSet -> list (string * NativeRecord)) (Hiter : forall m, iter m ≡ₚ map_to_list m).

Lemma iter_facts live : named live ->
  NoDup (iter live).*1 /\ (forall k r, (k, r) ∈ iter live -> record_name r = k) /\
  (list_to_map (iter live) : RecordSet) = live.
Proof using Hiter.
  intros Hn. assert (Hnd : NoDup (iter live).*1) by (rewrite Hiter; apply NoDup_fst_map_to_list).
  split_and!; [done| |].
  - intros k r Hin. rewrite Hiter in Hin. apply Hn. by apply elem_of_map_to_list.
  - symmetry. apply list_to_map_flip. by rewrite Hiter.
Qed.

(** Validation succeeds exactly on graphs that pair up. *)
Lemma to_graph_spec zone live g : named live ->
  to_graph iter zone live = inr g <->
  tagged (iter live) /\
  exists prs, Forall2 (projects zone (filter is_master live)) (iter (filter is_asset live)) prs /\
    NoDup (relative_path <$> prs.*2) /\
    (forall k r, live !! k = Some r -> record_type r = Some MASTER_RECORD_TYPE -> k ∈ prs.*1) /\
    g = mkGraph prs.*2 (merge_sort by_name (projected <$> (filter is_unknown (iter live)).*2)) [].
Proof using Hiter.
  intros Hn. destruct (iter_facts live Hn) as (Hnd & Hname & Hl).
  unfold to_graph. rewrite bind_inr. setoid_rewrite classify_spec; [|done|done]. rewrite Hl.
  assert (Hmem : forall referenced u, check_referenced (iter (filter is_master live)) referenced = inr u <->
    forall k r, live !! k = Some r -> record_type r = Some MASTER_RECORD_TYPE -> k ∈ referenced).
  { intros referenced u. rewrite check_referenced_spec. split.
    - intros Hall k r Hk Ht. apply (Hall (k, r)). rewrite Hiter. apply elem_of_map_to_list.
      by apply map_lookup_filter_Some.
    - intros Hall [k r] Hin. rewrite Hiter in Hin. apply elem_of_map_to_list in Hin.
      apply map_lookup_filter_Some in Hin as [Hk Ht]. by apply (Hall k r). }
  rewrite !(right_id_L ∅ (∪)). split.
  - intros ([[ma ass] un] & [Ht [= -> -> ->]] & Hrun). split; [done|].
    apply bind_inr in Hrun as ([found referenced] & (prs & Hf & Hp & _ & [= -> ->])%project_assets_spec & Hrun).
    apply bind_inr in Hrun as ([] & Href & [= <-]).
    exists prs. split_and!; [done|done| |done].
    intros k r Hk Hty. pose proof (proj1 (Hmem _ _) Href k r Hk Hty) as Hin.
    rewrite (right_id_L ∅ (∪)) in Hin. by apply elem_of_list_to_set in Hin.
  - intros [Ht (prs & Hf & Hp & Hm & ->)]. eexists. split; [by split|]. cbn beta iota.
    apply bind_inr. exists (prs.*2, list_to_set prs.*1). split.
    + apply project_assets_spec. exists prs. split_and!; [done|done|by intros p _ ?%elem_of_empty|].
      by rewrite (right_id_L ∅ (∪)).
    + apply bind_inr. exists tt. split; [|done]. apply Hmem. intros k r Hk Hty.
      apply elem_of_list_to_set. by apply (Hm k r).
Qed.
End Validation.
(** ** What a photo of a valid graph is *)
(** A photo is two live records that name each other in this zone, at one
    content generation, with a safe path and a thumbnail made from exactly the
    declared original. *)
Record paired (zone : ZoneId) (live : RecordSet) (p : RemotePhoto) : Prop := {
  paired_records : exists asset master,
    live !! photo_id p = Some asset /\ record_type asset = Some ASSET_RECORD_TYPE /\
    live !! master_id p = Some master /\ record_type master = Some MASTER_RECORD_TYPE /\
    reference_target (fields asset) "masterRef" = Some (master_id p) /\
    string_field (fields master) "photoId" = Some (photo_id p) /\
    (zone_id master = None \/ zone_id master = Some zone) /\
    string_field (fields master) "contentGeneration" = Some (content_generation p) /\
    string_field (fields asset) "contentGeneration" = Some (content_generation p) /\
    string_field (fields asset) "relativePath" = Some (relative_path p);
  paired_path : is_safe_relative_path (relative_path p) = true;
  paired_digest : is_lower_hex (thumbnail_source_sha256 p) = true /\
    Content.hex_from_descriptor_base64 (file_checksum (original p)) = Some (thumbnail_source_sha256 p)
}.

Lemma build_photo_inr id master asset generation p :
  build_photo id master asset generation = inr p ->
  photo_id p = id /\ master_id p = record_name master /\ content_generation p = generation /\
  string_field (fields asset) "relativePath" = Some (relative_path p) /\
  is_safe_relative_path (relative_path p) = true /\ is_lower_hex (thumbnail_source_sha256 p) = true /\
  Content.hex_from_descriptor_base64 (file_checksum (original p)) = Some (thumbnail_source_sha256 p).
Proof.
  unfold build_photo. intros (o & _ & (t & _ & (path & Hpath%ok_or_inr & (u1 & Hsafe%check_inr
    & (src & Hsrc%ok_or_inr & (u2 & Hd%check_inr & [= <-])%bind_inr)%bind_inr)%bind_inr)%bind_inr)%bind_inr)%bind_inr.
  apply andb_prop in Hd as [Hl Hd%bool_decide_eq_true]. cbn. done.
Qed.

Lemma project_asset_paired zone live id asset mr p :
  named live -> live !! id = Some asset -> record_type asset = Some ASSET_RECORD_TYPE ->
  project_asset zone (filter is_master live) id asset = inr (mr, p) ->
  photo_id p = id /\ master_id p = mr /\ paired zone live p.
Proof.
  intros Hn Ha Hty. unfold project_asset, pair_master.
  intros ([mr' master] & (mref & Hmr%ok_or_inr & (m' & Hm%ok_or_inr & (u1 & Hz%check_inr
    & (claimed & Hc%ok_or_inr & (u2 & Heq%check_inr & [= -> ->])%bind_inr)%bind_inr)%bind_inr)%bind_inr)%bind_inr
    & Hrun)%bind_inr.
  apply bool_decide_eq_true in Heq as ->. apply map_lookup_filter_Some in Hm as [Hm Hmty]. cbn in Hmty.
  destruct (string_field (fields master) "contentGeneration") as [gm|] eqn:Hgm; [|done].
  destruct (string_field (fields asset) "contentGeneration") as [ga|] eqn:Hga; [|done].
  case_decide as Hg; [subst ga|done].
  apply bind_inr in Hrun as (photo & Hb & [= <- <-]).
  destruct (build_photo_inr _ _ _ _ _ Hb) as (Hid & Hmid & Hgen & Hp & Hs & Hl & Hd).
  rewrite (Hn _ _ Hm) in Hmid. split_and!; [done|done|]. constructor; [|done|done].
  exists asset, master. rewrite Hid, Hmid, Hgen. split_and!; try done.
  destruct (zone_id master) as [z|]; [right|by left]. by apply bool_decide_eq_true in Hz as ->.
Qed.

Lemma NoDup_fmap_eq {A B} (f : A -> B) (l : list A) x y :
  NoDup (f <$> l) -> x ∈ l -> y ∈ l -> f x = f y -> x = y.
Proof.
  intros Hnd (i & Hi)%list_elem_of_lookup (j & Hj)%list_elem_of_lookup Hf.
  assert (i = j) as ->; [|congruence].
  apply (NoDup_lookup (f <$> l) i j (f x)); [done|by rewrite list_lookup_fmap, Hi|].
  by rewrite list_lookup_fmap, Hj, Hf.
Qed.

Lemma projected_photos zone live assets prs : named live ->
  (forall kr, kr ∈ assets -> live !! kr.1 = Some kr.2 /\ record_type kr.2 = Some ASSET_RECORD_TYPE) ->
  Forall2 (projects zone (filter is_master live)) assets prs ->
  photo_id <$> prs.*2 = assets.*1 /\ master_id <$> prs.*2 = prs.*1 /\ Forall (paired zone live) prs.*2.
Proof.
  intros Hn Hin Hf. induction Hf as [|[id a] [mr p] assets prs Hp Hf IH]; [done|].
  destruct (Hin (id, a) ltac:(left)) as [Hl Ht].
  destruct (project_asset_paired _ _ _ _ _ _ Hn Hl Ht Hp) as (Hid & Hmid & Hpair).
  destruct IH as (H1 & H2 & H3); [intros kr Hkr; apply Hin; by right|].
  rewrite !fmap_cons. cbn [fst snd]. rewrite Hid, Hmid, H1, H2. split_and!; [done|done|by constructor].
Qed.

(** C31: Validation accepts only whole graphs. Every accepted photo is a live
    asset and a live master that name each other in this zone at one content
    generation, with a safe path and a matching digest; photos correspond one
    to one to the live assets and one to one to the live masters, and no two
    share a path, whatever order the records are visited in. *)
Theorem to_graph_correct iter zone live g :
  (forall m, iter m ≡ₚ map_to_list m) -> named live -> to_graph iter zone live = inr g ->
  Forall (paired zone live) (photos g) /\
  NoDup (photo_id <$> photos g) /\ NoDup (master_id <$> photos g) /\ NoDup (relative_path <$> photos g) /\
  (forall k, k ∈ photo_id <$> photos g <->
     exists r, live !! k = Some r /\ record_type r = Some ASSET_RECORD_TYPE) /\
  (forall k, k ∈ master_id <$> photos g <->
     exists r, live !! k = Some r /\ record_type r = Some MASTER_RECORD_TYPE).
Proof.
  intros Hiter Hn (_ & prs & Hf & Hpaths & Hmasters & ->)%to_graph_spec; [|done..]. cbn [photos].
  assert (Hin : forall kr, kr ∈ iter (filter is_asset live) <->
    live !! kr.1 = Some kr.2 /\ record_type kr.2 = Some ASSET_RECORD_TYPE).
  { intros [k r]. rewrite Hiter, elem_of_map_to_list, map_lookup_filter_Some. done. }
  destruct (projected_photos zone live _ _ Hn (fun kr => proj1 (Hin kr)) Hf) as (Hids & Hmids & Hpair).
  assert (Hnd : NoDup (photo_id <$> prs.*2)).
  { rewrite Hids, Hiter. apply NoDup_fst_map_to_list. }
  rewrite Forall_forall in Hpair. split_and!; [by apply Forall_forall|done| |done| |].
  - apply NoDup_fmap_2_strong; [|by eapply NoDup_fmap_1]. intros x y Hx Hy Heq.
    apply (NoDup_fmap_eq photo_id prs.*2); [done..|].
    destruct (Hpair x Hx) as [(? & mx & _ & _ & Hlx & _ & _ & Hpx & _) _ _].
    destruct (Hpair y Hy) as [(? & my & _ & _ & Hly & _ & _ & Hpy & _) _ _].
    rewrite Heq in Hlx. simplify_eq. congruence.
  - intros k. rewrite Hids. split.
    + intros ([k' r] & -> & Hr%Hin)%list_elem_of_fmap. by exists r.
    + intros (r & Hr). apply list_elem_of_fmap. exists (k, r). split; [done|]. by apply Hin.
  - intros k. split.
    + intros (x & -> & Hx)%list_elem_of_fmap.
      destruct (Hpair x Hx) as [(? & mx & _ & _ & Hlx & Htx & _) _ _]. by exists mx.
    + intros (r & Hr & Ht). rewrite Hmids. by apply (Hmasters k r).
Qed.

(** The retained records of two iteration orders sort to one list. *)
Lemma retained_unique (i1 i2 : list (string * NativeRecord)) live :
  named live -> i1 ≡ₚ map_to_list live -> i2 ≡ₚ map_to_list live ->
  merge_sort by_name (projected <$> (filter is_unknown i1).*2)
  = merge_sort by_name (projected <$> (filter is_unknown i2).*2).
Proof.
  intros Hn H1 H2.
  assert (Hmem : forall i x, i ≡ₚ map_to_list live ->
    x ∈ merge_sort by_name (projected <$> (filter is_unknown i).*2) ->
    exists r, x = projected r /\ live !! pr_name x = Some r).
  { intros i x Hi Hx. rewrite merge_sort_Permutation in Hx.
    apply list_elem_of_fmap in Hx as (r & -> & Hx). exists r. split; [done|].
    apply list_elem_of_fmap in Hx as ([k r'] & -> & [_ Hx]%list_elem_of_filter).
    rewrite Hi, elem_of_map_to_list in Hx. cbn. by rewrite (Hn _ _ Hx). }
  apply (StronglySorted_unique_strong by_name).
  - intros x y Hx Hy Hxy Hyx.
    destruct (Hmem _ _ H1 Hx) as (rx & -> & Hrx), (Hmem _ _ H2 Hy) as (ry & -> & Hry).
    pose proof (anti_symm string_le _ _ Hxy Hyx) as Hname. rewrite Hname in Hrx. congruence.
  - apply (StronglySorted_merge_sort by_name).
  - apply (StronglySorted_merge_sort by_name).
  - rewrite !merge_sort_Permutation. by rewrite H1, H2.
Qed.

Lemma to_graph_transfer i1 i2 zone live g1 :
  (forall m, i1 m ≡ₚ map_to_list m) -> (forall m, i2 m ≡ₚ map_to_list m) -> named live ->
  to_graph i1 zone live = inr g1 ->
  exists g2, to_graph i2 zone live = inr g2 /\ photos g1 ≡ₚ photos g2 /\ records g1 = records g2.
Proof.
  intros H1 H2 Hn (Ht & prs & Hf & Hp & Hm & ->)%to_graph_spec; [|done..].
  assert (Hperm : forall m, i1 m ≡ₚ i2 m) by (intros m; by rewrite H1, H2).
  destruct (Permutation_Forall2 (Hperm _) Hf) as (prs2 & Hprs & Hf2). eexists. split.
  { apply to_graph_spec; [done|done|]. split; [unfold tagged; by rewrite <- Hperm|]. exists prs2.
    split_and!; [done|by rewrite <- Hprs| |reflexivity]. intros k r Hk Hty. rewrite <- Hprs. by apply (Hm k r). }
  cbn [photos records]. split; [by rewrite Hprs|]. by apply (retained_unique _ _ live).
Qed.

(** Validation does not depend on the iteration order of its hash maps: for
    any two orders it either rejects the graph under both, or accepts the same
    photos (up to their order) and exactly the same retained records. *)
Theorem to_graph_order_independent iter1 iter2 zone live :
  (forall m, iter1 m ≡ₚ map_to_list m) -> (forall m, iter2 m ≡ₚ map_to_list m) -> named live ->
  match to_graph iter1 zone live, to_graph iter2 zone live with
  | inr g1, inr g2 => photos g1 ≡ₚ photos g2 /\ records g1 = records g2
  | inl _, inl _ => True
  | _, _ => False
  end.
Proof.
  intros H1 H2 Hn.
  destruct (to_graph iter1 zone live) as [e1|g1] eqn:E1, (to_graph iter2 zone live) as [e2|g2] eqn:E2; try done.
  - destruct (to_graph_transfer iter2 iter1 _ _ _ H2 H1 Hn E2) as (? & ? & _). congruence.
  - destruct (to_graph_transfer iter1 iter2 _ _ _ H1 H2 Hn E1) as (? & ? & _). congruence.
  - destruct (to_graph_transfer iter1 iter2 _ _ _ H1 H2 Hn E1) as (g & Hg & Hp).
    rewrite E2 in Hg. by injection Hg as <-.
Qed.

(** ** Envelopes, replay, paths and the latest edit *)
Definition event_ok (e : EditEvent) : Prop := I64_MIN <= edited_at_ms e <= I64_MAX.
Definition events_ok (e : EditEvents) : Prop :=
  forall c, ev_metadata e = Some c \/ ev_content e = Some c \/ ev_deletion e = Some c -> event_ok c.

Lemma event_roundtrip e : event_ok e -> event_from_value (event_to_value e) = Some e.
Proof.
  destruct e as [t s i]. intros [H1 H2]. cbn in H1, H2. unfold event_from_value, event_to_value. cbn [edited_at_ms ev_source ev_id].
  assert (Hi : as_i64 (Int t) = Some t).
  { unfold as_i64. apply Z.leb_le in H1, H2. by rewrite H1, H2. }
  transitivity (at_ms ← as_i64 (Int t); Some (mkEvent at_ms s i)); [reflexivity|by rewrite Hi].
Qed.
Lemma opt_field_value {A} (decode : Value -> option A) encode o :
  (forall a, o = Some a -> decode (encode a) = Some a) -> (forall a, encode a <> Null) ->
  opt_field decode (Some (opt_value encode o)) = Some o.
Proof.
  intros Hd Hn. destruct o as [a|]; [|done]. specialize (Hd a eq_refl). specialize (Hn a). cbn.
  destruct (encode a); [done|by rewrite Hd..].
Qed.
Lemma events_roundtrip e : events_ok e -> events_from_value (events_to_value e) = Some e.
Proof.
  intros Hok. transitivity
    (m ← opt_field event_from_value (Some (opt_value event_to_value (ev_metadata e)));
     c ← opt_field event_from_value (Some (opt_value event_to_value (ev_content e)));
     d ← opt_field event_from_value (Some (opt_value event_to_value (ev_deletion e)));
     Some (mkEvents m c d)); [reflexivity|].
  rewrite !(opt_field_value event_from_value) by (done || (intros a Ha; apply event_roundtrip, Hok; tauto)).
  by destruct e.
Qed.
Lemma zone_roundtrip z : zone_from_value (zone_to_value z) = Some z.
Proof. by destruct z. Qed.

(** A received envelope survives the durable inbox: decoding the stored
    form of a record gives the record back, provided its edit times are in the
    range the wire type can hold. *)
Theorem record_roundtrip r :
  (forall e, rec_events r = Some e -> events_ok e) -> record_from_value (record_to_value r) = Some r.
Proof.
  intros Hok. destruct r as [name type zone tag flds evs del]. cbn in Hok.
  unfold record_from_value, record_to_value. cbn [record_name record_type zone_id record_change_tag fields rec_events deleted].
  assert (Hf : struct_members RECORD_MEMBERS (Obj
     ([("_syncserver"%string, opt_value events_to_value evs); ("deleted"%string, Bool del)]
       ++ match flds with Some f => [("fields"%string, Obj f)] | None => [] end
       ++ [("recordChangeTag"%string, opt_value Str tag); ("recordName"%string, Str name);
           ("recordType"%string, opt_value Str type); ("zoneID"%string, opt_value zone_to_value zone)]))
    = Some [Some (Str name); Some (opt_value Str type); Some (opt_value zone_to_value zone);
            Some (opt_value Str tag); Obj <$> flds; Some (opt_value events_to_value evs); Some (Bool del)])
    by (by destruct flds).
  rewrite Hf. rewrite (opt_field_value as_str Str), (opt_field_value zone_from_value), (opt_field_value as_str Str),
    (opt_field_value events_from_value)
    by (done || (intros a Ha; first [apply zone_roundtrip|apply events_roundtrip; auto])).
  by destruct flds.
Qed.

(** Replay follows the server's order: the last event that mentions a name
    decides it. After it the record is live as that event carried it, or absent
    if that event was a deletion, whatever came before. *)
Theorem replay_last_event_wins before e after live name :
  from_events (before ++ e :: after) = Some live -> touches e name ->
  Forall (fun e' => ~ touches e' name) after ->
  if decide (in_kind e = Deleted) then live !! name = None
  else exists r, record_from_value (in_payload e) = Some r /\ live !! name = Some r.
Proof.
  unfold from_events. rewrite replay_app. destruct (replay before ∅) as [live0|]; [|done]. simpl.
  unfold touches at 1. destruct (decide _) as [Hd|Hd].
  - intros Hr Hname Hu. rewrite (replay_untouched _ _ _ _ Hr Hu). subst name. apply lookup_delete_eq.
  - destruct (record_from_value _) as [r|]; simpl; [|done]. intros Hr Ht Hu. exists r. split; [done|].
    rewrite (replay_untouched _ _ _ _ Hr Hu), <- (Ht r eq_refl). apply lookup_insert_eq.
Qed.

(** A remote path that passes the check cannot leave the job root: its
    normalised components are its own segments, at least one, none of them a
    parent reference, and it is not absolute. *)
Theorem safe_path_stays_inside path :
  is_safe_relative_path path = true ->
  Media.components path = Media.split_slash path /\ Media.components path <> [] /\
  ".."%string ∉ Media.components path /\ String.prefix "/" path = false.
Proof.
  unfold is_safe_relative_path. destruct (bool_decide _); [done|]. destruct (String.prefix _ _); [done|].
  destruct (bool_decide _); [done|]. cbn [orb].
  intros Hall. rewrite forallb_forall in Hall.
  assert (Hseg : Forall (fun s => s <> ""%string /\ s <> "."%string) (Media.split_slash path)
                 /\ ".."%string ∉ Media.split_slash path).
  { split.
    - apply Forall_forall. intros s Hs%list_elem_of_In. specialize (Hall s Hs). unfold is_safe_segment in Hall.
      zbool. repeat match goal with H : bool_decide _ = false |- _ => apply bool_decide_eq_false in H end. done.
    - intros Hs%list_elem_of_In. specialize (Hall _ Hs). unfold is_safe_segment in Hall. zbool.
      repeat match goal with H : bool_decide _ = false |- _ => apply bool_decide_eq_false in H end. done. }
  destruct Hseg as [Hseg Hup]. unfold Media.components. rewrite (filter_all _ _ Hseg).
  split_and!; try done. destruct path as [|c path]; [done|]. cbn.
  destruct (Ascii.eqb c "/"); [done|]. by destruct (Media.split_slash path).
Qed.

(** The key order is total and antisymmetric. *)
Lemma ltb_leb a b : String.ltb a b = String.leb a b && negb (bool_decide (a = b)).
Proof.
  unfold String.ltb, String.leb. destruct (String.compare a b) eqn:E.
  - apply String.compare_eq_iff in E. by rewrite bool_decide_true.
  - rewrite bool_decide_false; [done|]. intros ->. pose proof (String.compare_antisym b b) as Ha. by rewrite E in Ha.
  - done.
Qed.
Lemma key_ge_spec a b :
  key_ge a b = true <->
  edited_at_ms b < edited_at_ms a \/
  edited_at_ms a = edited_at_ms b /\
    (string_le (ev_source b) (ev_source a) /\ ev_source a <> ev_source b \/
     ev_source a = ev_source b /\ string_le (ev_id b) (ev_id a)).
Proof.
  unfold key_ge, string_le. rewrite ltb_leb. rewrite orb_true_iff, andb_true_iff, orb_true_iff, !andb_true_iff.
  rewrite Z.ltb_lt, Z.eqb_eq, negb_true_iff, bool_decide_eq_false, bool_decide_eq_true.
  intuition congruence.
Qed.
Lemma key_ge_total a b : key_ge a b = true \/ key_ge b a = true.
Proof.
  rewrite !key_ge_spec. destruct (Z.lt_trichotomy (edited_at_ms a) (edited_at_ms b)) as [?|[?|?]]; [by right; left| |by left; left].
  destruct (decide (ev_source a = ev_source b)) as [Hs|Hs].
  - destruct (total string_le (ev_id a) (ev_id b)); [right|left]; right; (split; [done|]); right; done.
  - destruct (total string_le (ev_source a) (ev_source b)); [right|left]; right; (split; [done|]); left; done.
Qed.
Lemma key_ge_antisymm a b : key_ge a b = true -> key_ge b a = true -> a = b.
Proof.
  rewrite !key_ge_spec. destruct a as [ta sa ia], b as [tb sb ib]. cbn.
  intros [?|[-> H1]] [?|[? H2]]; try lia.
  destruct H1 as [[H1 Hn]|[-> H1]], H2 as [[H2 Hn2]|[Hs H2]]; try congruence.
  - destruct Hn. by apply (anti_symm string_le).
  - f_equal. by apply (anti_symm string_le).
Qed.
Lemma key_ge_trans a b c : key_ge a b = true -> key_ge b c = true -> key_ge a c = true.
Proof.
  rewrite !key_ge_spec. destruct a as [ta sa ia], b as [tb sb ib], c as [tc sc ic]. cbn.
  intros [?|[-> H1]] [?|[-> H2]]; [left; lia..|]. right. split; [done|].
  destruct H1 as [[H1 Hn]|[-> H1]], H2 as [[H2 Hn2]|[-> H2]].
  - left. split; [by transitivity sb|]. intros ->. apply Hn. by apply (anti_symm string_le).
  - left. done.
  - left. done.
  - right. split; [done|]. by transitivity ib.
Qed.

(** The latest-edit rule is a join: it is commutative, associative and
    idempotent and a missing event never beats a real one, so every device that
    has seen the same edits of a category settles on the same one, in whatever
    order it saw them. *)
Theorem latest_event_semilattice a b c :
  latest_event a b = latest_event b a /\
  latest_event a (latest_event b c) = latest_event (latest_event a b) c /\
  latest_event a a = a /\ latest_event a None = a.
Proof.
  assert (Hrefl : forall x, key_ge x x = true) by (intros x; by destruct (key_ge_total x x)).
  split_and!.
  - destruct a as [a|], b as [b|]; [|done..]. cbn.
    destruct (key_ge a b) eqn:E1, (key_ge b a) eqn:E2; [|done|done|].
    + by rewrite (key_ge_antisymm a b).
    + destruct (key_ge_total a b); congruence.
  - destruct a as [a|], b as [b|], c as [c|]; cbn; try done; try (by destruct (key_ge _ _)).
    destruct (key_ge b c) eqn:Ebc, (key_ge a b) eqn:Eab; cbn; rewrite ?Ebc, ?Eab; try done.
    + by rewrite (key_ge_trans a b c).
    + destruct (key_ge a c) eqn:Eac; [|done]. exfalso.
      assert (Hba : key_ge b a = true) by (destruct (key_ge_total a b); congruence).
      assert (Hcb : key_ge c b = true) by (destruct (key_ge_total b c); congruence).
      assert (key_ge a b = true) by by apply (key_ge_trans a c b). congruence.
  - destruct a as [a|]; [|done]. cbn. by rewrite Hrefl.
  - by destruct a.
Qed.
(** ** Examples *)
Module Sample.
Local Open Scope string_scope.
Definition field (type : string) (v : Value) : Value := Obj [("type", Str type); ("value", v)].
(** The digest of 32 zero bytes, in both encodings. *)
Definition zero_base64 : string := String.string_of_list_ascii (Content.to_base64 (replicate 32 0)).
Definition zero_hex : string := Content.to_hex (replicate 32 0).
Definition descriptor (id mime : string) : Value :=
  Obj [("assetId", Str id); ("fileChecksum", Str zero_base64); ("mimeType", Str mime); ("size", Int 11)].
Definition zone : ZoneId := mkZone "PrimarySync" DEFAULT_OWNER.
Definition master : NativeRecord :=
  mkRecord "master-1" (Some MASTER_RECORD_TYPE) (Some zone) (Some "m1")
    (Some [("contentGeneration", field "STRING" (Str "c1")); ("photoId", field "STRING" (Str "photo-1"));
           ("resJPEGThumbRes", field "ASSETID" (descriptor "asset-t" "image/jpeg"));
           ("resOriginalRes", field "ASSETID" (descriptor "asset-o" "image/jpeg"));
           ("thumbnailSourceOriginalSHA256", field "STRING" (Str zero_hex))]) None false.
Definition asset : NativeRecord :=
  mkRecord "photo-1" (Some ASSET_RECORD_TYPE) (Some zone) (Some "a1")
    (Some [("contentGeneration", field "STRING" (Str "c1"));
           ("masterRef", field "REFERENCE" (Obj [("recordName", Str "master-1")]));
           ("relativePath", field "STRING" (Str "2024/a.jpg"))])
    (Some (mkEvents (Some (mkEvent 5 "device-1" "e1")) None None)) false.
Definition live : RecordSet := apply asset (apply master ∅).
(** The photo of the pair. *)
Definition photo : RemotePhoto :=
  mkPhoto "photo-1" "master-1" "c1" "2024/a.jpg" false None false (mkAsset "asset-o" 11 zero_base64 "image/jpeg" None None)
    (mkAsset "asset-t" 11 zero_base64 "image/jpeg" None None) zero_hex
    (mkEvents (Some (mkEvent 5 "device-1" "e1")) None None).
Definition graph : RemoteGraph := match to_graph map_to_list zone live with inr g => g | inl _ => mkGraph [] [] [] end.
End Sample.

Lemma sample_named : named Sample.live.
Proof. apply named_apply, named_apply. intros k r Hk. by rewrite lookup_empty in Hk. Qed.

Lemma to_graph_correct_witness :
  to_graph map_to_list Sample.zone Sample.live = inr Sample.graph /\ length (photos Sample.graph) = 1%nat /\
  Forall (paired Sample.zone Sample.live) (photos Sample.graph).
Proof.
  assert (H : to_graph map_to_list Sample.zone Sample.live = inr Sample.graph) by (vm_compute; reflexivity).
  split; [exact H|]. split; [vm_compute; reflexivity|].
  exact (proj1 (to_graph_correct map_to_list Sample.zone Sample.live Sample.graph (fun m => reflexivity _) sample_named H)).
Defined.
Lemma to_graph_order_independent_witness :
  match to_graph map_to_list Sample.zone Sample.live,
        to_graph (fun m => reverse (map_to_list m)) Sample.zone Sample.live with
  | inr g1, inr g2 => photos g1 ≡ₚ photos g2 /\ records g1 = records g2
  | inl _, inl _ => True
  | _, _ => False
  end.
Proof.
  apply to_graph_order_independent; [done|intros m; apply reverse_Permutation|apply sample_named].
Defined.

Lemma record_roundtrip_witness : record_from_value (record_to_value Sample.asset) = Some Sample.asset.
Proof.
  apply record_roundtrip. intros e [= <-]. intros c [[= <-]|[[=]|[=]]]. unfold event_ok. vm_compute. done.
Defined.

Definition sample_event (kind : InboxKind) (r : NativeRecord) : InboxEvent :=
  mkInbox 1 (record_name r) "" "" kind (record_to_value r).
Definition sample_history : list InboxEvent :=
  [sample_event Created Sample.asset; sample_event Deleted Sample.asset].
Definition sample_events : list InboxEvent :=
  sample_history ++ sample_event Updated Sample.asset :: [sample_event Created Sample.master].
Lemma replay_last_event_wins_witness :
  from_events sample_events = Some (default ∅ (from_events sample_events)) /\
  default ∅ (from_events sample_events) !! "photo-1"%string = Some Sample.asset.
Proof.
  assert (H : from_events sample_events = Some (default ∅ (from_events sample_events))) by (vm_compute; reflexivity).
  split; [exact H|]. generalize dependent (default ∅ (from_events sample_events)). intros live H.
  assert (Hd : record_from_value (in_payload (sample_event Updated Sample.asset)) = Some Sample.asset)
    by (vm_compute; reflexivity).
  destruct (replay_last_event_wins sample_history (sample_event Updated Sample.asset)
    [sample_event Created Sample.master] live "photo-1" H) as (r & Hr & Hl).
  - intros r Hr. rewrite Hd in Hr. by injection Hr as <-.
  - constructor; [|constructor]. intros Ht. specialize (Ht Sample.master).
    assert (Hm : record_from_value (in_payload (sample_event Created Sample.master)) = Some Sample.master)
      by (vm_compute; reflexivity).
    by specialize (Ht Hm).
  - rewrite Hd in Hr. injection Hr as <-. exact Hl.
Defined.

Lemma safe_path_stays_inside_witness :
  is_safe_relative_path "2024/trip/a.jpg" = true /\ is_safe_relative_path "2024/../../etc" = false /\
  Media.components "2024/trip/a.jpg" = ["2024"; "trip"; "a.jpg"]%string /\
  ".."%string ∉ Media.components "2024/trip/a.jpg".
Proof.
  split; [reflexivity|]. split; [reflexivity|]. split; [reflexivity|].
  apply (safe_path_stays_inside "2024/trip/a.jpg"). reflexivity.
Defined.
End Records.
