(* ===== verification/TypedRecords.v ===== *)
(** Relational storage of records ([sync/store/records.rs]).

    A record of the wire is JSON; the database keeps it as one row of typed
    columns and one row per field. This file models the two directions, with the
    presence bits that let a stored request be sent again as it was, and shows
    which records survive the trip unchanged. *)
From Stdlib Require Import Ascii String.
From S2P Require Import Prelude.
From S2P Require Import Json.
From S2P Require Import Content.
From S2P Require Import SyncDb.
From S2P Require Import NativeRecords.
Import Json.
Local Open Scope Z_scope.
Local Open Scope json_scope.

Module TypedRecords.
Import Records.

(** ** Fields *)
(** [as_f64] of an integer above [i64]: the nearest [f64], ties to even. Such an
    integer lies between [2^63] and [2^64], where an [f64] counts in steps of
    [2^11]. *)
Definition f64_of_big (n : Z) : Z :=
  let q := n / 2048 in
  let r := n mod 2048 in
  let q := if (1024 <? r) || (r =? 1024) && Z.odd q then q + 1 else q in
  1086 * 2 ^ 52 + (q - 2 ^ 52).

(** The columns a value is written to. *)
Definition value_row (value : Value) (row : FieldRow) : result FieldRow :=
  let with_kind kind text integer real reference action asset checksum size mime width height algorithm :=
    Ok (mkField (f_type row) (f_present row) (f_value_present row) kind text integer real reference action
          asset checksum size mime width height algorithm) in
  match value with
  | Null => with_kind KNull None None None None None None None None None None None None
  | Str v => with_kind KText (Some v) None None None None None None None None None None None
  | Bool v => with_kind KBoolean None (Some (if v then 1 else 0)) None None None None None None None None None None
  | Int n =>
      match as_i64 (Int n) with
      | Some v => with_kind KInteger None (Some v) None None None None None None None None None None
      | None => with_kind KReal None None (Some (f64_of_big n)) None None None None None None None None None
      end
  | Float bits => with_kind KReal None None (Some bits) None None None None None None None None None
  | Obj m =>
      let text name := get m name ≫= as_str in
      let int name := get m name ≫= as_i64 in
      if bool_decide (is_Some (get m "recordName"))
      then with_kind KReference None None None (text "recordName"%string) (text "action"%string)
             None None None None None None None
      else if bool_decide (is_Some (get m "assetId"))
      then with_kind KAsset None None None None None (text "assetId"%string) (text "fileChecksum"%string)
             (int "size"%string) (text "mimeType"%string) (int "width"%string) (int "height"%string)
             (text "checksumAlgorithm"%string)
      else Err (Backend "unsupported structured native record field")
  | Arr _ => Err (Backend "unsupported structured native record field")
  end.
Definition save_field (field : Value) : result FieldRow :=
  value_row field.["value"]
    (mkField (member field "type" ≫= as_str) (negb (is_null field)) (bool_decide (is_Some (member field "value")))
       KNull None None None None None None None None None None None None).

(** [json!(Option)]. *)
Definition put_opt {A} (encode : A -> Value) (name : string) (o : option A) (m : Map) : Map :=
  match o with Some a => put name (encode a) m | None => m end.
Definition load_value_of (row : FieldRow) : Value :=
  match f_kind row with
  | KText => opt_value Str (f_text row)
  | KInteger => opt_value Int (f_integer row)
  | KReal => opt_value Float (f_real row)
  | KBoolean => Bool (match f_integer row with Some v => negb (v =? 0) | None => false end)
  | KReference =>
      Obj (put_opt Str "action" (f_action row)
            (put "recordName" (opt_value Str (f_reference row)) []))
  | KAsset =>
      Obj (put_opt Str "checksumAlgorithm" (f_algorithm row)
            (put_opt Int "height" (f_height row)
              (put_opt Int "width" (f_width row)
                (put "assetId" (opt_value Str (f_asset row))
                  (put "fileChecksum" (opt_value Str (f_checksum row))
                    (put "size" (opt_value Int (f_size row))
                      (put "mimeType" (opt_value Str (f_mime row)) [])))))))
  | KNull => Null
  end.
Definition load_field (row : FieldRow) : Value :=
  if f_present row
  then Obj ((if f_value_present row then put "value" (load_value_of row) else id)
              (put_opt Str "type" (f_type row) []))
  else Null.

(** ** Records *)
Definition stamp_of (e : option EditEvent) : Stamp :=
  mkStamp (edited_at_ms <$> e) (ev_source <$> e) (ev_id <$> e).

Fixpoint save_fields (fields : Map) : result (list (string * FieldRow)) :=
  match fields with
  | [] => Ok []
  | (name, field) :: rest =>
      row ← save_field field;
      rows ← save_fields rest;
      Ok ((name, row) :: rows)
  end.

(** [save]: an existing row at the position keeps its presence bits. *)
Definition save (existing : option RecordRow) (record : NativeRecord) : result RecordRow :=
  let field name := default Null (f ← fields record; v ← get f name; member v "value") in
  let asset := bool_decide (record_type record = Some ASSET_RECORD_TYPE) in
  let event category := rec_events record ≫= category in
  rows ← match fields record with Some f => save_fields f | None => Ok [] end;
  Ok (mkRow (record_name record) (record_type record) (record_change_tag record)
        (if asset then Some (record_name record) else as_str (field "photoId"%string))
        (if asset then member (field "masterRef"%string) "recordName" ≫= as_str else Some (record_name record))
        (as_str (field "relativePath"%string)) (as_str (field "contentGeneration"%string))
        (zone_name <$> zone_id record) (owner_record_name <$> zone_id record)
        (deleted record)
        (match existing with Some w => w_shape w | None => 127 end)
        (match existing with Some w => w_event_shape w | None => 7 end)
        (bool_decide (is_Some (fields record))) (bool_decide (is_Some (rec_events record)))
        (stamp_of (event ev_metadata)) (stamp_of (event ev_content)) (stamp_of (event ev_deletion)) rows).

(** [stamp]: a null source or id under a set time is a column type error. *)
Definition load_stamp (s : Stamp) : option (option EditEvent) :=
  match st_ms s with
  | None => Some None
  | Some ms => source ← st_source s; id ← st_id s; Some (Some (mkEvent ms source id))
  end.
Definition load_id (row : RecordRow) : option NativeRecord :=
  zone ← match w_zone_name row with
         | None => Some None
         | Some name => owner ← w_zone_owner row; Some (Some (mkZone name owner))
         end;
  events ← (if w_events_present row
            then m ← load_stamp (w_metadata row); c ← load_stamp (w_content row);
                 d ← load_stamp (w_deletion row); Some (Some (mkEvents m c d))
            else Some None);
  Some (mkRecord (w_name row) (w_type row) zone (w_revision row)
          (if w_fields_present row then Some (prod_map id load_field <$> w_fields row) else None)
          events (w_deleted row)).

(** ** Requests *)
(** The presence bits of an object: bit [i] for the [i]-th key. *)
Fixpoint shape_of (keys : list string) (bit : Z) (v : Value) : Z :=
  match keys with
  | [] => 0
  | key :: rest =>
      Z.lor (if bool_decide (is_Some (member v key)) then Z.shiftl 1 bit else 0) (shape_of rest (bit + 1) v)
  end.
Definition SHAPE_KEYS : list string :=
  ["recordName"; "recordType"; "recordChangeTag"; "zoneID"; "fields"; "_syncserver"; "deleted"]%string.

Definition set_shapes (shape events : Z) (w : RecordRow) : RecordRow :=
  mkRow (w_name w) (w_type w) (w_revision w) (w_photo w) (w_master w) (w_path w) (w_generation w)
    (w_zone_name w) (w_zone_owner w) (w_deleted w) shape events (w_fields_present w) (w_events_present w)
    (w_metadata w) (w_content w) (w_deletion w) (w_fields w).

(** The text of a [serde_json] error is not reproduced. *)
Definition DECODE_ERROR : AppError := Backend "invalid record document".
Definition save_value (existing : option RecordRow) (value : Value) : result RecordRow :=
  record ← ok_or_err (record_from_value value) DECODE_ERROR;
  row ← save existing record;
  Ok (set_shapes (shape_of SHAPE_KEYS 0 value) (shape_of EVENTS_MEMBERS 0 value.["_syncserver"]) row).

(** [shape & (1 << i) != 0]. *)
Definition has_bit (shape bit : Z) : bool := negb (Z.land shape (Z.shiftl 1 bit) =? 0).
Fixpoint restore_shape (keys : list string) (bit shape : Z) (m : Map) : Map :=
  match keys with
  | [] => m
  | key :: rest =>
      restore_shape rest (bit + 1) shape
        (if negb (has_bit shape bit) then remove key m
         else match get m key with None => put key Null m | Some _ => m end)
  end.
Fixpoint restore_events (keys : list string) (bit shape : Z) (m : Map) : Map :=
  match keys with
  | [] => m
  | key :: rest => restore_events rest (bit + 1) shape (if has_bit shape bit then m else remove key m)
  end.
Definition load_value (row : RecordRow) : option Value :=
  record ← load_id row;
  m ← as_object (record_to_value record);
  let m := restore_shape SHAPE_KEYS 0 (w_shape row) m in
  Some (Obj (match get m "_syncserver" with
             | Some (Obj events) => put "_syncserver" (Obj (restore_events EVENTS_MEMBERS 0 (w_event_shape row) events)) m
             | _ => m
             end)).
(** ** Baseline photos *)
(** [serde_json::to_value] of an [AssetDescriptor]. *)
Definition asset_to_value (a : AssetDescriptor) : Value :=
  Obj (put_opt Int "height" (a_height a)
        (put_opt Int "width" (a_width a)
          (put "mimeType" (Str (mime_type a))
            (put "fileChecksum" (Str (file_checksum a))
              (put "size" (Int (a_size a)) (put "assetId" (Str (asset_id a)) [])))))).
Definition typed_field (type : string) (value : Value) : Value := obj [("type", Str type); ("value", value)]%string.

(** The two documents of [save_photo]. *)
Definition master_document (photo : RemotePhoto) (revision : option string) : Value :=
  obj [("recordName", Str (master_id photo)); ("recordType", Str "CPLMaster");
       ("recordChangeTag", opt_value Str revision);
       ("fields", obj
          [("photoId", typed_field "STRING" (Str (photo_id photo)));
           ("contentGeneration", typed_field "STRING" (Str (content_generation photo)));
           ("thumbnailSourceOriginalSHA256", typed_field "STRING" (Str (thumbnail_source_sha256 photo)));
           ("resOriginalRes", typed_field "ASSETID" (asset_to_value (original photo)));
           ("resJPEGThumbRes", typed_field "ASSETID" (asset_to_value (thumbnail photo)))])]%string.
Definition asset_document (photo : RemotePhoto) (revision : option string) : Value :=
  obj [("recordName", Str (photo_id photo)); ("recordType", Str "CPLAsset");
       ("recordChangeTag", opt_value Str revision);
       ("fields", obj
          [("masterRef", typed_field "REFERENCE" (obj [("recordName", Str (master_id photo)); ("action", Str "NONE")]));
           ("contentGeneration", typed_field "STRING" (Str (content_generation photo)));
           ("relativePath", typed_field "STRING" (Str (relative_path photo)));
           ("isFavorite", typed_field "INT64" (Int (Z.b2z (is_favorite photo))));
           ("assetDate", typed_field "TIMESTAMP" (opt_value Int (asset_date_ms photo)));
           ("isHidden", typed_field "INT64" (Int (Z.b2z (is_hidden photo))))]);
       ("_syncserver", events_to_value (events photo))]%string.

(** [save_photo]: the rows at positions 0 and 1, over the ones already there. *)
Definition save_photo (rows : option RecordRow * option RecordRow) (asset_revision master_revision : option string)
    (photo : RemotePhoto) : result (RecordRow * RecordRow) :=
  master ← ok_or_err (record_from_value (master_document photo master_revision)) (Backend "invalid structured master");
  asset ← ok_or_err (record_from_value (asset_document photo asset_revision)) (Backend "invalid structured photo");
  first ← save rows.1 master;
  second ← save rows.2 asset;
  Ok (first, second).

(** [record_change_tag.get_or_insert_with]. *)
Definition with_tag (r : NativeRecord) : NativeRecord :=
  mkRecord (record_name r) (record_type r) (zone_id r)
    (Some (default "local-baseline"%string (record_change_tag r))) (fields r) (rec_events r) (deleted r).
Definition load_photo (iter : RecordSet -> list (string * NativeRecord)) (rows : list RecordRow)
  : result (option RemotePhoto) :=
  records ← ok_or_err (mapM load_id rows) (Backend "invalid column type");
  match records with
  | [] => Ok None
  | _ =>
      let live := fold_left (fun live r => apply (with_tag r) live) records ∅ in
      match to_graph iter (mkZone "PrimarySync" DEFAULT_OWNER) live with
      | inl _ => Err (Backend "stored photo violates the record contract")
      | inr graph => Ok (head (photos graph))
      end
  end.

(** ** Typed documents

    The documents the typed columns can hold, and their JSON. *)
Inductive FieldValue :=
  | VNull
  | VText (s : string)
  | VBool (b : bool)
  | VInt (n : Z)
  | VReal (bits : Z)
  | VReference (name action : option string)
  | VAsset (id checksum : option string) (size : option Z) (mime : option string) (width height : option Z)
      (algorithm : option string).
(** A field: null, or an envelope with an optional type and value. *)
Notation FieldDoc := (option (option string * option FieldValue)).

Definition value_members (v : FieldValue) : Members :=
  match v with
  | VReference name action => [("action", Str <$> action); ("recordName", Some (opt_value Str name))]
  | VAsset id checksum size mime width height algorithm =>
      [("assetId", Some (opt_value Str id)); ("checksumAlgorithm", Str <$> algorithm);
       ("fileChecksum", Some (opt_value Str checksum)); ("height", Int <$> height);
       ("mimeType", Some (opt_value Str mime)); ("size", Some (opt_value Int size)); ("width", Int <$> width)]
  | _ => []
  end%string.
Definition encode_value (v : FieldValue) : Value :=
  match v with
  | VNull => Null
  | VText s => Str s
  | VBool b => Bool b
  | VInt n => Int n
  | VReal bits => Float bits
  | VReference _ _ | VAsset _ _ _ _ _ _ _ => Obj (assemble (value_members v))
  end.
Definition encode_field (d : FieldDoc) : Value :=
  match d with
  | None => Null
  | Some (type, value) => Obj (assemble [("type", Str <$> type); ("value", encode_value <$> value)]%string)
  end.

Definition is_i64 (n : Z) : Prop := I64_MIN <= n <= I64_MAX.
Definition opt_i64 (o : option Z) : Prop := match o with Some n => is_i64 n | None => True end.
Definition value_ok (v : FieldValue) : Prop :=
  match v with
  | VInt n => is_i64 n
  | VAsset _ _ size _ width height _ => opt_i64 size /\ opt_i64 width /\ opt_i64 height
  | _ => True
  end.
Definition field_ok (d : FieldDoc) : Prop :=
  match d with Some (_, Some v) => value_ok v | _ => True end.

(** The stored form of a field reads back as the field. *)
Definition survives (field : Value) : Prop :=
  exists row, save_field field = Ok row /\ load_field row = field.

Lemma as_i64_Some n : is_i64 n -> as_i64 (Int n) = Some n.
Proof. intros [H1 H2]. cbn. by rewrite (proj2 (Z.leb_le _ _) H1), (proj2 (Z.leb_le _ _) H2). Qed.
Lemma as_i64_inv v n : as_i64 v = Some n -> v = Int n /\ is_i64 n.
Proof.
  destruct v as [| |k| | | |]; cbn; try done. destruct (_ && _) eqn:H; [|done]. intros [= ->].
  apply andb_true_iff in H as [?%Z.leb_le ?%Z.leb_le]. done.
Qed.
Lemma opt_int_back o : opt_i64 o -> (Int <$> o) ≫= as_i64 = o.
Proof. destruct o as [n|]; [|done]. apply as_i64_Some. Qed.
Lemma opt_int_value_back o : opt_i64 o -> Some (opt_value Int o) ≫= as_i64 = o.
Proof. destruct o as [n|]; [|done]. apply as_i64_Some. Qed.
Lemma opt_str_back o : (Str <$> o) ≫= as_str = o.
Proof. by destruct o. Qed.
Lemma opt_str_value_back o : Some (opt_value Str o) ≫= as_str = o.
Proof. by destruct o. Qed.

Ltac sorted_keys := unfold keys_sorted; cbn; repeat constructor.
(** [key_cases] decides the comparisons of literal keys. *)
Ltac key_cases :=
  repeat match goal with
  | |- context [@bool_decide (@eq string ?a ?b) ?d] =>
      let r := eval vm_compute in (@bool_decide (@eq string a b) d) in
      lazymatch r with true => idtac | false => idtac end;
      change (@bool_decide (@eq string a b) d) with r
  end; cbn iota.
Ltac get_members := rewrite ?get_assemble by sorted_keys; cbn [lookup_key]; key_cases.

Lemma load_reference ty p vp t i r name action id cs sz mi wi he al :
  load_value_of (mkField ty p vp KReference t i r name action id cs sz mi wi he al)
  = encode_value (VReference name action).
Proof. by destruct action. Qed.
Lemma load_asset ty p vp t i r name action id cs sz mi wi he al :
  load_value_of (mkField ty p vp KAsset t i r name action id cs sz mi wi he al)
  = encode_value (VAsset id cs sz mi wi he al).
Proof. by destruct wi, he, al. Qed.

Lemma save_value_row v row : value_ok v ->
  exists row', value_row (encode_value v) row = Ok row' /\ load_value_of row' = encode_value v
    /\ f_type row' = f_type row /\ f_present row' = f_present row /\ f_value_present row' = f_value_present row.
Proof.
  destruct v as [|s|b|n|bits|name action|id checksum size mime width height algorithm]; intros Hok.
  1,2,5: by eexists.
  - eexists. split; [done|]. by destruct b.
  - cbn. fold (as_i64 (Int n)). rewrite (as_i64_Some n Hok). by eexists.
  - unfold value_row. cbn [encode_value value_members]. get_members.
    rewrite opt_str_back, opt_str_value_back, bool_decide_true by done.
    eexists. split; [done|]. split; [apply load_reference|done].
  - destruct Hok as (Hs & Hw & Hh). unfold value_row. cbn [encode_value value_members]. get_members.
    rewrite bool_decide_false by (by intros [? ?]). rewrite bool_decide_true by done.
    rewrite !opt_str_value_back, !opt_str_back, opt_int_value_back, !opt_int_back by done.
    eexists. split; [done|]. split; [apply load_asset|done].
Qed.
Lemma encode_field_survives d : field_ok d -> survives (encode_field d).
Proof.
  intros Hok. destruct d as [[type [v|]]|]; [| |by eexists].
  - destruct (save_value_row v (mkField type true true KNull None None None None None None None None None None None None) Hok)
      as (row & Hrow & Hload & Ht & Hp & Hv).
    exists row. split; [by destruct type|]. unfold load_field. rewrite Hp, Hv, Ht, Hload. by destruct type.
  - destruct type; by eexists.
Qed.

(** What the columns read back as is a typed document. *)
Lemma load_value_typed value row row' : value_row value row = Ok row' ->
  exists v, value_ok v /\ load_value_of row' = encode_value v.
Proof.
  unfold value_row. destruct value as [|b|n|bits|s|l|m]; intros Hrow.
  - exists VNull. by injection Hrow as <-.
  - exists (VBool b). injection Hrow as <-. by destruct b.
  - destruct (as_i64 (Int n)) as [k|] eqn:Hk; injection Hrow as <-.
    + apply as_i64_inv in Hk as [[= ->] ?]. by exists (VInt k).
    + by exists (VReal (f64_of_big n)).
  - exists (VReal bits). by injection Hrow as <-.
  - exists (VText s). by injection Hrow as <-.
  - done.
  - assert (Hint : forall name, opt_i64 (get m name ≫= as_i64)).
    { intros name. destruct (get m name ≫= as_i64) as [k|] eqn:Hk; [|done].
      apply bind_Some in Hk as (x & _ & Hx). by apply as_i64_inv in Hx as [_ ?]. }
    repeat case_bool_decide; try done; injection Hrow as <-.
    { eexists. split; [|apply load_reference]. done. }
    eexists. split; [|apply load_asset]. by split_and!.
Qed.

(** A field survives exactly when it is a typed document: null, or an envelope
    of a type and a scalar, a reference or an asset, with integers in [i64]. *)
Lemma survives_typed field : survives field <-> exists d, field_ok d /\ field = encode_field d.
Proof.
  split; [|by intros (d & Hok & ->); apply encode_field_survives].
  intros (row & Hrow & <-). unfold load_field. destruct (f_present row); [|by exists None].
  destruct (load_value_typed _ _ _ Hrow) as (v & Hv & ->).
  exists (Some (f_type row, if f_value_present row then Some v else None)).
  split; [by cbn; destruct (f_value_present row)|]. by destruct (f_value_present row), (f_type row).
Qed.
(** ** Records through the columns *)
Lemma load_stamp_of e : load_stamp (stamp_of e) = Some e.
Proof. by destruct e as [[? ? ?]|]. Qed.

(** The field rows read back as the stored fields. *)
Definition reads_as (rows : list (string * FieldRow)) (m : Map) : Prop := prod_map id load_field <$> rows = m.

Lemma save_fields_survive m :
  Forall (fun kv => survives kv.2) m -> exists rows, save_fields m = Ok rows /\ reads_as rows m.
Proof.
  induction 1 as [|[name field] m (row & Hrow & Hload) _ (rows & Hrows & Hm)]; [by exists []|].
  exists ((name, row) :: rows). cbn. cbn in Hrow. rewrite Hrow. cbn. rewrite Hrows. split; [done|].
  unfold reads_as in *. cbn. rewrite Hm. cbn in Hload. by rewrite Hload.
Qed.

(** The record a row reads back as has everything of the saved one but what its
    fields lost. *)
Lemma load_save existing record row :
  save existing record = Ok row ->
  load_id row = Some (mkRecord (record_name record) (record_type record) (zone_id record)
    (record_change_tag record) (if fields record then Some (prod_map id load_field <$> w_fields row) else None)
    (rec_events record) (deleted record)).
Proof.
  unfold save. destruct record as [name type zone tag flds evs del]. cbn [fields record_name record_type zone_id].
  destruct (match flds with Some f => save_fields f | None => Ok [] end) as [rows|]; [|done].
  cbn. intros [= <-]. unfold load_id. cbn.
  destruct zone as [[? ?]|], flds as [f|], evs as [[m c d]|]; cbn; rewrite ?load_stamp_of; done.
Qed.
Lemma save_survives existing record :
  (forall f, fields record = Some f -> Forall (fun kv => survives kv.2) f) ->
  exists row, save existing record = Ok row /\ load_id row = Some record.
Proof.
  intros Hf. unfold save. destruct (fields record) as [f|] eqn:Hfields.
  - destruct (save_fields_survive f (Hf f eq_refl)) as (rows & Hrows & Hread).
    assert (Hsave : exists row, save existing record = Ok row /\ w_fields row = rows).
    { unfold save. rewrite Hfields, Hrows. by eexists. }
    destruct Hsave as (row & Hsave & Hw). exists row. split; [by unfold save in Hsave; rewrite Hfields in Hsave|].
    rewrite (load_save _ _ _ Hsave), Hfields, Hw, Hread. by destruct record; cbn in *; subst.
  - assert (Hsave : exists row, save existing record = Ok row) by (unfold save; rewrite Hfields; by eexists).
    destruct Hsave as (row & Hsave). exists row. split; [by unfold save in Hsave; rewrite Hfields in Hsave|].
    rewrite (load_save _ _ _ Hsave), Hfields. by destruct record; cbn in *; subst.
Qed.

(** ** Request documents *)
(** A member of a request: left out, null or given. *)
Inductive Presence (A : Type) := Absent | Empty | Given (a : A).
Arguments Absent {A}.
Arguments Empty {A}.
Arguments Given {A} a.
Definition presence_value {A} (encode : A -> Value) (p : Presence A) : option Value :=
  match p with Absent => None | Empty => Some Null | Given a => Some (encode a) end.
Definition presence_opt {A} (p : Presence A) : option A := match p with Given a => Some a | _ => None end.

Record EventsDoc := mkEventsDoc {
  de_metadata : Presence EditEvent; de_content : Presence EditEvent; de_deletion : Presence EditEvent }.
Record RequestDoc := mkRequestDoc {
  d_name : string;
  d_type : Presence string;
  d_zone : Presence ZoneId;
  d_tag : Presence string;
  d_fields : Presence (list (string * FieldDoc));
  d_events : Presence EventsDoc;
  d_deleted : option bool
}.

Definition events_members (d : EventsDoc) : Members :=
  [("contentEvent", presence_value event_to_value (de_content d));
   ("deletionEvent", presence_value event_to_value (de_deletion d));
   ("metadataEvent", presence_value event_to_value (de_metadata d))]%string.
Definition encode_events (d : EventsDoc) : Value := Obj (assemble (events_members d)).
Definition field_members (l : list (string * FieldDoc)) : Map := prod_map id encode_field <$> l.
Definition encode_fields (l : list (string * FieldDoc)) : Value := Obj (field_members l).
Definition request_members (d : RequestDoc) : Members :=
  [("_syncserver", presence_value encode_events (d_events d)); ("deleted", Bool <$> d_deleted d);
   ("fields", presence_value encode_fields (d_fields d)); ("recordChangeTag", presence_value Str (d_tag d));
   ("recordName", Some (Str (d_name d))); ("recordType", presence_value Str (d_type d));
   ("zoneID", presence_value zone_to_value (d_zone d))]%string.
Definition encode_request (d : RequestDoc) : Value := Obj (assemble (request_members d)).

(** The record a request is decoded to. *)
Definition events_of (d : EventsDoc) : EditEvents :=
  mkEvents (presence_opt (de_metadata d)) (presence_opt (de_content d)) (presence_opt (de_deletion d)).
Definition record_of (d : RequestDoc) : NativeRecord :=
  mkRecord (d_name d) (presence_opt (d_type d)) (presence_opt (d_zone d)) (presence_opt (d_tag d))
    (option_map field_members (presence_opt (d_fields d)))
    (option_map events_of (presence_opt (d_events d))) (default false (d_deleted d)).

Definition stamp_ok (p : Presence EditEvent) : Prop := match p with Given e => event_ok e | _ => True end.
Definition request_ok (d : RequestDoc) : Prop :=
  (forall l, d_fields d = Given l -> Forall (fun kd => field_ok kd.2) l) /\
  (forall e, d_events d = Given e -> stamp_ok (de_metadata e) /\ stamp_ok (de_content e) /\ stamp_ok (de_deletion e)).
Lemma request_sorted d : keys_sorted (request_members d).
Proof. sorted_keys. Qed.
Lemma events_sorted d : keys_sorted (events_members d).
Proof. sorted_keys. Qed.

(** *** Decoding a request *)
Lemma opt_field_presence_map {A B} decode encode (f : A -> B) p :
  (forall a, p = Given a -> decode (encode a) = Some (f a) /\ encode a <> Null) ->
  opt_field decode (presence_value encode p) = Some (option_map f (presence_opt p)).
Proof.
  destruct p as [| |a]; intros Hd; [done|done|]. destruct (Hd a eq_refl) as [Ha Hn].
  cbn. by destruct (encode a); [|rewrite Ha..].
Qed.
Lemma opt_field_presence {A} decode encode (p : Presence A) :
  (forall a, p = Given a -> decode (encode a) = Some a /\ encode a <> Null) ->
  opt_field decode (presence_value encode p) = Some (presence_opt p).
Proof. intros Hd. rewrite (opt_field_presence_map _ _ id) by done. by destruct p. Qed.
Lemma event_presence_back p :
  stamp_ok p -> opt_field event_from_value (presence_value event_to_value p) = Some (presence_opt p).
Proof. intros H. apply opt_field_presence. intros e ->. split; [by apply event_roundtrip|done]. Qed.
Lemma events_back d :
  stamp_ok (de_metadata d) -> stamp_ok (de_content d) -> stamp_ok (de_deletion d) ->
  events_from_value (encode_events d) = Some (events_of d).
Proof.
  intros Hm Hc Hd. unfold events_from_value, encode_events, struct_members. cbn [EVENTS_MEMBERS fmap list_fmap].
  rewrite !get_assemble by apply events_sorted. unfold events_members. cbn [lookup_key]. key_cases.
  by rewrite !event_presence_back.
Qed.
Lemma request_decodes d : request_ok d -> record_from_value (encode_request d) = Some (record_of d).
Proof.
  intros [_ He]. unfold record_from_value, encode_request, struct_members. cbn [RECORD_MEMBERS fmap list_fmap].
  rewrite !get_assemble by apply request_sorted. unfold request_members. cbn [lookup_key]. key_cases.
  cbn [mbind option_bind as_str].
  rewrite !(opt_field_presence as_str Str) by done.
  rewrite (opt_field_presence zone_from_value zone_to_value) by (intros; split; [apply zone_roundtrip|done]).
  cbn [mbind option_bind].
  rewrite (opt_field_presence_map as_object encode_fields field_members) by done.
  rewrite (opt_field_presence_map events_from_value encode_events events_of).
  2: { intros e Hd. destruct (He e Hd) as (? & ? & ?). split; [by apply events_back|done]. }
  cbn [mbind option_bind]. unfold record_of. by destruct (d_deleted d).
Qed.

(** *** Restoring the shape *)
(** A stored member [o] under the presence of the original: dropped when the
    original left it out, null when only the original had it. *)
Definition shaped (original o : option Value) : option Value :=
  match original with None => None | Some _ => Some (default Null o) end.

Lemma has_bit_testbit shape bit : 0 <= bit -> has_bit shape bit = Z.testbit shape bit.
Proof.
  intros Hb. unfold has_bit. rewrite Z.shiftl_1_l.
  destruct (Z.testbit shape bit) eqn:Ht.
  - apply negb_true_iff, Z.eqb_neq. intros H. apply (f_equal (fun n => Z.testbit n bit)) in H.
    by rewrite Z.land_spec, Ht, Z.pow2_bits_true, Z.bits_0 in H.
  - apply negb_false_iff, Z.eqb_eq, Z.bits_inj'. intros n Hn. rewrite Z.land_spec, Z.bits_0.
    destruct (decide (n = bit)) as [->|Hne]; [by rewrite Ht|].
    rewrite Z.pow2_bits_false by done. apply andb_false_r.
Qed.
Lemma shape_of_bit keys bit v n : 0 <= bit -> 0 <= n ->
  Z.testbit (shape_of keys bit v) n
  = if bit <=? n then match nth_error keys (Z.to_nat (n - bit)) with
                      | Some key => bool_decide (is_Some (member v key)) | None => false end
    else false.
Proof.
  revert bit. induction keys as [|key keys IH]; intros bit Hb Hn; cbn [shape_of].
  - rewrite Z.bits_0. destruct (bit <=? n); [|done]. by destruct (Z.to_nat _).
  - rewrite Z.lor_spec, IH by lia.
    assert (Hone : forall b : bool, Z.testbit (if b then Z.shiftl 1 bit else 0) n = b && (n =? bit)).
    { intros []; [|by rewrite Z.bits_0]. rewrite Z.shiftl_1_l. destruct (Z.eqb_spec n bit) as [->|Hne].
      - by apply Z.pow2_bits_true. - by apply Z.pow2_bits_false. }
    rewrite Hone. destruct (Z.eqb_spec n bit) as [->|Hne].
    + rewrite (proj2 (Z.leb_gt (bit + 1) bit)), Z.leb_refl, Z.sub_diag by lia. cbn. by rewrite andb_true_r, orb_false_r.
    + rewrite andb_false_r. cbn. destruct (Z.leb_spec bit n); [|by rewrite (proj2 (Z.leb_gt (bit + 1) n)) by lia].
      rewrite (proj2 (Z.leb_le (bit + 1) n)) by lia.
      replace (Z.to_nat (n - bit)) with (S (Z.to_nat (n - (bit + 1)))) by lia. done.
Qed.
(** The bits say which keys the original has. *)
Definition shape_for (shape bit : Z) (keys : list string) (original : Members) : Prop :=
  forall n key, nth_error keys n = Some key ->
    has_bit shape (bit + Z.of_nat n) = bool_decide (is_Some (lookup_key original key)).
Lemma shape_for_assemble keys original :
  keys_sorted original -> shape_for (shape_of keys 0 (Obj (assemble original))) 0 keys original.
Proof.
  intros Hs n key Hn. rewrite has_bit_testbit, shape_of_bit by lia.
  rewrite (proj2 (Z.leb_le _ _)), Z.add_0_l, Z.sub_0_r, Nat2Z.id, Hn by lia.
  unfold member. cbn. by rewrite get_assemble.
Qed.
Lemma shape_for_tail shape bit key keys original :
  shape_for shape bit (key :: keys) original -> shape_for shape (bit + 1) keys original.
Proof. intros H n k Hn. specialize (H (S n) k Hn). rewrite <- H. f_equal. lia. Qed.

Fixpoint reshape (keys : list string) (original l : Members) : Members :=
  match keys with
  | [] => l
  | key :: rest => reshape rest original (assign_key key (shaped (lookup_key original key) (lookup_key l key)) l)
  end.

Lemma restore_shape_assemble keys bit shape original l :
  keys_sorted l -> Forall (fun key => key ∈ l.*1) keys -> shape_for shape bit keys original ->
  restore_shape keys bit shape (assemble l) = assemble (reshape keys original l).
Proof.
  revert bit l. induction keys as [|key keys IH]; intros bit l Hs Hin Hshape; [done|].
  inversion_clear Hin as [|?? Hkey Hin']. cbn [restore_shape reshape].
  pose proof (Hshape 0%nat key eq_refl) as Hbit. rewrite Z.add_0_r in Hbit. rewrite Hbit.
  assert (Hstep : (if negb (bool_decide (is_Some (lookup_key original key))) then remove key (assemble l)
     else match get (assemble l) key with Some _ => assemble l | None => put key Null (assemble l) end)
    = assemble (assign_key key (shaped (lookup_key original key) (lookup_key l key)) l)).
  { destruct (lookup_key original key) as [v|]; cbn [shaped].
    - rewrite bool_decide_true by done. cbn [negb]. rewrite get_assemble by done.
      destruct (lookup_key l key) as [v'|] eqn:Hl; cbn [default].
      + by rewrite assign_key_same. + by rewrite put_assemble.
    - rewrite bool_decide_false by (by intros [? ?]). apply remove_assemble. }
  rewrite Hstep. clear Hstep. apply IH.
  - by apply keys_sorted_assign.
  - by rewrite keys_assign.
  - by apply shape_for_tail in Hshape.
Qed.
Lemma restore_events_assemble keys bit shape original l :
  NoDup keys -> keys_sorted l -> Forall (fun key => is_Some (lookup_key l key)) keys ->
  shape_for shape bit keys original ->
  restore_events keys bit shape (assemble l) = assemble (reshape keys original l).
Proof.
  revert bit l. induction keys as [|key keys IH]; intros bit l Hnd Hs Hin Hshape; [done|].
  inversion_clear Hin as [|?? [v Hkey] Hin']. apply NoDup_cons in Hnd as [Hfresh Hnd].
  cbn [restore_events reshape].
  pose proof (Hshape 0%nat key eq_refl) as Hbit. rewrite Z.add_0_r in Hbit. rewrite Hbit, Hkey.
  replace (if bool_decide _ then assemble l else remove key (assemble l))
    with (assemble (assign_key key (shaped (lookup_key original key) (Some v)) l)).
  2: { destruct (lookup_key original key) as [v'|]; cbn [shaped default].
       - rewrite bool_decide_true by done. by rewrite assign_key_same.
       - rewrite bool_decide_false by (by intros [? ?]). by rewrite remove_assemble. }
  apply IH; [done|by apply keys_sorted_assign| |by apply shape_for_tail in Hshape].
  apply Forall_forall. intros k Hk. rewrite lookup_assign_ne by (intros ->; done).
  by apply (proj1 (Forall_forall _ _) Hin').
Qed.
(** The presence bits give back what decoding and encoding lost. *)
Definition stored_members (r : NativeRecord) : Members :=
  [("_syncserver", Some (opt_value events_to_value (rec_events r))); ("deleted", Some (Bool (deleted r)));
   ("fields", Obj <$> fields r); ("recordChangeTag", Some (opt_value Str (record_change_tag r)));
   ("recordName", Some (Str (record_name r))); ("recordType", Some (opt_value Str (record_type r)));
   ("zoneID", Some (opt_value zone_to_value (zone_id r)))]%string.
Lemma record_to_value_members r : record_to_value r = Obj (assemble (stored_members r)).
Proof. unfold record_to_value, stored_members. by destruct (fields r). Qed.

Definition full_events (d : EventsDoc) : Members :=
  [("contentEvent", Some (opt_value event_to_value (presence_opt (de_content d))));
   ("deletionEvent", Some (opt_value event_to_value (presence_opt (de_deletion d))));
   ("metadataEvent", Some (opt_value event_to_value (presence_opt (de_metadata d))))]%string.
Definition full_presence (p : Presence EventsDoc) : option Value :=
  match p with Absent => None | Empty => Some Null | Given d => Some (Obj (assemble (full_events d))) end.
Definition unshaped_members (d : RequestDoc) : Members :=
  assign_key "_syncserver" (full_presence (d_events d)) (request_members d).

Lemma presence_back {A} (encode : A -> Value) p :
  shaped (presence_value encode p) (Some (opt_value encode (presence_opt p))) = presence_value encode p.
Proof. by destruct p. Qed.
Lemma reshape_cons key keys original l :
  reshape (key :: keys) original l
  = reshape keys original (assign_key key (shaped (lookup_key original key) (lookup_key l key)) l).
Proof. done. Qed.
Lemma reshape_nil original l : reshape [] original l = l.
Proof. done. Qed.
Ltac reshape_keys :=
  repeat (rewrite reshape_cons; unfold assign_key; cbn [lookup_key fmap list_fmap fst snd]; key_cases;
          rewrite ?presence_back); rewrite reshape_nil.
Lemma reshape_record d :
  reshape SHAPE_KEYS (request_members d) (stored_members (record_of d)) = unshaped_members d.
Proof.
  unfold unshaped_members, request_members, stored_members, SHAPE_KEYS.
  cbn [rec_events deleted fields record_change_tag record_name record_type zone_id record_of].
  reshape_keys. unfold assign_key. cbn [fmap list_fmap fst snd]. key_cases. repeat f_equal.
  - by destruct (d_events d).
  - by destruct (d_deleted d).
  - by destruct (d_fields d).
Qed.
Lemma reshape_events d : reshape EVENTS_MEMBERS (events_members d) (full_events d) = events_members d.
Proof. unfold events_members, full_events, EVENTS_MEMBERS. by reshape_keys. Qed.

Lemma stored_sorted r : keys_sorted (stored_members r).
Proof. sorted_keys. Qed.
Lemma unshaped_sorted d : keys_sorted (unshaped_members d).
Proof. apply keys_sorted_assign, request_sorted. Qed.
Lemma restore_request d :
  restore_shape SHAPE_KEYS 0 (shape_of SHAPE_KEYS 0 (encode_request d)) (assemble (stored_members (record_of d)))
  = assemble (unshaped_members d).
Proof.
  rewrite (restore_shape_assemble _ _ _ (request_members d)).
  - by rewrite reshape_record.
  - apply stored_sorted.
  - repeat constructor; cbn; set_solver.
  - apply shape_for_assemble, request_sorted.
Qed.
Lemma restore_request_events d :
  restore_events EVENTS_MEMBERS 0 (shape_of EVENTS_MEMBERS 0 (encode_events d)) (assemble (full_events d))
  = assemble (events_members d).
Proof.
  rewrite (restore_events_assemble _ _ _ (events_members d)).
  - by rewrite reshape_events.
  - apply (bool_decide_unpack _). by vm_compute.
  - sorted_keys.
  - repeat constructor; by eexists.
  - apply shape_for_assemble, events_sorted.
Qed.
Lemma assign_syncserver d v :
  assign_key "_syncserver" v (unshaped_members d) = assign_key "_syncserver" v (request_members d).
Proof. unfold unshaped_members, request_members, assign_key. cbn [fmap list_fmap fst snd]. by key_cases. Qed.

(** [save] of a decoded request keeps the record. *)
Lemma request_record_survives existing d : request_ok d ->
  exists row, save existing (record_of d) = Ok row /\ load_id row = Some (record_of d).
Proof.
  intros Hok. apply save_survives. intros f Hf. cbn in Hf.
  destruct (d_fields d) as [| |l] eqn:Hl; [done|done|]. injection Hf as <-.
  apply Forall_fmap. eapply Forall_impl; [by apply Hok|]. intros [k fd] Hfd. by apply encode_field_survives.
Qed.
Lemma request_survives existing d : request_ok d ->
  exists row, save_value existing (encode_request d) = Ok row /\ load_value row = Some (encode_request d).
Proof.
  intros Hok. unfold save_value. rewrite (request_decodes d Hok). cbn [ok_or_err mbind result_bind].
  destruct (request_record_survives existing d Hok) as (row & Hsave & Hload).
  rewrite Hsave. cbn [mbind result_bind]. eexists. split; [done|].
  unfold load_value. change (load_id (set_shapes ?a ?b row)) with (load_id row). rewrite Hload.
  cbn [mbind option_bind w_shape w_event_shape set_shapes]. rewrite record_to_value_members. cbn [as_object mbind option_bind].
  rewrite restore_request. rewrite (get_assemble _ _ (unshaped_sorted d)).
  replace (lookup_key (unshaped_members d) "_syncserver") with (full_presence (d_events d)) by (by destruct d).
  replace ((encode_request d).["_syncserver"]) with (default Null (presence_value encode_events (d_events d))).
  2: { unfold index, member, encode_request. cbn [as_object mbind option_bind].
       by rewrite get_assemble by apply request_sorted. }
  unfold encode_request. destruct (d_events d) as [| |e] eqn:He; cbn [full_presence].
  - f_equal. f_equal. f_equal. unfold unshaped_members. rewrite He. unfold request_members. by rewrite He.
  - f_equal. f_equal. f_equal. unfold unshaped_members. rewrite He. unfold request_members. by rewrite He.
  - cbn [presence_value]. change (default Null (Some (encode_events e))) with (encode_events e). rewrite restore_request_events.
    rewrite put_assemble by (apply unshaped_sorted || (cbn; set_solver)). rewrite assign_syncserver.
    f_equal. f_equal. f_equal. unfold request_members, assign_key. rewrite He. cbn [fmap list_fmap fst snd]. by key_cases.
Qed.
(** ** Baseline photos survive *)
Definition asset_ok (a : AssetDescriptor) : Prop :=
  0 <= a_size a <= I64_MAX /\
  (forall n, a_width a = Some n -> 0 <= n <= U32_MAX) /\ (forall n, a_height a = Some n -> 0 <= n <= U32_MAX) /\
  exists hex, Content.hex_from_descriptor_base64 (file_checksum a) = Some hex /\ is_lower_hex hex = true.
(** A photo that validation accepted, with sizes an [i64] column can hold. *)
Record photo_ok (p : RemotePhoto) : Prop := {
  ok_ids : photo_id p <> master_id p;
  ok_path : is_safe_relative_path (relative_path p) = true;
  ok_date : opt_i64 (asset_date_ms p);
  ok_original : asset_ok (original p);
  ok_thumbnail : asset_ok (thumbnail p);
  ok_source : is_lower_hex (thumbnail_source_sha256 p) = true /\
    Content.hex_from_descriptor_base64 (file_checksum (original p)) = Some (thumbnail_source_sha256 p);
  ok_events : events_ok (events p)
}.

Definition asset_doc (a : AssetDescriptor) : FieldValue :=
  VAsset (Some (asset_id a)) (Some (file_checksum a)) (Some (a_size a)) (Some (mime_type a)) (a_width a) (a_height a) None.
Lemma asset_to_value_doc a : asset_to_value a = encode_value (asset_doc a).
Proof. destruct a as [id size checksum mime [w|] [h|]]; done. Qed.
Definition text_doc (s : string) : FieldDoc := Some (Some "STRING"%string, Some (VText s)).
Definition master_fields (p : RemotePhoto) : list (string * FieldDoc) :=
  [("contentGeneration", text_doc (content_generation p)); ("photoId", text_doc (photo_id p));
   ("resJPEGThumbRes", Some (Some "ASSETID", Some (asset_doc (thumbnail p))));
   ("resOriginalRes", Some (Some "ASSETID", Some (asset_doc (original p))));
   ("thumbnailSourceOriginalSHA256", text_doc (thumbnail_source_sha256 p))]%string.
Definition asset_fields (p : RemotePhoto) : list (string * FieldDoc) :=
  [("assetDate", Some (Some "TIMESTAMP", Some (match asset_date_ms p with Some n => VInt n | None => VNull end)));
   ("contentGeneration", text_doc (content_generation p));
   ("isFavorite", Some (Some "INT64", Some (VInt (Z.b2z (is_favorite p)))));
   ("isHidden", Some (Some "INT64", Some (VInt (Z.b2z (is_hidden p)))));
   ("masterRef", Some (Some "REFERENCE", Some (VReference (Some (master_id p)) (Some "NONE"))));
   ("relativePath", text_doc (relative_path p))]%string.
Definition master_record (p : RemotePhoto) (revision : option string) : NativeRecord :=
  mkRecord (master_id p) (Some MASTER_RECORD_TYPE) None revision (Some (field_members (master_fields p))) None false.
Definition asset_record (p : RemotePhoto) (revision : option string) : NativeRecord :=
  mkRecord (photo_id p) (Some ASSET_RECORD_TYPE) None revision (Some (field_members (asset_fields p)))
    (Some (events p)) false.

(** The documents as typed requests. *)
Definition presence_of {A} (o : option A) : Presence A := match o with Some a => Given a | None => Empty end.
Definition all_events (e : EditEvents) : EventsDoc :=
  mkEventsDoc (presence_of (ev_metadata e)) (presence_of (ev_content e)) (presence_of (ev_deletion e)).
Definition master_request (p : RemotePhoto) (revision : option string) : RequestDoc :=
  mkRequestDoc (master_id p) (Given "CPLMaster"%string) Absent (presence_of revision)
    (Given (master_fields p)) Absent None.
Definition asset_request (p : RemotePhoto) (revision : option string) : RequestDoc :=
  mkRequestDoc (photo_id p) (Given "CPLAsset"%string) Absent (presence_of revision)
    (Given (asset_fields p)) (Given (all_events (events p))) None.

Lemma presence_of_opt {A} (o : option A) : presence_opt (presence_of o) = o.
Proof. by destruct o. Qed.
Lemma presence_of_value {A} (encode : A -> Value) o : presence_value encode (presence_of o) = Some (opt_value encode o).
Proof. by destruct o. Qed.
Lemma all_events_of e : events_of (all_events e) = e.
Proof. unfold events_of. cbn. rewrite !presence_of_opt. by destruct e. Qed.
Lemma encode_all_events e : encode_events (all_events e) = events_to_value e.
Proof. unfold encode_events, events_members. cbn [all_events de_content de_deletion de_metadata]. by rewrite !presence_of_value. Qed.

Lemma master_document_request p revision : master_document p revision = encode_request (master_request p revision).
Proof. unfold master_document. rewrite !asset_to_value_doc. by destruct revision. Qed.
Lemma asset_document_request p revision : asset_document p revision = encode_request (asset_request p revision).
Proof.
  unfold asset_document, encode_request, request_members. cbn [asset_request d_events d_deleted d_fields d_tag d_name d_type d_zone presence_value].
  rewrite encode_all_events, presence_of_value. unfold asset_fields. by destruct (asset_date_ms p).
Qed.
Lemma master_record_of p revision : record_of (master_request p revision) = master_record p revision.
Proof. by destruct revision. Qed.
Lemma asset_record_of p revision : record_of (asset_request p revision) = asset_record p revision.
Proof. unfold record_of. cbn [asset_request d_events presence_opt option_map d_tag]. rewrite all_events_of, presence_of_opt. done. Qed.

Lemma asset_doc_ok a : asset_ok a -> value_ok (asset_doc a).
Proof.
  assert (Hopt : forall o, (forall n, o = Some n -> 0 <= n <= U32_MAX) -> opt_i64 o).
  { intros [n|] Hn; [|done]. specialize (Hn n eq_refl). cbn. unfold is_i64, I64_MIN, I64_MAX, U32_MAX in *. lia. }
  intros (Hs & Hw & Hh & _). split; [|split; by apply Hopt].
  cbn. unfold is_i64, I64_MIN, I64_MAX in *. lia.
Qed.
Lemma b2z_i64 b : is_i64 (Z.b2z b).
Proof. unfold is_i64, I64_MIN, I64_MAX. destruct b; cbn; lia. Qed.
Lemma master_request_ok p revision : photo_ok p -> request_ok (master_request p revision).
Proof.
  intros Hp. split; [|done]. intros l [= <-]. unfold master_fields.
  repeat constructor; cbn; try done; apply asset_doc_ok, Hp.
Qed.
Lemma asset_request_ok p revision : photo_ok p -> request_ok (asset_request p revision).
Proof.
  intros Hp. split.
  - intros l [= <-]. unfold asset_fields. repeat constructor; cbn; try done; try apply b2z_i64.
    pose proof (ok_date p Hp) as Hd. by destruct (asset_date_ms p).
  - intros e [= <-]. pose proof (ok_events p Hp) as He. unfold events_ok in He.
    split_and!; cbn; [destruct (ev_metadata (events p))|destruct (ev_content (events p))|destruct (ev_deletion (events p))];
      cbn; try done; apply He; tauto.
Qed.


Lemma as_u32_back n : 0 <= n <= U32_MAX -> as_u32 (Int n) = Some n.
Proof.
  intros H. unfold as_u32, as_u64, U32_MAX, U64_MAX in *.
  rewrite (proj2 (Z.leb_le 0 n)), (proj2 (Z.leb_le n 18446744073709551615)) by lia.
  cbn -[Z.leb]. by rewrite (proj2 (Z.leb_le n 4294967295)) by lia.
Qed.
Lemma as_u64_back n : 0 <= n <= I64_MAX -> as_u64 (Int n) = Some n.
Proof.
  intros H. unfold as_u64, U64_MAX, I64_MAX in *.
  by rewrite (proj2 (Z.leb_le 0 n)), (proj2 (Z.leb_le n 18446744073709551615)) by lia.
Qed.
Lemma opt_u32_back o : (forall n, o = Some n -> 0 <= n <= U32_MAX) -> opt_field as_u32 (Int <$> o) = Some o.
Proof. destruct o as [n|]; intros H; [|done]. cbn -[as_u32]. by rewrite as_u32_back by (by apply H). Qed.
Lemma asset_back a : asset_ok a -> asset_from_value (encode_value (asset_doc a)) = Some a.
Proof.
  intros (Hs & Hw & Hh & _). unfold asset_from_value, struct_members.
  cbn [encode_value asset_doc value_members ASSET_MEMBERS fmap list_fmap opt_value].
  rewrite !get_assemble by sorted_keys. cbn [lookup_key]. key_cases.
  cbn [mbind option_bind as_str]. rewrite as_u64_back by done. cbn [mbind option_bind].
  rewrite !opt_u32_back by done. by destruct a.
Qed.
Lemma asset_descriptor_back fields name id a :
  asset_ok a -> field_value fields name = Some (encode_value (asset_doc a)) ->
  asset_descriptor fields name id = inr a.
Proof.
  intros Ha Hf. unfold asset_descriptor. rewrite Hf.
  change (v ← Some (encode_value (asset_doc a)); as_object v) with (as_object (encode_value (asset_doc a))).
  cbn [encode_value asset_doc as_object ok_or mbind Checked_bind].
  change (Obj (assemble (value_members ?v))) with (encode_value v).
  fold (asset_doc a). rewrite (asset_back a Ha). cbn [ok_or mbind Checked_bind].
  destruct Ha as (_ & _ & _ & hex & -> & ->). done.
Qed.

Notation tagged_master p r := (with_tag (master_record p r)).
Notation tagged_asset p r := (with_tag (asset_record p r)).
Lemma build_photo_back p ra rm : photo_ok p ->
  build_photo (photo_id p) (tagged_master p rm) (tagged_asset p ra) (content_generation p) = inr p.
Proof.
  intros Hp. unfold build_photo.
  rewrite (asset_descriptor_back _ "resOriginalRes" _ (original p) (ok_original p Hp)) by done.
  rewrite (asset_descriptor_back _ "resJPEGThumbRes" _ (thumbnail p) (ok_thumbnail p Hp)) by done.
  change (string_field (fields (tagged_asset p ra)) "relativePath") with (Some (relative_path p)).
  change (string_field (fields (tagged_master p rm)) "thumbnailSourceOriginalSHA256")
    with (Some (thumbnail_source_sha256 p)).
  cbn [ok_or mbind Checked_bind]. rewrite (ok_path p Hp). destruct (ok_source p Hp) as [-> Hs]. rewrite Hs.
  rewrite bool_decide_true by done. cbn [check andb mbind Checked_bind].
  assert (Hdate : int_field (fields (tagged_asset p ra)) "assetDate" = asset_date_ms p).
  { pose proof (ok_date p Hp) as Hd. unfold int_field.
    change (field_value (fields (tagged_asset p ra)) "assetDate")
      with (Some (encode_value (match asset_date_ms p with Some n => VInt n | None => VNull end))).
    cbn [mbind option_bind]. destruct (asset_date_ms p); [by apply as_i64_Some|done]. }
  rewrite Hdate.
  change (int_field (fields (tagged_asset p ra)) "isFavorite") with (as_i64 (Int (Z.b2z (is_favorite p)))).
  change (int_field (fields (tagged_asset p ra)) "isHidden") with (as_i64 (Int (Z.b2z (is_hidden p)))).
  rewrite !as_i64_Some by apply b2z_i64.
  unfold mret, Checked_ret. f_equal. destruct p as [? ? ? ? fav ? hid ? ? ? ?]. by destruct fav, hid.
Qed.
(** ** The pair as a graph *)
Lemma with_tag_live r live : fields r <> None -> deleted r = false -> apply (with_tag r) live = <[record_name r := with_tag r]> live.
Proof.
  intros Hf Hd. unfold apply, is_tombstone. cbn [deleted fields with_tag record_name]. rewrite Hd.
  by rewrite bool_decide_false.
Qed.

Section Photo.
Context (iter : RecordSet -> list (string * NativeRecord)) (Hiter : forall m, iter m ≡ₚ map_to_list m).
Context (p : RemotePhoto) (ra rm : option string) (Hp : photo_ok p).

Definition pair_live : RecordSet := <[photo_id p := tagged_asset p ra]> {[master_id p := tagged_master p rm]}.

Lemma pair_named : named pair_live.
Proof.
  unfold pair_live. intros k r [[<- <-]|[_ [<- <-]%lookup_singleton_Some]]%lookup_insert_Some; done.
Qed.
Lemma pair_lookup k r : pair_live !! k = Some r ->
  (k = photo_id p /\ r = tagged_asset p ra) \/ (k = master_id p /\ r = tagged_master p rm).
Proof. unfold pair_live. intros [[<- <-]|[_ [<- <-]%lookup_singleton_Some]]%lookup_insert_Some; eauto. Qed.
Lemma pair_assets : filter (fun kr : string * NativeRecord => record_type kr.2 = Some ASSET_RECORD_TYPE) pair_live
  = {[photo_id p := tagged_asset p ra]}.
Proof using Hp.
  apply map_eq. intros k. apply option_eq. intros r. rewrite map_lookup_filter_Some, lookup_singleton_Some. cbn. split.
  - intros [[[-> ->]|[-> ->]]%pair_lookup Ht]; [done|]. by injection Ht.
  - intros [<- <-]. split; [|done]. apply lookup_insert_eq.
Qed.
Lemma pair_master : filter (fun kr : string * NativeRecord => record_type kr.2 = Some MASTER_RECORD_TYPE) pair_live
  !! master_id p = Some (tagged_master p rm).
Proof using Hp.
  apply map_lookup_filter_Some. split; [|done]. unfold pair_live.
  rewrite lookup_insert_ne by apply Hp. apply lookup_singleton_eq.
Qed.

Lemma pair_projects zone :
  project_asset zone (filter (fun kr : string * NativeRecord => record_type kr.2 = Some MASTER_RECORD_TYPE) pair_live)
    (photo_id p) (tagged_asset p ra) = inr (master_id p, p).
Proof using Hp.
  unfold project_asset, Records.pair_master.
  change (reference_target (fields (tagged_asset p ra)) "masterRef") with (Some (master_id p)).
  cbn [ok_or mbind Checked_bind]. rewrite pair_master. cbn [ok_or mbind Checked_bind zone_id with_tag master_record check].
  change (string_field (fields (tagged_master p rm)) "photoId") with (Some (photo_id p)).
  cbn [ok_or mbind Checked_bind]. rewrite bool_decide_true by done.
  unfold mret, Checked_ret. cbn [check mbind Checked_bind].
  change (string_field (fields (tagged_master p rm)) "contentGeneration") with (Some (content_generation p)).
  change (string_field (fields (tagged_asset p ra)) "contentGeneration") with (Some (content_generation p)).
  cbn iota. rewrite decide_True by done. by rewrite (build_photo_back p ra rm Hp).
Qed.

Lemma pair_graph zone : exists g, to_graph iter zone pair_live = inr g /\ photos g = [p].
Proof using Hp Hiter.
  eexists. split.
  - apply to_graph_spec; [done|apply pair_named|]. split.
    { unfold tagged. apply Forall_forall. intros [k r] Hin [Hm Ha]. rewrite Hiter in Hin.
      apply elem_of_map_to_list, pair_lookup in Hin as [[-> ->]|[-> ->]]; [by destruct Ha|by destruct Hm]. }
    exists [(master_id p, p)]. split_and!; [| | |done].
    + rewrite pair_assets. pose proof (Hiter {[photo_id p := tagged_asset p ra]}) as Hs.
      rewrite map_to_list_singleton in Hs. apply Permutation_singleton_r in Hs. rewrite Hs.
      constructor; [apply pair_projects|constructor].
    + apply NoDup_singleton.
    + intros k r [[-> ->]|[-> ->]]%pair_lookup Ht; [by injection Ht|]. cbn. by left.
  - done.
Qed.
End Photo.

(** [save_photo] then [load_photo] gives the photo back. *)
Lemma photo_survives iter rows ra rm p :
  (forall m, iter m ≡ₚ map_to_list m) -> photo_ok p ->
  exists first second, save_photo rows ra rm p = Ok (first, second) /\ load_photo iter [first; second] = Ok (Some p).
Proof.
  intros Hiter Hp. unfold save_photo.
  rewrite master_document_request, (request_decodes _ (master_request_ok p rm Hp)). cbn [ok_or_err mbind result_bind].
  rewrite asset_document_request, (request_decodes _ (asset_request_ok p ra Hp)). cbn [ok_or_err mbind result_bind].
  destruct (request_record_survives rows.1 _ (master_request_ok p rm Hp)) as (first & Hf & Hlf).
  destruct (request_record_survives rows.2 _ (asset_request_ok p ra Hp)) as (second & Hs & Hls).
  rewrite Hf. cbn [mbind result_bind]. rewrite Hs. cbn [mbind result_bind]. exists first, second. split; [done|].
  unfold load_photo. cbn [mapM mbind option_bind mret option_ret]. rewrite Hlf. cbn [mapM mbind option_bind mret option_ret]. rewrite Hls.
  cbn [mbind option_bind mret option_ret ok_or_err result_bind fold_left].
  rewrite master_record_of, asset_record_of, !with_tag_live by done. cbn [record_name master_record asset_record].
  rewrite insert_empty. fold (pair_live p ra rm).
  destruct (pair_graph iter Hiter p ra rm Hp (mkZone "PrimarySync" DEFAULT_OWNER)) as (g & -> & ->). done.
Qed.

(** ** Claims *)
(** The typed columns hold exactly the typed fields. A field document is
    read back from its columns as it was saved if and only if it is the encoding
    of a typed field (text, an [i64], a reference, an asset, or null, with its
    optional type): nothing of that shape is lost, and nothing else is taken for
    it. *)
Theorem columns_type_fields field : survives field <-> exists d, field_ok d /\ field = encode_field d.
Proof. apply survives_typed. Qed.

(** A request survives its row. Saving the document of any typed request -
    each member present, null or absent - over any earlier row and loading it
    gives the same document, byte shape included. *)
Theorem request_roundtrip existing d : request_ok d ->
  exists row, save_value existing (encode_request d) = Ok row /\ load_value row = Some (encode_request d).
Proof. apply request_survives. Qed.

(** C33: A photo survives its pair of rows. Saving a validated photo as its
    master and asset rows and loading them, in any iteration order of the record
    set, gives the same photo, whatever revisions it was saved at and whatever
    was in the rows before. *)
Theorem photo_roundtrip iter rows ra rm p :
  (forall m, iter m ≡ₚ map_to_list m) -> photo_ok p ->
  exists first second, save_photo rows ra rm p = Ok (first, second) /\ load_photo iter [first; second] = Ok (Some p).
Proof. apply photo_survives. Qed.

Lemma sample_photo_ok : photo_ok Records.Sample.photo.
Proof.
  assert (Ha : forall id, asset_ok (mkAsset id 11 Records.Sample.zero_base64 "image/jpeg" None None)).
  { intros id. repeat split; [done|done|done..|]. exists Records.Sample.zero_hex. by vm_compute. }
  constructor; try done.
  - apply Ha.
  - apply Ha.
  - intros c [[= <-]|[[=]|[=]]]. by split.
Qed.
Lemma photo_roundtrip_witness :
  exists first second, save_photo (None, None) (Some "a1"%string) None Records.Sample.photo = Ok (first, second) /\
    load_photo map_to_list [first; second] = Ok (Some Records.Sample.photo).
Proof. apply photo_roundtrip; [done|apply sample_photo_ok]. Defined.
Lemma request_roundtrip_witness :
  exists row, save_value None (encode_request (asset_request Records.Sample.photo None)) = Ok row /\
    load_value row = Some (encode_request (asset_request Records.Sample.photo None)).
Proof. apply request_roundtrip, asset_request_ok, sample_photo_ok. Defined.
End TypedRecords.
