(* ===== verification/IssuedStore.v ===== *)
(** Issued evidence in typed columns ([sync/store/issued.rs]).

    An operation sent to the service is stored first, in typed columns of its
    task row and in record rows for its request, so that it can be sent again
    unchanged. [columns] is what [write] stores and [read] what comes back;
    [write] refuses an operation that would not come back equal. *)
From Stdlib Require Import Ascii String.
From S2P Require Import Prelude.
From S2P Require Import Json.
From S2P Require Import SyncDb.
From S2P Require Import NativeRecords.
From S2P Require Import TypedRecords.
Import Json.
Local Open Scope Z_scope.
Local Open Scope json_scope.

Module IssuedStore.
Import Records TypedRecords.

Definition invalid (message : string) : AppError :=
  Backend ("invalid issued operation state: " +:+ message).

Definition member_kind (value : option Value) : Z :=
  match value with None => 0 | Some Null => 1 | Some _ => 2 end.
Definition put_member (target : Map) (name : string) (kind : Z) (value : Value) : Map :=
  if kind =? 0 then target else put name (if kind =? 1 then Null else value) target.

(** A row of [sync_task_resources], with the record of its asset. *)
Record ResourceRow := mkResourceRow {
  rr_present : bool;
  rr_mask : Z;
  rr_path : option string;
  rr_hex : option string;
  rr_base64 : option string;
  rr_size : option Z;
  rr_session : option string;
  rr_asset_kind : Z;
  rr_asset : option RecordRow
}.

(** The capture columns of a task and the record rows of its operation. *)
Record Capture := mkCapture {
  c_job : Z;
  c_entry : Z;
  c_config : Z;
  c_generation : string;
  c_phase : string;
  c_versions : Versions;
  c_dirty : Z;
  c_photo : string;
  c_master : string;
  c_content_generation : string;
  c_body : bool;
  c_zone_kind : Z;
  c_zone_name : option string;
  c_zone_owner : option string;
  c_atomic_present : bool;
  c_atomic : option bool;
  c_operations_kind : Z;
  c_prep : bool;
  c_metadata_kind : Z;
  c_events_kind : Z;
  c_resources_kind : Z;
  c_send_present : bool;
  c_send : option bool;
  c_asset_revision_present : bool;
  c_asset_revision : option string;
  c_master_revision_present : bool;
  c_master_revision : option string;
  c_operations : list (option string * RecordRow);
  c_prepared : RecordRow;
  c_resources : list (string * ResourceRow)
}.

(** The request records, in order; rows of an earlier write were cleared. *)
Fixpoint save_operations (operations : list Value) : result (list (option string * RecordRow)) :=
  match operations with
  | [] => Ok []
  | operation :: rest =>
      row ← save_value None operation.["record"];
      rows ← save_operations rest;
      Ok ((as_str operation.["operationType"], row) :: rows)
  end.

(** The record that holds prepared metadata and events. *)
Definition prepared_document (photo : string) (metadata events : option Value) : Value :=
  let prepared := Obj [("recordName"%string, Str photo)] in
  let prepared := match metadata with Some m => assign prepared "fields" m | None => prepared end in
  match events with Some e => assign prepared "_syncserver" e | None => prepared end.

Definition RESOURCE_KEYS : list string := ["path"; "hex"; "base64"; "size"; "session"; "asset"]%string.
Definition save_resource (photo role : string) (resource : Value) : result ResourceRow :=
  _ ← (if bool_decide (role = "original"%string) || bool_decide (role = "thumbnail"%string)
       then Ok tt else Err (invalid "unknown prepared resource role"));
  asset ← match member resource "asset" with
          | None | Some Null => Ok None
          | Some asset =>
              row ← save_value None
                (obj [("recordName", Str photo); ("fields", obj [("asset", typed_field "ASSETID" asset)])]%string);
              Ok (Some row)
          end;
  Ok (mkResourceRow (negb (is_null resource)) (shape_of RESOURCE_KEYS 0 resource)
        (as_str resource.["path"]) (as_str resource.["hex"]) (as_str resource.["base64"])
        (as_i64 resource.["size"]) (as_str resource.["session"]) (member_kind (member resource "asset")) asset).
Fixpoint save_resources (photo : string) (resources : Map) : result (list (string * ResourceRow)) :=
  match resources with
  | [] => Ok []
  | (role, resource) :: rest =>
      row ← save_resource photo role resource;
      rows ← save_resources photo rest;
      Ok ((role, row) :: rows)
  end.

(** An absent or null member, or one of the right shape. *)
Definition member_shape (shape : Value -> bool) (v : Value) (name : string) : bool :=
  match member v name with Some m => is_null m || shape m | None => true end.
Definition guard (b : bool) (e : AppError) : result unit := if b then Ok tt else Err e.

(** What [write] stores. *)
Definition columns (issued : Issued) : result Capture :=
  let body := i_body issued in
  let prep := i_preparation issued in
  _ ← guard (is_null body || is_object body) (invalid "request body must be an object");
  _ ← guard (is_null prep || is_object prep) (invalid "preparation must be an object");
  _ ← guard (forallb (member_shape is_object prep) ["metadata"; "events"; "resources"]%string)
        (invalid "preparation member must be an object");
  _ ← guard (member_shape is_array body "operations") (invalid "operations must be an array");
  operations ← match as_array body.["operations"] with Some l => save_operations l | None => Ok [] end;
  prepared ← save_value None (prepared_document (i_photo issued) (member prep "metadata") (member prep "events"));
  resources ← match member prep "resources" ≫= as_object with
              | Some m => save_resources (i_photo issued) m | None => Ok [] end;
  Ok (mkCapture (i_job issued) (i_entry issued) (i_config issued) (i_generation issued) (i_phase issued)
        (i_versions issued) (i_dirty issued) (i_photo issued) (i_master issued) (i_content_generation issued)
        (negb (is_null body)) (member_kind (member body "zoneID"))
        (as_str body.["zoneID"].["zoneName"]) (as_str body.["zoneID"].["ownerRecordName"])
        (bool_decide (is_Some (member body "atomic"))) (as_bool body.["atomic"])
        (member_kind (member body "operations"))
        (negb (is_null prep)) (member_kind (member prep "metadata")) (member_kind (member prep "events"))
        (member_kind (member prep "resources"))
        (bool_decide (is_Some (member prep "sendMetadata"))) (as_bool prep.["sendMetadata"])
        (bool_decide (is_Some (member prep "assetRevision"))) (as_str prep.["assetRevision"])
        (bool_decide (is_Some (member prep "masterRevision"))) (as_str prep.["masterRevision"])
        operations prepared resources).

(** ** Reading back *)
Definition read_body (c : Capture) : option Value :=
  if c_body c then
    operations ← mapM (fun kr : option string * RecordRow =>
      record ← load_value kr.2; Some (Obj (put_opt Str "operationType" kr.1 [("record"%string, record)]))) (c_operations c);
    let m := put_member [] "zoneID" (c_zone_kind c)
               (obj [("zoneName", opt_value Str (c_zone_name c)); ("ownerRecordName", opt_value Str (c_zone_owner c))]%string) in
    let m := if c_atomic_present c then put "atomic" (opt_value Bool (c_atomic c)) m else m in
    Some (Obj (put_member m "operations" (c_operations_kind c) (Arr operations)))
  else Some Null.

Definition read_resource (row : ResourceRow) : option Value :=
  if rr_present row then
    asset ← match rr_asset row with
            | Some record => v ← load_value record; Some v.["fields"].["asset"].["value"]
            | None => Some Null end;
    let bit i name (v : Value) (m : Map) := if has_bit (rr_mask row) i then put name v m else m in
    let m := bit 0 "path"%string (opt_value Str (rr_path row)) [] in
    let m := bit 1 "hex"%string (opt_value Str (rr_hex row)) m in
    let m := bit 2 "base64"%string (opt_value Str (rr_base64 row)) m in
    let m := bit 3 "size"%string (opt_value Int (rr_size row)) m in
    let m := bit 4 "session"%string (opt_value Str (rr_session row)) m in
    Some (Obj (put_member m "asset" (rr_asset_kind row) asset))
  else Some Null.
Definition read_preparation (c : Capture) : option Value :=
  if c_prep c then
    prepared ← load_value (c_prepared c);
    resources ← mapM (fun kr : string * ResourceRow => v ← read_resource kr.2; Some (kr.1, v)) (c_resources c);
    let m := put_member [] "metadata" (c_metadata_kind c) prepared.["fields"] in
    let m := put_member m "events" (c_events_kind c) prepared.["_syncserver"] in
    let m := if c_send_present c then put "sendMetadata" (opt_value Bool (c_send c)) m else m in
    let m := if c_asset_revision_present c then put "assetRevision" (opt_value Str (c_asset_revision c)) m else m in
    let m := if c_master_revision_present c then put "masterRevision" (opt_value Str (c_master_revision c)) m else m in
    Some (Obj (put_member m "resources" (c_resources_kind c) (obj resources)))
  else Some Null.

(** [read], of the columns of the operation with this id. *)
Definition read (operation : string) (c : Capture) : option Issued :=
  body ← read_body c;
  prep ← read_preparation c;
  Some (mkIssued operation (c_job c) (c_config c) (c_entry c) (c_generation c) (c_phase c) (c_versions c) (c_dirty c)
          (c_photo c) (c_master c) (c_content_generation c) body prep).

(** [write]: the columns, refused when they do not read back as the operation. *)
Definition write (issued : Issued) : result Capture :=
  c ← columns issued;
  _ ← guard (bool_decide (read (i_id issued) c = Some issued))
        (invalid "operation cannot be represented losslessly in typed fields");
  Ok c.
(** ** Operations the columns can hold *)
Record BodyDoc := mkBodyDoc {
  b_zone : Presence (option string * option string);   (* name and owner *)
  b_atomic : option (option bool);
  b_operations : Presence (list (option string * RequestDoc))
}.
Record ResourceDoc := mkResourceDoc {
  rd_path : option (option string);
  rd_hex : option (option string);
  rd_base64 : option (option string);
  rd_size : option (option Z);
  rd_session : option (option string);
  rd_asset : Presence FieldValue
}.
Record PrepDoc := mkPrepDoc {
  p_metadata : Presence (list (string * FieldDoc));
  p_events : Presence EventsDoc;
  p_send : option (option bool);
  p_asset_revision : option (option string);
  p_master_revision : option (option string);
  p_resources : Presence (list (string * option ResourceDoc))
}.

Definition encode_operation (op : option string * RequestDoc) : Value :=
  Obj (assemble [("operationType", Str <$> op.1); ("record", Some (encode_request op.2))]%string).
Definition encode_zone (z : option string * option string) : Value :=
  Obj [("ownerRecordName", opt_value Str z.2); ("zoneName", opt_value Str z.1)]%string.
Definition encode_body (d : BodyDoc) : Value :=
  Obj (assemble [("atomic", opt_value Bool <$> b_atomic d);
                 ("operations", presence_value (fun l => Arr (encode_operation <$> l)) (b_operations d));
                 ("zoneID", presence_value encode_zone (b_zone d))]%string).
Definition resource_members (d : ResourceDoc) : Members :=
  [("asset", presence_value encode_value (rd_asset d)); ("base64", opt_value Str <$> rd_base64 d);
   ("hex", opt_value Str <$> rd_hex d); ("path", opt_value Str <$> rd_path d);
   ("session", opt_value Str <$> rd_session d); ("size", opt_value Int <$> rd_size d)]%string.
Definition encode_resource (d : option ResourceDoc) : Value :=
  match d with Some d => Obj (assemble (resource_members d)) | None => Null end.
Definition encode_prep (d : PrepDoc) : Value :=
  Obj (assemble [("assetRevision", opt_value Str <$> p_asset_revision d);
                 ("events", presence_value encode_events (p_events d));
                 ("masterRevision", opt_value Str <$> p_master_revision d);
                 ("metadata", presence_value encode_fields (p_metadata d));
                 ("resources", presence_value (fun l => Obj (prod_map id encode_resource <$> l)) (p_resources d));
                 ("sendMetadata", opt_value Bool <$> p_send d)]%string).

Definition opt_doc {A} (encode : A -> Value) (o : option A) : Value :=
  match o with Some d => encode d | None => Null end.

(** The resource roles a map can have, in key order. *)
Definition roles_ok (l : list (string * option ResourceDoc)) : Prop :=
  l.*1 ∈ [[]; ["original"]; ["thumbnail"]; ["original"; "thumbnail"]]%string.
Definition resource_ok (d : option ResourceDoc) : Prop :=
  forall r, d = Some r ->
    (forall n, rd_size r = Some (Some n) -> is_i64 n) /\
    (forall v, rd_asset r = Given v -> value_ok v /\ v <> VNull).
Definition body_ok (d : option BodyDoc) : Prop :=
  forall b l, d = Some b -> b_operations b = Given l -> Forall (fun op => request_ok op.2) l.
(** The prepared metadata and events as a request of their own. *)
Definition prepared_request (photo : string) (d : option PrepDoc) : RequestDoc :=
  mkRequestDoc photo Absent Absent Absent
    (match d with Some p => p_metadata p | None => Absent end)
    (match d with Some p => p_events p | None => Absent end) None.
Definition prep_ok (d : option PrepDoc) : Prop :=
  request_ok (prepared_request "" d) /\
  forall p l, d = Some p -> p_resources p = Given l -> roles_ok l /\ Forall (fun kr => resource_ok kr.2) l.

(** *** Operations *)
Lemma save_operations_survive l :
  Forall (fun op => request_ok op.2) l ->
  exists rows, save_operations (encode_operation <$> l) = Ok rows /\
    mapM (fun kr : option string * RecordRow =>
      record ← load_value kr.2; Some (Obj (put_opt Str "operationType" kr.1 [("record"%string, record)]))) rows
    = Some (encode_operation <$> l).
Proof.
  induction 1 as [|[kind d] l Hd _ (rows & Hrows & Hback)]; [by exists []|].
  destruct (request_survives None d Hd) as (row & Hsave & Hload).
  exists ((kind, row) :: rows). rewrite fmap_cons. cbn [save_operations].
  replace ((encode_operation (kind, d)).["record"]) with (encode_request d) by (by destruct kind).
  replace (as_str (encode_operation (kind, d)).["operationType"]) with kind by (by destruct kind).
  rewrite Hsave. cbn [mbind result_bind]. rewrite Hrows. split; [done|].
  cbn [mapM]. cbn [snd]. rewrite Hload. cbn [mbind option_bind fst]. rewrite Hback. by destruct kind.
Qed.

Lemma read_body_back d c operations :
  match d with Some b => match b_operations b with Given l =>
     mapM (fun kr : option string * RecordRow =>
      record ← load_value kr.2; Some (Obj (put_opt Str "operationType" kr.1 [("record"%string, record)]))) operations
    = Some (encode_operation <$> l) | _ => operations = [] end | None => True end ->
  let body := opt_doc encode_body d in
  c_body c = negb (is_null body) -> c_zone_kind c = member_kind (member body "zoneID") ->
  c_zone_name c = as_str body.["zoneID"].["zoneName"] -> c_zone_owner c = as_str body.["zoneID"].["ownerRecordName"] ->
  c_atomic_present c = bool_decide (is_Some (member body "atomic")) -> c_atomic c = as_bool body.["atomic"] ->
  c_operations_kind c = member_kind (member body "operations") -> c_operations c = operations ->
  read_body c = Some body.
Proof.
  intros Hops body Hb Hzk Hzn Hzo Hap Ha Hok Ho. subst body. unfold read_body. rewrite Hb, Hzk, Hzn, Hzo, Hap, Ha, Hok, Ho.
  destruct d as [[zone atomic ops]|]; [|done]. cbn [opt_doc b_operations] in *.
  destruct ops as [| |l].
  3: rewrite Hops.
  1,2: subst operations.
  all: destruct atomic as [[[]|]|], zone as [| |[[?|] [?|]]]; vm_compute; reflexivity.
Qed.
(** *** Resources *)
Definition asset_request_of (photo : string) (v : FieldValue) : RequestDoc :=
  mkRequestDoc photo Absent Absent Absent (Given [("asset"%string, Some (Some "ASSETID"%string, Some v))]) Absent None.
Lemma asset_request_document photo v :
  obj [("recordName", Str photo); ("fields", obj [("asset", typed_field "ASSETID" (encode_value v))])]%string
  = encode_request (asset_request_of photo v).
Proof. done. Qed.
Lemma asset_request_of_ok photo v : value_ok v -> request_ok (asset_request_of photo v).
Proof. intros Hv. split; [|done]. intros l [= <-]. by constructor. Qed.
Lemma encode_value_null v : v <> VNull -> encode_value v <> Null.
Proof. by destruct v. Qed.

(** The members of a resource, put back one by one under their presence bits. *)
Definition shown {A} (encode : A -> Value) (decode : Value -> option A) (o : option Value) : option Value :=
  if bool_decide (is_Some o) then Some (opt_value encode (decode (default Null o))) else None.
Lemma shown_back {A} (encode : A -> Value) decode (o : option (option A)) :
  (forall a, o = Some (Some a) -> decode (encode a) = Some a) -> decode Null = None ->
  shown encode decode (opt_value encode <$> o) = opt_value encode <$> o.
Proof.
  intros Hd Hn. unfold shown. destruct o as [[a|]|]; cbn; [by rewrite Hd|by rewrite Hn|done].
Qed.
Lemma member_kind_put (p : Presence FieldValue) m :
  (forall v, p = Given v -> v <> VNull) ->
  put_member m "asset" (member_kind (presence_value encode_value p))
    (match p with Given v => encode_value v | _ => Null end)
  = match presence_value encode_value p with Some v => put "asset" v m | None => m end.
Proof. intros Hp. destruct p as [| |v]; [done|done|]. specialize (Hp v eq_refl). by destruct v. Qed.

Definition EMPTY_RESOURCE : Members :=
  [("asset", None); ("base64", None); ("hex", None); ("path", None); ("session", None); ("size", None)]%string.
Ltac put_next := rewrite put_when by (sorted_keys || (cbn; set_solver) || done); unfold assign_key;
  cbn [fmap list_fmap fst snd]; key_cases.
Lemma read_resource_members r :
  (forall n, rd_size r = Some (Some n) -> is_i64 n) -> (forall v, rd_asset r = Given v -> value_ok v /\ v <> VNull) ->
  let resource := encode_resource (Some r) in
  let bit i name (v : Value) (m : Map) := if has_bit (shape_of RESOURCE_KEYS 0 resource) i then put name v m else m in
  let m := bit 0 "path"%string (opt_value Str (as_str resource.["path"])) [] in
  let m := bit 1 "hex"%string (opt_value Str (as_str resource.["hex"])) m in
  let m := bit 2 "base64"%string (opt_value Str (as_str resource.["base64"])) m in
  let m := bit 3 "size"%string (opt_value Int (as_i64 resource.["size"])) m in
  let m := bit 4 "session"%string (opt_value Str (as_str resource.["session"])) m in
  Obj (put_member m "asset" (member_kind (member resource "asset"))
        (match rd_asset r with Given v => encode_value v | _ => Null end)) = resource.
Proof.
  intros Hsize Hasset resource bit.
  assert (Hbit : forall i key, nth_error RESOURCE_KEYS (Z.to_nat i) = Some key -> 0 <= i ->
    has_bit (shape_of RESOURCE_KEYS 0 resource) i = bool_decide (is_Some (lookup_key (resource_members r) key))).
  { intros i key Hn Hi. apply (shape_for_assemble RESOURCE_KEYS (resource_members r)) in Hn; [|sorted_keys].
    by rewrite Z2Nat.id in Hn. }
  assert (Hget : forall key, member resource key = lookup_key (resource_members r) key).
  { intros key. unfold member. subst resource. cbn [encode_resource as_object mbind option_bind].
    by rewrite get_assemble by sorted_keys. }
  subst bit. cbn beta zeta. unfold index. rewrite !Hget.
  rewrite (Hbit 0 _ eq_refl), (Hbit 1 _ eq_refl), (Hbit 2 _ eq_refl), (Hbit 3 _ eq_refl), (Hbit 4 _ eq_refl) by lia.
  clear Hbit Hget. unfold resource_members. cbn [lookup_key]. key_cases. change (@nil (string * Value)) with (assemble EMPTY_RESOURCE).
  unfold EMPTY_RESOURCE. do 5 put_next.
  rewrite member_kind_put by (intros v Hv; by apply Hasset).
  fold (shown Str as_str (opt_value Str <$> rd_path r)) (shown Str as_str (opt_value Str <$> rd_hex r))
    (shown Str as_str (opt_value Str <$> rd_base64 r)) (shown Int as_i64 (opt_value Int <$> rd_size r))
    (shown Str as_str (opt_value Str <$> rd_session r)).
  rewrite !(shown_back Str) by done. rewrite (shown_back Int) by (done || (intros n Hn; by apply as_i64_Some, Hsize)).
  subst resource. cbn [encode_resource]. unfold resource_members. f_equal.
  destruct (presence_value encode_value (rd_asset r)); [|done].
  rewrite put_assemble by (sorted_keys || (cbn; set_solver)). unfold assign_key. cbn [fmap list_fmap fst snd]. by key_cases.
Qed.

Lemma resource_survives photo role d :
  role = "original"%string \/ role = "thumbnail"%string -> resource_ok d ->
  exists row, save_resource photo role (encode_resource d) = Ok row /\ read_resource row = Some (encode_resource d).
Proof.
  intros Hrole Hd. unfold save_resource.
  replace (bool_decide _ || bool_decide _) with true
    by (destruct Hrole as [-> | ->]; [by rewrite bool_decide_true by done|by rewrite orb_comm, bool_decide_true by done]).
  cbn [mbind result_bind]. destruct d as [r|]; [|by eexists]. destruct (Hd r eq_refl) as [Hsize Hasset]. clear Hd.
  assert (Ha : exists asset, match member (encode_resource (Some r)) "asset" with
      | None | Some Null => Ok None
      | Some asset => row ← save_value None
          (obj [("recordName", Str photo); ("fields", obj [("asset", typed_field "ASSETID" asset)])]%string); Ok (Some row)
      end = Ok asset /\
      match asset with
      | Some record => v ← load_value record; Some v.["fields"].["asset"].["value"]
      | None => Some Null end = Some (match rd_asset r with Given v => encode_value v | _ => Null end)).
  { replace (member (encode_resource (Some r)) "asset") with (presence_value encode_value (rd_asset r)).
    2: { unfold member. cbn [encode_resource as_object mbind option_bind]. by rewrite get_assemble by sorted_keys. }
    destruct (rd_asset r) as [| |v]; [by exists None|by exists None|]. destruct (Hasset v eq_refl) as [Hok Hne].
    destruct (request_survives None _ (asset_request_of_ok photo v Hok)) as (row & Hrow & Hload).
    exists (Some row). cbn [presence_value]. rewrite Hload. split; [|by destruct v].
    rewrite asset_request_document, Hrow. by destruct v. }
  destruct Ha as (asset & -> & Hback). cbn [mbind result_bind]. eexists. split; [done|].
  unfold read_resource. cbn [rr_present rr_asset rr_mask rr_path rr_hex rr_base64 rr_size rr_session rr_asset_kind].
  rewrite Hback. cbn [mbind option_bind].
  f_equal. exact (read_resource_members r Hsize Hasset).
Qed.
Lemma save_resources_survive photo l :
  Forall (fun kr : string * option ResourceDoc => kr.1 = "original"%string \/ kr.1 = "thumbnail"%string) l ->
  Forall (fun kr => resource_ok kr.2) l ->
  exists rows, save_resources photo (prod_map id encode_resource <$> l) = Ok rows /\
    mapM (fun kr : string * ResourceRow => v ← read_resource kr.2; Some (kr.1, v)) rows
    = Some (prod_map id encode_resource <$> l).
Proof.
  intros Hroles Hok. induction Hroles as [|[role d] l Hrole _ IH]; [by exists []|].
  inversion_clear Hok as [|?? Hd Hok']. destruct (IH Hok') as (rows & Hrows & Hback).
  destruct (resource_survives photo role d Hrole Hd) as (row & Hrow & Hread).
  exists ((role, row) :: rows). rewrite fmap_cons. cbn [prod_map fst snd id save_resources].
  rewrite Hrow. cbn [mbind result_bind]. rewrite Hrows. split; [done|].
  cbn [mapM]. cbn [snd]. rewrite Hread. cbn [mbind option_bind fst]. rewrite Hback. done.
Qed.
Lemma roles_ok_sorted l : roles_ok l ->
  obj (prod_map id encode_resource <$> l) = Obj (prod_map id encode_resource <$> l) /\
  Forall (fun kr : string * option ResourceDoc => kr.1 = "original"%string \/ kr.1 = "thumbnail"%string) l.
Proof.
  unfold roles_ok. rewrite !elem_of_cons, elem_of_nil. intros [Hl|[Hl|[Hl|[Hl|[]]]]].
  - apply fmap_nil_inv in Hl as ->. by split; [|constructor].
  - destruct l as [|[a d] [|]]; try discriminate Hl. injection Hl as ->. split; [done|]. by repeat constructor.
  - destruct l as [|[a d] [|]]; try discriminate Hl. injection Hl as ->. split; [done|]. constructor; [by right|constructor].
  - destruct l as [|[a d] [|[b e] [|]]]; try discriminate Hl. injection Hl as -> ->. split; [done|].
    constructor; [by left|constructor; [by right|constructor]].
Qed.

(** *** Preparations *)
Lemma prepared_document_request photo d :
  prepared_document photo (member (opt_doc encode_prep d) "metadata") (member (opt_doc encode_prep d) "events")
  = encode_request (prepared_request photo d).
Proof.
  destruct d as [d|]; [|done]. unfold member. cbn [opt_doc encode_prep as_object mbind option_bind].
  rewrite !get_assemble by sorted_keys. cbn [lookup_key]. key_cases. unfold prepared_request.
  destruct (p_metadata d), (p_events d); done.
Qed.
Lemma prepared_request_ok photo d : prep_ok d -> request_ok (prepared_request photo d).
Proof. intros [H _]. exact H. Qed.

Lemma read_preparation_back photo d c resources :
  load_value (c_prepared c) = Some (encode_request (prepared_request photo d)) ->
  mapM (fun kr : string * ResourceRow => v ← read_resource kr.2; Some (kr.1, v)) (c_resources c) = Some resources ->
  (forall p l, d = Some p -> p_resources p = Given l ->
     obj resources = Obj (prod_map id encode_resource <$> l)) ->
  let prep := opt_doc encode_prep d in
  c_prep c = negb (is_null prep) -> c_metadata_kind c = member_kind (member prep "metadata") ->
  c_events_kind c = member_kind (member prep "events") -> c_resources_kind c = member_kind (member prep "resources") ->
  c_send_present c = bool_decide (is_Some (member prep "sendMetadata")) -> c_send c = as_bool prep.["sendMetadata"] ->
  c_asset_revision_present c = bool_decide (is_Some (member prep "assetRevision")) ->
  c_asset_revision c = as_str prep.["assetRevision"] ->
  c_master_revision_present c = bool_decide (is_Some (member prep "masterRevision")) ->
  c_master_revision c = as_str prep.["masterRevision"] ->
  read_preparation c = Some prep.
Proof.
  intros Hload Hres Hobj prep Hp Hm He Hr Hsp Hs Hap Ha Hmp Hma. unfold read_preparation.
  rewrite Hload, Hres, Hp, Hm, He, Hr, Hsp, Hs, Hap, Ha, Hmp, Hma. clear - Hobj. subst prep.
  destruct d as [d|]; [|done]. unfold index, member.
  cbn [opt_doc encode_prep is_null negb encode_request as_object mbind option_bind].
  rewrite !get_assemble by sorted_keys. cbn [lookup_key prepared_request request_members d_fields d_events]. key_cases.
  specialize (Hobj d). destruct d as [metadata events send arev mrev res].
  cbn [p_metadata p_events p_send p_asset_revision p_master_revision p_resources] in *.
  destruct res as [| |l]; [| |rewrite (Hobj l eq_refl eq_refl)].
  all: destruct metadata, events, send as [[?|]|], arev as [[?|]|], mrev as [[?|]|]; reflexivity.
Qed.
(** *** The whole operation *)
Lemma body_shape d :
  is_null (opt_doc encode_body d) || is_object (opt_doc encode_body d) = true /\
  member_shape is_array (opt_doc encode_body d) "operations" = true.
Proof. destruct d as [[[| |?] [?|] [| |?]]|]; done. Qed.
Lemma prep_shape d :
  is_null (opt_doc encode_prep d) || is_object (opt_doc encode_prep d) = true /\
  forallb (member_shape is_object (opt_doc encode_prep d)) ["metadata"; "events"; "resources"]%string = true.
Proof.
  destruct d as [d|]; [|done]. split; [done|]. cbn [forallb]. unfold member_shape, member.
  cbn [opt_doc encode_prep as_object mbind option_bind]. rewrite !get_assemble by sorted_keys.
  cbn [lookup_key]. key_cases. by destruct (p_metadata d), (p_events d), (p_resources d).
Qed.
Lemma body_operations d :
  as_array (opt_doc encode_body d).["operations"]
  = match d with Some b => match b_operations b with Given l => Some (encode_operation <$> l) | _ => None end | None => None end.
Proof. destruct d as [[[| |?] [?|] [| |?]]|]; done. Qed.
Lemma prep_resources d :
  member (opt_doc encode_prep d) "resources" ≫= as_object
  = match d with Some p => match p_resources p with Given l => Some (prod_map id encode_resource <$> l) | _ => None end
    | None => None end.
Proof.
  destruct d as [d|]; [|done]. unfold member. cbn [opt_doc encode_prep as_object mbind option_bind].
  rewrite !get_assemble by sorted_keys. cbn [lookup_key]. key_cases. by destruct (p_resources d).
Qed.

Lemma columns_survive issued body prep :
  i_body issued = opt_doc encode_body body -> i_preparation issued = opt_doc encode_prep prep ->
  body_ok body -> prep_ok prep ->
  exists c, columns issued = Ok c /\ read (i_id issued) c = Some issued.
Proof.
  intros Hb Hp Hbok Hpok. unfold columns. rewrite Hb, Hp.
  destruct (body_shape body) as [-> ->], (prep_shape prep) as [-> ->]. cbn [guard mbind result_bind].
  rewrite body_operations, prep_resources, prepared_document_request.
  destruct (request_survives None _ (prepared_request_ok (i_photo issued) prep Hpok)) as (prepared & Hprep & Hload).
  assert (Hops : exists rows,
    match match body with Some b => match b_operations b with Given l => Some (encode_operation <$> l) | _ => None end | None => None end with
    | Some l => save_operations l | None => Ok [] end = Ok rows /\
    match body with Some b => match b_operations b with Given l =>
     mapM (fun kr : option string * RecordRow =>
      record ← load_value kr.2; Some (Obj (put_opt Str "operationType" kr.1 [("record"%string, record)]))) rows
    = Some (encode_operation <$> l) | _ => rows = [] end | None => True end).
  { destruct body as [b|]; [|by exists []]. destruct (b_operations b) as [| |l] eqn:Hl; [by exists []|by exists []|].
    apply save_operations_survive. by apply (Hbok b l). }
  destruct Hops as (rows & Hrows & Hback). rewrite Hrows. cbn [mbind result_bind]. rewrite Hprep. cbn [mbind result_bind].
  assert (Hres : exists res resources,
    match match prep with Some p => match p_resources p with Given l => Some (prod_map id encode_resource <$> l) | _ => None end
          | None => None end with
    | Some m => save_resources (i_photo issued) m | None => Ok [] end = Ok res /\
    mapM (fun kr : string * ResourceRow => v ← read_resource kr.2; Some (kr.1, v)) res = Some resources /\
    (forall p l, prep = Some p -> p_resources p = Given l -> obj resources = Obj (prod_map id encode_resource <$> l))).
  { destruct prep as [p|]; [|by exists [], []]. destruct (p_resources p) as [| |l] eqn:Hl.
    1,2: exists [], []; split_and!; [done|done|]; intros ? ? [= <-]; by rewrite Hl.
    destruct Hpok as [_ Hpok]. destruct (Hpok p l eq_refl Hl) as [Hroles Hrok].
    destruct (roles_ok_sorted l Hroles) as [Hobj Hnames].
    destruct (save_resources_survive (i_photo issued) l Hnames Hrok) as (res & Hs & Hm).
    exists res, (prod_map id encode_resource <$> l). split_and!; [done|done|].
    intros ? ? [= <-]. rewrite Hl. by intros [= <-]. }
  destruct Hres as (res & resources & Hs & Hm & Hobj). rewrite Hs. cbn [mbind result_bind].
  eexists. split; [done|]. unfold read.
  erewrite (read_body_back body _ rows Hback) by done. cbn [mbind option_bind].
  erewrite (read_preparation_back (i_photo issued) prep _ resources) by done. cbn [mbind option_bind].
  f_equal. destruct issued; cbn in *. by subst.
Qed.

(** [write] stores every operation of this form, and whatever it stores reads
    back as the operation. *)
Lemma write_survives issued body prep :
  i_body issued = opt_doc encode_body body -> i_preparation issued = opt_doc encode_prep prep ->
  body_ok body -> prep_ok prep -> exists c, write issued = Ok c.
Proof.
  intros Hb Hp Hbok Hpok. destruct (columns_survive issued body prep Hb Hp Hbok Hpok) as (c & Hc & Hr).
  exists c. unfold write. rewrite Hc. cbn [mbind result_bind]. rewrite Hr. by rewrite bool_decide_true.
Qed.
Lemma write_columns issued c : write issued = Ok c -> columns issued = Ok c.
Proof.
  unfold write. destruct (columns issued) as [c'|]; [|done]. cbn [mbind result_bind].
  destruct (guard _ _); [|done]. by intros [= <-].
Qed.
Lemma write_reads_back issued c : write issued = Ok c -> read (i_id issued) c = Some issued.
Proof.
  unfold write. destruct (columns issued) as [c'|]; [|done]. cbn [mbind result_bind]. unfold guard.
  case_bool_decide as H; [|done]. by intros [= <-].
Qed.
End IssuedStore.
