(* ===== verification/SyncReset.v ===== *)
(** The global opt-out ([sync/store/reset.rs]): a durable reset intent with a
    token, the switch that stops recording local changes, and the command that
    forgets the synchronization history while keeping accounts and jobs. *)
From S2P Require Import Prelude.
From S2P Require Import SyncDb.
Local Open Scope Z_scope.

Module Reset.

Definition KEY_LOCAL_CHANGES : string := "native_sync_local_changes_enabled".

(** [pending]: a reset intent is recorded. *)
Definition pending (db : Db) : bool := bool_decide (is_Some (db_reset db)).

(** [local_changes_enabled]: on unless the setting says ['0']. *)
Definition local_changes_enabled (db : Db) : bool :=
  match db_settings db !! KEY_LOCAL_CHANGES with
  | Some value => negb (bool_decide (value = "0"))
  | None => true
  end.

Definition bump_config (j : Job) : Job := set_j_config (j_config j + 1) j.

(** [begin]. *)
Definition begin (token : string) : Tx Db unit :=
  modify (fun db =>
    set_db_reset (Some (mkReset token None))
      (set_db_settings (<[KEY_LOCAL_CHANGES := "0"]> (db_settings db))
        (set_db_jobs (bump_config <$> db_jobs db) db))).

(** [fail]. *)
Definition fail (token error : string) : Tx Db unit :=
  modify (fun db =>
    set_db_reset
      ((fun r => if bool_decide (reset_token r = token) then set_reset_error (Some error) r else r)
         <$> db_reset db) db).

(** One queued change, installed by [finish]: an explicit removal is honoured,
    a direction or album edit becomes the saved configuration. *)
Definition install_change (id : Z) : Tx Db unit :=
  change ← gets (fun db => db_changes db !! id);
  match change with
  | None => mret tt
  | Some change =>
      if ch_delete change then modify (delete_job_rows id)
      else
        _ ← match ch_direction change with
            | Some d => update_job id (set_j_direction d)
            | None => mret tt
            end;
        _ ← match ch_albums change with
            | Some albums =>
                _ ← replace_albums id albums;
                update_job id (set_j_scope ScopeSelectedAlbums)
            | None => mret tt
            end;
        update_job id (fun j => set_j_config (Z.max (j_config j) (ch_revision change)) j)
  end.

Definition reset_job (j : Job) : Job :=
  set_j_paused false (set_j_config (j_config j + 1)
    (set_j_started None (set_j_completed None (set_j_error None j)))).

(** The batch that forgets the history. *)
Definition forget_history (db : Db) : Db :=
  let db := delete_media (fun _ m => m_location m =? 2) db in
  let db := set_db_media (update_where (fun _ m => m_location m =? 3) (set_m_location 1) (db_media db)) db in
  let db := set_db_publications ∅ db in
  let db := set_db_resources ∅ db in
  let db := set_db_progress ∅ db in
  let db := set_db_bootstrap ∅ db in
  let db := set_db_tasks ∅ db in
  let db := set_db_conflicts ∅ db in
  let db := set_db_entries ∅ db in
  let db := set_db_changes ∅ db in
  set_db_jobs (reset_job <$> db_jobs db) db.

(** [finish]; [false] means the intent is not this token's, and nothing changed. *)
Definition finish (token : string) : Tx Db bool :=
  intent ← gets db_reset;
  match intent with
  | Some intent =>
      if bool_decide (reset_token intent = token) then
        changes ← gets (fun db => fst <$> rows_by_id (db_changes db));
        _ ← for_each changes install_change;
        _ ← modify forget_history;
        _ ← modify (set_db_reset None);
        mret true
      else mret false
  | None => mret false
  end.

(** [resume_local_changes]. *)
Definition resume_local_changes : Tx Db unit :=
  p ← gets pending;
  if (p : bool) then mret tt
  else modify (fun db =>
    match db_settings db !! KEY_LOCAL_CHANGES with
    | Some value => if bool_decide (value = "0")
                    then set_db_settings (<[KEY_LOCAL_CHANGES := "1"]> (db_settings db)) db
                    else db
    | None => db
    end).

(** ** Installing the queued changes *)

(** What installing a change leaves alone. *)
Definition same_outside_jobs (db db' : Db) : Prop :=
  db_media db' = db_media db /\ db_connections db' = db_connections db /\
  db_settings db' = db_settings db /\ db_reset db' = db_reset db.

Lemma same_outside_jobs_refl db : same_outside_jobs db db.
Proof. done. Qed.
Lemma same_outside_jobs_trans db1 db2 db3 :
  same_outside_jobs db1 db2 -> same_outside_jobs db2 db3 -> same_outside_jobs db1 db3.
Proof. unfold same_outside_jobs. intuition congruence. Qed.
(** A queued change is usable: its album list has no duplicates. *)
Definition changes_ok (db : Db) : Prop :=
  forall id ch albums, db_changes db !! id = Some ch -> ch_albums ch = Some albums -> NoDup albums.

Lemma replace_albums_run id albums db :
  NoDup albums ->
  exists albums', replace_albums id albums db = Ok (tt, set_db_albums albums' db) /\
    forall j a, (j, a) ∈ albums' <-> if decide (j = id) then a ∈ albums else (j, a) ∈ db_albums db.
Proof.
  intros Hnd. unfold replace_albums. rewrite (bind_run _ _ _ _ _ eq_refl).
  set (db1 := set_db_albums _ db).
  destruct (for_each_insert_album id albums db1 Hnd) as (db' & Hrun & ->).
  { intros a _ Hin. subst db1. cbn in Hin. apply elem_of_filter in Hin as [Hne _]. by apply Hne. }
  eexists. split; [exact Hrun|]. intros j a. subst db1. cbn [db_albums set_db_albums].
  rewrite elem_of_union, elem_of_list_to_set, list_elem_of_fmap, elem_of_filter. simpl.
  case_decide as Hj; [subst j|]; split; [|by left; eauto| |by right].
  - intros [(y & [= ->] & Hy)|[Hne _]]; [done|congruence].
  - intros [(y & [= ? ->] & Hy)|[_ Hin]]; congruence.
Qed.

(** The saved configuration after a queued edit. *)
Definition install_job (ch : Change) (j : Job) : Job :=
  let j := match ch_direction ch with Some d => set_j_direction d j | None => j end in
  let j := match ch_albums ch with Some _ => set_j_scope ScopeSelectedAlbums j | None => j end in
  set_j_config (Z.max (j_config j) (ch_revision ch)) j.

Definition job_after (change : option Change) (j : Job) : option Job :=
  match change with
  | Some ch => if ch_delete ch then None else Some (install_job ch j)
  | None => Some j
  end.

Lemma install_change_run id db :
  changes_ok db ->
  exists db', install_change id db = Ok (tt, db') /\ same_outside_jobs db db' /\
    (forall k, db_jobs db' !! k = if decide (k = id) then db_jobs db !! id ≫= job_after (db_changes db !! id)
                                  else db_jobs db !! k) /\
    (forall k, k <> id -> db_changes db' !! k = db_changes db !! k) /\ changes_ok db'.
Proof.
  intros Hok. unfold install_change. rewrite (bind_run _ _ _ _ _ eq_refl).
  destruct (db_changes db !! id) as [ch|] eqn:Hch.
  2: { eexists. split; [done|]. split_and!; try done. intros k. case_decide; [|done]. subst.
       by destruct (db_jobs db !! id). }
  unfold job_after. cbn beta iota. destruct (ch_delete ch).
  { eexists. split; [done|]. split_and!; try done.
    - intros k. cbn [delete_job_rows db_jobs set_db_jobs]. case_decide as Hk.
      + subst. rewrite lookup_delete_eq. by destruct (db_jobs db !! id).
      + by rewrite lookup_delete_ne.
    - intros k Hk. cbn. by rewrite lookup_delete_ne.
    - intros k c al. cbn. intros [_ Hc]%lookup_delete_Some. by apply (Hok k c). }
  set (db1 := match ch_direction ch with
              | Some d => set_db_jobs (alter (set_j_direction d) id (db_jobs db)) db | None => db end).
  assert (Hdir : (match ch_direction ch with
      | Some d => update_job id (set_j_direction d) | None => mret tt end) db = Ok (tt, db1))
    by (subst db1; by destruct (ch_direction ch)).
  rewrite (bind_run _ _ _ _ _ Hdir).
  assert (exists albums', (match ch_albums ch with
      | Some albums => _ ← replace_albums id albums; update_job id (set_j_scope ScopeSelectedAlbums)
      | None => mret tt end) db1 = Ok (tt, match ch_albums ch with
        | Some _ => set_db_jobs (alter (set_j_scope ScopeSelectedAlbums) id (db_jobs db1)) (set_db_albums albums' db1)
        | None => db1 end)) as [albums' Hal].
  { destruct (ch_albums ch) as [albums|] eqn:Ha; [|by exists ∅].
    destruct (replace_albums_run id albums db1 (Hok _ _ _ Hch Ha)) as (albums' & Hrun & _).
    exists albums'. by rewrite (bind_run _ _ _ _ _ Hrun). }
  rewrite (bind_run _ _ _ _ _ Hal). eexists. split; [done|]. subst db1. split_and!.
  - destruct (ch_direction ch), (ch_albums ch); done.
  - intros k. unfold install_job. case_decide as Hk; [subst k|];
      destruct (ch_direction ch), (ch_albums ch); cbn;
      rewrite ?lookup_alter_ne by done; rewrite ?lookup_alter_eq; by destruct (db_jobs db !! id).
  - intros k Hk. destruct (ch_direction ch), (ch_albums ch); done.
  - intros k c al. destruct (ch_direction ch), (ch_albums ch); apply Hok.
Qed.

Lemma install_changes_run ids db :
  NoDup ids -> changes_ok db ->
  exists db', for_each ids install_change db = Ok (tt, db') /\ same_outside_jobs db db' /\
    forall k, db_jobs db' !! k = if decide (k ∈ ids) then db_jobs db !! k ≫= job_after (db_changes db !! k)
                                 else db_jobs db !! k.
Proof.
  intros Hnd. revert db. induction Hnd as [|id ids Hid _ IH]; intros db Hok; simpl.
  { exists db. split_and!; try done. }
  destruct (install_change_run id db Hok) as (db1 & Hrun1 & Hs1 & Hj1 & Hc1 & Hok1).
  rewrite (bind_run _ _ _ _ _ Hrun1). destruct (IH db1 Hok1) as (db2 & Hrun2 & Hs2 & Hj2).
  exists db2. split; [done|]. split; [by eapply same_outside_jobs_trans|].
  intros k. rewrite Hj2, Hj1. destruct (decide (k = id)) as [->|Hne].
  - rewrite decide_False by done. by rewrite decide_True by left.
  - destruct (decide (k ∈ ids)) as [Hin|Hnin].
    + rewrite decide_True by (by right). by rewrite Hc1.
    + by rewrite decide_False by (by intros [?|?]%elem_of_cons).
Qed.

(** Turning synchronization off forgets the history and nothing else.
    When the intent still carries the worker's token, [finish] succeeds and
    leaves no entry, task, publication, resource, progress, conflict or
    queued edit; cloud-only media rows are gone, cloud-and-local ones are
    local again and every other row is untouched; accounts and settings are
    kept; and each job either was explicitly removed or keeps its connection
    and root with its queued configuration installed, unpaused, under a
    strictly newer configuration generation. *)
Theorem finish_forgets_history db intent :
  db_reset db = Some intent -> changes_ok db ->
  exists db', finish (reset_token intent) db = Ok (true, db') /\
    db_entries db' = ∅ /\ db_tasks db' = ∅ /\ db_publications db' = ∅ /\ db_resources db' = ∅ /\
    db_progress db' = ∅ /\ db_conflicts db' = ∅ /\ db_changes db' = ∅ /\ db_reset db' = None /\
    db_connections db' = db_connections db /\ db_settings db' = db_settings db /\
    (forall id, db_media db' !! id = db_media db !! id ≫= fun m =>
       if m_location m =? 2 then None
       else Some (if m_location m =? 3 then set_m_location 1 m else m)) /\
    (forall id, db_jobs db' !! id
                = reset_job <$> (db_jobs db !! id ≫= job_after (db_changes db !! id))) /\
    (forall id j', db_jobs db' !! id = Some j' ->
       exists j, db_jobs db !! id = Some j /\ j_config j < j_config j' /\ j_paused j' = false /\
         j_connection j' = j_connection j /\ j_root j' = j_root j).
Proof.
  intros Hr Hok. unfold finish. rewrite (bind_run _ _ _ _ _ eq_refl), Hr, bool_decide_true by done.
  rewrite (bind_run _ _ _ _ _ eq_refl).
  destruct (install_changes_run ((rows_by_id (db_changes db)).*1) db) as (db1 & Hrun & (Hm & Hc & Hs & _) & Hj).
  { unfold rows_by_id. rewrite merge_sort_Permutation. apply NoDup_fst_map_to_list. }
  { done. }
  rewrite (bind_run _ _ _ _ _ Hrun). eexists. split; [done|].
  assert (Hjobs : forall id, (reset_job <$> db_jobs db1) !! id
            = reset_job <$> (db_jobs db !! id ≫= job_after (db_changes db !! id))).
  { intros id. rewrite lookup_fmap, Hj. case_decide as Hin; [done|].
    destruct (db_changes db !! id) as [ch|] eqn:Hch.
    - destruct Hin. apply list_elem_of_fmap. exists (id, ch). split; [done|]. by apply elem_of_rows_by_id.
    - by destruct (db_jobs db !! id). }
  cbn. split_and!; try done.
  - intros id. rewrite lookup_update_where, lookup_delete_where, Hm.
    destruct (db_media db !! id) as [m|]; simpl; [|done]. by destruct (m_location m =? 2).
  - intros id j' Hj'. rewrite Hjobs in Hj'. destruct (db_jobs db !! id) as [j|]; [|done].
    exists j. split; [done|]. simpl in Hj'. unfold job_after in Hj'.
    destruct (db_changes db !! id) as [ch|].
    + destruct (ch_delete ch); [done|]. simpl in Hj'. injection Hj' as <-. unfold reset_job, install_job.
      destruct (ch_direction ch), (ch_albums ch); cbn; split_and!; try done; lia.
    + simpl in Hj'. injection Hj' as <-. cbn. split_and!; try done; lia.
Qed.

(** A reset worker whose intent was replaced changes nothing: [finish]
    with any token but the recorded one answers [false] and leaves the
    database alone, and [fail] records its error only on its own intent. *)
Theorem finish_needs_its_token db token error :
  (forall intent, db_reset db = Some intent -> reset_token intent <> token) ->
  finish token db = Ok (false, db) /\ fail token error db = Ok (tt, db).
Proof.
  intros Hn. unfold finish, fail. rewrite (bind_run _ _ _ _ _ eq_refl).
  destruct (db_reset db) as [intent|] eqn:Hr.
  - rewrite bool_decide_false by auto. split; [done|]. tx_red. rewrite Hr.
    cbn [fmap option_fmap option_map]. rewrite bool_decide_false by auto.
    destruct db; cbn in *. by subst.
  - split; [done|]. tx_red. rewrite Hr. destruct db; cbn in *. by subst.
Qed.

(** Opting back in cannot overtake a pending reset: after [begin], local
    changes stay disabled through any number of [resume_local_changes] and
    [fail] calls until [finish] has run. *)
Theorem resume_waits_for_reset token tokens db :
  let after := fold_left (fun d te =>
                 (transact resume_local_changes (transact (fail te.1 te.2) d).1).1) tokens
                 (transact (begin token) db).1 in
  pending after = true /\ local_changes_enabled after = false.
Proof.
  assert (Hstep : forall d te, pending d = true -> local_changes_enabled d = false ->
    let d' := (transact resume_local_changes (transact (fail te.1 te.2) d).1).1 in
    pending d' = true /\ local_changes_enabled d' = false).
  { intros d [t e] Hp Hl. unfold transact at 1. unfold resume_local_changes.
    rewrite (bind_run _ _ _ _ _ eq_refl).
    assert (Hp' : pending (transact (fail t e) d).1 = true).
    { unfold pending in *. rewrite bool_decide_eq_true in *. cbn. by destruct (db_reset d), Hp. }
    cbn [fst snd] in *. rewrite Hp'. cbn [fst]. done. }
  intros after. subst after.
  assert (Hb : pending (transact (begin token) db).1 = true /\
               local_changes_enabled (transact (begin token) db).1 = false).
  { split; [done|]. unfold local_changes_enabled. cbn. by rewrite lookup_insert_eq. }
  revert Hb. generalize (transact (begin token) db).1.
  induction tokens as [|te tokens IH]; intros d [H1 H2]; simpl; [done|].
  apply IH. by apply Hstep.
Qed.
Definition sample_reset : Db := (transact (begin "token") Sample.db).1.
Lemma finish_forgets_history_witness :
  exists db', finish "token" sample_reset = Ok (true, db') /\ db_entries db' = ∅ /\ db_reset db' = None.
Proof.
  destruct (finish_forgets_history sample_reset (mkReset "token" None)) as (db' & Hrun & He & _ & _ & _ & _ & _ & _ & Hr & _).
  - reflexivity.
  - intros id ch albums Hid. change (db_changes sample_reset) with (∅ : gmap Z Change) in Hid. by rewrite lookup_empty in Hid.
  - exists db'. done.
Defined.
Lemma finish_needs_its_token_witness : finish "other" sample_reset = Ok (false, sample_reset).
Proof. apply (finish_needs_its_token sample_reset "other" ""). by intros intent [= <-]. Defined.
End Reset.
