(* ===== verification/SyncDirty.v ===== *)
(** Dirty truth ([sync/store/dirty.rs]): what the user changed locally.

    A local change is recorded on the entry itself: [note] finds the enabled
    jobs that cover the media, enrols a missing entry and [mark]s it, which
    advances the entry's local version and the version of the changed category.
    Nothing here moves an acknowledged version, so evidence captured before the
    edit no longer matches it. *)
From S2P Require Import Prelude.
From S2P Require Import SyncDb.
From S2P Require Import SyncReset.
Local Open Scope Z_scope.

Module Dirty.

(** ** [NativeDirty] *)
Definition CLEAN : Z := 0.
Definition NEW : Z := 1.
Definition MODIFIED : Z := 2.
Definition DELETE : Z := 4.

Definition dirty_contains (d bit : Z) : bool := d =? bit.
Definition dirty_with (d bit : Z) : Z :=
  if (d =? DELETE) || (bit =? DELETE) then DELETE
  else if (d =? NEW) || (bit =? NEW) then NEW
  else bit.
Definition dirty_without (d bit : Z) : Z := if d =? bit then CLEAN else d.

(** ** [ChangeCategory] *)
Inductive ChangeCategory := Metadata | Content | Deletion.
#[export] Instance ChangeCategory_eq_dec : EqDecision ChangeCategory.
Proof. solve_decision. Defined.

Definition bit (c : ChangeCategory) : Z :=
  match c with Metadata => MODIFIED | Content => MODIFIED | Deletion => DELETE end.

(** The columns of a category ([version_column] and the event columns). *)
Definition track (c : ChangeCategory) (e : Entry) : Track :=
  match c with Metadata => e_metadata e | Content => e_content e | Deletion => e_deletion e end.
Definition set_track (c : ChangeCategory) (t : Track) (e : Entry) : Entry :=
  match c with
  | Metadata => set_e_metadata t e | Content => set_e_content t e | Deletion => set_e_deletion t e
  end.

(** The state of an entry after one edit event ([mark]'s UPDATE). *)
Definition mark_dirty (category : ChangeCategory) (e : Entry) : Z :=
  if bit category =? 4 then 4
  else if e_dirty e =? 4 then 4
  else if decide (r_photo (e_remote e) = None) then 1 else 2.

Definition mark_entry (category : ChangeCategory) (stamp : EditEvent) (e : Entry) : Entry :=
  set_track category (mkTrack (version (track category e) + 1) (acked (track category e)) (Some stamp))
    (set_e_dirty (mark_dirty category e)
      (set_e_local (e_local e + 1)
        (set_e_digest None e))).

Definition mark (entry : Z) (category : ChangeCategory) (stamp : EditEvent) : Tx Db (Z * Z) :=
  _ ← modify (fun db => set_db_entries (alter (mark_entry category stamp) entry (db_entries db)) db);
  row ← gets (fun db => db_entries db !! entry);
  e ← need row NoRows;
  mret (entry, e_dirty e).

(** ** [note] *)
(** [folder_path] of a selected album of a job. *)
Definition album_folder (root album : string) : string :=
  if bool_decide (album = "") then rtrim_slash root
  else (rtrim_slash root +:+ "/" +:+ album)%string.

Definition album_selected (db : Db) (job : Z) (j : Job) (m : Media) : bool :=
  bool_decide (j_scope j = ScopeAll)
  || existsb (fun a => (a.1 =? job) && bool_decide (m_folder m = album_folder (j_root j) a.2))
       (elements (db_albums db)).

(** The entry the LEFT JOIN finds: same job, same media, same relative path. *)
Definition joined_entry (db : Db) (job media : Z) (relative : string) : option Z :=
  fst <$> find_row (fun _ e => (e_job e =? job) && bool_decide (e_media e = Some media)
                               && bool_decide (e_path e = relative)) (db_entries db).

(** A job that may claim the media, with the entry it already has. *)
Definition claim (db : Db) (media : Z) (m : Media) (job : Z) (j : Job) : option (Z * option Z) :=
  match under_root (j_root j) (m_path m) with
  | Some relative =>
      if job_enabled db job && album_selected db job j m
      then Some (job, joined_entry db job media relative) else None
  | None => None
  end.

(** The rows of the covering query, by job id (the statement names no order). *)
Definition covering_jobs (db : Db) (media : Z) : list (Z * option Z) :=
  match db_media db !! media with
  | Some m => omap (fun kj => claim db media m kj.1 kj.2) (rows_by_id (db_jobs db))
  | None => []
  end.

Definition media_path (media : Z) : Tx Db string :=
  row ← gets (fun db => db_media db !! media);
  m ← need row (Backend "media item no longer exists");
  mret (m_path m).

Definition relative_under (job : Z) (path : string) : Tx Db string :=
  row ← gets (fun db => db_jobs db !! job);
  j ← need row NoRows;
  need (under_root (j_root j) path) (Backend "a media path is outside its job root").

(** One covering job of [note]: [None] when the loop [continue]s. *)
Definition note_one (media : Z) (category : ChangeCategory) (stamp : EditEvent)
    (claimed : Z * option Z) : Tx Db (option (Z * Z)) :=
  let '(job, entry) := claimed in
  match entry with
  | Some id =>
      row ← gets (fun db => db_entries db !! id);
      e ← need row NoRows;
      if e_retired e && negb (bool_decide (category = Deletion)) then mret None
      else r ← mark id category stamp; mret (Some r)
  | None =>
      if decide (category = Deletion) then mret None
      else
        path ← media_path media;
        relative ← relative_under job path;
        id ← insert_entry (new_entry job (Some media) relative NEW);
        r ← mark id category stamp; mret (Some r)
  end.

Fixpoint note_all (media : Z) (category : ChangeCategory) (stamp : EditEvent)
    (claims : list (Z * option Z)) : Tx Db (list (Z * Z)) :=
  match claims with
  | [] => mret []
  | c :: rest =>
      r ← note_one media category stamp c;
      rs ← note_all media category stamp rest;
      mret (match r with Some x => x :: rs | None => rs end)
  end.

(** [note]: [None] when no job claimed the change, otherwise the first entry
    recorded and its state. *)
Definition note (media : Z) (category : ChangeCategory) (stamp : EditEvent) : Tx Db (option (Z * Z)) :=
  blocked ← gets (fun db => Reset.pending db || negb (Reset.local_changes_enabled db));
  if (blocked : bool) then mret None
  else
    claims ← gets (fun db => covering_jobs db media);
    recorded ← note_all media category stamp claims;
    mret (head recorded).

(** ** The uplink view *)
(** [read_entries]: the dirty entries of a job, in id order ([DirtyEntry] is the
    row itself here). *)
Definition read_entries (db : Db) (job : Z) : list (Z * Entry) :=
  filter (fun ke => (e_job ke.2 =? job) && negb (e_dirty ke.2 =? 0) = true) (rows_by_id (db_entries db)).

Definition has_change (c : ChangeCategory) (e : Entry) : bool := acked (track c e) <? version (track c e).

(** [uplink_entry_version]. *)
Definition uplink_entry_version (db : Db) (job entry : Z) : option Z :=
  match db_entries db !! entry with
  | Some e => if (e_job e =? job) && negb (e_dirty e =? 0) then Some (e_local e) else None
  | None => None
  end.

(** ** What one covering job does *)
(** The loop's [continue] on an existing entry. *)
Definition skipped (category : ChangeCategory) (e : Entry) : bool :=
  e_retired e && negb (bool_decide (category = Deletion)).

Lemma mark_run id category stamp db e :
  db_entries db !! id = Some e ->
  mark id category stamp db
  = Ok ((id, mark_dirty category e),
        set_db_entries (<[id := mark_entry category stamp e]> (db_entries db)) db).
Proof.
  intros He. unfold mark. rewrite (bind_run _ _ _ _ _ eq_refl), (bind_run _ _ _ _ _ eq_refl).
  cbn [db_entries set_db_entries]. rewrite lookup_alter_eq, He. tx_red. cbn [fmap option_fmap option_map].
  do 2 f_equal.
  - by destruct category, e.
  - f_equal. by apply map_eq; intros k; destruct (decide (k = id)) as [->|];
      rewrite ?lookup_alter_eq, ?lookup_insert_eq, ?He, ?lookup_alter_ne, ?lookup_insert_ne by done.
Qed.

Lemma note_one_existing media category stamp job id db e :
  db_entries db !! id = Some e ->
  note_one media category stamp (job, Some id) db
  = if skipped category e then Ok (None, db)
    else Ok (Some (id, mark_dirty category e),
             set_db_entries (<[id := mark_entry category stamp e]> (db_entries db)) db).
Proof.
  intros He. unfold note_one, skipped. rewrite (bind_run _ _ _ _ _ eq_refl). cbn beta. rewrite He.
  rewrite (bind_run _ _ _ _ _ eq_refl). destruct (_ && _); [done|].
  by rewrite (bind_run _ _ _ _ _ (mark_run _ _ _ _ _ He)).
Qed.

Lemma note_one_enrol media category stamp job db m j relative :
  category <> Deletion -> db_media db !! media = Some m -> db_jobs db !! job = Some j ->
  under_root (j_root j) (m_path m) = Some relative ->
  let e := new_entry job (Some media) relative NEW in
  note_one media category stamp (job, None) db
  = if path_taken db job relative
    then Err (Constraint "sync_entries.job_id, sync_entries.relative_path")
    else Ok (Some (db_next_entry db, mark_dirty category e),
             set_db_entries (<[db_next_entry db := mark_entry category stamp e]> (db_entries db))
               (set_db_next_entry (db_next_entry db + 1) db)).
Proof.
  intros Hc Hm Hj Hr e. unfold note_one. rewrite decide_False by done.
  assert (Hp : media_path media db = Ok (m_path m, db)).
  { unfold media_path. tx_red. by rewrite Hm. }
  rewrite (bind_run _ _ _ _ _ Hp).
  assert (Hu : relative_under job (m_path m) db = Ok (relative, db)).
  { unfold relative_under. tx_red. rewrite Hj. by rewrite Hr. }
  rewrite (bind_run _ _ _ _ _ Hu).
  destruct (path_taken db job relative) eqn:Ht.
  { unfold mbind, Tx_bind, insert_entry. tx_red. cbn [new_entry e_job e_path].
    rewrite Ht. done. }
  assert (Hi : insert_entry e db = Ok (db_next_entry db,
    set_db_entries (<[db_next_entry db := e]> (db_entries db)) (set_db_next_entry (db_next_entry db + 1) db))).
  { unfold insert_entry. tx_red. cbn [e new_entry e_job e_path]. by rewrite Ht. }
  rewrite (bind_run _ _ _ _ _ Hi).
  rewrite (bind_run _ _ _ _ _ (mark_run _ _ _ _ e (lookup_insert_eq _ _ _))).
  cbn [db_entries set_db_entries]. tx_red. do 2 f_equal.
  unfold set_db_entries; cbn. f_equal. by rewrite insert_insert_eq.
Qed.

(** ** The whole loop *)
(** The claims are as the covering query produces them on [db]. *)
Definition claims_ok (db : Db) (media : Z) (m : Media) (claims : list (Z * option Z)) : Prop :=
  db_media db !! media = Some m /\ NoDup claims.*1 /\
  forall job entry, (job, entry) ∈ claims ->
    exists j relative, db_jobs db !! job = Some j /\ under_root (j_root j) (m_path m) = Some relative /\
      match entry with
      | Some id => exists e, db_entries db !! id = Some e /\ e_job e = job /\ e_media e = Some media /\
                             e_path e = relative
      | None => True
      end.

(** [claims] name entry [id] and the loop does not skip it. *)
Definition claimed (claims : list (Z * option Z)) (category : ChangeCategory) (id : Z) (e : Entry) : bool :=
  existsb (fun c => bool_decide (c.2 = Some id)) claims && negb (skipped category e).

(** Everything but the entries is as before. *)
Definition same_but_entries (db db' : Db) : Prop :=
  exists entries next, db' = set_db_entries entries (set_db_next_entry next db).

Lemma same_but_entries_refl db : same_but_entries db db.
Proof. exists (db_entries db), (db_next_entry db). by destruct db. Qed.
Lemma same_but_entries_trans db1 db2 db3 :
  same_but_entries db1 db2 -> same_but_entries db2 db3 -> same_but_entries db1 db3.
Proof. intros (e1 & n1 & ->) (e2 & n2 & ->). by exists e2, n2. Qed.

(** A job without an entry can enrol the media. *)
Definition can_enrol (db : Db) (m : Media) (category : ChangeCategory) (c : Z * option Z) : Prop :=
  c.2 = None -> category <> Deletion ->
  forall j relative, db_jobs db !! c.1 = Some j -> under_root (j_root j) (m_path m) = Some relative ->
    path_taken db c.1 relative = false.

Lemma claims_ok_step db db' media m c claims :
  claims_ok db media m (c :: claims) -> same_but_entries db db' ->
  (forall id e, db_entries db !! id = Some e -> e_job e <> c.1 -> db_entries db' !! id = Some e) ->
  claims_ok db' media m claims.
Proof.
  intros (Hm & Hnd & Hc) (es & n & ->) Hsame. destruct c as [job0 entry0].
  apply NoDup_cons in Hnd as [Hjob Hnd]. split_and!; [done|done|].
  intros job entry Hin. destruct (Hc job entry ltac:(by right)) as (j & rel & Hj & Hu & He).
  exists j, rel. split_and!; [done|done|]. destruct entry as [id|]; [|done].
  destruct He as (e & He & Hje & Hmed & Hp). exists e. split_and!; try done. apply Hsame; [done|].
  simpl. rewrite Hje. intros ->. destruct Hjob. apply list_elem_of_fmap. by exists (job0, Some id).
Qed.

Lemma path_taken_false db job path :
  path_taken db job path = false <->
  forall id e, db_entries db !! id = Some e -> e_job e = job -> e_path e <> path.
Proof.
  unfold path_taken. rewrite exists_where_false. split.
  - intros Hf id e He Hj Hp. specialize (Hf id e He). rewrite Hj, Z.eqb_refl, bool_decide_true in Hf; done.
  - intros Hall id e He. destruct (e_job e =? job) eqn:E; [|done]. zbool. simpl.
    apply bool_decide_eq_false. by apply (Hall id e).
Qed.

Lemma mark_entry_same category stamp e :
  e_job (mark_entry category stamp e) = e_job e /\ e_path (mark_entry category stamp e) = e_path e /\
  e_retired (mark_entry category stamp e) = e_retired e.
Proof. by destruct category. Qed.

(** The entry of the head claim is not claimed again by the rest. *)
Lemma claimed_once db media m job id claims category e e' :
  claims_ok db media m ((job, Some id) :: claims) -> db_entries db !! id = Some e ->
  claimed claims category id e' = false.
Proof.
  intros (_ & [Hjob _]%NoDup_cons & Hc) He. unfold claimed. apply andb_false_iff. left.
  apply not_true_iff_false. intros ([job2 o] & Hin%list_elem_of_In & Ho%bool_decide_eq_true)%existsb_exists.
  simpl in Ho. subst o.
  destruct (Hc job (Some id) ltac:(left)) as (_ & _ & _ & _ & e1 & H1 & <- & _).
  destruct (Hc job2 (Some id) ltac:(by right)) as (_ & _ & _ & _ & e2 & H2 & <- & _).
  simplify_eq. destruct Hjob. apply list_elem_of_fmap. eexists (_, Some id). by split.
Qed.

(** An entry the loop enrolled is not claimed by the remaining jobs. *)
Lemma claimed_fresh db media m c claims category id e' :
  claims_ok db media m (c :: claims) -> db_entries db !! id = None ->
  claimed claims category id e' = false.
Proof.
  intros (_ & _ & Hc) Hnone. unfold claimed. apply andb_false_iff. left. apply not_true_iff_false.
  intros ([job2 o] & Hin%list_elem_of_In & Ho%bool_decide_eq_true)%existsb_exists. simpl in Ho. subst o.
  destruct (Hc job2 (Some id) ltac:(by right)) as (_ & _ & _ & _ & e & ? & _). congruence.
Qed.

Lemma claimed_cons c claims category id e :
  claimed (c :: claims) category id e
  = (bool_decide (c.2 = Some id) && negb (skipped category e)) || claimed claims category id e.
Proof. unfold claimed. simpl. by destruct (bool_decide _), (existsb _ _), (skipped _ _). Qed.

(** The entries [note_all] leaves. *)
Record noted (db db' : Db) (media : Z) (category : ChangeCategory) (stamp : EditEvent)
    (claims : list (Z * option Z)) : Prop := {
  noted_frame : same_but_entries db db';
  noted_old : forall id e, db_entries db !! id = Some e ->
    db_entries db' !! id
    = Some (if claimed claims category id e then mark_entry category stamp e else e);
  noted_new : forall id e', db_entries db' !! id = Some e' -> db_entries db !! id = None ->
    category <> Deletion /\ exists job relative, (job, None) ∈ claims /\
      e' = mark_entry category stamp (new_entry job (Some media) relative NEW);
  noted_enrolled : forall job, (job, None) ∈ claims -> category <> Deletion ->
    exists id relative, db_entries db !! id = None /\
      db_entries db' !! id = Some (mark_entry category stamp (new_entry job (Some media) relative NEW));
  noted_ids : entry_ids_ok db'
}.

Lemma can_enrol_step db db' m category (c : Z * option Z) :
  same_but_entries db db' ->
  (forall id e', db_entries db' !! id = Some e' -> e_job e' = c.1 ->
     exists e, db_entries db !! id = Some e /\ e_job e = c.1 /\ e_path e = e_path e') ->
  can_enrol db m category c -> can_enrol db' m category c.
Proof.
  intros (es & n & ->) Hback Hcan Hnone Hcat j rel Hj Hu. cbn in Hj.
  apply path_taken_false. intros id e' He' Hjob Hpath.
  destruct (Hback id e' He' Hjob) as (e & He & Hej & Hep).
  specialize (Hcan Hnone Hcat j rel Hj Hu). rewrite path_taken_false in Hcan.
  apply (Hcan id e He Hej). congruence.
Qed.

(** One step of the loop, as a fact about the two databases. *)
Lemma note_one_run media m category stamp c claims db :
  claims_ok db media m (c :: claims) -> entry_ids_ok db -> can_enrol db m category c ->
  exists r db', note_one media category stamp c db = Ok (r, db') /\
    noted db db' media category stamp [c] /\
    (forall id e', db_entries db' !! id = Some e' -> e_job e' <> c.1 -> db_entries db !! id = Some e') /\
    (forall id e, db_entries db !! id = Some e -> e_job e <> c.1 -> db_entries db' !! id = Some e).
Proof.
  intros Hok Hids Hcan. destruct c as [job [id|]].
  - destruct Hok as (Hm & _ & Hc). destruct (Hc job (Some id) ltac:(left)) as (j & rel & Hj & Hu & e & He & Hje & _).
    rewrite (note_one_existing _ _ _ _ _ _ _ He). destruct (skipped category e) eqn:Hsk.
    + eexists _, db. split; [done|]. split; [|done]. constructor; [apply same_but_entries_refl|..].
      * intros k ek Hk. rewrite claimed_cons. simpl. case_bool_decide as Hid; [|done].
        simplify_eq. by rewrite Hsk.
      * intros k e' Hk Hn. congruence.
      * intros job' Hin. apply list_elem_of_singleton in Hin. done.
      * done.
    + eexists _, _. split; [done|]. split_and!; [constructor|..].
      * by exists (<[id:=mark_entry category stamp e]> (db_entries db)), (db_next_entry db); destruct db.
      * intros k ek Hk. rewrite claimed_cons. cbn [db_entries set_db_entries]. simpl.
        destruct (decide (k = id)) as [->|Hne].
        -- simplify_eq. rewrite lookup_insert_eq, bool_decide_true by done. by rewrite Hsk.
        -- rewrite lookup_insert_ne by done. rewrite bool_decide_false by congruence. done.
      * intros k e' Hk Hn. cbn in Hk. rewrite lookup_insert_ne in Hk by congruence. congruence.
      * intros job' Hin. apply list_elem_of_singleton in Hin. done.
      * split; [apply Hids|]. destruct Hids as [_ Hids].
        intros k ek Hk. cbn in *. destruct (decide (k = id)) as [->|Hne].
        -- apply (Hids id e He).
        -- rewrite lookup_insert_ne in Hk by done. by apply (Hids k ek).
      * intros k ek Hk Hjk. cbn in *. destruct (decide (k = id)) as [->|Hne].
        -- rewrite lookup_insert_eq in Hk. simplify_eq. by destruct category.
        -- by rewrite lookup_insert_ne in Hk by done.
      * intros k ek Hk Hjk. cbn in *. destruct (decide (k = id)) as [->|Hne]; [congruence|].
        by rewrite lookup_insert_ne by done.
  - destruct Hok as (Hm & _ & Hc). destruct (Hc job None ltac:(left)) as (j & rel & Hj & Hu & _).
    destruct (decide (category = Deletion)) as [->|Hcat].
    { eexists _, db. split; [done|]. split; [|done]. constructor; try done.
      - apply same_but_entries_refl.
      - intros k e' Hk Hn. congruence. }
    rewrite (note_one_enrol _ _ _ _ _ _ _ _ Hcat Hm Hj Hu).
    pose proof (Hcan eq_refl Hcat j rel Hj Hu) as Hfree. simpl in Hfree. rewrite Hfree.
    set (e0 := mark_entry category stamp _).
    assert (Hfresh : db_entries db !! db_next_entry db = None).
    { apply eq_None_not_Some. intros [ek Hk]. apply Hids in Hk. lia. }
    eexists _, _. split; [done|]. split_and!; [constructor|..].
    + by eexists _, _.
    + intros k ek Hk. cbn [db_entries set_db_entries]. rewrite lookup_insert_ne by congruence. done.
    + intros k e' Hk Hn. cbn in Hk. destruct (decide (k = db_next_entry db)) as [->|Hne].
      * rewrite lookup_insert_eq in Hk. simplify_eq. split; [done|]. exists job, rel. split; [left|done].
      * rewrite lookup_insert_ne in Hk by done. congruence.
    + intros job' Hin%list_elem_of_singleton Hd. simplify_eq. exists (db_next_entry db), rel.
      split; [done|]. cbn. by rewrite lookup_insert_eq.
    + destruct Hids as [Hpos Hids]. split; [cbn; lia|].
      intros k ek Hk. cbn in *. destruct (decide (k = db_next_entry db)) as [->|Hne].
      * lia.
      * rewrite lookup_insert_ne in Hk by done. apply Hids in Hk. lia.
    + intros k ek Hk Hjk. cbn in *. destruct (decide (k = db_next_entry db)) as [->|Hne].
      * rewrite lookup_insert_eq in Hk. simplify_eq. by destruct category.
      * by rewrite lookup_insert_ne in Hk by done.
    + intros k ek Hk Hjk. cbn in *. by rewrite lookup_insert_ne by congruence.
Qed.

Lemma note_all_run media m category stamp claims db :
  claims_ok db media m claims -> entry_ids_ok db -> Forall (can_enrol db m category) claims ->
  exists rs db', note_all media category stamp claims db = Ok (rs, db') /\
    noted db db' media category stamp claims.
Proof.
  revert db. induction claims as [|c claims IH]; intros db Hok Hids Hcan; simpl.
  { eexists [], db. split; [done|]. constructor; try done.
    - apply same_but_entries_refl.
    - intros id e' H1 H2. congruence.
    - intros job Hin. by apply elem_of_nil in Hin. }
  apply Forall_cons in Hcan as [Hc Hcan].
  destruct (note_one_run media m category stamp c claims db Hok Hids Hc)
    as (r & db1 & Hrun1 & [Hf1 Ho1 Hn1 He1 Hids1] & Hback & Hfwd).
  assert (Hcan1 : Forall (can_enrol db1 m category) claims).
  { apply Forall_forall. intros c' Hin. rewrite Forall_forall in Hcan.
    apply (can_enrol_step db db1); [done| |by apply Hcan].
    intros id e' He' Hj. exists e'. split_and!; [|done|done]. apply Hback; [done|].
    destruct Hok as (_ & [Hjob _]%NoDup_cons & _). rewrite Hj. intros Heq. destruct Hjob.
    rewrite <- Heq. by apply list_elem_of_fmap_2. }
  destruct (IH db1 (claims_ok_step _ _ _ _ _ _ Hok Hf1 Hfwd) Hids1 Hcan1)
    as (rs & db2 & Hrun2 & [Hf2 Ho2 Hn2 He2 Hids2]).
  rewrite (bind_run _ _ _ _ _ Hrun1), (bind_run _ _ _ _ _ Hrun2).
  eexists _, db2. split; [done|]. constructor.
  - by eapply same_but_entries_trans.
  - intros id e He. rewrite (Ho2 _ _ (Ho1 _ _ He)), (claimed_cons c claims), (claimed_cons c []).
    replace (claimed [] category id e) with false by (by unfold claimed). rewrite orb_false_r.
    destruct (bool_decide (c.2 = Some id) && negb (skipped category e)) eqn:E; [|done].
    simpl. apply andb_prop in E as [Hid%bool_decide_eq_true _]. destruct c as [job o]. simpl in Hid. subst o.
    by rewrite (claimed_once db media m job id claims category e _ Hok He).
  - intros id e' Hid Hnone. destruct (db_entries db1 !! id) as [e1|] eqn:H1.
    + destruct (Hn1 id e1 H1 Hnone) as (Hcat & job & rel & Hin & ->).
      rewrite (Ho2 _ _ H1) in Hid. split; [done|]. exists job, rel. split; [|].
      * apply list_elem_of_singleton in Hin as <-. left.
      * injection Hid as <-.
        by rewrite (claimed_fresh db media m c claims category id _ Hok Hnone).
    + destruct (Hn2 id e' Hid H1) as (Hcat & job & rel & Hin & ->). split; [done|].
      exists job, rel. split; [by right|done].
  - intros job [<-|Hin]%elem_of_cons Hcat.
    + destruct (He1 job ltac:(left) Hcat) as (id & rel & Hnone & H1). exists id, rel. split; [done|].
      destruct (db_entries db2 !! id) as [e2|] eqn:H2.
      * rewrite (Ho2 _ _ H1) in H2. rewrite <- H2.
        by rewrite (claimed_fresh db media m (job, None) claims category id _ Hok Hnone).
      * by rewrite (Ho2 _ _ H1) in H2.
    + destruct (He2 job Hin Hcat) as (id & rel & Hnone & H2). exists id, rel. split; [|done].
      destruct (db_entries db !! id) as [e|] eqn:He; [|done].
      by rewrite (Ho1 _ _ He) in Hnone.
  - done.
Qed.

(** ** Properties of [note] *)
Lemma rows_by_id_NoDup {Row} (t : gmap Z Row) : NoDup (rows_by_id t).*1.
Proof. unfold rows_by_id. rewrite merge_sort_Permutation. apply NoDup_fst_map_to_list. Qed.

Lemma elem_of_covering db media m job entry :
  db_media db !! media = Some m ->
  (job, entry) ∈ covering_jobs db media <->
  exists j relative, db_jobs db !! job = Some j /\ under_root (j_root j) (m_path m) = Some relative /\
    job_enabled db job = true /\ album_selected db job j m = true /\
    entry = joined_entry db job media relative.
Proof.
  intros Hm. unfold covering_jobs. rewrite Hm, list_elem_of_omap. split.
  - intros ([job' j] & Hin%elem_of_rows_by_id & Hc). unfold claim in Hc. simpl in Hc.
    destruct (under_root (j_root j) (m_path m)) as [rel|] eqn:Hu; [|done].
    destruct (job_enabled db job' && album_selected db job' j m) eqn:Hb; [|done].
    simplify_eq. apply andb_prop in Hb as [? ?]. by exists j, rel.
  - intros (j & rel & Hj & Hu & He & Ha & ->). exists (job, j). split; [by apply elem_of_rows_by_id|].
    unfold claim. simpl. by rewrite Hu, He, Ha.
Qed.

Lemma covering_NoDup db media : NoDup (covering_jobs db media).*1.
Proof.
  unfold covering_jobs. destruct (db_media db !! media) as [m|]; [|constructor].
  pose proof (rows_by_id_NoDup (db_jobs db)) as Hnd. induction (rows_by_id (db_jobs db)) as [|[k j] l IH]; simpl; [constructor|].
  apply NoDup_cons in Hnd as [Hk Hnd]. specialize (IH Hnd).
  destruct (claim db media m k j) as [[k' o]|] eqn:Hc; [|done].
  assert (k' = k) as ->.
  { unfold claim in Hc. destruct (under_root _ _); [|done]. destruct (_ && _); by simplify_eq. }
  simpl. apply NoDup_cons. split; [|done]. intros Hin. apply Hk.
  apply list_elem_of_fmap in Hin as ([k2 o2] & -> & Hin). simpl.
  apply list_elem_of_omap in Hin as ([k3 j3] & Hin & Hc3). apply list_elem_of_fmap. exists (k3, j3).
  split; [|done]. unfold claim in Hc3. simpl in *. destruct (under_root _ _); [|done].
  destruct (_ && _); by simplify_eq.
Qed.

Lemma joined_entry_Some db job media rel id :
  joined_entry db job media rel = Some id ->
  exists e, db_entries db !! id = Some e /\ e_job e = job /\ e_media e = Some media /\ e_path e = rel.
Proof.
  unfold joined_entry. destruct (find_row _ _) as [[k e]|] eqn:Hf; [|done]. simpl. intros [= ->].
  apply find_row_Some in Hf as [He HP]. exists e. apply andb_prop in HP as [HP Hp%bool_decide_eq_true].
  apply andb_prop in HP as [Hj Hmd%bool_decide_eq_true]. zbool. done.
Qed.

Lemma covering_claims_ok db media m :
  db_media db !! media = Some m -> claims_ok db media m (covering_jobs db media).
Proof.
  intros Hm. split_and!; [done|apply covering_NoDup|].
  intros job entry Hin. apply (elem_of_covering db media m job entry Hm) in Hin
    as (j & rel & Hj & Hu & _ & _ & ->).
  exists j, rel. split_and!; [done..|]. destruct (joined_entry _ _ _ _) as [id|] eqn:He; [|done].
  by apply joined_entry_Some.
Qed.

Definition recording (db : Db) : bool := negb (Reset.pending db) && Reset.local_changes_enabled db.

Lemma note_recording media category stamp db :
  recording db = true ->
  note media category stamp db
  = match note_all media category stamp (covering_jobs db media) db with
    | Ok (rs, db') => Ok (head rs, db') | Err e => Err e end.
Proof.
  unfold recording. intros [Hp He]%andb_prop. unfold note. rewrite (bind_run _ _ _ _ _ eq_refl).
  cbn beta. apply negb_true_iff in Hp. rewrite Hp, He. cbn [negb orb].
  rewrite (bind_run _ _ _ _ _ eq_refl). unfold mbind, Tx_bind. by destruct (note_all _ _ _ _ _) as [[]|].
Qed.

(** What an edit leaves on an entry it reaches: the category's version and the
    local version advance, no acknowledgement moves, the event is recorded, the
    cached digest is dropped and the entry is an outstanding obligation; an
    explicit deletion is never downgraded. *)
Definition edited (category : ChangeCategory) (stamp : EditEvent) (e e' : Entry) : Prop :=
  version (track category e') = version (track category e) + 1 /\
  event (track category e') = Some stamp /\
  (forall c, acked (track c e') = acked (track c e)) /\
  (forall c, c <> category -> track c e' = track c e) /\
  e_local e' = e_local e + 1 /\ e_digest e' = None /\ e_dirty e' <> CLEAN /\
  (category = Deletion \/ e_dirty e = DELETE -> e_dirty e' = DELETE) /\
  e_remote e' = e_remote e /\ e_path e' = e_path e /\ e_job e' = e_job e.

Lemma mark_entry_edited category stamp e : edited category stamp e (mark_entry category stamp e).
Proof.
  unfold edited, mark_entry, mark_dirty, CLEAN, DELETE.
  destruct category; cbn; split_and!; try done; try (by intros [] ?); try (by intros []);
    destruct (e_dirty e =? 4) eqn:E; zbool; try done; try (case_decide; done); naive_solver.
Qed.

Lemma in_read_entries db job id e :
  db_entries db !! id = Some e -> e_job e = job -> e_dirty e <> 0 -> (id, e) ∈ read_entries db job.
Proof.
  intros He Hj Hd. unfold read_entries. apply list_elem_of_filter. split; [|by apply elem_of_rows_by_id].
  simpl. rewrite Hj, Z.eqb_refl. by rewrite (proj2 (Z.eqb_neq _ _) Hd).
Qed.

(** No local edit is lost. While recording is on and no stray entry
    occupies the media's path, [note] succeeds; every entry of a covering job
    that is not retired (or any, for a deletion) carries the edit, is listed by
    the job's uplink view, and has a local version a capture taken before the
    edit does not match; every covering job without an entry gains one,
    unless the change is a deletion; all other entries and all other tables
    are untouched. *)
Theorem note_records_change db media m category stamp :
  recording db = true -> entry_ids_ok db -> db_media db !! media = Some m ->
  Forall (can_enrol db m category) (covering_jobs db media) ->
  exists r db', note media category stamp db = Ok (r, db') /\ same_but_entries db db' /\
    (forall job id e, (job, Some id) ∈ covering_jobs db media -> db_entries db !! id = Some e ->
       skipped category e = false ->
       exists e', db_entries db' !! id = Some e' /\ edited category stamp e e' /\
         (id, e') ∈ read_entries db' job /\
         uplink_entry_version db' job id = Some (e_local e + 1)) /\
    (forall job, (job, None) ∈ covering_jobs db media -> category <> Deletion ->
       exists id e', db_entries db !! id = None /\ db_entries db' !! id = Some e' /\
         e_dirty e' = NEW /\ e_media e' = Some media /\ (id, e') ∈ read_entries db' job) /\
    (forall id e, db_entries db !! id = Some e ->
       (forall job, (job, Some id) ∉ covering_jobs db media) -> db_entries db' !! id = Some e).
Proof.
  intros Hrec Hids Hm Hcan. rewrite note_recording by done.
  pose proof (covering_claims_ok db media m Hm) as Hok.
  destruct (note_all_run media m category stamp _ db Hok Hids Hcan) as (rs & db' & -> & Hnoted).
  destruct Hnoted as [Hframe Hold _ Henrol _]. exists (head rs), db'. split_and!; [done|done|..].
  - intros job id e Hin He Hsk. exists (mark_entry category stamp e).
    destruct Hok as (_ & _ & Hc). destruct (Hc _ _ Hin) as (_ & _ & _ & _ & e2 & He2 & Hjob & _). simplify_eq.
    assert (Hdb' : db_entries db' !! id = Some (mark_entry category stamp e)).
    { rewrite (Hold _ _ He). unfold claimed. rewrite Hsk, andb_true_r.
      rewrite (proj2 (existsb_exists _ _)); [done|]. eexists (_, Some id).
      split; [by apply list_elem_of_In|]. by apply bool_decide_eq_true. }
    pose proof (mark_entry_edited category stamp e) as Hed.
    assert (Hd : e_dirty (mark_entry category stamp e) <> 0) by apply Hed.
    split_and!; [done..| |].
    + apply in_read_entries; [done|apply Hed|done].
    + unfold uplink_entry_version. rewrite Hdb'. destruct (mark_entry_same category stamp e) as (-> & _ & _).
      rewrite Z.eqb_refl, (proj2 (Z.eqb_neq _ _) Hd). simpl. f_equal. apply Hed.
  - intros job Hin Hcat. destruct (Henrol job Hin Hcat) as (id & rel & Hnone & He').
    eexists id, _. split_and!; [done|exact He'|by destruct category|by destruct category|].
    apply in_read_entries; [done|by destruct category|by destruct category].
  - intros id e He Hno. rewrite (Hold _ _ He). unfold claimed.
    destruct (existsb _ _) eqn:Hex; [|done].
    apply existsb_exists in Hex as ([job o] & Hin%list_elem_of_In & Ho%bool_decide_eq_true).
    simpl in Ho. subst o. by destruct (Hno job).
Qed.

(** While a reset is pending or local recording is off, [note] records
    nothing, whatever the change. *)
Theorem note_silent_when_off db media category stamp :
  recording db = false -> note media category stamp db = Ok (None, db).
Proof.
  unfold recording, note. intros Hr. rewrite (bind_run _ _ _ _ _ eq_refl). cbn beta.
  by destruct (Reset.pending db), (Reset.local_changes_enabled db).
Qed.

(** Every entry state is one of the four, no category is acknowledged beyond
    its version, and an unacknowledged metadata or content edit is always
    visible as a dirty state. *)
Definition track_ok (t : Track) : Prop := 0 <= acked t <= version t.
Definition entry_ok (e : Entry) : Prop :=
  (e_dirty e = CLEAN \/ e_dirty e = NEW \/ e_dirty e = MODIFIED \/ e_dirty e = DELETE) /\
  track_ok (e_metadata e) /\ track_ok (e_content e) /\ track_ok (e_deletion e) /\
  (has_change Metadata e || has_change Content e = true -> e_dirty e <> CLEAN).
Definition entries_ok (db : Db) : Prop := forall id e, db_entries db !! id = Some e -> entry_ok e.

Lemma mark_entry_ok category stamp e : entry_ok e -> entry_ok (mark_entry category stamp e).
Proof.
  intros (Hd & H1 & H2 & H3 & Hv). destruct (mark_entry_edited category stamp e) as (_ & _ & _ & _ & _ & _ & Hn & _).
  unfold entry_ok. split_and!.
  - unfold mark_entry, mark_dirty, CLEAN, NEW, MODIFIED, DELETE.
    destruct category; cbn; destruct (e_dirty e =? 4); try case_decide; lia.
  - destruct category; cbn; unfold track_ok in *; cbn; lia.
  - destruct category; cbn; unfold track_ok in *; cbn; lia.
  - destruct category; cbn; unfold track_ok in *; cbn; lia.
  - done.
Qed.

Definition table_ok (db : Db) : Prop := entries_ok db /\ entry_ids_ok db.

Lemma mark_table_ok id category stamp db r db' :
  table_ok db -> mark id category stamp db = Ok (r, db') -> table_ok db'.
Proof.
  intros [Hok [Hpos Hids]] Hrun. destruct (db_entries db !! id) as [e|] eqn:He.
  - rewrite (mark_run _ _ _ _ _ He) in Hrun. injection Hrun as _ <-. split; [|split; [done|]];
      intros k ek Hk; cbn in *; (destruct (decide (k = id)) as [->|Hne];
        [rewrite lookup_insert_eq in Hk; simplify_eq|rewrite lookup_insert_ne in Hk by done]).
    + apply mark_entry_ok. by apply (Hok id).
    + by apply (Hok k).
    + by apply (Hids id e).
    + by apply (Hids k ek).
  - unfold mark in Hrun. tx_inv Hrun. simplify_eq. cbn in *. by rewrite lookup_alter_eq, He in *.
Qed.

Lemma new_entry_ok job media path : entry_ok (new_entry job media path NEW).
Proof. unfold entry_ok, track_ok, NEW, CLEAN. cbn. split_and!; try done; lia. Qed.

Lemma insert_entry_table_ok e db id db' :
  table_ok db -> entry_ok e -> insert_entry e db = Ok (id, db') -> table_ok db'.
Proof.
  intros [Hok [Hpos Hids]] He Hrun. unfold insert_entry in Hrun. tx_inv Hrun. simplify_eq. cbn in *.
  split; [|split; [cbn; lia|]]; intros k ek Hk; cbn in *;
    (destruct (decide (k = db_next_entry db)) as [->|Hne];
      [rewrite lookup_insert_eq in Hk; simplify_eq|rewrite lookup_insert_ne in Hk by done]).
  - done.
  - by apply (Hok k).
  - lia.
  - specialize (Hids k ek Hk). lia.
Qed.

Lemma note_one_table_ok media category stamp c db r db' :
  table_ok db -> note_one media category stamp c db = Ok (r, db') -> table_ok db'.
Proof.
  intros Hok Hrun. destruct c as [job [id|]]; unfold note_one in Hrun.
  - tx_inv Hrun. destruct (_ && _); tx_inv Hrun; simplify_eq; [done|].
    by eapply mark_table_ok.
  - destruct (decide (category = Deletion)); [tx_inv Hrun; by simplify_eq|].
    apply bind_Ok in Hrun as (path & db1 & H1 & Hrun). apply bind_Ok in Hrun as (rel & db2 & H2 & Hrun).
    apply bind_Ok in Hrun as (id & db3 & H3 & Hrun). apply bind_Ok in Hrun as (x & db4 & H4 & Hrun).
    assert (db1 = db) as -> by (unfold media_path in H1; tx_inv H1; by simplify_eq).
    assert (db2 = db) as -> by (unfold relative_under in H2; tx_inv H2; by simplify_eq).
    tx_inv Hrun. simplify_eq. eapply mark_table_ok; [|exact H4].
    eapply insert_entry_table_ok; [done|apply new_entry_ok|exact H3].
Qed.

Lemma note_all_table_ok media category stamp claims db rs db' :
  table_ok db -> note_all media category stamp claims db = Ok (rs, db') -> table_ok db'.
Proof.
  revert db rs. induction claims as [|c claims IH]; intros db rs Hok Hrun; simpl in Hrun.
  { by tx_inv Hrun. }
  apply bind_Ok in Hrun as (r & db1 & H1 & Hrun). apply bind_Ok in Hrun as (rs' & db2 & H2 & Hrun).
  apply mret_Ok in Hrun as [_ ->]. eapply IH; [|exact H2]. by eapply note_one_table_ok.
Qed.

(** [note] keeps the entry table well formed: states stay among the four,
    acknowledged versions never pass recorded ones, an unacknowledged edit
    keeps its entry dirty, and new ids stay fresh. *)
Lemma note_preserves_entries_ok db media category stamp r db' :
  table_ok db -> note media category stamp db = Ok (r, db') -> table_ok db'.
Proof.
  intros Hok Hrun. unfold note in Hrun. apply bind_Ok in Hrun as (blocked & db0 & H0 & Hrun).
  apply gets_Ok in H0 as [-> ->]. destruct (_ || _); [by tx_inv Hrun|].
  apply bind_Ok in Hrun as (claims & db0 & H0 & Hrun). apply gets_Ok in H0 as [-> ->].
  apply bind_Ok in Hrun as (rs & db1 & H1 & Hrun). apply mret_Ok in Hrun as [_ ->].
  by eapply note_all_table_ok.
Qed.

(** An entry without its media link blocks the edit: when a covering job
    has an entry at the media's path that is not joined to this media row (its
    [media_id] was cleared when the row was re-indexed), [note] refuses the
    change with the unique constraint on the path, and so rolls back the
    caller's media write with it. *)
Theorem note_refuses_unlinked_entry db media m category stamp job j relative :
  recording db = true -> category <> Deletion -> db_media db !! media = Some m ->
  covering_jobs db media = [(job, None)] -> db_jobs db !! job = Some j ->
  under_root (j_root j) (m_path m) = Some relative -> path_taken db job relative = true ->
  transact (note media category stamp) db
  = (db, Err (Constraint "sync_entries.job_id, sync_entries.relative_path")).
Proof.
  intros Hrec Hcat Hm Hcov Hj Hu Ht. unfold transact. rewrite note_recording, Hcov by done. cbn [note_all].
  pose proof (note_one_enrol media category stamp job db m j relative Hcat Hm Hj Hu) as Hone.
  cbv zeta in Hone. rewrite Ht in Hone. unfold mbind, Tx_bind. by rewrite Hone.
Qed.
Definition sample_stamp : EditEvent := mkEvent 9 "device-1" "e9".
Lemma sample_covering : covering_jobs Sample.db 1 = [(1, Some 1)].
Proof. vm_compute. reflexivity. Qed.
Lemma note_records_change_witness :
  exists r db' e', note 1 Metadata sample_stamp Sample.db = Ok (r, db') /\ db_entries db' !! 1 = Some e' /\
    edited Metadata sample_stamp Sample.entry e' /\ uplink_entry_version db' 1 1 = Some 3.
Proof.
  destruct (note_records_change Sample.db 1 Sample.photo Metadata sample_stamp) as (r & db' & Hrun & _ & Hold & _).
  - vm_compute. reflexivity.
  - split; [cbn; lia|]. intros id e [-> ->]%Sample.entries_are. cbn. lia.
  - reflexivity.
  - rewrite sample_covering. constructor; [|constructor]. done.
  - destruct (Hold 1 1 Sample.entry) as (e' & He & Hed & _ & Hup);
      [rewrite sample_covering; left|reflexivity|reflexivity|]. exists r, db', e'. done.
Defined.

(** The sample entry with its media link cleared. *)
Definition sample_unlinked : Db := set_db_entries (set_e_media None <$> db_entries Sample.db) Sample.db.
Lemma note_refuses_unlinked_entry_witness :
  transact (note 1 Metadata sample_stamp) sample_unlinked
  = (sample_unlinked, Err (Constraint "sync_entries.job_id, sync_entries.relative_path")).
Proof.
  apply (note_refuses_unlinked_entry _ 1 Sample.photo _ _ 1 Sample.job "a.jpg"); [vm_compute; reflexivity|done|..];
    vm_compute; reflexivity.
Defined.
End Dirty.
