(* ===== verification/SyncAccounts.v ===== *)
(** Account selection ([sync/store/accounts.rs]): enabling the connections of
    one account, and the storage location of media rows that follows from it. *)
From S2P Require Import Prelude.
From S2P Require Import SyncDb.
From stdpp Require Import pretty.
Local Open Scope Z_scope.

Module Accounts.

Definition KEY_ACCOUNT : string := "native_sync_account".

(** [identity]: the account id, or the negated connection id when the
    connection has no account yet. *)
Definition identity (id : Z) (account : option Z) : string := pretty (default (- id) account).

(** An entry that proves the media's cloud copy for an enabled connection. *)
Definition proves_cloud (db : Db) (media : Z) (e : Entry) : bool :=
  bool_decide (e_media e = Some media) && job_enabled db (e_job e)
  && bool_decide (is_Some (r_photo (e_remote e))) && bool_decide (is_Some (r_confirmed (e_remote e)))
  && negb (e_retired e).

Definition has_entry (db : Db) (media : Z) : bool :=
  exists_where (fun _ e => bool_decide (e_media e = Some media)) (db_entries db).

(** [refresh_media_locations_in]. *)
Definition refresh_media_locations_in (db : Db) : Db :=
  let db := delete_media (fun id m => (m_location m =? 2) && negb (has_entry db id)) db in
  set_db_media
    (map_imap (fun id m => Some (
       if (m_location m =? 1) || (m_location m =? 3)
       then set_m_location (if exists_where (fun _ e => proves_cloud db id e) (db_entries db) then 3 else 1) m
       else m)) (db_media db)) db.

Definition has_job (db : Db) (connection : Z) : bool :=
  exists_where (fun _ j => j_connection j =? connection) (db_jobs db).

(** [ORDER BY c.enabled DESC, c.id]. *)
Definition enabled_first (x y : Z * Connection) : Prop :=
  (c_enabled y.2 = true -> c_enabled x.2 = true) /\
  (c_enabled x.2 = c_enabled y.2 -> x.1 <= y.1).
#[export] Instance enabled_first_dec : RelDecision enabled_first.
Proof. intros x y. unfold enabled_first. apply _. Defined.

(** The connections that have a job. *)
Definition used_connections (db : Db) : list (Z * Connection) :=
  merge_sort enabled_first (filter (fun kc => has_job db kc.1 = true) (map_to_list (db_connections db))).

Definition ident (kc : Z * Connection) : string := identity kc.1 (c_account kc.2).

(** The identity [select_in] settles on. *)
Definition choose (job : option Z) : Tx Db (option string) :=
  connections ← gets used_connections;
  previous ← gets (fun db => db_settings db !! KEY_ACCOUNT);
  match job with
  | Some job =>
      row ← gets (fun db => db_jobs db !! job);
      j ← need row NoRows;
      found ← need (List.find (fun kc => kc.1 =? j_connection j) connections)
                   (Backend "account task was removed");
      mret (Some (ident found))
  | None =>
      mret (match previous with
            | Some value => Some value
            | None => ident <$> head connections
            end)
  end.

Definition matches (selected : option string) (kc : Z * Connection) : bool :=
  bool_decide (selected = Some (ident kc)).

(** The enablement loop over the used connections. *)
Definition set_enabled (selected : option string) (connections : list (Z * Connection)) (db : Db) : Db :=
  fold_left (fun db kc =>
    if bool_decide (matches selected kc = c_enabled kc.2) then db
    else set_db_connections (alter (set_c_enabled (matches selected kc)) kc.1 (db_connections db)) db)
    connections db.

(** [select_in]. *)
Definition select_in (job : option Z) : Tx Db unit :=
  connections ← gets used_connections;
  previous ← gets (fun db => db_settings db !! KEY_ACCOUNT);
  selected ← choose job;
  let selection_changed := negb (bool_decide (selected = previous)) in
  let enabled_changed := existsb (fun kc => negb (bool_decide (matches selected kc = c_enabled kc.2))) connections in
  _ ← modify (set_enabled selected connections);
  _ ← match selected with
      | Some value =>
          if bool_decide (Some value = previous) then mret tt
          else modify (fun db => set_db_settings (<[KEY_ACCOUNT := value]> (db_settings db)) db)
      | None => mret tt
      end;
  if enabled_changed || selection_changed then modify refresh_media_locations_in else mret tt.

(** [Command::ClearAccount]. *)
Definition clear_account : Tx Db unit :=
  _ ← modify (fun db => set_db_connections (set_c_enabled false <$> db_connections db) db);
  _ ← modify refresh_media_locations_in;
  modify (fun db => set_db_settings (<[KEY_ACCOUNT := "0"]> (db_settings db)) db).

(** ** Properties *)
(** Connection and account ids are the positive row ids of their tables. *)
Definition ids_positive (db : Db) : Prop :=
  forall id c, db_connections db !! id = Some c -> 0 < id /\ (forall a, c_account c = Some a -> 0 < a).

(** Two connections of one account. *)
Definition same_account (x y : Z * Connection) : Prop :=
  x.1 = y.1 \/ exists a, c_account x.2 = Some a /\ c_account y.2 = Some a.

Lemma ident_same_account db x y :
  ids_positive db -> db_connections db !! x.1 = Some x.2 -> db_connections db !! y.1 = Some y.2 ->
  ident x = ident y -> same_account x y.
Proof.
  destruct x as [i c], y as [k d]. simpl. intros Hpos Hx Hy Heq.
  unfold ident, identity in Heq. apply (inj pretty) in Heq. simpl in Heq.
  destruct (Hpos _ _ Hx) as [Hi Hc], (Hpos _ _ Hy) as [Hk Hd]. unfold same_account. simpl.
  destruct (c_account c) as [a|], (c_account d) as [b|]; simpl in Heq.
  - right. exists a. by subst.
  - specialize (Hc a eq_refl). lia.
  - specialize (Hd b eq_refl). lia.
  - left. lia.
Qed.

Lemma elem_of_used db id c :
  (id, c) ∈ used_connections db <-> db_connections db !! id = Some c /\ has_job db id = true.
Proof.
  unfold used_connections. rewrite merge_sort_Permutation, list_elem_of_filter, elem_of_map_to_list.
  simpl. tauto.
Qed.

Lemma used_NoDup db : NoDup (used_connections db).*1.
Proof.
  unfold used_connections. rewrite merge_sort_Permutation.
  apply (sublist_NoDup _ (map_to_list (db_connections db)).*1); [apply NoDup_fst_map_to_list|].
  apply fmap_sublist, sublist_filter.
Qed.

Lemma set_enabled_lookup selected l db id c :
  NoDup l.*1 -> (forall k d, (k, d) ∈ l -> db_connections db !! k = Some d) ->
  db_connections db !! id = Some c ->
  db_connections (set_enabled selected l db) !! id
  = Some (if decide (id ∈ l.*1) then set_c_enabled (matches selected (id, c)) c else c).
Proof.
  revert db c. induction l as [|[k d] l IH]; intros db c Hnd Hl Hid; simpl; [done|].
  apply NoDup_cons in Hnd as [Hk Hnd].
  set (db1 := if bool_decide _ then _ else _).
  assert (Hdb1 : forall i e, db_connections db !! i = Some e -> i <> k ->
                   db_connections db1 !! i = Some e).
  { intros i e Hi Hne. subst db1. case_bool_decide; [done|]. cbn. by rewrite lookup_alter_ne. }
  assert (Hk1 : db_connections db1 !! k = Some (set_c_enabled (matches selected (k, d)) d)).
  { assert (db_connections db !! k = Some d) as Hd by (apply Hl; left). subst db1.
    case_bool_decide as E; simpl in E.
    - rewrite Hd, E. by destruct d.
    - cbn. by rewrite lookup_alter_eq, Hd. }
  assert (Hl1 : forall i e, (i, e) ∈ l -> db_connections db1 !! i = Some e).
  { intros i e Hi. apply Hdb1; [apply Hl; by right|]. intros ->. apply Hk.
    apply list_elem_of_fmap. by exists (k, e). }
  destruct (decide (id = k)) as [->|Hne].
  - assert (c = d) as -> by (apply (inj Some); rewrite <- Hid; apply Hl; left).
    rewrite (IH db1 _ Hnd Hl1 Hk1). rewrite (decide_False (P := k ∈ l.*1)) by done.
    by rewrite decide_True by left.
  - rewrite (IH db1 c Hnd Hl1 (Hdb1 _ _ Hid Hne)).
    destruct (decide (id ∈ l.*1)) as [Hin|Hnin].
    + by rewrite decide_True by (by right).
    + by rewrite decide_False by (by intros [?|?]%elem_of_cons).
Qed.

Lemma set_enabled_frame selected l db :
  db_jobs (set_enabled selected l db) = db_jobs db /\
  db_settings (set_enabled selected l db) = db_settings db /\
  (forall id, db_connections db !! id = None -> db_connections (set_enabled selected l db) !! id = None).
Proof.
  unfold set_enabled. revert db. induction l as [|kc l IH]; intros db; simpl; [done|].
  destruct (bool_decide _); [apply IH|].
  destruct (IH (set_db_connections (alter (set_c_enabled (matches selected kc)) kc.1 (db_connections db)) db))
    as (-> & -> & Hn). split_and!; [done..|]. intros id Hid. apply Hn. cbn.
  destruct (decide (id = kc.1)) as [->|]; [by rewrite lookup_alter_eq, Hid|by rewrite lookup_alter_ne].
Qed.

(** What enabling leaves of each connection. *)
Definition enabled_as (selected : option string) (db : Db) (id : Z) (c : Connection) : Connection :=
  if has_job db id then set_c_enabled (matches selected (id, c)) c else c.

Lemma set_enabled_spec selected db id :
  db_connections (set_enabled selected (used_connections db) db) !! id
  = enabled_as selected db id <$> db_connections db !! id.
Proof.
  destruct (db_connections db !! id) as [c|] eqn:Hid; [|by apply set_enabled_frame].
  rewrite (set_enabled_lookup selected _ db id c (used_NoDup db)); [|..|done].
  2: { intros k d Hin. by apply elem_of_used. }
  simpl. unfold enabled_as. f_equal. destruct (has_job db id) eqn:Hh.
  - rewrite decide_True; [done|]. apply list_elem_of_fmap. exists (id, c). split; [done|]. by apply elem_of_used.
  - rewrite decide_False; [done|]. intros ([k d] & -> & Hin)%list_elem_of_fmap.
    apply elem_of_used in Hin as [_ Hin]. simpl in Hh. congruence.
Qed.

Lemma choose_Ok job db selected db' :
  choose job db = Ok (selected, db') ->
  db' = db /\
  (forall j, job = Some j -> exists row c, db_jobs db !! j = Some row /\
     (j_connection row, c) ∈ used_connections db /\ selected = Some (ident (j_connection row, c))).
Proof.
  unfold choose. intros Hrun. tx_inv Hrun. destruct job as [j|].
  - tx_inv Hrun. split; [done|]. intros j' [= <-].
    match goal with H : List.find _ _ = Some ?f |- _ => destruct f as [k c]; apply find_some in H as [Hin Hk] end.
    simpl in Hk. zbool. subst. eexists _, c. split_and!; [done|by apply list_elem_of_In|done].
  - tx_inv Hrun. done.
Qed.

(** A successful selection, in one fact: who is enabled and what is recorded. *)
Lemma select_in_spec job db db' :
  select_in job db = Ok (tt, db') ->
  exists selected, choose job db = Ok (selected, db) /\
    (forall id, db_connections db' !! id = enabled_as selected db id <$> db_connections db !! id) /\
    db_jobs db' = db_jobs db /\
    (forall v, selected = Some v -> db_settings db' !! KEY_ACCOUNT = Some v).
Proof.
  unfold select_in. intros Hrun.
  apply bind_Ok in Hrun as (conns & db0 & H0 & Hrun). apply gets_Ok in H0 as [-> ->].
  apply bind_Ok in Hrun as (prev & db0 & H0 & Hrun). apply gets_Ok in H0 as [-> ->].
  apply bind_Ok in Hrun as (selected & db0 & H0 & Hrun).
  destruct (choose_Ok _ _ _ _ H0) as [-> _]. exists selected. split; [done|].
  apply bind_Ok in Hrun as (u & db1 & H1 & Hrun). apply modify_Ok in H1.
  assert (Hc1 : forall id, db_connections db1 !! id = enabled_as selected db id <$> db_connections db !! id)
    by (intros id; subst db1; apply set_enabled_spec).
  assert (Hf1 : db_jobs db1 = db_jobs db /\ db_settings db1 = db_settings db)
    by (subst db1; split; apply set_enabled_frame).
  clear H1. apply bind_Ok in Hrun as (u2 & db2 & H2 & Hrun).
  assert (H12 : db_connections db2 = db_connections db1 /\ db_jobs db2 = db_jobs db1 /\
                forall v, selected = Some v -> db_settings db2 !! KEY_ACCOUNT = Some v).
  { destruct Hf1 as [_ Hs]. destruct selected as [v|]; [|by apply mret_Ok in H2 as [_ ->]].
    destruct (bool_decide _) eqn:E.
    - apply mret_Ok in H2 as [_ ->]. split_and!; [done..|]. intros ? [= <-].
      apply bool_decide_eq_true in E. by rewrite Hs.
    - apply modify_Ok in H2 as ->. split_and!; [done..|]. intros ? [= <-]. cbn. by rewrite lookup_insert_eq. }
  assert (db_connections db' = db_connections db2 /\ db_jobs db' = db_jobs db2 /\
          db_settings db' = db_settings db2) as (-> & -> & ->).
  { destruct (_ || _); [apply modify_Ok in Hrun as ->|apply mret_Ok in Hrun as [_ ->]]; done. }
  destruct H12 as (-> & -> & Hset). destruct Hf1 as [-> _]. done.
Qed.

(** Selecting an account leaves one account active. After [select_in],
    any two enabled connections that carry a job belong to the same account;
    when a job was named, its connection is enabled and its identity is the
    recorded selection; jobs are untouched, and so is every column of a
    connection but the enablement flag of those with a job. *)
Theorem select_enables_one_account job db db' :
  ids_positive db -> select_in job db = Ok (tt, db') ->
  (forall x y, db_connections db' !! x.1 = Some x.2 -> db_connections db' !! y.1 = Some y.2 ->
     has_job db x.1 = true -> has_job db y.1 = true ->
     c_enabled x.2 = true -> c_enabled y.2 = true -> same_account x y) /\
  (forall j row, job = Some j -> db_jobs db !! j = Some row ->
     exists c, db_connections db' !! j_connection row = Some c /\ c_enabled c = true /\
       db_settings db' !! KEY_ACCOUNT = Some (ident (j_connection row, c))) /\
  db_jobs db' = db_jobs db /\
  (forall id c', db_connections db' !! id = Some c' -> exists c, db_connections db !! id = Some c /\
     c' = set_c_enabled (c_enabled c') c /\ (has_job db id = false -> c' = c)).
Proof.
  intros Hpos Hrun. destruct (select_in_spec _ _ _ Hrun) as (selected & Hch & Hc & Hj & Hs).
  destruct (choose_Ok _ _ _ _ Hch) as [_ Hjob]. split_and!; [|..|done|].
  - intros [i ci] [k ck]. simpl. rewrite !Hc. intros Hi Hk Hji Hjk Hei Hek.
    destruct (db_connections db !! i) as [ci0|] eqn:Ei; [|done].
    destruct (db_connections db !! k) as [ck0|] eqn:Ek; [|done].
    simpl in Hi, Hk. unfold enabled_as in *. rewrite Hji in Hi. rewrite Hjk in Hk.
    injection Hi as <-. injection Hk as <-. cbn in Hei, Hek.
    apply bool_decide_eq_true in Hei, Hek.
    destruct (ident_same_account db (i, ci0) (k, ck0)) as [?|(a & ? & ?)]; [done..|congruence|by left|].
    right. by exists a.
  - intros j row -> Hrow. destruct (Hjob j eq_refl) as (row' & c & Hrow' & Hin & Hsel). simplify_eq.
    apply elem_of_used in Hin as [Hcon Hhas]. exists (set_c_enabled true c). rewrite Hc, Hcon. simpl.
    unfold enabled_as, matches. rewrite Hhas, bool_decide_true by done. split_and!; [done..|].
    by apply Hs.
  - intros id c'. rewrite Hc. destruct (db_connections db !! id) as [c|]; [|done]. simpl. intros [= <-].
    exists c. unfold enabled_as. destruct (has_job db id); split_and!; try done. by destruct c.
Qed.

(** Dropping unreferenced rows unlinks no entry. *)
Lemma delete_unreferenced db :
  db_entries (delete_media (fun id m => (m_location m =? 2) && negb (has_entry db id)) db) = db_entries db.
Proof.
  cbn [delete_media db_entries set_db_media set_db_entries]. apply map_eq. intros k.
  rewrite lookup_update_where. destruct (db_entries db !! k) as [e|] eqn:Hk; [|done]. simpl.
  destruct (e_media e) as [id|] eqn:Hid; [|done]. destruct (db_media db !! id) as [m|]; [|done].
  assert (has_entry db id = true) as ->.
  { apply exists_where_true. exists k, e. split; [done|]. by apply bool_decide_eq_true. }
  by rewrite andb_false_r.
Qed.

(** The storage location of every media row follows from the database:
    after [refresh_media_locations_in] no cloud-only row is left without an
    entry, and a local row is marked local-and-cloud exactly when an entry of
    an enabled connection carries a confirmed, unretired cloud identity for it.
    Every other column of the surviving rows is unchanged. *)
Theorem refresh_media_locations_correct db :
  let db' := refresh_media_locations_in db in
  (forall id m', db_media db' !! id = Some m' -> m_location m' = 2 ->
     exists k e, db_entries db' !! k = Some e /\ e_media e = Some id) /\
  (forall id m', db_media db' !! id = Some m' -> m_location m' <> 2 ->
     exists m, db_media db !! id = Some m /\ m' = set_m_location (m_location m') m /\
       (m_location m = 1 \/ m_location m = 3 ->
          (m_location m' = 3 \/ m_location m' = 1) /\
          (m_location m' = 3 <-> exists k e, db_entries db !! k = Some e /\ proves_cloud db id e = true))).
Proof.
  set (gone := fun id m => (m_location m =? 2) && negb (has_entry db id)).
  set (db1 := delete_media gone db).
  assert (He : db_entries db1 = db_entries db) by apply delete_unreferenced.
  assert (Hp : forall id e, proves_cloud db1 id e = proves_cloud db id e) by done.
  assert (Hm1 : forall id m, db_media db1 !! id = Some m -> db_media db !! id = Some m /\ gone id m = false).
  { intros id m H1. by apply (lookup_delete_where_Some gone (db_media db)). }
  unfold refresh_media_locations_in. cbv zeta. fold gone db1.
  cbn [db_media db_entries set_db_media]. rewrite He. setoid_rewrite map_lookup_imap. split.
  - intros id m' Hm' Hloc. destruct (db_media db1 !! id) as [m|] eqn:Hm; [|done]. simpl in Hm'.
    injection Hm' as <-. apply Hm1 in Hm as [Hm Hg].
    destruct ((m_location m =? 1) || (m_location m =? 3)) eqn:E.
    { cbn in Hloc. destruct (exists_where _ _); lia. }
    unfold gone in Hg. rewrite Hloc in Hg. simpl in Hg. apply negb_false_iff in Hg.
    apply exists_where_true in Hg as (k & e & Hk & Hb%bool_decide_eq_true). by exists k, e.
  - intros id m' Hm' Hloc. destruct (db_media db1 !! id) as [m|] eqn:Hm; [|done]. simpl in Hm'.
    injection Hm' as <-. apply Hm1 in Hm as [Hm _]. exists m. split; [done|].
    destruct ((m_location m =? 1) || (m_location m =? 3)) eqn:E.
    + cbn. split; [done|]. intros _. destruct (exists_where _ _) eqn:Hex.
      * split; [by left|]. split; [|done]. intros _. by apply exists_where_true in Hex.
      * split; [by right|]. split; [done|]. intros (k & e & Hk & Hpc).
        rewrite exists_where_false in Hex. specialize (Hex k e Hk). cbn beta in Hex. congruence.
    + split; [by destruct m|]. intros [H1|H1]; rewrite H1 in E; done.
Qed.
Lemma select_enables_one_account_witness :
  exists db' c, select_in (Some 1) Sample.db = Ok (tt, db') /\ db_connections db' !! 1 = Some c /\ c_enabled c = true.
Proof.
  assert (H : select_in (Some 1) Sample.db = Ok (tt, (transact (select_in (Some 1)) Sample.db).1))
    by (vm_compute; reflexivity).
  assert (Hpos : ids_positive Sample.db).
  { intros id c Hc. change (db_connections Sample.db) with ({[1 := Sample.connection]} : gmap Z Connection) in Hc.
    apply lookup_singleton_Some in Hc as [<- <-]. split; [lia|]. by intros a [= <-]. }
  destruct (select_enables_one_account (Some 1) Sample.db _ Hpos H) as (_ & Hsel & _).
  destruct (Hsel 1 Sample.job eq_refl eq_refl) as (c & Hc & He & _). eexists _, c. done.
Defined.
End Accounts.
