(* ===== verification/SyncJobs.v ===== *)
(** Job configuration and lifecycle: the durable edit queue
    ([sync/store/configuration.rs]) and the job commands of [execute_write] in
    [sync/store.rs] (closing a run, reconciling runs a dead process left open,
    pausing, deleting, selecting albums), with the status the overview derives
    from the job rows. *)
From Stdlib Require Import Ascii String.
From S2P Require Import Prelude.
From S2P Require Import Media.
From S2P Require Import SyncDb.
From S2P Require Import SyncError.
From S2P Require Import SyncReset.
From S2P Require Import SyncAccounts.
Local Open Scope Z_scope.

Module Jobs.

(** ** Album names ([normalize_relative_albums], [remote_path.rs]) *)
Fixpoint ltrim_slash (s : string) : string :=
  match s with
  | String c rest => if bool_decide (c = "/"%char) then ltrim_slash rest else s
  | EmptyString => EmptyString
  end.
(** [trim_matches('/')]. *)
Definition trim_slashes (s : string) : string := rtrim_slash (ltrim_slash s).

Definition has_navigation_segment (path : string) : bool :=
  existsb (fun seg => bool_decide (seg = "."%string) || bool_decide (seg = ".."%string)) (Media.split_slash path).
Definition has_empty_segment (path : string) : bool :=
  existsb (fun seg => bool_decide (seg = ""%string)) (Media.split_slash path).

Fixpoint normalize_all (albums : list string) : option (list string) :=
  match albums with
  | [] => Some []
  | album :: rest =>
      let album := trim_slashes album in
      if negb (bool_decide (album = ""%string)) && (has_empty_segment album || has_navigation_segment album)
      then None
      else (cons album) <$> normalize_all rest
  end.
Definition normalize_relative_albums (albums : list string) : result (list string) :=
  match normalize_all albums with
  | Some l => Ok (merge_sort string_le (remove_dups l))
  | None => Err (Backend "synchronization upload album is invalid")
  end.

(** ** The edit queue *)
Inductive JobEdit :=
  | EditDirection (d : SyncDirection)
  | EditUploadAlbums (albums : list string)
  | EditDelete.

(** [upload_albums]: the selected albums of a job, by name. *)
Definition upload_albums (db : Db) (id : Z) : list string :=
  merge_sort string_le (snd <$> filter (fun a => a.1 = id) (elements (db_albums db))).

Definition no_change : Change := mkChange 0 None None false.

(** The edit merged into the pending change; [None] when it changes nothing. *)
Definition merge_edit (db : Db) (id : Z) (j : Job) (pending : Change) (edit : JobEdit) : option Change :=
  match edit with
  | EditDirection d =>
      let effective := default (j_direction j) (ch_direction pending) in
      if bool_decide (effective = d) then None else Some (set_ch_direction (Some d) pending)
  | EditUploadAlbums albums =>
      let effective := default (upload_albums db id) (ch_albums pending) in
      if (bool_decide (is_Some (ch_albums pending)) || bool_decide (j_scope j = ScopeSelectedAlbums))
         && bool_decide (effective = albums)
      then None else Some (set_ch_albums (Some albums) pending)
  | EditDelete => Some (set_ch_delete true pending)
  end.

Definition queue (id : Z) (edit : JobEdit) : Tx Db bool :=
  row ← gets (fun db => db_jobs db !! id);
  j ← need row (Backend "sync job no longer exists");
  pending ← gets (fun db => default no_change (db_changes db !! id));
  if ch_delete pending then
    match edit with
    | EditDelete => mret false
    | _ => throw (Backend "this synchronization task is being removed")
    end
  else
    merged ← gets (fun db => merge_edit db id j pending edit);
    match merged with
    | None => mret false
    | Some change =>
        let change := set_ch_revision (Z.max (ch_revision change) (j_config j) + 1) change in
        _ ← modify (fun db => set_db_changes (<[id := change]> (db_changes db)) db);
        _ ← update_job id (set_j_error None);
        mret true
    end.

(** [SyncStore::queue_edit]: albums are normalised before they are compared. *)
Definition queue_edit (id : Z) (edit : JobEdit) : Tx Db bool :=
  match edit with
  | EditUploadAlbums albums =>
      match normalize_relative_albums albums with
      | Ok albums => queue id (EditUploadAlbums albums)
      | Err e => throw e
      end
  | other => queue id other
  end.

(** ** Deleting a job *)
Definition delete_connection (id : Z) (db : Db) : Db :=
  set_db_connections (delete id (db_connections db)) db.

(** [SyncWrite::DeleteJob]; the result is the credential no job uses any more. *)
Definition delete_job (id : Z) : Tx Db (option string) :=
  row ← gets (fun db => j ← db_jobs db !! id; c ← db_connections db !! j_connection j; Some (j, c));
  jc ← need row (Backend "sync job does not exist");
  _ ← ensure (j_paused jc.1) (Backend "pause this synchronization task before deleting it");
  _ ← modify (delete_job_rows id);
  remaining ← gets (fun db => Accounts.has_job db (j_connection jc.1));
  orphaned ← (if (remaining : bool) then mret None
              else _ ← modify (delete_connection (j_connection jc.1)); mret (Some (c_credential jc.2)));
  _ ← modify Accounts.refresh_media_locations_in;
  mret orphaned.

(** ** Installing a queued edit *)
Inductive ApplyResult :=
  | Changed (changed : bool)
  | DeletedJob (credential : option string).

Definition applied_job (revision : Z) (ch : Change) (j : Job) : Job :=
  let j := match ch_albums ch with Some _ => set_j_scope ScopeSelectedAlbums j | None => j end in
  let j := match ch_direction ch with Some d => set_j_direction d j | None => j end in
  set_j_config revision (set_j_paused false
    (set_j_error None (set_j_started None (set_j_completed None j)))).

Definition apply_change (id revision : Z) : Tx Db ApplyResult :=
  resetting ← gets Reset.pending;
  if (resetting : bool) then mret (Changed false)
  else
    pending ← gets (fun db => db_changes db !! id);
    match pending with
    | None => mret (Changed false)
    | Some ch =>
        if negb (ch_revision ch =? revision) then mret (Changed false)
        else
          row ← gets (fun db => db_jobs db !! id);
          j ← need row NoRows;
          _ ← ensure (j_paused j) (Backend "internal configuration transition is not quiescent");
          if ch_delete ch then
            credential ← delete_job id; mret (DeletedJob credential)
          else
            _ ← match ch_albums ch with Some albums => replace_albums id albums | None => mret tt end;
            _ ← update_job id (applied_job revision ch);
            _ ← modify (fun db => set_db_changes (delete id (db_changes db)) db);
            mret (Changed true)
    end.

(** ** Run lifecycle *)
Definition has_change_row (db : Db) (id : Z) : bool := bool_decide (is_Some (db_changes db !! id)).

(** [SyncWrite::FinishRun]. *)
Definition finish_run (now id generation : Z) (error : option string) : Tx Db unit :=
  _ ← update_job id (set_j_completed (Some now));
  attributable ← gets (fun db =>
    match db_jobs db !! id with Some j => j_config j =? generation | None => false end
    && negb (has_change_row db id));
  if (attributable : bool) then update_job id (set_j_error error) else mret tt.

(** A run is open: it started and no completion at or after the start is recorded. *)
Definition run_open (j : Job) : bool :=
  match j_started j with
  | Some s => match j_completed j with Some c => c <? s | None => true end
  | None => false
  end.

Definition INTERRUPTED_RUN : string := "sync.interrupted_run".

(** [SyncWrite::ReconcileInterruptedRuns]; the result is the number of rows closed. *)
Definition reconcile_interrupted_runs : Tx Db nat :=
  n ← gets (fun db => count_where (fun _ j => run_open j) (db_jobs db));
  _ ← modify (fun db => set_db_jobs (update_where (fun _ j => run_open j)
        (fun j => set_j_completed (j_started j) (set_j_error (Some INTERRUPTED_RUN) j)) (db_jobs db)) db);
  mret n.

(** [SyncWrite::FailPendingEdit]. *)
Definition fail_pending_edit (id revision : Z) (error : string) : Tx Db unit :=
  current ← gets (fun db => match db_changes db !! id with
                            | Some ch => ch_revision ch =? revision | None => false end);
  if (current : bool) then update_job id (set_j_error (Some error)) else mret tt.

Definition set_job_paused (id : Z) (paused : bool) : Tx Db unit := update_job id (set_j_paused paused).

(** [SyncWrite::SetUploadAlbums]. *)
Definition set_upload_albums (id : Z) (albums : list string) : Tx Db unit :=
  row ← gets (fun db => db_jobs db !! id);
  _ ← ensure (bool_decide (is_Some row)) (Backend "synchronization job does not exist");
  _ ← update_job id (fun j => set_j_config (j_config j + 1) (set_j_scope ScopeSelectedAlbums j));
  replace_albums id albums.

Definition mark_job_started (now id : Z) : Tx Db unit :=
  update_job id (fun j => set_j_started (Some now) (set_j_error None j)).
Definition mark_job_completed (now id : Z) : Tx Db unit :=
  update_job id (fun j => set_j_completed (Some now) (set_j_error None j)).
Definition mark_job_failed (id : Z) (error : string) : Tx Db unit :=
  update_job id (set_j_error (Some error)).

(** ** The overview status *)
Inductive SyncOverviewStatus :=
  Disabled | NotConfigured | Paused | Applying | Running | Failed | Ready | Completed.
#[export] Instance SyncOverviewStatus_eq_dec : EqDecision SyncOverviewStatus.
Proof. solve_decision. Defined.

Definition is_whitespace (c : Ascii.ascii) : bool :=
  bool_decide (c ∈ [" "; "009"; "010"; "011"; "012"; "013"]%char).
(** [detail.trim().is_empty()] for ASCII text. *)
Fixpoint blank (s : string) : bool :=
  match s with EmptyString => true | String c rest => is_whitespace c && blank rest end.

(** A stored error that reports a failure. *)
Definition failure (error : option string) : option string :=
  match error with Some d => if blank d then None else Some d | None => None end.

(** The job rows of enabled connections, by id. *)
Definition enabled_jobs (db : Db) : list Job :=
  snd <$> filter (fun kj => job_enabled db kj.1 = true) (rows_by_id (db_jobs db)).

(** The status the overview reports; [synced] and [total] are its item counts. *)
Definition overview_status (db : Db) (sync_enabled : bool) (synced total : Z) : SyncOverviewStatus :=
  let jobs := enabled_jobs db in
  let failed j := bool_decide (is_Some (failure (j_error j))) in
  let active := filter (fun j => j_paused j = false) jobs in
  if negb sync_enabled then Disabled
  else if bool_decide (jobs = []) then NotConfigured
  else if Reset.pending db
          || exists_where (fun id _ => job_enabled db id) (db_changes db) then
    if bool_decide (is_Some (db_reset db ≫= reset_error)) || existsb failed jobs then Failed else Applying
  else if forallb j_paused jobs then Paused
  else if existsb failed active then Failed
  else if existsb run_open active then Running
  else if existsb (fun j => bool_decide (is_Some (j_completed j))) active && (synced <? total) then Running
  else if existsb (fun j => bool_decide (is_Some (j_completed j))) active then Completed
  else Ready.

(** [failure_cause]. *)
Definition failure_cause (db : Db) (id : Z) : option SyncErrors.SyncCause :=
  j ← db_jobs db !! id; d ← failure (j_error j); Some (SyncErrors.classify_detail d).

(** ** Properties of the edit queue *)
Lemma merge_edit_kept db id j pending edit ch :
  merge_edit db id j pending edit = Some ch -> ch_revision ch = ch_revision pending.
Proof.
  destruct edit; simpl; [destruct (bool_decide _)|destruct (_ && _)|]; by intros; simplify_eq.
Qed.

(** The three outcomes of [queue] on an existing job. *)
Lemma queue_Ok id edit db b db' :
  queue id edit db = Ok (b, db') ->
  exists j, db_jobs db !! id = Some j /\
    ((b = false /\ db' = db) \/
     (b = true /\ exists ch, merge_edit db id j (default no_change (db_changes db !! id)) edit = Some ch /\
        ch_delete (default no_change (db_changes db !! id)) = false /\
        let ch' := set_ch_revision (Z.max (ch_revision ch) (j_config j) + 1) ch in
        db' = set_db_jobs (alter (set_j_error None) id (db_jobs db))
                (set_db_changes (<[id := ch']> (db_changes db)) db))).
Proof.
  unfold queue. intros Hrun. apply bind_Ok in Hrun as (row & db0 & H0 & Hrun). apply gets_Ok in H0 as [-> ->].
  apply bind_Ok in Hrun as (j & db0 & H0 & Hrun). apply need_Ok in H0 as [Hj ->].
  apply bind_Ok in Hrun as (p & db0 & H0 & Hrun). apply gets_Ok in H0 as [-> ->].
  exists j. split; [done|]. destruct (ch_delete _) eqn:Hdel.
  { destruct edit; [done..|]. apply mret_Ok in Hrun as [-> ->]. by left. }
  apply bind_Ok in Hrun as (merged & db0 & H0 & Hrun). apply gets_Ok in H0 as [-> ->].
  destruct (merge_edit _ _ _ _ _) as [ch|] eqn:Hm.
  - tx_inv Hrun. right. split; [done|]. exists ch. split_and!; try done.
  - apply mret_Ok in Hrun as [-> ->]. by left.
Qed.

(** Accepting an edit is monotone: [queue] either changes nothing, or
    records a change whose revision is newer than the job's active
    configuration and than every change it replaces; the active configuration
    itself is untouched until the change is applied, and a queued removal
    admits no further edit. *)
Theorem queue_revision_monotone id edit db b db' :
  queue id edit db = Ok (b, db') ->
  if b then
    exists j j' ch, db_jobs db !! id = Some j /\ db_jobs db' !! id = Some j' /\
      db_changes db' !! id = Some ch /\ j_config j < ch_revision ch /\
      j' = set_j_error None j /\
      (forall old, db_changes db !! id = Some old -> ch_revision old < ch_revision ch /\ ch_delete old = false) /\
      (forall k, k <> id -> db_changes db' !! k = db_changes db !! k /\ db_jobs db' !! k = db_jobs db !! k)
  else db' = db.
Proof.
  intros Hrun. destruct (queue_Ok _ _ _ _ _ Hrun) as (j & Hj & [[-> ->]|(-> & ch & Hm & Hdel & Heq)]); [done|].
  cbv zeta in Heq. subst db'. apply merge_edit_kept in Hm.
  exists j, (set_j_error None j). eexists. cbn. rewrite lookup_alter_eq, Hj, lookup_insert_eq.
  split_and!; try done; cbn; [lia|..].
  - intros old Hold. rewrite Hold in *. simpl in *. split; [lia|done].
  - intros k Hk. by rewrite lookup_alter_ne, lookup_insert_ne by done.
Qed.

(** What an edit asks of the job it is applied to. *)
Definition edit_done (edit : JobEdit) (db : Db) (id : Z) (j : Job) : Prop :=
  match edit with
  | EditDirection d => j_direction j = d
  | EditUploadAlbums albums =>
      j_scope j = ScopeSelectedAlbums /\ forall a, (id, a) ∈ db_albums db <-> a ∈ albums
  | EditDelete => False
  end.

(** What a change asks of the job it is applied to. *)
Definition change_done (ch : Change) (db : Db) (id : Z) (j : Job) : Prop :=
  (forall d, ch_direction ch = Some d -> j_direction j = d) /\
  (forall albums, ch_albums ch = Some albums ->
     j_scope j = ScopeSelectedAlbums /\ forall a, (id, a) ∈ db_albums db <-> a ∈ albums).

Lemma apply_change_run db id ch j :
  Reset.pending db = false -> db_changes db !! id = Some ch -> db_jobs db !! id = Some j ->
  j_paused j = true -> ch_delete ch = false -> (forall al, ch_albums ch = Some al -> NoDup al) ->
  exists db', apply_change id (ch_revision ch) db = Ok (Changed true, db') /\
    db_jobs db' !! id = Some (applied_job (ch_revision ch) ch j) /\
    db_changes db' = delete id (db_changes db) /\
    change_done ch db' id (applied_job (ch_revision ch) ch j).
Proof.
  intros Hr Hch Hj Hp Hd Hal. unfold apply_change. rewrite (bind_run _ _ _ _ _ eq_refl). cbn beta. rewrite Hr.
  rewrite (bind_run _ _ _ _ _ eq_refl). cbn beta. rewrite Hch, Z.eqb_refl. cbn [negb].
  rewrite (bind_run _ _ _ _ _ eq_refl). cbn beta. rewrite Hj, (bind_run _ _ _ _ _ eq_refl).
  rewrite Hp, (bind_run _ _ _ _ _ eq_refl), Hd.
  assert (exists albums', (match ch_albums ch with Some albums => replace_albums id albums | None => mret tt end) db
            = Ok (tt, match ch_albums ch with Some _ => set_db_albums albums' db | None => db end) /\
          forall al, ch_albums ch = Some al -> forall a, (id, a) ∈ albums' <-> a ∈ al) as (albums' & Hrun & Hin).
  { destruct (ch_albums ch) as [al|]; [|by exists ∅].
    destruct (Reset.replace_albums_run id al db (Hal _ eq_refl)) as (albums' & Hrun & Hin).
    exists albums'. split; [done|]. intros ? [= <-] a. by rewrite Hin, decide_True. }
  rewrite (bind_run _ _ _ _ _ Hrun). eexists. split; [done|]. unfold change_done. cbn. split_and!.
  - destruct (ch_albums ch); cbn; by rewrite lookup_alter_eq, Hj.
  - by destruct (ch_albums ch).
  - intros d Hdir. unfold applied_job. rewrite Hdir. by destruct (ch_albums ch).
  - intros al Ha. unfold applied_job. rewrite Ha. cbn. split; [by destruct (ch_direction ch)|]. by apply Hin.
Qed.

(** An accepted edit is what gets installed. If [queue] accepted an edit
    and the job is quiescent (paused) with no reset pending, applying the
    queued revision succeeds, makes the edit the job's configuration under that
    strictly newer generation, resumes the job and clears the queue; applying
    any other revision changes nothing. *)
Theorem queued_edit_installs id edit db db1 j rev :
  queue id edit db = Ok (true, db1) -> edit <> EditDelete -> db_jobs db !! id = Some j ->
  Reset.changes_ok db -> (forall al, edit = EditUploadAlbums al -> NoDup al) -> Reset.pending db = false ->
  let quiescent := (transact (set_job_paused id true) db1).1 in
  exists ch, db_changes db1 !! id = Some ch /\ j_config j < ch_revision ch /\
    (rev <> ch_revision ch -> apply_change id rev quiescent = Ok (Changed false, quiescent)) /\
    exists db2 j2, apply_change id (ch_revision ch) quiescent = Ok (Changed true, db2) /\
      db_jobs db2 !! id = Some j2 /\ j_config j2 = ch_revision ch /\ j_paused j2 = false /\
      db_changes db2 !! id = None /\ edit_done edit db2 id j2.
Proof.
  intros Hq Hne Hj Hok Hnd Hr quiescent.
  destruct (queue_Ok _ _ _ _ _ Hq) as (j' & Hj' & [[? _]|(_ & ch & Hm & Hdel & ->)]); [done|]. simplify_eq.
  set (ch' := set_ch_revision (Z.max (ch_revision ch) (j_config j) + 1) ch) in *.
  assert (Hchq : db_changes quiescent !! id = Some ch') by (cbn; by rewrite lookup_insert_eq).
  exists ch'. split_and!.
  - cbn. by rewrite lookup_insert_eq.
  - cbn. lia.
  - intros Hrev. unfold apply_change. rewrite (bind_run _ _ _ _ _ eq_refl). cbn beta.
    assert (Reset.pending quiescent = false) as -> by done.
    rewrite (bind_run _ _ _ _ _ eq_refl). cbn beta. rewrite Hchq.
    by rewrite (proj2 (Z.eqb_neq (ch_revision ch') rev)).
  - destruct (apply_change_run quiescent id ch' (set_j_paused true (set_j_error None j)))
      as (db2 & Hrun & Hj2 & Hc2 & Hd1 & Hd2); try done.
    + cbn. by rewrite !lookup_alter_eq, Hj.
    + cbn. destruct edit; simpl in Hm; [destruct (bool_decide _)|destruct (_ && _)|]; simplify_eq; done.
    + intros al Hal. cbn in Hal. destruct edit as [d|albums|]; simpl in Hm; [..|done].
      * destruct (bool_decide _); [done|]. simplify_eq. cbn in Hal.
        destruct (db_changes db !! id) as [old|] eqn:Ho; [|done]. by apply (Hok id old).
      * destruct (_ && _); [done|]. simplify_eq. cbn in Hal. simplify_eq. by apply Hnd.
    + eexists db2, _. split_and!; [exact Hrun|exact Hj2| | | |].
      * by destruct (ch_albums ch'), (ch_direction ch').
      * by destruct (ch_albums ch'), (ch_direction ch').
      * rewrite Hc2. by rewrite lookup_delete_eq.
      * destruct edit as [d|albums|]; simpl in Hm |- *; [..|done].
        -- destruct (bool_decide _); [done|]. simplify_eq. by apply Hd1.
        -- destruct (_ && _); [done|]. simplify_eq. by apply Hd2.
Qed.

Lemma remove_dups_NoDup l : NoDup (merge_sort string_le (remove_dups l)).
Proof. rewrite merge_sort_Permutation. apply NoDup_remove_dups. Qed.

Lemma normalize_all_spec albums l :
  normalize_all albums = Some l ->
  l = trim_slashes <$> albums /\
  Forall (fun a => a = ""%string \/ has_empty_segment a = false /\ has_navigation_segment a = false) l.
Proof.
  revert l. induction albums as [|a albums IH]; intros l; simpl; [by intros [= <-]|].
  destruct (_ && _) eqn:E; [done|]. destruct (normalize_all albums) as [r|]; [|done]. simpl.
  intros [= <-]. destruct (IH _ eq_refl) as [-> Hf]. split; [done|]. constructor; [|done].
  apply andb_false_iff in E as [E|E].
  - left. apply negb_false_iff in E. by apply bool_decide_eq_true in E.
  - right. by apply orb_false_iff in E.
Qed.

(** An accepted album selection is a set of safe relative names: no
    duplicates, no [.] or [..] and no empty segment inside a name, and exactly
    the trimmed names that were submitted. Submitting the same albums in another
    order or with repetitions gives the identical list, so it is no change. *)
Theorem normalize_relative_albums_correct albums l :
  normalize_relative_albums albums = Ok l ->
  NoDup l /\ (forall a, a ∈ l <-> a ∈ trim_slashes <$> albums) /\
  Forall (fun a => a = ""%string \/ has_empty_segment a = false /\ has_navigation_segment a = false) l /\
  (forall albums' l', (forall a, a ∈ albums' <-> a ∈ albums) ->
     normalize_relative_albums albums' = Ok l' -> l' = l).
Proof.
  unfold normalize_relative_albums. destruct (normalize_all albums) as [r|] eqn:Hr; [|done]. intros [= <-].
  destruct (normalize_all_spec _ _ Hr) as [-> Hf]. split_and!.
  - apply remove_dups_NoDup.
  - intros a. by rewrite merge_sort_Permutation, elem_of_remove_dups.
  - rewrite merge_sort_Permutation. apply Forall_forall. intros a Ha.
    rewrite elem_of_remove_dups in Ha. rewrite Forall_forall in Hf. exact (Hf a Ha).
  - intros albums' l' Hp. destruct (normalize_all albums') as [r'|] eqn:Hr'; [|done]. intros [= <-].
    destruct (normalize_all_spec _ _ Hr') as [-> _].
    apply (StronglySorted_unique string_le); [apply (StronglySorted_merge_sort string_le)..|].
    rewrite !merge_sort_Permutation. apply NoDup_Permutation; [apply NoDup_remove_dups..|].
    intros a. rewrite !elem_of_remove_dups, !list_elem_of_fmap. by setoid_rewrite Hp.
Qed.

(** ** Properties of the run lifecycle *)
(** A finished run is closed whatever happened to the job meanwhile: after
    [finish_run] no run of the job reads as open (the clock not running
    backwards), and the stored error changes only while the run's configuration
    is still the active one with no edit queued. *)
Theorem finish_run_closes now id generation error db j :
  db_jobs db !! id = Some j -> (forall s, j_started j = Some s -> s <= now) ->
  exists db' j', finish_run now id generation error db = Ok (tt, db') /\
    db_jobs db' !! id = Some j' /\ run_open j' = false /\
    j_error j' = (if (j_config j =? generation) && negb (has_change_row db id) then error else j_error j) /\
    j_config j' = j_config j /\ (forall k, k <> id -> db_jobs db' !! k = db_jobs db !! k).
Proof.
  intros Hj Hnow. unfold finish_run, update_job.
  rewrite (bind_run _ _ _ _ _ eq_refl), (bind_run _ _ _ _ _ eq_refl). cbn.
  rewrite lookup_alter_eq, Hj. cbn.
  assert (Hopen : forall x, j_started x = j_started j -> j_completed x = Some now -> run_open x = false).
  { intros x Hs Hc. unfold run_open. rewrite Hs, Hc. destruct (j_started j) as [s0|]; [|done].
    specialize (Hnow s0 eq_refl). by apply Z.ltb_ge. }
  unfold has_change_row. cbn.
  destruct ((j_config j =? generation) && _); eexists _, _; (split; [done|]); cbn;
    rewrite ?lookup_alter_eq, Hj; cbn; split_and!; try done; try by apply Hopen.
  - intros k Hk. by rewrite !lookup_alter_ne.
  - intros k Hk. by rewrite lookup_alter_ne.
Qed.

(** After the launch reconciliation no job reads as running: every run a
    previous process left open is closed and reported as interrupted, every
    other job is untouched, the reported count is the number of runs closed,
    and the overview says [Running] only when a finished cycle still owes
    items. *)
Theorem reconcile_closes_interrupted_runs db synced total :
  exists n db', reconcile_interrupted_runs db = Ok (n, db') /\
    (forall id j', db_jobs db' !! id = Some j' -> run_open j' = false) /\
    (forall id j, db_jobs db !! id = Some j ->
       db_jobs db' !! id = Some (if run_open j
         then set_j_completed (j_started j) (set_j_error (Some INTERRUPTED_RUN) j) else j)) /\
    n = count_where (fun _ j => run_open j) (db_jobs db) /\
    (overview_status db' true synced total = Running -> synced < total).
Proof.
  unfold reconcile_interrupted_runs. eexists _, _. split; [done|].
  set (jobs' := update_where _ _ _).
  assert (Hclosed : forall id j', jobs' !! id = Some j' -> run_open j' = false).
  { intros id j'. subst jobs'. rewrite lookup_update_where.
    destruct (db_jobs db !! id) as [j|]; [|done]. simpl. intros [= <-].
    destruct (run_open j) eqn:Ho; [|done]. unfold run_open. cbn. destruct (j_started j); [|done].
    by apply Z.ltb_irrefl. }
  split_and!; [done| |done|].
  - intros id j Hj. cbn. subst jobs'. by rewrite lookup_update_where, Hj.
  - unfold overview_status. cbn [negb].
    repeat match goal with |- (if ?b then _ else _) = _ -> _ => destruct b eqn:? end; try done; zbool.
    + exfalso. match goal with H : existsb run_open _ = true |- _ =>
        apply existsb_exists in H as (x & Hin%list_elem_of_In & Hx) end.
      apply list_elem_of_filter in Hin as [_ Hin]. unfold enabled_jobs in Hin.
      apply list_elem_of_fmap in Hin as ([k j'] & -> & Hin). apply list_elem_of_filter in Hin as [_ Hin].
      apply elem_of_rows_by_id in Hin. cbn in Hin. simpl in Hx. rewrite (Hclosed k j' Hin) in Hx. done.
    + lia.
Qed.

(** ** Deleting a job *)
(** Nothing of the job is left in any table. *)
Definition job_gone (db : Db) (id : Z) : Prop :=
  db_jobs db !! id = None /\ db_changes db !! id = None /\ db_progress db !! id = None /\
  (forall a, (id, a) ∉ db_albums db) /\
  (forall k e, db_entries db !! k = Some e -> e_job e <> id) /\
  (forall k t, db_tasks db !! k = Some t -> t_job t <> id) /\
  (forall k x, db_conflicts db !! k = Some x -> x_job x <> id) /\
  (forall k p, db_publications db !! k = Some p -> p_job p <> id) /\
  (forall k r, db_resources db !! k = Some r -> k.1.1.1 <> id).

Lemma delete_job_rows_gone db id : job_gone (delete_job_rows id db) id.
Proof.
  unfold job_gone, delete_job_rows. cbn [db_jobs db_changes db_progress db_albums db_entries db_tasks
    db_conflicts db_publications db_resources set_db_jobs set_db_albums set_db_changes set_db_tasks
    set_db_conflicts set_db_progress set_db_bootstrap set_db_resources set_db_publications].
  rewrite !lookup_delete_eq. split_and!; try done.
  - intros a [Hne _]%elem_of_filter. by apply Hne.
  - intros k e He. cbn in He. apply lookup_delete_where_Some in He as [_ He]. by apply Z.eqb_neq.
  - intros k t [_ He]%lookup_delete_where_Some. by apply Z.eqb_neq.
  - intros k x [_ He]%lookup_delete_where_Some. by apply Z.eqb_neq.
  - intros k p [_ He]%lookup_delete_where_Some. by apply Z.eqb_neq.
  - intros k r [_ He]%lookup_delete_where_Some. by apply Z.eqb_neq.
Qed.

Lemma refresh_frame db :
  db_entries (Accounts.refresh_media_locations_in db) = db_entries db /\
  db_jobs (Accounts.refresh_media_locations_in db) = db_jobs db /\
  (forall id, job_gone db id -> job_gone (Accounts.refresh_media_locations_in db) id) /\
  db_connections (Accounts.refresh_media_locations_in db) = db_connections db.
Proof.
  assert (He : db_entries (Accounts.refresh_media_locations_in db) = db_entries db)
    by apply Accounts.delete_unreferenced.
  split_and!; [done..| |done]. intros id. unfold job_gone. by rewrite He.
Qed.

Lemma delete_connection_gone connection db id :
  job_gone db id -> job_gone (delete_connection connection db) id.
Proof. done. Qed.

Lemma delete_job_run id db j c :
  db_jobs db !! id = Some j -> db_connections db !! j_connection j = Some c ->
  delete_job id db
  = if j_paused j then
      let db1 := delete_job_rows id db in
      if Accounts.has_job db1 (j_connection j) then Ok (None, Accounts.refresh_media_locations_in db1)
      else Ok (Some (c_credential c),
               Accounts.refresh_media_locations_in (delete_connection (j_connection j) db1))
    else Err (Backend "pause this synchronization task before deleting it").
Proof.
  intros Hj Hc. unfold delete_job.
  assert (Hrow : gets (fun db => j ← db_jobs db !! id; c ← db_connections db !! j_connection j; Some (j, c)) db
                 = Ok (Some (j, c), db)).
  { unfold gets. rewrite Hj. simpl. by rewrite Hc. }
  rewrite (bind_run _ _ _ _ _ Hrow), (bind_run _ _ _ _ _ eq_refl). cbn [fst snd].
  destruct (j_paused j); [|done]. tx_red. cbv zeta. generalize (delete_job_rows id db). intros db1.
  by destruct (Accounts.has_job db1 (j_connection j)).
Qed.

(** Deleting a job needs it paused, removes everything scoped to it and
    nothing of another job's entries, and hands back the credential exactly
    when no job uses the connection any more. *)
Theorem delete_job_correct id db j c :
  db_jobs db !! id = Some j -> db_connections db !! j_connection j = Some c ->
  (j_paused j = false -> transact (delete_job id) db
     = (db, Err (Backend "pause this synchronization task before deleting it"))) /\
  (j_paused j = true ->
   exists credential db', delete_job id db = Ok (credential, db') /\ job_gone db' id /\
     (forall k e, db_entries db !! k = Some e -> e_job e <> id -> db_entries db' !! k = Some e) /\
     (forall k j', k <> id -> db_jobs db !! k = Some j' -> db_jobs db' !! k = Some j') /\
     let shared := exists k j', k <> id /\ db_jobs db !! k = Some j' /\ j_connection j' = j_connection j in
     (credential = None <-> shared) /\
     (~ shared -> credential = Some (c_credential c) /\ db_connections db' !! j_connection j = None)).
Proof.
  intros Hj Hc. pose proof (delete_job_run id db j c Hj Hc) as Hrun. split; intros Hp; rewrite Hp in Hrun.
  { unfold transact. by rewrite Hrun. }
  pose proof (delete_job_rows_gone db id) as Hgone.
  assert (Hshared : Accounts.has_job (delete_job_rows id db) (j_connection j) = true <->
     exists k j', k <> id /\ db_jobs db !! k = Some j' /\ j_connection j' = j_connection j).
  { unfold Accounts.has_job. rewrite exists_where_true. cbn. setoid_rewrite lookup_delete_Some.
    setoid_rewrite Z.eqb_eq. naive_solver. }
  assert (Hkeep : forall k e, db_entries db !! k = Some e -> e_job e <> id ->
            db_entries (delete_job_rows id db) !! k = Some e).
  { intros k e He Hne. cbn. apply lookup_delete_where_Some. split; [done|]. by apply Z.eqb_neq. }
  assert (Hjobs : forall k j', k <> id -> db_jobs db !! k = Some j' ->
            db_jobs (delete_job_rows id db) !! k = Some j').
  { intros k j' Hk Hj'. cbn. by rewrite lookup_delete_ne. }
  revert Hrun Hgone Hshared Hkeep Hjobs. generalize (delete_job_rows id db) as db1.
  intros db1 Hrun Hgone Hshared Hkeep Hjobs. cbv zeta in Hrun. destruct (Accounts.has_job db1 (j_connection j)).
  - exists None. eexists. split; [exact Hrun|]. destruct (refresh_frame db1) as (He & Hjb & Hg & _).
    split; [by apply Hg|]. split; [by rewrite He|]. split; [by rewrite Hjb|]. cbv zeta. split.
    + split; [intros _; by apply Hshared|done].
    + intros Hn. destruct Hn. by apply Hshared.
  - exists (Some (c_credential c)). eexists. split; [exact Hrun|].
    destruct (refresh_frame (delete_connection (j_connection j) db1)) as (He & Hjb & Hg & Hcn).
    split; [by apply Hg, delete_connection_gone|]. split; [by rewrite He|]. split; [by rewrite Hjb|].
    cbv zeta. split.
    + split; [done|]. intros Hsh. by apply Hshared in Hsh.
    + intros _. split; [done|]. rewrite Hcn. apply lookup_delete_eq.
Qed.
Definition sample_edit : JobEdit := EditDirection UploadOnly.
Definition sample_queued : Db := (transact (queue 1 sample_edit) Sample.db).1.
Lemma sample_queue_run : queue 1 sample_edit Sample.db = Ok (true, sample_queued).
Proof. vm_compute. reflexivity. Qed.
Lemma queue_revision_monotone_witness :
  exists j ch, db_jobs Sample.db !! 1 = Some j /\ db_changes sample_queued !! 1 = Some ch /\ j_config j < ch_revision ch.
Proof.
  destruct (queue_revision_monotone 1 sample_edit Sample.db true sample_queued sample_queue_run)
    as (j & _ & ch & Hj & _ & Hch & Hlt & _). by exists j, ch.
Defined.
Lemma queued_edit_installs_witness :
  exists ch db2 j2, db_changes sample_queued !! 1 = Some ch /\
    apply_change 1 (ch_revision ch) (transact (set_job_paused 1 true) sample_queued).1 = Ok (Changed true, db2) /\
    db_jobs db2 !! 1 = Some j2 /\ j_config j2 = ch_revision ch.
Proof.
  destruct (queued_edit_installs 1 sample_edit Sample.db sample_queued Sample.job 0 sample_queue_run)
    as (ch & Hch & _ & _ & db2 & j2 & Hrun & Hj & Hcfg & _); [done|reflexivity| |done|reflexivity|].
  - intros id c albums Hid. change (db_changes Sample.db) with (∅ : gmap Z Change) in Hid. by rewrite lookup_empty in Hid.
  - by exists ch, db2, j2.
Defined.
Lemma finish_run_closes_witness :
  exists db' j', finish_run 12 1 3 None Sample.db = Ok (tt, db') /\ db_jobs db' !! 1 = Some j' /\ run_open j' = false.
Proof.
  destruct (finish_run_closes 12 1 3 None Sample.db Sample.job eq_refl) as (db' & j' & Hrun & Hj & Ho & _);
    [by intros s [= <-]|]. by exists db', j'.
Defined.
Definition sample_paused : Db := (transact (set_job_paused 1 true) Sample.db).1.
Lemma delete_job_correct_witness :
  exists credential db', delete_job 1 sample_paused = Ok (credential, db') /\ job_gone db' 1.
Proof.
  destruct (delete_job_correct 1 sample_paused (set_j_paused true Sample.job) Sample.connection eq_refl eq_refl)
    as [_ Hdel].
  destruct (Hdel eq_refl) as (credential & db' & Hrun & Hgone & _). by exists credential, db'.
Defined.
End Jobs.
