(* ===== verification/SyncPublication.v ===== *)
(** Resource work and publication intent ([sync/store/publication.rs]): what
    the cloud owes this client for one generation, and the gate that lets a
    photo become visible only when both of its resources are in. *)
From Stdlib Require Import Ascii String.
From S2P Require Import Prelude.
From S2P Require Import SyncDb.
Local Open Scope Z_scope.

Module Publications.

Definition as_str (s : ResourceState) : string :=
  match s with
  | RPending => "pending" | RStaged => "staged" | RVerified => "verified"
  | RRetained => "retained" | RFailed => "failed"
  end.
Definition parse_state (value : string) : ResourceState :=
  if bool_decide (value = "staged"%string) then RStaged
  else if bool_decide (value = "verified"%string) then RVerified
  else if bool_decide (value = "retained"%string) then RRetained
  else if bool_decide (value = "failed"%string) then RFailed
  else RPending.

(** [SELECT database_generation FROM sync_native_progress WHERE job_id=?]. *)
Definition generation_of (db : Db) (job : Z) : option string := g_generation <$> db_progress db !! job.

(** The rows a resource statement of the current generation addresses. *)
Definition current_row (db : Db) (job : Z) (asset : string) (role : Role) (k : ResKey) : bool :=
  (k.1.1.1 =? job) && bool_decide (generation_of db job = Some k.1.1.2)
  && bool_decide (k.1.2 = asset) && bool_decide (k.2 = role).

Definition update_resources (P : Db -> ResKey -> bool) (f : Resource -> Resource) (db : Db) : Db :=
  set_db_resources (update_where (fun k _ => P db k) f (db_resources db)) db.

(** [set_resource_state]; the result is the number of rows updated. *)
Definition set_resource_state (job : Z) (asset : string) (role : Role) (state : ResourceState) : Tx Db nat :=
  n ← gets (fun db => count_where (fun k _ => current_row db job asset role k) (db_resources db));
  _ ← modify (update_resources (fun db => current_row db job asset role) (set_s_state state));
  mret n.

Definition no_obligation : AppError := Backend "no resource obligation".

(** [PublicationCommand::Stage]. *)
Definition stage (job : Z) (asset : string) (role : Role) (staging_path : string) : Tx Db bool :=
  updated ← set_resource_state job asset role RStaged;
  _ ← ensure (negb (updated =? 0)%nat) no_obligation;
  _ ← modify (update_resources (fun db => current_row db job asset role) (set_s_staging (Some staging_path)));
  mret true.

(** [PublicationCommand::Verify]. *)
Definition verify (job : Z) (asset : string) (role : Role) (verified_cache : string) : Tx Db bool :=
  updated ← set_resource_state job asset role RVerified;
  _ ← ensure (negb (updated =? 0)%nat) no_obligation;
  _ ← modify (update_resources (fun db => current_row db job asset role) (set_s_cache (Some verified_cache)));
  mret true.

(** [PublicationCommand::Fail]; the second statement names no generation. *)
Definition fail (job : Z) (asset : string) (role : Role) : Tx Db bool :=
  _ ← set_resource_state job asset role RFailed;
  _ ← modify (update_resources (fun _ k =>
        (k.1.1.1 =? job) && bool_decide (k.1.2 = asset) && bool_decide (k.2 = role)) (set_s_staging None));
  mret true.

(** ** Obligations of the current generation *)
Definition open_state (s : ResourceState) : bool :=
  match s with RPending | RStaged => true | _ => false end.

Definition role_rank (r : Role) : Z := match r with RoleThumbnail => 0 | RoleOriginal => 1 end.

(** [ORDER BY CASE role WHEN 'thumbnail' THEN 0 ELSE 1 END, record_name]. *)
Definition work_order (x y : ResKey * Resource) : Prop :=
  role_rank x.1.2 < role_rank y.1.2 \/
  (role_rank x.1.2 = role_rank y.1.2 /\
   string_le (default ""%string (s_record x.2)) (default ""%string (s_record y.2))).
#[export] Instance work_order_dec : RelDecision work_order.
Proof. intros x y. unfold work_order. apply _. Defined.

(** [PublicationCommand::Outstanding]. *)
Definition outstanding (db : Db) (job : Z) : list (ResKey * Resource) :=
  match generation_of db job with
  | None => []
  | Some generation =>
      merge_sort work_order
        (filter (fun kr : ResKey * Resource =>
           (kr.1.1.1.1 =? job) && bool_decide (kr.1.1.1.2 = generation)
           && bool_decide (is_Some (s_record kr.2)) && open_state (s_state kr.2) = true)
           (map_to_list (db_resources db)))
  end.

(** [PublicationCommand::Intents]. *)
Definition intents (db : Db) (job : Z) (asset : option string) : list (Z * Publication) :=
  filter (fun kp : Z * Publication =>
    (p_job kp.2 =? job) && (bool_decide (p_state kp.2 = PPending) || bool_decide (p_state kp.2 = PPublishing))
    && match asset with
       | None => true
       | Some a => bool_decide (p_original kp.2 = Some a) || bool_decide (p_thumbnail kp.2 = Some a)
       end = true) (rows_by_id (db_publications db)).

(** ** Publication intents *)
Definition pub_by_id (id : string) : Z -> Publication -> bool := fun _ p => bool_decide (p_id p = id).

Definition reopen (s : PubState) : PubState := match s with PSuperseded => PPending | s => s end.

(** [PublicationCommand::Begin]. *)
Definition begin (job : Z) (entry : option Z) (id photo : string) (master original thumbnail : option string)
  : Tx Db bool :=
  _ ← modify (fun db => set_db_publications (update_where (fun _ p =>
        (p_job p =? job) && bool_decide (p_photo p = Some photo) && negb (bool_decide (p_id p = id))
        && bool_decide (p_state p = PPending)) (set_p_state PSuperseded) (db_publications db)) db);
  existing ← gets (fun db => exists_where (pub_by_id id) (db_publications db));
  _ ← (if (existing : bool) then
         modify (fun db => set_db_publications (update_where (pub_by_id id)
           (fun p => set_p_entry entry (set_p_original original (set_p_thumbnail thumbnail
                       (set_p_state (reopen (p_state p)) p)))) (db_publications db)) db)
       else
         modify (fun db => set_db_publications
           (<[db_next_publication db := mkPub id job entry (Some photo) master original thumbnail PPending None None None None]>
              (db_publications db)) (set_db_next_publication (db_next_publication db + 1) db)));
  mret true.

(** A resource row that counts towards readiness of [p] in [generation]. *)
Definition counts_for (p : Publication) (generation : string) (k : ResKey) (r : Resource) : bool :=
  (k.1.1.1 =? p_job p) && bool_decide (k.1.1.2 = generation)
  && ((bool_decide (p_original p = Some k.1.2) && bool_decide (k.2 = RoleOriginal))
      || (bool_decide (p_thumbnail p = Some k.1.2) && bool_decide (k.2 = RoleThumbnail)))
  && (bool_decide (s_state r = RStaged) || bool_decide (s_state r = RVerified)).

(** [publication_is_ready]. *)
Definition publication_is_ready (id : string) : Tx Db bool :=
  row ← gets (fun db => find_row (pub_by_id id) (db_publications db));
  kp ← need row NoRows;
  g ← gets (fun db => generation_of db (p_job kp.2));
  generation ← need g NoRows;
  n ← gets (fun db => count_where (counts_for kp.2 generation) (db_resources db));
  mret (n =? 2)%nat.

(** [PublicationCommand::Complete]. *)
Definition complete (id : string) : Tx Db bool :=
  ready ← publication_is_ready id;
  if (ready : bool) then
    _ ← modify (fun db => set_db_publications
          (update_where (pub_by_id id) (set_p_state PComplete) (db_publications db)) db);
    mret true
  else mret false.

(** ** Properties *)
Lemma parse_as_str s : parse_state (as_str s) = s.
Proof. by destruct s. Qed.

(** The resource of one role that the gate looks for. *)
Definition role_in (db : Db) (job : Z) (generation : string) (asset : option string) (role : Role) : Prop :=
  exists a r, asset = Some a /\ db_resources db !! (job, generation, a, role) = Some r /\
    (s_state r = RStaged \/ s_state r = RVerified).

Lemma counts_for_true p g k r :
  counts_for p g k r = true <->
  k.1.1 = (p_job p, g) /\
  ((p_original p = Some k.1.2 /\ k.2 = RoleOriginal) \/ (p_thumbnail p = Some k.1.2 /\ k.2 = RoleThumbnail)) /\
  (s_state r = RStaged \/ s_state r = RVerified).
Proof.
  destruct k as [[[job gen] asset] role]. unfold counts_for. simpl.
  rewrite !andb_true_iff, !orb_true_iff, !andb_true_iff, !bool_decide_eq_true, Z.eqb_eq.
  split; [intros [[[-> ->] ?] ?]; done|]. intros ([= -> ->] & ? & ?). done.
Qed.

(** The keys the gate can count, at most one per role. *)
Definition candidates (p : Publication) (g : string) : list ResKey :=
  match p_original p with Some a => [(p_job p, g, a, RoleOriginal)] | None => [] end ++
  match p_thumbnail p with Some a => [(p_job p, g, a, RoleThumbnail)] | None => [] end.

Lemma counted_keys (p : Publication) (g : string) (t : gmap ResKey Resource) (k : ResKey) :
  k ∈ (filter (fun kr : ResKey * Resource => counts_for p g kr.1 kr.2 = true) (map_to_list t)).*1 <->
  k ∈ candidates p g /\ exists r, t !! k = Some r /\ (s_state r = RStaged \/ s_state r = RVerified).
Proof.
  rewrite list_elem_of_fmap. split.
  - intros ([k' r] & -> & [Hc Hin%elem_of_map_to_list]%list_elem_of_filter). simpl in *.
    apply counts_for_true in Hc as (Hk & Hrole & Hs). split; [|by exists r].
    destruct k' as [[jg a] role]. simpl in *. subst jg. unfold candidates. rewrite elem_of_app.
    destruct Hrole as [[-> ->]|[-> ->]]; [left|right]; left.
  - intros (Hk & r & Hr & Hs). exists (k, r). split; [done|]. apply list_elem_of_filter.
    split; [|by apply elem_of_map_to_list]. simpl. apply counts_for_true.
    unfold candidates in Hk. apply elem_of_app in Hk as [Hk|Hk].
    + destruct (p_original p) as [a|]; [|by apply elem_of_nil in Hk].
      apply list_elem_of_singleton in Hk as ->. split_and!; [done|by left|done].
    + destruct (p_thumbnail p) as [a|]; [|by apply elem_of_nil in Hk].
      apply list_elem_of_singleton in Hk as ->. split_and!; [done|by right|done].
Qed.

Lemma candidates_NoDup p g : NoDup (candidates p g).
Proof.
  unfold candidates. destruct (p_original p), (p_thumbnail p); simpl; repeat constructor; set_solver.
Qed.

Lemma count_two (p : Publication) (g : string) (t : gmap ResKey Resource) :
  count_where (counts_for p g) t = 2%nat <->
  length (candidates p g) = 2%nat /\
  forall k, k ∈ candidates p g -> exists r, t !! k = Some r /\ (s_state r = RStaged \/ s_state r = RVerified).
Proof.
  unfold count_where. pose proof (counted_keys p g t) as Hck. set (l := filter _ _) in *.
  assert (Hnd : NoDup l.*1).
  { apply (sublist_NoDup _ (map_to_list t).*1); [apply NoDup_fst_map_to_list|].
    apply fmap_sublist, sublist_filter. }
  assert (Hsub : l.*1 ⊆+ candidates p g).
  { apply NoDup_submseteq; [done|]. intros k Hk. by apply counted_keys in Hk as [? _]. }
  rewrite <- (length_fmap fst l). split.
  - intros Hlen. assert (Hc : (length (candidates p g) <= 2)%nat).
    { unfold candidates. by destruct (p_original p), (p_thumbnail p); simpl; lia. }
    pose proof (submseteq_length _ _ Hsub). split; [lia|]. intros k Hk.
    assert (l.*1 ≡ₚ candidates p g) as Hp by (apply submseteq_length_Permutation; [done|lia]).
    rewrite <- Hp in Hk. by apply counted_keys in Hk as [_ ?].
  - intros [Hlen Hall]. rewrite <- Hlen. apply Permutation_length, NoDup_Permutation;
      [done|apply candidates_NoDup|]. intros k. rewrite Hck. split; [tauto|]. auto.
Qed.

Lemma ready_run id db k p g :
  find_row (pub_by_id id) (db_publications db) = Some (k, p) -> generation_of db (p_job p) = Some g ->
  publication_is_ready id db = Ok ((count_where (counts_for p g) (db_resources db) =? 2)%nat, db).
Proof.
  intros Hp Hg. unfold publication_is_ready. tx_red. rewrite Hp. cbn [snd]. by rewrite Hg.
Qed.

Lemma count_two_roles db p g :
  count_where (counts_for p g) (db_resources db) = 2%nat <->
  role_in db (p_job p) g (p_original p) RoleOriginal /\ role_in db (p_job p) g (p_thumbnail p) RoleThumbnail.
Proof.
  rewrite count_two. unfold candidates, role_in. split.
  - intros [Hlen Hall]. destruct (p_original p) as [o|], (p_thumbnail p) as [th|]; try done. split.
    + destruct (Hall (p_job p, g, o, RoleOriginal)) as (r & ? & ?); [simpl; left|]. by exists o, r.
    + destruct (Hall (p_job p, g, th, RoleThumbnail)) as (r & ? & ?); [simpl; right; left|]. by exists th, r.
  - intros [(o & r1 & Ho & H1 & S1) (th & r2 & Ht & H2 & S2)]. rewrite Ho, Ht. split; [done|].
    intros k [->|[->|Hk]%elem_of_cons]%elem_of_cons; [by exists r1|by exists r2|by apply elem_of_nil in Hk].
Qed.

(** The publication gate. For an intent whose job has a receive position,
    [publication_is_ready] answers [true] exactly when both the original and the
    thumbnail of the intent are staged or verified for the job's current
    generation, and [complete] marks the intent complete in exactly that case
    and otherwise changes nothing: half a pair, or a pair of another
    generation, never completes. *)
Theorem publication_gate id db k p g :
  find_row (pub_by_id id) (db_publications db) = Some (k, p) -> generation_of db (p_job p) = Some g ->
  exists ready, publication_is_ready id db = Ok (ready, db) /\
    (ready = true <-> role_in db (p_job p) g (p_original p) RoleOriginal
                      /\ role_in db (p_job p) g (p_thumbnail p) RoleThumbnail) /\
    exists db', complete id db = Ok (ready, db') /\
      if ready then db_publications db' !! k = Some (set_p_state PComplete p) else db' = db.
Proof.
  intros Hp Hg. rewrite (ready_run id db k p g Hp Hg).
  eexists. split; [done|]. split; [rewrite Nat.eqb_eq; apply count_two_roles|].
  unfold complete. rewrite (bind_run _ _ _ _ _ (ready_run id db k p g Hp Hg)).
  destruct (_ =? 2)%nat; eexists; (split; [done|]); [|done].
  cbn. apply find_row_Some in Hp as [Hk Hid]. by rewrite lookup_update_where, Hk; simpl; rewrite Hid.
Qed.

Lemma update_resources_lookup P f db k :
  db_resources (update_resources P f db) !! k = (fun r => if P db k then f r else r) <$> db_resources db !! k.
Proof. cbn. by rewrite lookup_update_where. Qed.

Lemma count_current_row db job asset role g :
  generation_of db job = Some g ->
  is_Some (db_resources db !! (job, g, asset, role)) ->
  count_where (fun k _ => current_row db job asset role k) (db_resources db) <> 0%nat.
Proof.
  intros Hg [r Hr]. apply (count_where_nonzero _ _ _ _ Hr). unfold current_row. simpl.
  by rewrite Z.eqb_refl, !bool_decide_true by done.
Qed.

Lemma current_row_iff db job asset role g k :
  generation_of db job = Some g ->
  current_row db job asset role k = bool_decide (k = (job, g, asset, role)).
Proof.
  intros Hg. destruct k as [[[j' g'] a'] r']. unfold current_row. simpl. rewrite Hg.
  apply eq_true_iff_eq. rewrite !andb_true_iff, !bool_decide_eq_true, Z.eqb_eq.
  split; [by intros [[[-> [= ->]] ->] ->]|by intros [= -> -> -> ->]].
Qed.

(** Staging an owed resource succeeds and touches only its row. *)
Lemma stage_run db job asset role path g r :
  generation_of db job = Some g -> db_resources db !! (job, g, asset, role) = Some r ->
  exists db', stage job asset role path db = Ok (true, db') /\
    db_progress db' = db_progress db /\ db_publications db' = db_publications db /\
    forall k, db_resources db' !! k
      = if bool_decide (k = (job, g, asset, role)) then Some (set_s_staging (Some path) (set_s_state RStaged r))
        else db_resources db !! k.
Proof.
  intros Hg Hr. unfold stage, set_resource_state.
  pose proof (count_current_row db job asset role g Hg ltac:(by eexists)) as Hn.
  tx_red. rewrite (proj2 (Nat.eqb_neq _ _) Hn). cbn [negb].
  eexists. split; [done|]. split_and!; [done..|]. intros k. rewrite !update_resources_lookup.
  assert (generation_of (update_resources (fun db => current_row db job asset role) (set_s_state RStaged) db) job
          = Some g) as Hg' by done.
  rewrite (current_row_iff _ _ _ _ _ _ Hg'), (current_row_iff _ _ _ _ _ _ Hg).
  destruct (decide (k = (job, g, asset, role))) as [Hk|Hk].
  - rewrite !bool_decide_true by done. by rewrite Hk, Hr.
  - rewrite !bool_decide_false by done. by destruct (db_resources db !! k).
Qed.

(** Staging completes the pair: for an open intent whose two resources are
    owed in the current generation, staging the original and then the thumbnail
    succeeds and the gate opens, whatever their state was before. *)
Theorem stage_both_opens_gate id db k p g o th r1 r2 path1 path2 :
  find_row (pub_by_id id) (db_publications db) = Some (k, p) -> generation_of db (p_job p) = Some g ->
  p_original p = Some o -> p_thumbnail p = Some th ->
  db_resources db !! (p_job p, g, o, RoleOriginal) = Some r1 ->
  db_resources db !! (p_job p, g, th, RoleThumbnail) = Some r2 ->
  exists db1 db2, stage (p_job p) o RoleOriginal path1 db = Ok (true, db1) /\
    stage (p_job p) th RoleThumbnail path2 db1 = Ok (true, db2) /\
    publication_is_ready id db2 = Ok (true, db2).
Proof.
  intros Hp Hg Ho Ht H1 H2.
  destruct (stage_run db (p_job p) o RoleOriginal path1 g r1 Hg H1) as (db1 & Hs1 & Hpr1 & Hpub1 & Hres1).
  assert (Hg1 : generation_of db1 (p_job p) = Some g) by (unfold generation_of; by rewrite Hpr1).
  destruct (stage_run db1 (p_job p) th RoleThumbnail path2 g r2 Hg1) as (db2 & Hs2 & Hpr2 & Hpub2 & Hres2).
  { by rewrite Hres1, bool_decide_false by done. }
  exists db1, db2. split_and!; [done..|].
  assert (Hg2 : generation_of db2 (p_job p) = Some g) by (unfold generation_of in *; by rewrite Hpr2).
  rewrite (ready_run id db2 k p g); [|by rewrite Hpub2, Hpub1|done].
  assert (count_where (counts_for p g) (db_resources db2) = 2%nat) as ->; [|done].
  apply count_two_roles. rewrite Ho, Ht. split.
  - eexists o, _. split; [done|]. rewrite Hres2, bool_decide_false, Hres1, bool_decide_true by done.
    split; [done|]. by left.
  - eexists th, _. split; [done|]. rewrite Hres2, bool_decide_true by done. split; [done|]. by left.
Qed.

(** *** The order of the work *)
#[export] Instance work_order_trans : Transitive work_order.
Proof.
  intros x y z. unfold work_order. intros [H1|[H1 S1]] [H2|[H2 S2]]; [left; lia..|].
  right. split; [lia|]. by etrans.
Qed.
#[export] Instance work_order_total : Total work_order.
Proof.
  intros x y. unfold work_order.
  destruct (Z.lt_trichotomy (role_rank x.1.2) (role_rank y.1.2)) as [?|[E|?]]; [by left; left| |by right; left].
  destruct (total string_le (default ""%string (s_record x.2)) (default ""%string (s_record y.2))) as [?|?];
    [left|right]; right; split; (done || lia).
Qed.

(** [outstanding] lists exactly the obligations of the job's current
    generation that name a record and are pending or staged, each once, with
    every thumbnail before every original and each group in record order. *)
Theorem outstanding_correct db job g :
  generation_of db job = Some g ->
  (forall k r, (k, r) ∈ outstanding db job <->
     db_resources db !! k = Some r /\ k.1.1 = (job, g) /\ is_Some (s_record r) /\
     (s_state r = RPending \/ s_state r = RStaged)) /\
  NoDup (outstanding db job).*1 /\
  (forall i i' x y, (i < i')%nat -> outstanding db job !! i = Some x -> outstanding db job !! i' = Some y ->
     role_rank x.1.2 <= role_rank y.1.2 /\
     (x.1.2 = y.1.2 -> string_le (default ""%string (s_record x.2)) (default ""%string (s_record y.2)))).
Proof.
  intros Hg. unfold outstanding. rewrite Hg. set (l := filter _ _). split_and!.
  - intros k r. rewrite merge_sort_Permutation. subst l.
    rewrite list_elem_of_filter, elem_of_map_to_list. destruct k as [[[j' g'] a] role]. simpl.
    rewrite !andb_true_iff, !bool_decide_eq_true, Z.eqb_eq. unfold open_state.
    split.
    + intros [[[[-> ->] Hrec] Hst] Hr]. split_and!; try done. destruct (s_state r); auto; done.
    + intros (Hr & [= -> ->] & Hrec & Hst). split_and!; try done. by destruct Hst as [-> | ->].
  - rewrite merge_sort_Permutation. apply (sublist_NoDup _ (map_to_list (db_resources db)).*1);
      [apply NoDup_fst_map_to_list|]. apply fmap_sublist, sublist_filter.
  - intros i i' x y Hlt Hx Hy.
    pose proof (StronglySorted_merge_sort work_order l) as Hs.
    pose proof (StronglySorted_lookup_lt _ _ _ _ _ _ Hs Hlt Hx Hy) as [H1|[H1 H2]].
    + split; [lia|]. intros Heq. rewrite Heq in H1. lia.
    + split; [lia|done].
Qed.

(** *** One pending intent per photo *)
(** Publication ids are unique and stay below the sequence. *)
Definition pubs_ok (db : Db) : Prop :=
  (forall k p, db_publications db !! k = Some p -> k < db_next_publication db) /\
  (forall k1 k2 p1 p2, db_publications db !! k1 = Some p1 -> db_publications db !! k2 = Some p2 ->
     p_id p1 = p_id p2 -> k1 = k2).

(** The first statement of [begin] on one row, and the conflict clause of the second. *)
Definition stand_down (job : Z) (photo id : string) (p : Publication) : Publication :=
  if (p_job p =? job) && bool_decide (p_photo p = Some photo) && negb (bool_decide (p_id p = id))
     && bool_decide (p_state p = PPending) then set_p_state PSuperseded p else p.
Definition refresh_intent (entry : option Z) (original thumbnail : option string) (p : Publication) : Publication :=
  set_p_entry entry (set_p_original original (set_p_thumbnail thumbnail (set_p_state (reopen (p_state p)) p))).

Definition begin_row (job : Z) (entry : option Z) (id photo : string) (original thumbnail : option string)
    (p : Publication) : Publication :=
  let p := stand_down job photo id p in
  if bool_decide (p_id p = id) then refresh_intent entry original thumbnail p else p.

Lemma begin_run job entry id photo master original thumbnail db :
  let fresh := mkPub id job entry (Some photo) master original thumbnail PPending None None None None in
  exists t, begin job entry id photo master original thumbnail db
    = Ok (true, if exists_where (pub_by_id id) (db_publications db)
                then set_db_publications t db
                else set_db_publications (<[db_next_publication db := fresh]> t)
                       (set_db_next_publication (db_next_publication db + 1) db)) /\
    forall k, t !! k = begin_row job entry id photo original thumbnail <$> db_publications db !! k.
Proof.
  unfold begin. tx_red. set (t1 := update_where _ _ (db_publications db)).
  assert (Ht1 : forall k, t1 !! k = stand_down job photo id <$> db_publications db !! k)
    by (intros k; subst t1; by rewrite lookup_update_where).
  assert (Hid : forall p, p_id (stand_down job photo id p) = p_id p)
    by (intros p; unfold stand_down; by destruct (_ && _)).
  assert (Hex : exists_where (pub_by_id id) t1 = exists_where (pub_by_id id) (db_publications db)).
  { apply eq_true_iff_eq. rewrite !exists_where_true. unfold pub_by_id. setoid_rewrite Ht1. split.
    - intros (k & p & Hk & Hp). destruct (db_publications db !! k) as [p0|] eqn:E; [|done].
      simpl in Hk. injection Hk as <-. exists k, p0. by rewrite Hid in Hp.
    - intros (k & p & Hk & Hp). exists k, (stand_down job photo id p). by rewrite Hk, Hid. }
  cbn [db_publications set_db_publications]. rewrite Hex.
  destruct (exists_where (pub_by_id id) (db_publications db)) eqn:E.
  - eexists. split; [reflexivity|]. intros k. rewrite lookup_update_where, Ht1.
    by destruct (db_publications db !! k).
  - exists t1. split; [reflexivity|]. intros k. rewrite Ht1.
    destruct (db_publications db !! k) as [p|] eqn:Hk; [|done]. simpl. unfold begin_row. cbv zeta.
    rewrite exists_where_false in E. specialize (E k p Hk). unfold pub_by_id in E. by rewrite Hid, E.
Qed.

Lemma stand_down_facts job photo id p :
  let p' := stand_down job photo id p in
  p_id p' = p_id p /\ p_job p' = p_job p /\ p_photo p' = p_photo p /\
  (p_id p = id -> p' = p) /\
  (p_job p = job -> p_photo p = Some photo -> p_state p' = PPending -> p_id p = id) /\
  stand_down job photo id p' = p'.
Proof.
  unfold stand_down. destruct (_ && _) eqn:E; cbn.
  - split_and!; try done.
    + intros Hid. rewrite Hid, (bool_decide_true (id = id)) in E by done.
      cbn in E. by rewrite andb_false_r in E.
    + by rewrite andb_false_r.
  - split_and!; try done.
    + intros Hj Hph Hst. rewrite Hj, Hph, Hst, Z.eqb_refl, (bool_decide_true (Some photo = Some photo)),
        (bool_decide_true (PPending = PPending)) in E by done. cbn in E.
      rewrite andb_true_r in E. apply negb_false_iff in E. by apply bool_decide_eq_true in E.
    + by rewrite E.
Qed.

Lemma refresh_intent_idem entry original thumbnail p :
  refresh_intent entry original thumbnail (refresh_intent entry original thumbnail p)
  = refresh_intent entry original thumbnail p.
Proof. unfold refresh_intent. cbn. by destruct (p_state p). Qed.

Lemma begin_row_facts job entry id photo original thumbnail p :
  let p' := begin_row job entry id photo original thumbnail p in
  p_id p' = p_id p /\
  (p_job p' = job -> p_photo p' = Some photo -> p_state p' = PPending -> p_id p = id) /\
  (p_id p = id -> p_state p' <> PSuperseded /\ p_original p' = original /\ p_thumbnail p' = thumbnail) /\
  begin_row job entry id photo original thumbnail p' = p'.
Proof.
  unfold begin_row. cbv zeta.
  destruct (stand_down_facts job photo id p) as (Hid & Hj & Hph & Hself & Hpend & Hidem). rewrite Hid.
  destruct (decide (p_id p = id)) as [Heq|Hne].
  - rewrite bool_decide_true by done. rewrite (Hself Heq).
    destruct (stand_down_facts job photo id (refresh_intent entry original thumbnail p))
      as (Hid2 & _ & _ & Hself2 & _ & _).
    rewrite Hid2, (Hself2 Heq), bool_decide_true by done.
    split_and!; [done|done| |apply refresh_intent_idem]. intros _. cbn. by destruct (p_state p).
  - rewrite bool_decide_false by done. split_and!; [done| |done|].
    + rewrite Hj, Hph. done.
    + rewrite Hidem, Hid. by rewrite bool_decide_false by done.
Qed.

(** A table [begin] would not change is a fixpoint of the command. *)
Lemma begin_stable job entry id photo master original thumbnail db :
  exists_where (pub_by_id id) (db_publications db) = true ->
  (forall k p, db_publications db !! k = Some p -> begin_row job entry id photo original thumbnail p = p) ->
  begin job entry id photo master original thumbnail db = Ok (true, db).
Proof.
  intros Hex Hfix.
  destruct (begin_run job entry id photo master original thumbnail db) as (t & Hrun & Ht). cbv zeta in Hrun.
  rewrite Hrun, Hex. assert (t = db_publications db) as ->; [|by destruct db].
  apply map_eq. intros k. rewrite Ht. destruct (db_publications db !! k) as [p|] eqn:Hk; [|done].
  simpl. by rewrite (Hfix k p Hk).
Qed.

(** Opening an intent leaves the photo with that one intent: after [begin]
    the publication exists, every pending intent of the photo in the job is
    this one, an intent that was stood down is open again while a publishing or
    complete one keeps its state, and opening it a second time changes
    nothing. *)
Theorem begin_single_intent job entry id photo master original thumbnail db :
  pubs_ok db ->
  exists db', begin job entry id photo master original thumbnail db = Ok (true, db') /\ pubs_ok db' /\
    (forall k p, db_publications db' !! k = Some p -> p_job p = job -> p_photo p = Some photo ->
       p_state p = PPending -> p_id p = id) /\
    (exists k p, db_publications db' !! k = Some p /\ p_id p = id /\ p_state p <> PSuperseded /\
       p_original p = original /\ p_thumbnail p = thumbnail) /\
    begin job entry id photo master original thumbnail db' = Ok (true, db').
Proof.
  intros [Hnext Huniq].
  destruct (begin_run job entry id photo master original thumbnail db) as (t & Hrun & Ht). cbv zeta in Hrun.
  set (row := begin_row job entry id photo original thumbnail) in *.
  assert (Hrow : forall k p, t !! k = Some p -> exists p0, db_publications db !! k = Some p0 /\ p = row p0).
  { intros k p. rewrite Ht. destruct (db_publications db !! k) as [p0|]; [|done]. intros [= <-]. by exists p0. }
  assert (Hf : forall p, _) by (exact (begin_row_facts job entry id photo original thumbnail)). fold row in Hf.
  set (fresh := mkPub id job entry (Some photo) master original thumbnail PPending None None None None) in *.
  assert (Hfresh : row fresh = fresh).
  { unfold row, begin_row. cbv zeta. destruct (stand_down_facts job photo id fresh) as (Hi & _ & _ & Hs & _).
    rewrite (Hs eq_refl). by rewrite bool_decide_true. }
  eexists. split; [exact Hrun|].
  destruct (exists_where (pub_by_id id) (db_publications db)) eqn:Hex.
  - apply exists_where_true in Hex as (k0 & p0 & Hk0 & Hp0%bool_decide_eq_true).
    assert (Ht0 : t !! k0 = Some (row p0)) by (by rewrite Ht, Hk0).
    split_and!.
    + split; cbn.
      * intros k p Hk. destruct (Hrow _ _ Hk) as (q & Hq & _). by apply (Hnext k q).
      * intros k1 k2 p1 p2 H1 H2. destruct (Hrow _ _ H1) as (q1 & Hq1 & ->), (Hrow _ _ H2) as (q2 & Hq2 & ->).
        destruct (Hf q1) as [-> _], (Hf q2) as [-> _]. by apply Huniq.
    + intros k p Hk. destruct (Hrow _ _ Hk) as (q & Hq & ->). destruct (Hf q) as (-> & Hpend & _). done.
    + exists k0, (row p0). destruct (Hf p0) as (Hi & _ & Ho & _). specialize (Ho Hp0).
      split_and!; [done|congruence|apply Ho..].
    + apply begin_stable.
      * apply exists_where_true. exists k0, (row p0). split; [done|]. apply bool_decide_eq_true.
        by destruct (Hf p0) as [-> _].
      * intros k p Hk. destruct (Hrow _ _ Hk) as (q & Hq & ->). apply Hf.
  - rewrite exists_where_false in Hex.
    assert (Hnone : t !! db_next_publication db = None).
    { rewrite Ht. destruct (db_publications db !! db_next_publication db) as [p|] eqn:E; [|done].
      specialize (Hnext _ _ E). lia. }
    assert (Hcase : forall k p, <[db_next_publication db := fresh]> t !! k = Some p ->
              (k = db_next_publication db /\ p = fresh) \/
              (k <> db_next_publication db /\ exists q, db_publications db !! k = Some q /\ p = row q /\ p_id q <> id)).
    { intros k p [[<- <-]|[Hne Hk]]%lookup_insert_Some; [by left|right]. split; [done|].
      destruct (Hrow _ _ Hk) as (q & Hq & ->). exists q. split_and!; try done.
      specialize (Hex k q Hq). by apply bool_decide_eq_false in Hex. }
    split_and!.
    + split; cbn.
      * intros k p [[-> _]|(_ & q & Hq & _)]%Hcase; [lia|]. specialize (Hnext k q Hq). lia.
      * intros k1 k2 p1 p2 [[-> ->]|(_ & q1 & Hq1 & -> & Hi1)]%Hcase [[-> ->]|(_ & q2 & Hq2 & -> & Hi2)]%Hcase;
          rewrite ?(proj1 (Hf _)); cbn; try done; [congruence..|]. by apply Huniq.
    + intros k p [[_ ->]|(_ & q & Hq & -> & Hi)]%Hcase; [done|]. destruct (Hf q) as (-> & Hpend & _). done.
    + exists (db_next_publication db), fresh. cbn. by rewrite lookup_insert_eq.
    + apply begin_stable.
      * apply exists_where_true. exists (db_next_publication db), fresh. cbn.
        rewrite lookup_insert_eq. split; [done|]. by apply bool_decide_eq_true.
      * intros k p [[_ ->]|(_ & q & Hq & -> & _)]%Hcase; [done|]. apply Hf.
Qed.
(** ** Examples *)
Definition sample_pub : Publication :=
  mkPub "pub-1" 1 (Some 1) (Some "photo-1"%string) (Some "master-1"%string) (Some "asset-o"%string) (Some "asset-t"%string)
    PPending None None None None.
Definition sample_resource : Resource :=
  mkResource (Some "photo-1"%string) (Some "00"%string) (Some 11) None RPending None.
Definition sample_resources : gmap ResKey Resource :=
  {[ (1, "gen-1"%string, "asset-o"%string, RoleOriginal) := sample_resource;
     (1, "gen-1"%string, "asset-t"%string, RoleThumbnail) := sample_resource ]}.
Definition sample_db : Db :=
  set_db_publications {[1 := sample_pub]} (set_db_next_publication 2 (set_db_resources sample_resources Sample.db)).
Definition sample_staged : Db :=
  (transact (stage 1 "asset-t" RoleThumbnail "/s/t") (transact (stage 1 "asset-o" RoleOriginal "/s/o") sample_db).1).1.

Lemma publication_gate_witness : exists db', complete "pub-1" sample_staged = Ok (true, db').
Proof.
  destruct (publication_gate "pub-1" sample_staged 1 sample_pub "gen-1")
    as (ready & Hready & _ & db' & Hrun & _); [vm_compute; reflexivity|vm_compute; reflexivity|].
  assert (Hyes : publication_is_ready "pub-1" sample_staged = Ok (true, sample_staged)) by (vm_compute; reflexivity).
  revert Hready Hyes Hrun. generalize sample_staged. intros db Hready Hyes Hrun.
  assert (ready = true) as -> by congruence. exists db'. exact Hrun.
Defined.

Lemma stage_both_opens_gate_witness :
  exists db1 db2, stage 1 "asset-o" RoleOriginal "/s/o" sample_db = Ok (true, db1) /\
    stage 1 "asset-t" RoleThumbnail "/s/t" db1 = Ok (true, db2) /\
    publication_is_ready "pub-1" db2 = Ok (true, db2).
Proof.
  apply (stage_both_opens_gate "pub-1" sample_db 1 sample_pub "gen-1" "asset-o" "asset-t" sample_resource sample_resource);
    vm_compute; reflexivity.
Defined.

Lemma outstanding_correct_witness : NoDup (outstanding sample_db 1).*1 /\ length (outstanding sample_db 1) = 2%nat.
Proof.
  destruct (outstanding_correct sample_db 1 "gen-1") as (_ & Hnd & _); [vm_compute; reflexivity|].
  split; [exact Hnd|vm_compute; reflexivity].
Defined.

Lemma begin_single_intent_witness :
  exists db', begin 1 (Some 1) "pub-2" "photo-1" None None None sample_db = Ok (true, db') /\
    forall k p, db_publications db' !! k = Some p -> p_job p = 1 -> p_photo p = Some "photo-1"%string ->
      p_state p = PPending -> p_id p = "pub-2"%string.
Proof.
  destruct (begin_single_intent 1 (Some 1) "pub-2" "photo-1" None None None sample_db)
    as (db' & Hrun & _ & Hone & _).
  - assert (Hp : forall k p, db_publications sample_db !! k = Some p -> k = 1 /\ p = sample_pub).
    { intros k p Hk. change (db_publications sample_db) with ({[1 := sample_pub]} : gmap Z Publication) in Hk.
      by apply lookup_singleton_Some in Hk as [<- <-]. }
    split; [intros k p [-> _]%Hp; cbn; lia|]. by intros k1 k2 p1 p2 [-> _]%Hp [-> _]%Hp.
  - exists db'. exact (conj Hrun Hone).
Defined.
End Publications.
