(* ===== verification/SyncRecovery.v ===== *)
(** Recovery evidence of publications and conflicts ([sync/store/recovery.rs]).

    A publication keeps the versions it was captured at and, while its files are
    being placed, what is needed to undo the placement. Both are JSON documents
    of the code stored as scalar columns: [CAPTURE] and [DETAILS] name the
    members kept and [write_scalars] and [read_scalars] are the two directions.
    A stored photo is a field of its row ([TypedRecords.photo_survives] is the
    round trip of its columns), so the encoded [projection] of a capture is the
    photo itself here. SQLite's conversion of a text written to an integer
    column, or the reverse, is left out: every document of the code has members
    of the column's type. *)
From Stdlib Require Import Ascii String.
From S2P Require Import Prelude.
From S2P Require Import Json.
From S2P Require Import SyncDb.
From S2P Require Import SyncPublication.
Import Json.
Local Open Scope Z_scope.
Local Open Scope json_scope.

Module Recovery.

Definition invalid (message : string) : AppError := Backend ("invalid native recovery state: " +:+ message).

(** A key of the tables: a member, or an element of an array member
    (["stamp.0"]), and whether its column is read back as a boolean. *)
Record Column := mkColumn { c_name : string; c_index : option nat; c_bool : bool }.
Notation plain name := (mkColumn name%string None false).
Notation flag name := (mkColumn name%string None true).
Notation element name i := (mkColumn name%string (Some i%nat) false).

Definition CAPTURE : list Column :=
  [plain "job"; plain "entry"; plain "local"; plain "config"; plain "dirty"; plain "photo";
   plain "contentGeneration"; flag "preserveMetadata"; plain "localRelativePath"; plain "favorite"; plain "takenAt"].
Definition DETAILS : list Column :=
  [flag "collision"; plain "source"; plain "preserved"; plain "root"; plain "target"; plain "new"; plain "backup";
   plain "oldPath"; plain "sha256"; plain "size"; flag "hadOld"; element "stamp" 0; element "stamp" 1;
   element "stamp" 2; element "stamp" 3; element "stamp" 4; element "oldStamp" 0; element "oldStamp" 1;
   element "oldLocalStamp" 0; element "oldLocalStamp" 1].

(** [at]. *)
Definition at_column (v : Value) (c : Column) : Value :=
  match c_index c with None => v.[c_name c] | Some i => nth v.[c_name c] i end.

(** One value of [write_scalars]. *)
Definition scalar (v : Value) : result SqlValue :=
  match v with
  | Null => Ok SqlNull
  | Str s => Ok (SqlText s)
  | Bool b => Ok (SqlInteger (Z.b2z b))
  | Int _ | Float _ =>
      match as_i64 v with Some n => Ok (SqlInteger n) | None => Err (invalid "recovery integer out of range") end
  | Arr _ | Obj _ => Err (invalid "recovery field is not scalar")
  end.
Fixpoint write_scalars (fields : list Column) (value : option Value) : result (list SqlValue) :=
  match fields with
  | [] => Ok []
  | c :: rest =>
      x ← scalar (match value with Some v => at_column v c | None => Null end);
      xs ← write_scalars rest value;
      Ok (x :: xs)
  end.

(** One column of [read_scalars]. *)
Definition read_scalar (boolean : bool) (x : SqlValue) : Value :=
  match x with
  | SqlNull => Null
  | SqlInteger n => if boolean then Bool (negb (n =? 0)) else Int n
  | SqlText s => Str s
  end.
(** [while array.len() <= i { array.push(Null) }; array[i] = v]. *)
Definition put_element (i : nat) (v : Value) (array : list Value) : list Value :=
  <[i := v]> (array ++ replicate (S i - length array) Null).
Definition put_column (c : Column) (v : Value) (output : Map) : Map :=
  match c_index c with
  | None => put (c_name c) v output
  | Some i =>
      if is_null v then output
      else put (c_name c) (Arr (put_element i v (default [] (x ← get output (c_name c); as_array x)))) output
  end.
Definition read_columns (fields : list (Column * SqlValue)) (output : Map) : Map :=
  fold_left (fun m cx => put_column cx.1 (read_scalar (c_bool cx.1) cx.2) m) fields output.
Definition read_scalars (fields : list Column) (values : list SqlValue) : Value :=
  Obj (read_columns (zip fields values) []).

(** ** Captures *)
(** A capture document: its scalar members and its [projection] member, whose
    text is a photo or null. *)
Record CaptureDoc := mkCaptureDoc { cap_scalars : Value; cap_projection : option (option RemotePhoto) }.

Definition find_pub (db : Db) (id : string) : option (Z * Publication) :=
  find_row (Publications.pub_by_id id) (db_publications db).
Definition update_pub (id : string) (f : Publication -> Publication) : Tx Db unit :=
  modify (fun db => set_db_publications (update_where (Publications.pub_by_id id) f (db_publications db)) db).

Definition capture (db : Db) (id : string) : option CaptureDoc :=
  kp ← find_pub db id;
  columns ← p_capture kp.2;
  Some (mkCaptureDoc (read_scalars CAPTURE columns) (p_projection kp.2)).

(** [set_capture]: a capture a placement is using stays. *)
Definition set_capture (id : string) (doc : CaptureDoc) : Tx Db unit :=
  row ← gets (fun db => find_pub db id);
  kp ← need row NoRows;
  if bool_decide (is_Some (p_capture kp.2)) && negb (bool_decide (p_state kp.2 = PPending))
     && negb (bool_decide (p_state kp.2 = PSuperseded))
  then mret tt
  else
    columns ← lift (write_scalars CAPTURE (Some (cap_scalars doc)));
    update_pub id (fun p => set_p_projection (cap_projection doc) (set_p_capture (Some columns) p)).

(** [details] and [set_details]. *)
Definition details (db : Db) (id : string) : Tx Db (option Value) :=
  kp ← need (find_pub db id) NoRows;
  mret (read_scalars DETAILS <$> p_details kp.2).
Definition set_details (id : string) (value : option Value) : Tx Db unit :=
  columns ← lift (write_scalars DETAILS value);
  update_pub id (fun p =>
    set_p_old_snapshot (v ← value; if bool_decide (v.["hadOld"] = Bool true) then as_str v.["backup"] else None)
      (set_p_details (if value then Some columns else None) p)).

(** ** Conflicts *)
(** [conflict_document]: the reason, the competing photo and the recovery path. *)
Record ConflictDoc := mkConflictDoc {
  cd_reason : option string;
  cd_remote : option RemotePhoto;
  cd_recovery : option string
}.
#[export] Instance ConflictDoc_eq_dec : EqDecision ConflictDoc.
Proof. solve_decision. Defined.
Definition conflict_document (x : Conflict) : ConflictDoc := mkConflictDoc (x_reason x) (x_remote x) (x_recovery x).

(** The open conflict of an entry; at most one by its unique index. *)
Definition open_conflict (db : Db) (entry : Z) : option (Z * Conflict) :=
  find_row (fun _ x => (x_entry x =? entry) && bool_decide (x_state x = "open"%string)) (db_conflicts db).
Definition write_conflict (job entry : Z) (reason : string) (photo : option RemotePhoto) : Tx Db unit :=
  existing ← gets (fun db => open_conflict db entry);
  match existing with
  | Some (id, _) =>
      modify (fun db => set_db_conflicts
        (alter (fun x => set_x_remote photo (set_x_recovery None (set_x_reason (Some reason) x))) id (db_conflicts db)) db)
  | None =>
      known ← gets (fun db => bool_decide (is_Some (db_entries db !! entry)) && bool_decide (is_Some (db_jobs db !! job)));
      _ ← ensure known (Constraint "FOREIGN KEY sync_conflicts");
      modify (fun db => set_db_conflicts
        (<[db_next_conflict db := mkConflict job entry "native" "open" None (Some reason) None photo]> (db_conflicts db))
        (set_db_next_conflict (db_next_conflict db + 1) db))
  end.

(** ** The columns hold the document *)
(** Two columns that do not share a member, or are different elements of one. *)
Definition apart (c d : Column) : Prop :=
  c_name c <> c_name d \/ exists i j, c_index c = Some i /\ c_index d = Some j /\ i <> j.
#[export] Instance apart_dec : RelDecision apart.
Proof.
  intros c d. unfold apart. destruct (decide (c_name c = c_name d)) as [E|E]; [|by left; left].
  destruct (c_index c) as [i|] eqn:Hi, (c_index d) as [j|] eqn:Hj.
  1: destruct (decide (i = j)) as [->|Hn]; [|left; right; by exists i, j].
  all: right; intros [?|(?&?&?&?&?)]; congruence.
Defined.
Definition table_ok (fields : list Column) : Prop := ForallOrdPairs apart fields.

(** A value that its column keeps: text, an integer of [i64], or a boolean in a
    boolean column. *)
Definition fits (c : Column) (v : Value) : bool :=
  match v with
  | Null | Str _ => true
  | Int n => negb (c_bool c) && (I64_MIN <=? n) && (n <=? I64_MAX)
  | Bool _ => c_bool c
  | _ => false
  end.

Lemma scalar_fits c v : fits c v = true -> exists x, scalar v = Ok x /\ read_scalar (c_bool c) x = v.
Proof.
  destruct v; cbn; try done; intros Hf; [by eexists|..|by eexists].
  - rewrite Hf. eexists. split; [done|]. cbn. by destruct b.
  - zbool. eexists. unfold as_i64. rewrite (proj2 (Z.leb_le _ _)), (proj2 (Z.leb_le _ _)) by done.
    split; [done|]. cbn. by match goal with H : c_bool c = false |- _ => rewrite H end.
Qed.

Lemma write_scalars_Ok fields v :
  Forall (fun c => fits c (at_column v c) = true) fields ->
  exists xs, write_scalars fields (Some v) = Ok xs /\
    Forall2 (fun c x => read_scalar (c_bool c) x = at_column v c) fields xs.
Proof.
  induction 1 as [|c fields Hc _ (xs & IH & Hall)]; cbn [write_scalars]; [by exists []|].
  destruct (scalar_fits c _ Hc) as (x & -> & Hx). cbn. rewrite IH. exists (x :: xs). by split; [|constructor].
Qed.

Lemma nth_put_element i j v l :
  nth (Arr (put_element i v l)) j = if decide (i = j) then v else default Null (l !! j).
Proof.
  unfold nth, put_element. cbn. destruct (decide (i = j)) as [->|Hne].
  - rewrite list_lookup_insert_eq; [done|]. rewrite length_app, length_replicate. lia.
  - rewrite list_lookup_insert_ne by done. destruct (decide (j < length l)%nat).
    + by rewrite lookup_app_l.
    + rewrite lookup_app_r, (lookup_ge_None_2 l j) by lia. destruct (replicate _ _ !! _) as [x|] eqn:Hx; [|done].
      by apply lookup_replicate in Hx as [-> _].
Qed.

Lemma at_put_apart c d v m : apart c d -> at_column (Obj (put_column c v m)) d = at_column (Obj m) d.
Proof.
  unfold at_column, put_column, index, member, as_object. cbn.
  destruct (decide (c_name c = c_name d)) as [E|E].
  - intros [?|(i & j & -> & -> & Hij)]; [done|]. destruct (is_null v); [done|]. rewrite E, get_put_eq. cbn.
    rewrite nth_put_element, decide_False by done. by destruct (get m (c_name d)) as [[]|].
  - intros _. destruct (c_index c); [destruct (is_null v); [done|]|]; by rewrite get_put_ne.
Qed.
Lemma at_put_same c v m : at_column (Obj m) c = Null -> at_column (Obj (put_column c v m)) c = v.
Proof.
  unfold at_column, put_column, index, member, as_object. cbn. destruct (c_index c) as [i|].
  - destruct (is_null v) eqn:Hn; [by destruct v|]. intros _. rewrite get_put_eq. cbn.
    by rewrite nth_put_element, decide_True.
  - intros _. by rewrite get_put_eq.
Qed.

Lemma read_columns_apart l m d :
  Forall (fun cx => apart cx.1 d) l -> at_column (Obj (read_columns l m)) d = at_column (Obj m) d.
Proof.
  intros Hl. revert m. induction Hl as [|cx l Hc _ IH]; intros m; [done|]. unfold read_columns in *. cbn.
  rewrite IH. by apply at_put_apart.
Qed.
Lemma read_columns_at fields xs m c x :
  table_ok fields -> (c, x) ∈ zip fields xs -> Forall (fun d => at_column (Obj m) d = Null) fields ->
  at_column (Obj (read_columns (zip fields xs) m)) c = read_scalar (c_bool c) x.
Proof.
  intros Hok. revert xs m. induction Hok as [|d fields Hd Hok IH]; intros [|y xs] m Hin Hm; try by apply elem_of_nil in Hin.
  cbn [zip zip_with] in *. unfold read_columns in *. cbn [fold_left fst snd]. inversion_clear Hm as [|?? Hm0 Hm1].
  apply elem_of_cons in Hin as [[= -> ->]|Hin].
  - fold (read_columns (zip fields xs) (put_column d (read_scalar (c_bool d) y) m)).
    rewrite read_columns_apart; [by apply at_put_same|]. apply Forall_forall. intros [e z] Hz%elem_of_zip_l.
    rewrite Forall_forall in Hd. specialize (Hd _ Hz). cbn in *. unfold apart in *.
    destruct Hd as [?|(i & j & ? & ? & ?)]; [by left; apply not_eq_sym|right; exists j, i; auto].
  - apply IH; [done|]. rewrite Forall_forall in Hm1 |- *. intros e He. rewrite at_put_apart; [by apply Hm1|].
    rewrite Forall_forall in Hd. by apply Hd.
Qed.

(** A document whose members fit is read back member by member. *)
Lemma scalars_survive fields v :
  table_ok fields -> Forall (fun c => fits c (at_column v c) = true) fields ->
  exists xs, write_scalars fields (Some v) = Ok xs /\
    Forall (fun c => at_column (read_scalars fields xs) c = at_column v c) fields.
Proof.
  intros Hok Hfit. destruct (write_scalars_Ok _ _ Hfit) as (xs & Hw & Hall). exists xs. split; [done|].
  apply Forall_forall. intros c Hc. apply list_elem_of_lookup in Hc as [i Hi].
  destruct (Forall2_lookup_l _ _ _ _ _ Hall Hi) as (x & Hx & Hr). rewrite <- Hr. apply read_columns_at; [done| |].
  - apply list_elem_of_lookup. exists i. by rewrite lookup_zip_with, Hi, Hx.
  - apply Forall_forall. intros d _. unfold at_column, index. cbn. by destruct (c_index d).
Qed.

#[export] Instance table_ok_dec fields : Decision (table_ok fields).
Proof.
  unfold table_ok. induction fields as [|c fields IH]; [left; constructor|].
  destruct (decide (Forall (apart c) fields)) as [Hc|Hc]; [|right; intros H; by inversion_clear H].
  destruct IH as [IH|IH]; [by left; constructor|right; intros H; by inversion_clear H].
Defined.
Lemma capture_table : table_ok CAPTURE.
Proof. apply (bool_decide_unpack _). by vm_compute. Qed.
Lemma details_table : table_ok DETAILS.
Proof. apply (bool_decide_unpack _). by vm_compute. Qed.

Lemma find_pub_update db id id' f :
  (forall p, p_id (f p) = p_id p) ->
  find_pub (set_db_publications (update_where (Publications.pub_by_id id) f (db_publications db)) db) id'
  = (fun kp => (kp.1, if bool_decide (p_id kp.2 = id) then f kp.2 else kp.2)) <$> find_pub db id'.
Proof.
  intros Hf. unfold find_pub. cbn [db_publications set_db_publications].
  rewrite find_row_update; [done|]. intros k r. unfold Publications.pub_by_id. by rewrite Hf.
Qed.
Lemma find_pub_id db id k p : find_pub db id = Some (k, p) -> p_id p = id.
Proof. intros [_ H]%find_row_Some. by apply bool_decide_eq_true in H. Qed.

(** What [set_details] and [set_capture] store is what [details] and [capture] read. *)
Lemma set_details_reads id v db k p :
  find_pub db id = Some (k, p) -> Forall (fun c => fits c (at_column v c) = true) DETAILS ->
  exists db' d, set_details id (Some v) db = Ok (tt, db') /\ details db' id db' = Ok (Some d, db') /\
    Forall (fun c => at_column d c = at_column v c) DETAILS.
Proof.
  intros Hp Hfit. destruct (scalars_survive _ _ details_table Hfit) as (xs & Hw & Hall).
  unfold set_details. erewrite bind_run by (apply lift_Ok; by split). unfold update_pub, modify.
  do 2 eexists. split; [done|]. split; [|exact Hall]. unfold details.
  rewrite find_pub_update by done. rewrite Hp. cbn [fmap option_fmap option_map fst snd].
  rewrite bool_decide_true by (by eapply find_pub_id). done.
Qed.
Lemma set_capture_reads id doc db k p :
  find_pub db id = Some (k, p) -> p_capture p = None \/ p_state p = PPending \/ p_state p = PSuperseded ->
  Forall (fun c => fits c (at_column (cap_scalars doc) c) = true) CAPTURE ->
  exists db' d, set_capture id doc db = Ok (tt, db') /\ capture db' id = Some (mkCaptureDoc d (cap_projection doc)) /\
    Forall (fun c => at_column d c = at_column (cap_scalars doc) c) CAPTURE.
Proof.
  intros Hp Hfree Hfit. destruct (scalars_survive _ _ capture_table Hfit) as (xs & Hw & Hall).
  unfold set_capture. erewrite bind_run by done. erewrite bind_run by (apply need_Ok; by rewrite Hp). cbn [snd].
  assert (Hb : bool_decide (is_Some (p_capture p)) && negb (bool_decide (p_state p = PPending))
    && negb (bool_decide (p_state p = PSuperseded)) = false).
  { destruct Hfree as [->|[->| ->]]; rewrite ?andb_false_r; [|done..].
    by rewrite bool_decide_false by (by intros [? ?]). }
  rewrite Hb. erewrite bind_run by (apply lift_Ok; by split). unfold update_pub, modify.
  do 2 eexists. split; [done|]. split; [|exact Hall]. unfold capture.
  rewrite find_pub_update by done. rewrite Hp. cbn [fmap option_fmap option_map fst snd mbind option_bind].
  rewrite bool_decide_true by (by eapply find_pub_id). done.
Qed.

(** The recovery evidence of a placement survives a restart. Details whose
    members have the kind of their columns are accepted, and what is read back
    has every member of [DETAILS] as it was written, the elements of the file
    stamps included. *)
Theorem recovery_details_roundtrip id v db k p :
  find_pub db id = Some (k, p) -> Forall (fun c => fits c (at_column v c) = true) DETAILS ->
  exists db' d, set_details id (Some v) db = Ok (tt, db') /\ details db' id db' = Ok (Some d, db') /\
    Forall (fun c => at_column d c = at_column v c) DETAILS.
Proof. apply set_details_reads. Qed.

(** ** Example: the details of a collision and of a replacement *)
Definition sample_details : Value :=
  obj [("target", Str "/photos/a.jpg"); ("new", Str "/photos/.new"); ("backup", Str "/photos/.old");
       ("root", Str "/photos"); ("hadOld", Bool true); ("oldStamp", Arr [Int 11; Int 5]);
       ("oldPath", Str "/photos/a.jpg"); ("oldLocalStamp", Null); ("sha256", Str "00"); ("size", Int 11)]%string.
Definition sample_db : Db :=
  set_db_publications {[1 := Publications.sample_pub]} SyncDb.Sample.db.
Lemma recovery_details_roundtrip_witness :
  exists db' d, set_details "pub-1" (Some sample_details) sample_db = Ok (tt, db') /\
    details db' "pub-1" db' = Ok (Some d, db') /\ Forall (fun c => at_column d c = at_column sample_details c) DETAILS.
Proof.
  apply (recovery_details_roundtrip "pub-1" sample_details sample_db 1 Publications.sample_pub); [by vm_compute|].
  apply (bool_decide_unpack _). by vm_compute.
Defined.
End Recovery.
