(* ===== verification/SyncLease.v ===== *)
(** The exclusive upload lease ([sync/native/lease.rs]): how long this client
    believes it may write.

    An [Instant] is a number of nanoseconds on a monotonic clock and a
    [Duration] a number of nanoseconds. The usable window of a granted TTL is
    computed in [f64] in the source; here it is a function [conservative] of the
    TTL of which only the documented safety margin is used: it is a tenth short
    of the TTL, and so never longer. *)
From S2P Require Import Prelude.
Local Open Scope Z_scope.

Module Lease.

Definition NANOS : Z := 1000000000.
(** The largest [Instant]: an [i64] number of seconds. *)
Definition INSTANT_MAX : Z := (I64_MAX + 1) * NANOS - 1.
(** [Instant::checked_add]. *)
Definition checked_add (started duration : Z) : option Z :=
  if started + duration <=? INSTANT_MAX then Some (started + duration) else None.

Record LeaseProof := mkProof { lease_id : string; lease_token : string; fencing_token : string }.
Record LeaseGrant := mkGrant {
  grant_proof : LeaseProof;
  ttl_seconds : Z;
  heartbeat_seconds : Z;
  phase : string
}.

Inductive LeaseState := Held (deadline : Z) | Lost.
#[export] Instance LeaseState_eq_dec : EqDecision LeaseState.
Proof. solve_decision. Defined.

Record UploadLease := mkLease {
  proof : LeaseProof;
  ttl : Z;
  heartbeat : Z;
  state : LeaseState
}.
Definition set_state (s : LeaseState) (l : UploadLease) : UploadLease :=
  mkLease (proof l) (ttl l) (heartbeat l) s.

(** [UploadPhase]: a cycle walks the phases in this order. *)
Inductive UploadPhase := PhaseDelete | PhaseModify | PhaseCreate.
Definition ORDER : list UploadPhase := [PhaseDelete; PhaseModify; PhaseCreate].
Definition next (p : UploadPhase) : option UploadPhase :=
  match p with PhaseDelete => Some PhaseModify | PhaseModify => Some PhaseCreate | PhaseCreate => None end.
Definition phase_str (p : UploadPhase) : string :=
  match p with PhaseDelete => "delete" | PhaseModify => "modify" | PhaseCreate => "create" end.

Section Window.
Context (conservative : Z -> Z).

Definition deadline_from (started ttl_seconds : Z) : Z :=
  default started (checked_add started (conservative ttl_seconds)).

(** [UploadLease::from_grant]; 10 ms is the least heartbeat. *)
Definition from_grant (grant : LeaseGrant) (started : Z) : UploadLease :=
  mkLease (grant_proof grant) (ttl_seconds grant * NANOS)
    (Z.max (heartbeat_seconds grant * NANOS) 10000000)
    (Held (deadline_from started (ttl_seconds grant))).

(** [valid_now] and [is_held], at the instant [now]. *)
Definition valid_at (now : Z) (l : UploadLease) : bool :=
  match state l with Held deadline => now <? deadline | Lost => false end.

Definition mark_lost (l : UploadLease) : UploadLease := set_state Lost l.

(** [renewed]. *)
Definition renewed (current : LeaseState) (now started ttl_seconds : Z) : LeaseState :=
  match current with
  | Lost => Lost
  | Held deadline =>
      if deadline <=? now then Lost
      else
        let offered := deadline_from started ttl_seconds in
        if deadline <? offered then Held offered else Held deadline
  end.
(** [UploadLease::renew]. *)
Definition renew (ttl_seconds started now : Z) (l : UploadLease) : UploadLease :=
  set_state (renewed (state l) now started ttl_seconds) l.

(** ** A lease over time *)
(** What the heartbeat and the cycle do to a shared lease. *)
Inductive Event :=
  | Renewed (ttl_seconds started now : Z)  (* an answer arrived at [now] *)
  | Dropped.                               (* loss reported, or released *)
Definition exec (l : UploadLease) (e : Event) : UploadLease :=
  match e with Renewed ttl started now => renew ttl started now l | Dropped => mark_lost l end.

(** The windows the service granted: the acquisition and every answered renewal. *)
Definition windows (grant : LeaseGrant) (started : Z) (events : list Event) : list (Z * Z) :=
  (started, ttl_seconds grant)
  :: omap (fun e => match e with Renewed ttl started _ => Some (started, ttl) | Dropped => None end) events.

(** The held deadline always comes from one granted window. *)
Lemma held_deadline grant started events d :
  state (fold_left exec events (from_grant grant started)) = Held d ->
  exists w, w ∈ windows grant started events /\ d = deadline_from w.1 w.2.
Proof.
  revert d. induction events as [|e events IH] using rev_ind; intros d.
  - cbn. intros [= <-]. exists (started, ttl_seconds grant). split; [left|done].
  - rewrite fold_left_app. cbn [fold_left].
    assert (Hmono : forall w, w ∈ windows grant started events -> w ∈ windows grant started (events ++ [e])).
    { intros w Hw. unfold windows in *. rewrite omap_app. set_solver. }
    destruct e as [ttl st now|]; [|done]. cbn [exec renew set_state state]. unfold renewed.
    destruct (state (fold_left exec events (from_grant grant started))) as [d0|]; [|done].
    destruct (d0 <=? now); [done|]. destruct (d0 <? deadline_from st ttl); intros [= <-].
    + exists (st, ttl). split; [|done]. unfold windows. rewrite omap_app. set_solver.
    + destruct (IH d0 eq_refl) as (w & Hw & ->). exists w. auto.
Qed.


(** Loss is final. Once the lease does not read as held at some instant,
    no later event and no later renewal makes it read as held at any later
    instant, so a cycle that has seen the loss can never issue again. *)
Theorem lease_loss_is_final l now events later :
  valid_at now l = false ->
  Forall (fun e => match e with Renewed _ _ n => now <= n | Dropped => True end) events ->
  now <= later -> valid_at later (fold_left exec events l) = false.
Proof.
  intros Hv Hall Hle. revert l Hv. induction Hall as [|e events He _ IH]; intros l Hv; cbn [fold_left].
  - unfold valid_at in *. destruct (state l); [zbool; apply Z.ltb_ge; lia|done].
  - apply IH. unfold valid_at in *. destruct e as [ttl st n|]; [|done]. cbn [exec renew set_state state].
    destruct (state l) as [d|]; [|done]. cbn [renewed]. zbool.
    destruct (d <=? n) eqn:E; [done|]. zbool. lia.
Qed.
End Window.

(** ** Examples *)
(** Nine tenths of the TTL, in whole nanoseconds. *)
Definition nine_tenths (ttl_seconds : Z) : Z := ttl_seconds * (NANOS / 10 * 9).
Definition sample_grant : LeaseGrant := mkGrant (mkProof "l" "t" "1") 60 20 "delete".
Definition sample_events : list Event := [Renewed 60 (20 * NANOS) (21 * NANOS)].


Lemma lease_loss_is_final_witness :
  valid_at (80 * NANOS) (fold_left (exec nine_tenths) [Renewed 60 (58 * NANOS) (61 * NANOS)]
                           (from_grant nine_tenths sample_grant 0)) = false.
Proof.
  apply (lease_loss_is_final nine_tenths _ (60 * NANOS)).
  - vm_compute. reflexivity.
  - constructor; [|constructor]. vm_compute. discriminate.
  - vm_compute. discriminate.
Defined.
End Lease.
