(* ===== verification/SyncRuntime.v ===== *)
(** Cycles and issued operations ([sync/store/runtime.rs]).

    A synchronization cycle holds an [Epoch]: job, configuration and cycle
    identity. Every command of a cycle first checks that its epoch is still the
    job's current one, so a callback of a superseded cycle or configuration
    changes nothing. An operation sent to the service is first saved as issued
    evidence with the versions it carries; only a response that matches that
    evidence confirms it, and confirming settles exactly the captured versions,
    so an edit made while the operation was in flight stays owed.

    The two lease checks of a command are its [bool] arguments. The authentication
    commands are not modelled; placement, collisions and admission are in
    [SyncPlacement], the user actions in [SyncActions]. *)
From Stdlib Require Import Ascii String.
From S2P Require Import Prelude.
From S2P Require Import Json.
From S2P Require Import Media.
From S2P Require Import Content.
From S2P Require Import SyncDb.
From S2P Require Import NativeRecords.
From S2P Require Import TypedRecords.
From S2P Require Import IssuedStore.
From S2P Require Import SyncReset.
From S2P Require Import SyncDirty.
From S2P Require Import SyncAccounts.
From S2P Require Import SyncJobs.
Local Open Scope Z_scope.

Local Open Scope json_scope.

Module Runtime.
Import Records.

Record Epoch := mkEpoch { ep_job : Z; ep_config : Z; ep_cycle : string }.

(** The predicate of [valid_epoch]'s query. *)
Definition epoch_valid (db : Db) (epoch : Epoch) : bool :=
  match db_jobs db !! ep_job epoch with
  | Some j => (j_config j =? ep_config epoch) && bool_decide (j_cycle j = Some (ep_cycle epoch))
              && negb (j_paused j) && job_enabled db (ep_job epoch)
              && bool_decide (db_changes db !! ep_job epoch = None)
  | None => false
  end.
Definition valid_epoch (epoch : Epoch) : Tx Db unit :=
  valid ← gets (fun db => epoch_valid db epoch);
  ensure valid (Backend "synchronization configuration/cycle was superseded").

(** [epoch_current]: the same, and no reset is pending. *)
Definition epoch_current (db : Db) (epoch : Epoch) : bool := epoch_valid db epoch && negb (Reset.pending db).

Definition update_entry (id : Z) (f : Entry -> Entry) : Tx Db unit :=
  modify (fun db => set_db_entries (alter f id (db_entries db)) db).

(** ** Issued evidence ([store/issued.rs]) *)
Definition find_task (db : Db) (operation : string) : option (Z * Task) :=
  find_row (fun _ t => bool_decide (t_operation t = operation)) (db_tasks db).
Definition issued_read (db : Db) (operation : string) : option Issued :=
  kt ← find_task db operation; t_issued kt.2.

Definition pending_issued (db : Db) (job : Z) : Tx Db (list Issued) :=
  let rows := filter (fun kt => t_job kt.2 = job /\ t_state kt.2 = "issued"%string) (rows_by_id (db_tasks db)) in
  need (mapM (fun kt => issued_read db (t_operation kt.2)) rows)
    (Backend "issued operation has no captured state").

(** [issued::write]: the evidence kept on the task is what its columns read back as. *)
Definition issued_write (issued : Issued) : Tx Db unit :=
  match IssuedStore.write issued with
  | Ok _ => modify (fun db => set_db_tasks
      (update_where (fun _ t => bool_decide (t_operation t = i_id issued)) (set_t_issued (Some issued))
         (db_tasks db)) db)
  | Err e => throw e
  end.

(** [Command::Save]. *)
Definition save (epoch : Epoch) (issued : Issued) : Tx Db unit :=
  _ ← valid_epoch epoch;
  _ ← ensure ((i_job issued =? ep_job epoch) && (i_config issued =? ep_config epoch))
        (Backend "issued operation configuration mismatch");
  existing ← gets (fun db => find_task db (i_id issued));
  _ ← match existing with
      | Some (_, t) => ensure (bool_decide (t_state t = "issued"%string) && (t_job t =? i_job issued))
                         (Backend "issued operation cannot replace settled evidence")
      | None =>
          known ← gets (fun db => bool_decide (is_Some (db_entries db !! i_entry issued)));
          _ ← ensure known (Constraint "FOREIGN KEY sync_tasks.entry_id");
          modify (fun db =>
            set_db_tasks (<[db_next_task db :=
                mkTask (i_id issued) (i_job issued) (Some (i_entry issued)) (i_phase issued) "issued"
                       (i_config issued) None None]> (db_tasks db))
              (set_db_next_task (db_next_task db + 1) db))
      end;
  issued_write issued.

(** [Command::RetireIssued]. *)
Definition retire_issued (epoch : Epoch) (operation : Issued) (rejected : bool) (reason : string) : Tx Db unit :=
  _ ← valid_epoch epoch;
  _ ← ensure (rejected || Json.is_null (i_body operation) && negb (i_config operation =? ep_config epoch))
        (Backend "an uncertain issued mutation cannot be discarded");
  stored ← gets (fun db => issued_read db (i_id operation));
  _ ← ensure (bool_decide (stored = Some operation)) (Backend "issued evidence changed before retirement");
  let P t := bool_decide (t_operation t = i_id operation) && (t_job t =? ep_job epoch)
             && bool_decide (t_state t = "issued"%string) in
  changed ← gets (fun db => count_where (fun _ t => P t) (db_tasks db));
  _ ← modify (fun db => set_db_tasks
        (update_where (fun _ t => P t)
           (fun t => set_t_state "failed" (set_t_error
              (Some (if rejected then reason else "configuration superseded preparation before mutation"%string)) t))
           (db_tasks db)) db);
  ensure (changed =? 1)%nat (Backend "issued evidence changed before retirement").

(** ** Cycle commands *)
(** [Command::Begin]. *)
Definition begin (epoch : Epoch) : Tx Db unit :=
  accepts ← gets (fun db => match db_jobs db !! ep_job epoch with
    | Some j => (j_config j =? ep_config epoch) && negb (j_paused j)
                && bool_decide (db_changes db !! ep_job epoch = None)
    | None => false end);
  _ ← ensure accepts (Backend "job no longer accepts this synchronization cycle");
  _ ← update_job (ep_job epoch) (set_j_cycle (Some (ep_cycle epoch)));
  modify (fun db => set_db_entries
    (update_where (fun _ e => (e_job e =? ep_job epoch) && bool_decide (is_Some (e_upload_error e)))
       (set_e_upload_error None) (db_entries db)) db).

(** [Command::End]. *)
Definition end_cycle (epoch : Epoch) : Tx Db unit :=
  update_job (ep_job epoch)
    (fun j => if bool_decide (j_cycle j = Some (ep_cycle epoch)) then set_j_cycle None j else j).

(** [Command::UploadFailed]. *)
Definition upload_failed (epoch : Epoch) (entry : Z) (reason : string) : Tx Db unit :=
  _ ← valid_epoch epoch;
  known ← gets (fun db => match db_entries db !! entry with
                          | Some e => e_job e =? ep_job epoch | None => false end);
  _ ← ensure known (Backend "upload failure belongs to another job or missing entry");
  update_entry entry (set_e_upload_error (Some reason)).

(** ** Local observation *)
(** Trimming of a path remainder to its components' text ([Components::as_path]). *)
Definition skippable (segment : string) : bool :=
  bool_decide (segment = ""%string) || bool_decide (segment = "."%string).
Fixpoint drop_skippable (segments : list string) : list string :=
  match segments with
  | s :: rest => if skippable s then drop_skippable rest else segments
  | [] => []
  end.
Definition trim_segments (segments : list string) : list string :=
  reverse (drop_skippable (reverse (drop_skippable segments))).
Definition join_slash (segments : list string) : string := String.concat "/" segments.

(** [Path::strip_prefix(root)] of a path the root covers, and the album: its parent. *)
Definition relative_segments (root path : string) : option (list string) :=
  (fun rest => trim_segments (Media.split_slash rest)) <$> under_root root path.
Definition album_of (segments : list string) : string :=
  join_slash (reverse (drop_skippable (tail (reverse segments)))).

(** [Command::Enroll]: every live local file of the selected scope has an entry. *)
Definition enroll_one (job : Z) (scope : UploadScope) (root : string) (row : Z * Media) : Tx Db unit :=
  match relative_segments root (m_path row.2) with
  | None => mret tt
  | Some segments =>
      if (m_location row.2 =? 2) || bool_decide (is_Some (m_trashed_at row.2)) then mret tt
      else
        selected ← gets (fun db => bool_decide (scope = ScopeAll)
                                   || bool_decide ((job, album_of segments) ∈ db_albums db));
        taken ← gets (fun db => path_taken db job (join_slash segments));
        if (selected : bool) && negb taken
        then _ ← insert_entry (new_entry job (Some row.1) (join_slash segments) Dirty.NEW); mret tt
        else mret tt
  end.
Definition enroll (epoch : Epoch) : Tx Db unit :=
  _ ← valid_epoch epoch;
  row ← gets (fun db => db_jobs db !! ep_job epoch);
  j ← need row NoRows;
  media ← gets (fun db => rows_by_id (db_media db));
  for_each media (enroll_one (ep_job epoch) (j_scope j) (j_root j)).

(** [Command::ObserveLocal]: one media row of one path. *)
Definition observe_one (job : Z) (relative : string) (media : Z) : Tx Db unit :=
  taken ← gets (fun db => path_taken db job relative);
  if (taken : bool)
  then modify (fun db => set_db_entries
         (update_where (fun _ e => (e_job e =? job) && bool_decide (e_path e = relative))
            (fun e => set_e_media (match e_media e with Some m => Some m | None => Some media end) e)
            (db_entries db)) db)
  else _ ← insert_entry (new_entry job (Some media) relative Dirty.NEW); mret tt.
Definition observed_media (db : Db) (job : Z) (relative : string) : list Z :=
  match db_jobs db !! job with
  | Some j => if job_enabled db job
      then fst <$> filter (fun km => m_path km.2 = (rtrim_slash (j_root j) +:+ "/" +:+ relative)%string
                                     /\ m_trashed_at km.2 = None /\ m_location km.2 <> 2)
                     (rows_by_id (db_media db))
      else []
  | None => []
  end.
Definition observe_local (job : Z) (paths : list string) : Tx Db unit :=
  for_each paths (fun relative =>
    media ← gets (fun db => observed_media db job relative);
    for_each media (observe_one job relative)).

(** [Command::ThumbnailReady]. *)
Definition thumbnail_owner (db : Db) (publication : string) (asset : string) (media : Z) (p : Publication) : bool :=
  bool_decide (p_id p = publication) && bool_decide (p_thumbnail p = Some asset)
  && (bool_decide (p_state p = PPending) || bool_decide (p_state p = PPublishing))
  && match p_entry p ≫= fun id => db_entries db !! id with
     | Some e => bool_decide (e_media e = Some media) && negb (e_dirty e =? 4)
     | None => false end
  && job_enabled db (p_job p) && bool_decide (db_changes db !! p_job p = None).
Definition thumbnail_ready (publication : string) (media mtime_ns : Z) (asset : string) : Tx Db unit :=
  owned ← gets (fun db => exists_where (fun _ p => thumbnail_owner db publication asset media p)
                            (db_publications db));
  modify (fun db => set_db_media
    (update_where (fun k m => (k =? media) && (m_mtime_ns m =? mtime_ns) && owned)
       (fun m => set_m_generated_at (Some (db_now db)) (set_m_thumb_ready true m)) (db_media db)) db).

(** ** Deletions and identities *)
Definition pending_deletion (job : Z) (e : Entry) : bool := (e_job e =? job) && (e_dirty e =? 4).
Definition reset_progress (g : Progress) : Progress :=
  set_g_snapshot None (set_g_bootstrap_started false (set_g_ingest None (set_g_target None
    (set_g_applied None (set_g_discovery None (set_g_discovery_complete false g)))))).
(** [Command::DiscardPendingDeletions]. *)
Definition discard_pending_deletions (job : Z) : Tx Db unit :=
  any ← gets (fun db => exists_where (fun _ e => pending_deletion job e) (db_entries db));
  if negb any then mret tt
  else
    let owned db (o : option Z) := match o ≫= fun id => db_entries db !! id with
                                   | Some e => pending_deletion job e | None => false end in
    _ ← modify (fun db => set_db_tasks (delete_where (fun _ t => owned db (t_entry t)) (db_tasks db)) db);
    _ ← modify (fun db =>
          set_db_publications (delete_where (fun _ p => owned db (p_entry p)) (db_publications db)) db);
    _ ← modify (delete_entries (fun _ e => pending_deletion job e));
    _ ← modify (fun db => set_db_entries
          (update_where (fun _ e => e_job e =? job)
             (fun e => set_e_pending_master None (set_e_pending_asset None e)) (db_entries db)) db);
    _ ← modify (fun db => set_db_bootstrap (delete_where (fun k _ => k.1 =? job) (db_bootstrap db)) db);
    modify (fun db => set_db_progress (alter reset_progress job (db_progress db)) db).

(** An operation that may still create or change the remote photo of an entry. *)
Definition owns_deletion (entry : Z) (t : Task) : bool :=
  bool_decide (t_entry t = Some entry)
  && (bool_decide (t_state t = "issued"%string)
      || bool_decide (t_state t = "confirmed"%string) && bool_decide (t_action t = "create"%string)).
(** [Command::ConfirmAbsentDeletion]. *)
Definition confirm_absent_deletion (epoch : Epoch) (entry version : Z) (lease : bool) : Tx Db unit :=
  _ ← valid_epoch epoch;
  _ ← ensure lease (Backend "UPLOAD_LEASE_LOST");
  removable ← gets (fun db => match db_entries db !! entry with
    | Some e => (e_job e =? ep_job epoch) && (e_dirty e =? 4) && (e_local e =? version)
                && bool_decide (r_photo (e_remote e) = None) && bool_decide (r_master (e_remote e) = None)
                && negb (exists_where (fun _ t => owns_deletion entry t) (db_tasks db))
    | None => false end);
  _ ← modify (fun db => if (removable : bool) then delete_entries (fun k _ => k =? entry) db else db);
  ensure removable (Backend "an unconfirmed cloud operation still owns the deletion").

(** An issued operation or a publication being placed owns the entry. *)
Definition busy (db : Db) (entry : Z) : bool :=
  exists_where (fun _ t => bool_decide (t_entry t = Some entry) && bool_decide (t_state t = "issued"%string))
    (db_tasks db)
  || exists_where (fun _ p => bool_decide (p_entry p = Some entry) && bool_decide (p_state p = PPublishing))
       (db_publications db).
(** [Command::ForgetIdentityForAdoption]. *)
Definition forget_identity (job entry version : Z) : Tx Db unit :=
  b ← gets (fun db => busy db entry);
  _ ← ensure (negb b) (Backend "an issued operation still owns the identity");
  current ← gets (fun db => match db_entries db !! entry with
    | Some e => (e_job e =? job) && (e_local e =? version) | None => false end);
  _ ← ensure current (Backend "local edit superseded identity adoption");
  update_entry entry (fun e =>
    set_e_remote no_remote (set_e_retired false (set_e_baseline None e))).

(** ** Confirmation *)
(** [records.iter().find(|r| r["recordName"].as_str() == Some(name))]. *)
Definition find_record (records : list Json.Value) (name : string) : option Json.Value :=
  List.find (fun r => bool_decide (Json.as_str r.["recordName"] = Some name)) records.
(** [recordChangeTag] of a confirmed record. *)
Definition revision (records : list Json.Value) (name : string) : option string :=
  r ← find_record records name; Json.as_str r.["recordChangeTag"].

(** One issued record has its confirmation in the response. *)
Definition check_confirmed (records : list Json.Value) (phase : string) (expected : Json.Value) : Tx Db unit :=
  name ← need (Json.as_str (expected.["record"]).["recordName"]) (Backend "issued record has no identity");
  result ← need (find_record records name) (Backend "atomic mutation confirmed another record");
  _ ← ensure (bool_decide (Json.member result "serverErrorCode" = None)
              && match Json.as_str result.["recordChangeTag"] with
                 | Some tag => negb (bool_decide (tag = ""%string)) | None => false end)
        (Backend "atomic mutation contains an unconfirmed record");
  ensure (negb (bool_decide (phase = "delete"%string)) || bool_decide (result.["deleted"] = Json.Bool true))
    (Backend "delete response is not a tombstone").

(** The entry after a confirmed delete. *)
Definition confirm_delete_entry (op : Issued) (e : Entry) : Entry :=
  let same := e_local e =? v_local (i_versions op) in
  let t := e_deletion e in
  set_e_retired same
    (set_e_remote no_remote
      (set_e_baseline None
        (set_e_dirty (if same then 0 else 1)
          (set_e_deletion (set_acked (Z.max (acked t) (v_deletion (i_versions op))) t) e)))).

(** The entry after a confirmed create or update: first the identity and the
    acknowledged versions, then the state they leave. *)
Definition metadata_sent (op : Issued) : bool :=
  bool_decide (i_phase op = "create"%string)
  || bool_decide ((i_preparation op).["sendMetadata"] = Json.Bool true).
Definition content_sent (op : Issued) : bool :=
  bool_decide (i_phase op = "create"%string) || bool_decide (is_Some (Json.member (i_preparation op) "resources")).
Definition ack (v : Z) (t : Track) : Track := set_acked (Z.max (acked t) v) t.
Definition or_else {A} (a b : option A) : option A := match a with Some x => Some x | None => b end.
Definition confirm_identity (op : Issued) (records : list Json.Value) (generation : string) (e : Entry) : Entry :=
  let r := e_remote e in
  set_e_retired false
    (set_e_remote (mkRemote (Some (i_photo op)) (Some (i_master op))
        (or_else (revision records (i_photo op)) (r_asset_revision r))
        (or_else (revision records (i_master op)) (r_master_revision r))
        (Some generation) (Some (i_content_generation op)))
      (set_e_metadata (ack (if metadata_sent op then v_metadata (i_versions op) else 0) (e_metadata e))
        (set_e_content (ack (if content_sent op then v_content (i_versions op) else 0) (e_content e)) e))).
Definition confirm_dirty (op : Issued) (e : Entry) : Entry :=
  set_e_dirty
    (if e_dirty e =? 4 then 4
     else if negb (e_local e =? v_local (i_versions op))
             || (acked (e_metadata e) <? version (e_metadata e))
             || (acked (e_content e) <? version (e_content e)) then 2
     else 0) e.

Definition CONFIRMED_REASONS : list string :=
  ["remote change intersects an unconfirmed local edit; preserve both versions";
   "another local/cloud identity owns this path"]%string.
Definition resolve_conflicts (entry : Z) (resolution : string) (reasons : list string) : Tx Db unit :=
  modify (fun db => set_db_conflicts
    (update_where (fun _ x => (x_entry x =? entry) && bool_decide (x_kind x = "native"%string)
                              && bool_decide (x_state x = "open"%string)
                              && match x_reason x with
                                 | Some r => bool_decide (r ∈ reasons) | None => false end)
       (fun x => set_x_state "resolved" (set_x_resolution (Some resolution) x)) (db_conflicts db)) db).

Section Confirm.
Context (iter : RecordSet -> list (string * NativeRecord)).

(** The photo of a confirmed pair. *)
Fixpoint decode_records (records : list Json.Value) (live : RecordSet) : option RecordSet :=
  match records with
  | [] => Some live
  | r :: rest => record ← record_from_value r; decode_records rest (apply record live)
  end.
Definition confirmed_photo (zone : string) (records : list Json.Value) : result RemotePhoto :=
  match decode_records records ∅ with
  | None => Err (Backend "invalid confirmed photo record")
  | Some live =>
      match to_graph iter (mkZone zone DEFAULT_OWNER) live with
      | inl _ => Err (Backend "confirmed photo pair violates the server contract")
      | inr graph => match photos graph with
                     | photo :: _ => Ok photo
                     | [] => Err (Backend "confirmed pair contains no photo")
                     end
      end
  end.

(** One uploaded resource is kept as a verified one. *)
Definition role_name (role : Role) : string :=
  match role with RoleOriginal => "original" | RoleThumbnail => "thumbnail" end.
Definition keep_resource (op : Issued) (asset : AssetDescriptor) (role : Role) : Tx Db unit :=
  match Json.as_str (((i_preparation op).["resources"]).[role_name role]).["path"] with
  | None => mret tt
  | Some path =>
      hex ← need (Content.hex_from_descriptor_base64 (file_checksum asset))
              (Backend "confirmed asset has an invalid digest");
      let key := (i_job op, i_generation op, asset_id asset, role) in
      modify (fun db => set_db_resources
        (<[key := match db_resources db !! key with
                  | Some r => set_s_staging (Some path) (set_s_state RVerified r)
                  | None => mkResource (Some (i_photo op)) (Some hex) (Some (a_size asset)) (Some path) RVerified None
                  end]> (db_resources db)) db)
  end.

(** The baseline of a metadata-only confirmation. *)
Definition patch_baseline (record : Json.Value) (photo : RemotePhoto) : option RemotePhoto :=
  let fields := record.["fields"] in
  let photo := set_is_favorite (negb (default 0 (Json.as_i64 (fields.["isFavorite"]).["value"]) =? 0)) photo in
  let photo := set_asset_date_ms (Json.as_i64 (fields.["assetDate"]).["value"]) photo in
  let photo := match Json.as_str (fields.["relativePath"]).["value"] with
               | Some path => set_relative_path path photo | None => photo end in
  match Json.member record "_syncserver" with
  | Some events => (fun ev => set_events ev photo) <$> events_from_value events
  | None => Some photo
  end.

Definition confirm_baseline (epoch : Epoch) (op : Issued) (records : list Json.Value) : Tx Db unit :=
  if (length records =? 2)%nat then
    row ← gets (fun db => db_jobs db !! ep_job epoch);
    match decode_records records ∅ with
    | None => throw (Backend "invalid confirmed photo record")
    | Some _ =>
        j ← need row NoRows;
        match confirmed_photo (j_zone j) records with
        | Err e => throw e
        | Ok photo =>
            _ ← update_entry (i_entry op) (set_e_baseline (Some photo));
            _ ← keep_resource op (original photo) RoleOriginal;
            keep_resource op (thumbnail photo) RoleThumbnail
        end
    end
  else
    baseline ← gets (fun db => e ← db_entries db !! i_entry op; e_baseline e);
    match baseline with
    | None => mret tt
    | Some photo =>
        (* [records[0]] panics on an empty slice, which drops the transaction. *)
        record ← need (head records) (Backend "index out of bounds");
        photo ← need (patch_baseline record photo) (Backend "invalid confirmed edit events");
        update_entry (i_entry op) (set_e_baseline (Some photo))
    end.

(** The entry a confirmed delete settled, when nothing changed since. *)
Definition settled_delete (op : Issued) (e : Entry) : bool :=
  (e_dirty e =? 0) && e_retired e && (e_local e =? v_local (i_versions op)).
(** The last block: the settled entry goes, and a cloud-only media row with it. *)
Definition finish_delete (op : Issued) : Tx Db unit :=
  row ← gets (fun db => db_entries db !! i_entry op);
  match row with
  | Some e =>
      if settled_delete op e then
        _ ← match e_media e with
            | Some media =>
                modify (fun db => delete_media (fun k m => (k =? media) && (m_location m =? 2)
                  && negb (exists_where (fun _ e' => bool_decide (e_media e' = Some media) && negb (e_retired e'))
                             (db_entries db))) db)
            | None => mret tt
            end;
        modify (delete_entries (fun k e' => (k =? i_entry op) && settled_delete op e'))
      else mret tt
  | None => mret tt
  end.

(** What must hold before anything is written. *)
Definition confirm_checks (epoch : Epoch) (op : Issued) (response : Json.Value) (lease : bool)
  : Tx Db (string * list Json.Value) :=
  _ ← valid_epoch epoch;
  _ ← ensure lease (Backend "UPLOAD_LEASE_LOST");
  matches ← gets (fun db => exists_where (fun _ t =>
      bool_decide (t_operation t = i_id op) && (t_job t =? ep_job epoch)
      && bool_decide (t_entry t = Some (i_entry op)) && bool_decide (t_state t = "issued"%string)) (db_tasks db));
  _ ← ensure matches (Backend "no issued operation to confirm");
  found ← gets (fun db => issued_read db (i_id op));
  stored ← need found (Backend "no issued operation to confirm");
  _ ← ensure (bool_decide (i_generation stored = i_generation op) && bool_decide (i_versions stored = i_versions op)
              && bool_decide (i_body stored = i_body op))
        (Backend "operation confirmation does not match issued evidence");
  row ← gets (fun db => db_progress db !! ep_job epoch);
  progress ← need row NoRows;
  _ ← ensure (bool_decide (g_generation progress = i_generation op))
        (Backend "operation belongs to another database generation");
  records ← need (v ← Json.member response "records"; Json.as_array v) (Backend "mutation returned no records");
  expected ← need (Json.as_array (i_body op).["operations"]) (Backend "issued operation contains no operations");
  _ ← ensure (length records =? length expected)%nat (Backend "mutation did not confirm the whole atomic batch");
  _ ← for_each expected (check_confirmed records (i_phase op));
  mret (g_generation progress, records).

(** [Command::Confirm]. *)
Definition confirm (epoch : Epoch) (op : Issued) (response : Json.Value) (lease_before lease_after : bool)
  : Tx Db unit :=
  '(generation, records) ← confirm_checks epoch op response lease_before;
  let deleting := bool_decide (i_phase op = "delete"%string) in
  _ ← (if deleting then update_entry (i_entry op) (confirm_delete_entry op)
       else _ ← update_entry (i_entry op) (confirm_identity op records generation);
            update_entry (i_entry op) (confirm_dirty op));
  _ ← resolve_conflicts (i_entry op) "confirmed issued operation" CONFIRMED_REASONS;
  _ ← (if deleting then mret tt else confirm_baseline epoch op records);
  _ ← modify (fun db => set_db_media
        (update_where (fun k _ => bool_decide ((e ← db_entries db !! i_entry op; e_media e) = Some k))
           (fun m => set_m_location 3
              (if bool_decide (is_Some (Json.member (i_preparation op) "resources"))
               then set_m_thumb_ready true m else m)) (db_media db)) db);
  _ ← modify (fun db => set_db_tasks
        (update_where (fun _ t => bool_decide (t_operation t = i_id op)) (set_t_state "confirmed")
           (db_tasks db)) db);
  _ ← ensure lease_after (Backend "UPLOAD_LEASE_LOST");
  if deleting then finish_delete op else mret tt.
End Confirm.

(** ** Commands *)
Inductive Command :=
  | ThumbnailReady (publication : string) (media mtime_ns : Z) (asset : string)
  | DiscardPendingDeletions (job : Z)
  | ConfirmAbsentDeletion (epoch : Epoch) (entry version : Z) (lease : bool)
  | ClearAccount
  | SelectAccount (job : option Z)
  | RetireIssued (epoch : Epoch) (operation : Issued) (rejected : bool) (reason : string)
  | UploadFailed (epoch : Epoch) (entry : Z) (reason : string)
  | Begin (epoch : Epoch)
  | End_ (epoch : Epoch)
  | Save (epoch : Epoch) (issued : Issued)
  | Enroll (epoch : Epoch)
  | ObserveLocal (job : Z) (paths : list string)
  | ForgetIdentityForAdoption (job entry version : Z)
  | Confirm (epoch : Epoch) (operation : Issued) (response : Json.Value) (lease_before lease_after : bool).

(** [execute], for these commands. *)
Section Execute.
Context (iter : RecordSet -> list (string * NativeRecord)).
Definition execute (command : Command) : Tx Db unit :=
  match command with
  | ThumbnailReady publication media mtime_ns asset => thumbnail_ready publication media mtime_ns asset
  | DiscardPendingDeletions job => discard_pending_deletions job
  | ConfirmAbsentDeletion epoch entry version lease => confirm_absent_deletion epoch entry version lease
  | ClearAccount => Accounts.clear_account
  | SelectAccount job => Accounts.select_in job
  | RetireIssued epoch operation rejected reason => retire_issued epoch operation rejected reason
  | UploadFailed epoch entry reason => upload_failed epoch entry reason
  | Begin epoch => begin epoch
  | End_ epoch => end_cycle epoch
  | Save epoch issued => save epoch issued
  | Enroll epoch => enroll epoch
  | ObserveLocal job paths => observe_local job paths
  | ForgetIdentityForAdoption job entry version => forget_identity job entry version
  | Confirm epoch operation response before after => confirm iter epoch operation response before after
  end.
End Execute.

(** The epoch a command acts under. *)
Definition command_epoch (command : Command) : option Epoch :=
  match command with
  | ConfirmAbsentDeletion epoch _ _ _ | RetireIssued epoch _ _ _ | UploadFailed epoch _ _ | Save epoch _
  | Enroll epoch | Confirm epoch _ _ _ _ => Some epoch
  | _ => None
  end.

(** ** Epochs *)
Definition SUPERSEDED : AppError := Backend "synchronization configuration/cycle was superseded".
Lemma valid_epoch_run epoch db :
  valid_epoch epoch db = if epoch_valid db epoch then Ok (tt, db) else Err SUPERSEDED.
Proof. unfold valid_epoch. tx_red. by destruct (epoch_valid db epoch). Qed.

Lemma epoch_valid_spec db epoch :
  epoch_valid db epoch = true <->
  exists j, db_jobs db !! ep_job epoch = Some j /\ j_config j = ep_config epoch /\
    j_cycle j = Some (ep_cycle epoch) /\ j_paused j = false /\ job_enabled db (ep_job epoch) = true /\
    db_changes db !! ep_job epoch = None.
Proof.
  unfold epoch_valid. destruct (db_jobs db !! ep_job epoch) as [j|]; [|by split; [|intros (? & ? & _)]].
  rewrite !andb_true_iff, Z.eqb_eq, !bool_decide_eq_true, negb_true_iff. split.
  - intros [[[[? ?] ?] ?] ?]. by exists j.
  - intros (j' & [= <-] & ? & ? & ? & ? & ?). done.
Qed.


(** What ends a cycle's authority. An epoch that is current stops being so
    after a reset begins, after the user queues an edit of the job, after a new
    cycle of the job begins under another identity, after the cycle ends, and
    after the job is paused; none of these needs the old cycle's cooperation. *)
Theorem epoch_superseded db epoch :
  epoch_valid db epoch = true ->
  (forall token db', Reset.begin token db = Ok (tt, db') -> epoch_valid db' epoch = false) /\
  (forall edit db', Jobs.queue_edit (ep_job epoch) edit db = Ok (true, db') -> epoch_valid db' epoch = false) /\
  (forall next db', ep_job next = ep_job epoch -> ep_cycle next <> ep_cycle epoch ->
     begin next db = Ok (tt, db') -> epoch_valid db' epoch = false) /\
  (forall db', end_cycle epoch db = Ok (tt, db') -> epoch_valid db' epoch = false) /\
  (forall db', Jobs.set_job_paused (ep_job epoch) true db = Ok (tt, db') -> epoch_valid db' epoch = false).
Proof.
  intros (j & Hj & Hcfg & Hcyc & Hp & Hen & Hch)%epoch_valid_spec.
  assert (Hneg : forall db', ~ (exists j, db_jobs db' !! ep_job epoch = Some j /\ j_config j = ep_config epoch /\
    j_cycle j = Some (ep_cycle epoch) /\ j_paused j = false /\ job_enabled db' (ep_job epoch) = true /\
    db_changes db' !! ep_job epoch = None) -> epoch_valid db' epoch = false).
  { intros db' Hn. apply not_true_iff_false. by rewrite epoch_valid_spec. }
  split_and!.
  - intros token db' Hb. apply modify_Ok in Hb as ->. apply Hneg. cbn [db_jobs set_db_reset set_db_settings set_db_jobs].
    rewrite lookup_fmap, Hj. intros (j' & [= <-] & Hc & _). unfold Reset.bump_config in Hc. cbn in Hc. lia.
  - intros edit db' Hq. apply Hneg. intros (_ & _ & _ & _ & _ & _ & Hnone).
    assert (Hins : forall edit, Jobs.queue (ep_job epoch) edit db = Ok (true, db') -> is_Some (db_changes db' !! ep_job epoch)).
    { clear edit Hq. intros edit Hq. unfold Jobs.queue in Hq. tx_inv Hq.
      destruct (ch_delete _); [destruct edit; by tx_inv Hq|]. tx_inv Hq. destruct (Jobs.merge_edit _ _ _ _ _); [|by tx_inv Hq].
      unfold update_job in Hq. tx_inv Hq. cbn [db_changes set_db_jobs set_db_changes].
      rewrite lookup_insert_eq. by eexists. }
    unfold Jobs.queue_edit in Hq.
    destruct edit as [d|albums|]; [|destruct (Jobs.normalize_relative_albums albums); [|done]|];
      apply Hins in Hq; rewrite Hnone in Hq; by destruct Hq.
  - intros next db' Hjob Hne Hb. apply Hneg. intros (j' & Hj' & _ & Hc' & _).
    unfold begin, update_job in Hb. tx_inv Hb. cbn [db_jobs set_db_entries set_db_jobs] in Hj'.
    rewrite Hjob, lookup_alter_eq, Hj in Hj'. injection Hj' as <-. cbn in Hc'. congruence.
  - intros db' He. apply Hneg. intros (j' & Hj' & _ & Hc' & _).
    unfold end_cycle, update_job in He. apply modify_Ok in He as ->. cbn [db_jobs set_db_jobs] in Hj'.
    rewrite lookup_alter_eq, Hj in Hj'. cbn in Hj'. rewrite bool_decide_true in Hj' by done. by injection Hj' as <-.
  - intros db' He. apply Hneg. intros (j' & Hj' & _ & _ & Hp' & _).
    unfold Jobs.set_job_paused, update_job in He. apply modify_Ok in He as ->. cbn [db_jobs set_db_jobs] in Hj'.
    rewrite lookup_alter_eq, Hj in Hj'. by injection Hj' as <-.
Qed.
(** ** What confirmation checks *)
Lemma check_confirmed_pure records phase expected db u db' :
  check_confirmed records phase expected db = Ok (u, db') -> db' = db.
Proof. unfold check_confirmed. intros H. by tx_inv H. Qed.

Lemma for_each_pure {A} (f : A -> Tx Db unit) l db u db' :
  (forall x s u' s', f x s = Ok (u', s') -> s' = s) -> for_each l f db = Ok (u, db') ->
  db' = db /\ Forall (fun x => exists u', f x db = Ok (u', db)) l.
Proof.
  intros Hf. revert db. induction l as [|x l IH]; intros db; simpl.
  { intros [_ ->]%mret_Ok. by split. }
  intros ([] & s & Hx & Hl)%bind_Ok. pose proof (Hf _ _ _ _ Hx) as ->.
  destruct (IH db Hl) as [-> Hall]. split; [done|]. constructor; [by eexists|done].
Qed.

(** The evidence a successful confirmation rests on. *)
Record confirmable (epoch : Epoch) (op : Issued) (response : Json.Value) (lease : bool)
    (generation : string) (records : list Json.Value) (db : Db) : Prop := {
  cf_epoch : epoch_valid db epoch = true;
  cf_lease : lease = true;
  cf_task : exists k t, db_tasks db !! k = Some t /\ t_operation t = i_id op /\ t_job t = ep_job epoch /\
              t_entry t = Some (i_entry op) /\ t_state t = "issued"%string;
  cf_stored : exists stored, issued_read db (i_id op) = Some stored /\
              i_generation stored = i_generation op /\ i_versions stored = i_versions op /\ i_body stored = i_body op;
  cf_generation : exists g, db_progress db !! ep_job epoch = Some g /\ g_generation g = generation /\
              i_generation op = generation;
  cf_records : exists v expected, Json.member response "records" = Some v /\ Json.as_array v = Some records /\
              Json.as_array (i_body op).["operations"] = Some expected /\ length records = length expected /\
              Forall (fun x => exists u, check_confirmed records (i_phase op) x db = Ok (u, db)) expected
}.

Lemma confirm_checks_Ok epoch op response lease generation records db db' :
  confirm_checks epoch op response lease db = Ok ((generation, records), db') ->
  db' = db /\ confirmable epoch op response lease generation records db.
Proof.
  intros H. unfold confirm_checks in H.
  apply bind_Ok in H as ([] & s & He & H). rewrite valid_epoch_run in He.
  destruct (epoch_valid db epoch) eqn:Hv; [|done]. injection He as <-.
  tx_inv H.
  match goal with HF : for_each _ _ _ = Ok _ |- _ =>
    destruct (for_each_pure _ _ _ _ _ (fun _ _ _ _ => check_confirmed_pure _ _ _ _ _ _) HF) as [-> Hall] end.
  repeat match goal with
  | H : bool_decide _ = true |- _ => apply bool_decide_eq_true in H
  | H : _ && _ = true |- _ => apply andb_prop in H; destruct H
  | H : (_ =? _)%nat = true |- _ => apply Nat.eqb_eq in H
  | H : (_, _) = (_, _) |- _ => injection H as -> ->
  | H : exists_where _ _ = true |- _ => apply exists_where_true in H; destruct H as (k & t & Hk & Ht)
  end.
  split; [done|].
  constructor.
  - done.
  - done.
  - exists k, t. zbool. done.
  - eexists. done.
  - eexists. split; [done|]. split; [done|]. by symmetry.
  - destruct (Json.member response "records") as [v|]; [|done]. by eexists _, _.
Qed.

(** ** What confirmation writes *)
Lemma keep_resource_Ok op asset role db u db' :
  keep_resource op asset role db = Ok (u, db') -> exists rs, db' = set_db_resources rs db.
Proof.
  unfold keep_resource. destruct (Json.as_str _) as [path|].
  - intros H. tx_inv H. by eexists.
  - intros [_ ->]%mret_Ok. exists (db_resources db). by destruct db.
Qed.

Lemma alter_baseline_self db id :
  alter (set_e_baseline (e ← db_entries db !! id; e_baseline e)) id (db_entries db) = db_entries db.
Proof.
  apply map_eq. intros k. destruct (decide (k = id)) as [->|Hk]; [|by rewrite lookup_alter_ne].
  rewrite lookup_alter_eq. destruct (db_entries db !! id) as [e|]; [|done]. cbn. f_equal. by destruct e.
Qed.

Lemma confirm_baseline_Ok iter epoch op records db u db' :
  confirm_baseline iter epoch op records db = Ok (u, db') ->
  exists b rs, db' = set_db_resources rs (set_db_entries (alter (set_e_baseline b) (i_entry op) (db_entries db)) db).
Proof.
  unfold confirm_baseline, update_entry. destruct (_ =? 2)%nat; intros H; tx_inv H.
  - destruct (decode_records records ∅) as [live|]; [|done]. tx_inv H.
    destruct (confirmed_photo _ _ _) as [photo|]; [|done]. tx_inv H.
    match goal with Hk : keep_resource _ _ RoleOriginal _ = _ |- _ => apply keep_resource_Ok in Hk as (rs1 & ->) end.
    apply keep_resource_Ok in H as (rs2 & ->). by eexists _, rs2.
  - destruct (e ← db_entries db !! i_entry op; e_baseline e) as [photo|] eqn:Hb.
    + tx_inv H. eexists _, (db_resources db). by destruct db.
    + tx_inv H. exists (e ← db_entries db !! i_entry op; e_baseline e), (db_resources db).
      rewrite alter_baseline_self. by destruct db.
Qed.

Lemma delete_media_none P db :
  (forall k m, db_media db !! k = Some m -> P k m = false) -> delete_media P db = db.
Proof.
  intros HP. unfold delete_media.
  assert (Hm : delete_where P (db_media db) = db_media db).
  { apply map_eq. intros k. rewrite lookup_delete_where. destruct (db_media db !! k) as [m|] eqn:Hk; [|done].
    cbn. by rewrite (HP k m). }
  assert (He : forall f, update_where (fun _ e => match e_media e with
      | Some id => match db_media db !! id with Some m => P id m | None => false end
      | None => false end) f (db_entries db) = db_entries db).
  { intros f. apply map_eq. intros k. rewrite lookup_update_where. destruct (db_entries db !! k) as [e|]; [|done].
    cbn. destruct (e_media e) as [id|]; [|done]. destruct (db_media db !! id) as [m|] eqn:Hk; [|done].
    by rewrite (HP id m). }
  rewrite Hm, He. by destruct db.
Qed.

(** When the media of the entry is not cloud-only, the last block removes the
    settled entry and nothing else. *)
Lemma finish_delete_run op db :
  (forall e k m, db_entries db !! i_entry op = Some e -> e_media e = Some k -> db_media db !! k = Some m ->
     m_location m <> 2) ->
  finish_delete op db
  = Ok (tt, match db_entries db !! i_entry op with
            | Some e => if settled_delete op e
                        then delete_entries (fun k e' => (k =? i_entry op) && settled_delete op e') db else db
            | None => db end).
Proof.
  intros Hloc. unfold finish_delete. rewrite (bind_run _ _ _ _ _ eq_refl). cbn beta.
  destruct (db_entries db !! i_entry op) as [e|] eqn:He; [|done]. destruct (settled_delete op e); [|done].
  destruct (e_media e) as [media|] eqn:Hm; [|done]. rewrite (bind_run _ _ _ _ _ eq_refl). cbn beta.
  rewrite delete_media_none; [done|]. intros k m Hk.
  destruct (k =? media) eqn:E; [|done]. zbool. subst k. specialize (Hloc e media m eq_refl Hm Hk).
  cbn [andb]. apply Z.eqb_neq in Hloc. by rewrite Hloc.
Qed.
Definition deleting (op : Issued) : bool := bool_decide (i_phase op = "delete"%string).
(** The entry after confirmation, its baseline apart. *)
Definition confirm_entry (op : Issued) (records : list Json.Value) (generation : string) (e : Entry) : Entry :=
  if deleting op then confirm_delete_entry op e
  else confirm_dirty op (confirm_identity op records generation e).
Definition confirm_media (op : Issued) (media : option Z) (k : Z) (m : Media) : Media :=
  if bool_decide (media = Some k)
  then set_m_location 3 (if bool_decide (is_Some (Json.member (i_preparation op) "resources"))
                         then set_m_thumb_ready true m else m)
  else m.

(** The effect of a successful confirmation. *)
Record confirmed (op : Issued) (records : list Json.Value) (generation : string) (db db' : Db) : Prop := {
  cd_entry : exists b, db_entries db' !! i_entry op
    = (e ← db_entries db !! i_entry op;
       let e1 := confirm_entry op records generation e in
       if deleting op && settled_delete op e1 then None else Some (set_e_baseline b e1));
  cd_others : forall id, id <> i_entry op -> db_entries db' !! id = db_entries db !! id;
  cd_media : forall k, db_media db' !! k
    = confirm_media op (e ← db_entries db !! i_entry op; e_media e) k <$> db_media db !! k;
  cd_tasks : forall k t', db_tasks db' !! k = Some t' -> exists t, db_tasks db !! k = Some t /\
    t_operation t' = t_operation t /\ t_issued t' = t_issued t /\
    (t_entry t' = t_entry t \/ t_entry t' = None) /\
    t_state t' = if bool_decide (t_operation t = i_id op) then "confirmed"%string else t_state t;
  cd_refs : forall k t', db_tasks db' !! k = Some t' -> t_entry t' = Some (i_entry op) ->
    is_Some (db_entries db !! i_entry op) -> is_Some (db_entries db' !! i_entry op);
  cd_next : db_next_task db' = db_next_task db /\ db_next_entry db' = db_next_entry db;
  cd_frame : db_jobs db' = db_jobs db /\ db_connections db' = db_connections db /\ db_changes db' = db_changes db
}.

Lemma confirm_entry_media op records generation e : e_media (confirm_entry op records generation e) = e_media e.
Proof. unfold confirm_entry. by destruct (deleting op). Qed.
Lemma settled_delete_baseline op b e : settled_delete op (set_e_baseline b e) = settled_delete op e.
Proof. done. Qed.

(** The state of the database before the last block. *)
Definition before_finish (op : Issued) (records : list Json.Value) (generation : string)
    (b : option RemotePhoto) (db : Db) (db1 : Db) : Prop :=
  db_entries db1 = alter (fun e => set_e_baseline b (confirm_entry op records generation e)) (i_entry op) (db_entries db) /\
  (forall k, db_media db1 !! k = confirm_media op (e ← db_entries db !! i_entry op; e_media e) k <$> db_media db !! k) /\
  db_tasks db1 = update_where (fun _ t => bool_decide (t_operation t = i_id op)) (set_t_state "confirmed") (db_tasks db) /\
  db_jobs db1 = db_jobs db /\ db_connections db1 = db_connections db /\ db_changes db1 = db_changes db /\
  db_next_task db1 = db_next_task db /\ db_next_entry db1 = db_next_entry db.

Section Finish.
Context (op : Issued) (records : list Json.Value) (generation : string) (b : option RemotePhoto) (db db1 : Db).
Context (Hbefore : before_finish op records generation b db db1).

Lemma before_lookup : db_entries db1 !! i_entry op
  = (fun e => set_e_baseline b (confirm_entry op records generation e)) <$> db_entries db !! i_entry op.
Proof using Hbefore. destruct Hbefore as (He & _). by rewrite He, lookup_alter_eq. Qed.
Lemma before_others id : id <> i_entry op -> db_entries db1 !! id = db_entries db !! id.
Proof using Hbefore. destruct Hbefore as (He & _). intros Hid. by rewrite He, lookup_alter_ne. Qed.
Lemma before_tasks k t' : db_tasks db1 !! k = Some t' -> exists t, db_tasks db !! k = Some t /\
  t_operation t' = t_operation t /\ t_issued t' = t_issued t /\ t_entry t' = t_entry t /\
  t_state t' = if bool_decide (t_operation t = i_id op) then "confirmed"%string else t_state t.
Proof using Hbefore.
  destruct Hbefore as (_ & _ & Ht & _). intros Hk. rewrite Ht, lookup_update_where in Hk.
  destruct (db_tasks db !! k) as [t|] eqn:Hkt; [|done]. injection Hk as <-. exists t. destruct (bool_decide _); done.
Qed.

(** The entry stays. *)
Lemma confirmed_kept :
  (forall e, db_entries db !! i_entry op = Some e ->
     deleting op && settled_delete op (confirm_entry op records generation e) = false) ->
  confirmed op records generation db db1.
Proof using Hbefore.
  intros Hno. constructor.
  - exists b. rewrite before_lookup. destruct (db_entries db !! i_entry op) as [e|] eqn:He; [|done].
    cbn. by rewrite (Hno e).
  - apply before_others.
  - apply Hbefore.
  - intros k t' Hk. destruct (before_tasks k t' Hk) as (t & ? & ? & ? & ? & ?). exists t. split_and!; try done. by left.
  - intros k t' _ _ [e He]. rewrite before_lookup, He. by eexists.
  - apply Hbefore.
  - split_and!; apply Hbefore.
Qed.

(** The settled entry goes, and the references to it with it. *)
Lemma confirmed_removed e :
  deleting op = true -> db_entries db !! i_entry op = Some e ->
  settled_delete op (confirm_entry op records generation e) = true ->
  confirmed op records generation db
    (delete_entries (fun k e' => (k =? i_entry op) && settled_delete op e') db1).
Proof using Hbefore.
  intros Hdel He Hs. pose proof before_lookup as Hlook. rewrite He in Hlook. cbn in Hlook.
  constructor.
  - exists b. rewrite He. cbn. rewrite Hdel, Hs. cbn.
    unfold delete_entries. cbn [db_entries set_db_entries]. rewrite lookup_delete_where, Hlook. cbn.
    by rewrite Z.eqb_refl, settled_delete_baseline, Hs.
  - intros id Hid. unfold delete_entries. cbn [db_entries set_db_entries].
    rewrite lookup_delete_where, before_others by done.
    destruct (db_entries db !! id) as [e'|]; [|done]. cbn. apply Z.eqb_neq in Hid. by rewrite Hid.
  - apply Hbefore.
  - intros k t' Hk. unfold delete_entries in Hk. cbn [db_tasks set_db_entries set_db_conflicts set_db_tasks] in Hk.
    rewrite lookup_update_where in Hk. destruct (db_tasks db1 !! k) as [t1|] eqn:H1; [|done].
    destruct (before_tasks k t1 H1) as (t & Hkt & Hop & Hi & Hent & Hst). injection Hk as <-. exists t.
    match goal with |- context [if ?c then set_t_entry None t1 else t1] => destruct c end;
      (split_and!; try done); [by right|by left].
  - intros k t' Hk Hent _. exfalso. unfold delete_entries in Hk.
    cbn [db_tasks set_db_entries set_db_conflicts set_db_tasks] in Hk. rewrite lookup_update_where in Hk.
    destruct (db_tasks db1 !! k) as [t1|] eqn:H1; [|done]. injection Hk as <-.
    destruct (t_entry t1) as [id|] eqn:Hid; [|by rewrite Hid in Hent].
    destruct (decide (id = i_entry op)) as [->|Hne].
    + rewrite Hlook, Z.eqb_refl, settled_delete_baseline, Hs in Hent. done.
    + destruct (db_entries db1 !! id) as [e1|]; [|congruence]. apply Z.eqb_neq in Hne. rewrite Hne in Hent. cbn in Hent.
      apply Z.eqb_neq in Hne. congruence.
  - apply Hbefore.
  - split_and!; apply Hbefore.
Qed.

Lemma confirm_finish :
  exists db', (if deleting op then finish_delete op else mret tt) db1 = Ok (tt, db') /\
    confirmed op records generation db db'.
Proof using Hbefore.
  destruct (deleting op) eqn:Hdel.
  2:{ exists db1. split; [done|]. apply confirmed_kept. intros e _. by rewrite Hdel. }
  eexists. split.
  - apply finish_delete_run. intros e k m Hek Hmk Hkm. destruct Hbefore as (_ & Hm & _). rewrite Hm in Hkm.
    rewrite before_lookup in Hek. destruct (db_entries db !! i_entry op) as [e0|]; [|done].
    injection Hek as <-. cbn [e_media set_e_baseline] in Hmk. rewrite confirm_entry_media in Hmk. cbn in Hkm.
    destruct (db_media db !! k) as [m0|]; [|done]. injection Hkm as <-.
    unfold confirm_media. rewrite bool_decide_true by done. by destruct (bool_decide _).
  - rewrite before_lookup. destruct (db_entries db !! i_entry op) as [e|] eqn:He; cbn [fmap option_fmap option_map].
    2:{ apply confirmed_kept. intros e He'. congruence. }
    rewrite settled_delete_baseline. destruct (settled_delete op _) eqn:Hs; [by apply (confirmed_removed e)|].
    apply confirmed_kept. intros e' He'. rewrite He in He'. injection He' as <-. by rewrite Hs, andb_false_r.
Qed.
End Finish.

Lemma confirm_Ok iter epoch op response lease1 lease2 db u db' :
  confirm iter epoch op response lease1 lease2 db = Ok (u, db') ->
  exists generation records, confirmable epoch op response lease1 generation records db /\
    lease2 = true /\ confirmed op records generation db db'.
Proof.
  intros H. unfold confirm in H. apply bind_Ok in H as ([generation records] & s & Hc & H).
  apply confirm_checks_Ok in Hc as [-> Hc]. exists generation, records. split; [done|]. fold (deleting op) in H.
  apply bind_Ok in H as ([] & s1 & H1 & H).
  assert (Hs1 : s1 = set_db_entries (alter (confirm_entry op records generation) (i_entry op) (db_entries db)) db).
  { unfold update_entry in H1. unfold confirm_entry. destruct (deleting op); tx_inv H1; [done|].
    cbn [db_entries set_db_entries]. unfold set_db_entries; cbn. f_equal. by rewrite alter_alter_eq. }
  clear H1. apply bind_Ok in H as ([] & s2 & H2%modify_Ok & H). apply bind_Ok in H as ([] & s3 & H3 & H).
  assert (Hs3 : exists b rs, s3 = set_db_resources rs
    (set_db_entries (alter (set_e_baseline b) (i_entry op) (db_entries s2)) s2)).
  { destruct (deleting op) eqn:Hdel; [|by apply confirm_baseline_Ok in H3].
    apply mret_Ok in H3 as [_ ->]. exists (e ← db_entries s2 !! i_entry op; e_baseline e), (db_resources s2).
    rewrite alter_baseline_self. by destruct s2. }
  clear H3. destruct Hs3 as (b & rs & Hs3). tx_inv H. split; [done|].
  edestruct (confirm_finish op records generation b db) as (db2 & Hrun & Hconf);
    [|rewrite Hrun in H; injection H as _ <-; exact Hconf].
  subst. unfold before_finish.
  cbn [db_entries db_media db_tasks db_jobs db_connections db_changes db_next_task db_next_entry set_db_resources set_db_entries
       set_db_conflicts set_db_media set_db_tasks]. split_and!; try done.
  - by rewrite alter_alter_eq.
  - intros k. rewrite lookup_update_where, !lookup_alter_eq. destruct (db_entries db !! i_entry op) as [e|]; cbn.
    + rewrite confirm_entry_media. done.
    + done.
Qed.

(** ** What confirmation settles *)
Definition captured (c : Dirty.ChangeCategory) (v : Versions) : Z :=
  match c with
  | Dirty.Metadata => v_metadata v | Dirty.Content => v_content v | Dirty.Deletion => v_deletion v
  end.

Lemma confirm_entry_version op records generation e c :
  version (Dirty.track c (confirm_entry op records generation e)) = version (Dirty.track c e).
Proof. unfold confirm_entry. by destruct (deleting op), c. Qed.

(** A category is acknowledged at most up to its old mark or the captured version. *)
Lemma confirm_entry_acked op records generation e c :
  0 <= acked (Dirty.track c e) ->
  acked (Dirty.track c (confirm_entry op records generation e))
  <= Z.max (acked (Dirty.track c e)) (captured c (i_versions op)) /\
  acked (Dirty.track c e) <= acked (Dirty.track c (confirm_entry op records generation e)).
Proof.
  unfold confirm_entry. destruct (deleting op), c; cbn; intros H0;
    repeat match goal with |- context [if ?b then _ else _] => destruct b end; lia.
Qed.

Lemma confirm_entry_dirty op records generation e :
  e_local e <> v_local (i_versions op) -> e_dirty (confirm_entry op records generation e) <> Dirty.CLEAN.
Proof.
  intros Hl. apply Z.eqb_neq in Hl. unfold confirm_entry, Dirty.CLEAN. destruct (deleting op).
  - unfold confirm_delete_entry. cbn. by rewrite Hl.
  - unfold confirm_dirty, confirm_identity. cbn. rewrite Hl. by destruct (e_dirty e =? 4).
Qed.

(** C1: An edit made while an operation was in flight is never lost. If the
    entry's local version moved past the one the operation captured, then after
    the confirmation the entry still exists and is still dirty, and every
    category whose version is beyond the captured one and was unacknowledged is
    still unacknowledged, so the next cycle sends it. *)
Theorem confirm_keeps_inflight_edit iter epoch op response lease1 lease2 db db' e :
  confirm iter epoch op response lease1 lease2 db = Ok (tt, db') ->
  db_entries db !! i_entry op = Some e -> Dirty.entry_ok e -> e_local e <> v_local (i_versions op) ->
  exists e', db_entries db' !! i_entry op = Some e' /\ e_dirty e' <> Dirty.CLEAN /\ e_local e' = e_local e /\
    forall c, captured c (i_versions op) < version (Dirty.track c e) -> Dirty.has_change c e = true ->
      Dirty.has_change c e' = true.
Proof.
  intros (gen & records & _ & _ & Hcd)%confirm_Ok He Hok Hl.
  destruct (cd_entry _ _ _ _ _ Hcd) as (b & Hb). rewrite He in Hb. cbn in Hb.
  assert (Hns : settled_delete op (confirm_entry op records gen e) = false).
  { unfold settled_delete. apply andb_false_iff. right. apply Z.eqb_neq.
    unfold confirm_entry. by destruct (deleting op). }
  rewrite Hns, andb_false_r in Hb. eexists. split; [exact Hb|]. split_and!.
  - by apply (confirm_entry_dirty op records gen e).
  - unfold confirm_entry. by destruct (deleting op).
  - intros c Hc Hch. unfold Dirty.has_change in *. apply Z.ltb_lt in Hch. apply Z.ltb_lt.
    replace (Dirty.track c (set_e_baseline b (confirm_entry op records gen e)))
      with (Dirty.track c (confirm_entry op records gen e)) by (by destruct c).
    rewrite confirm_entry_version. destruct Hok as (_ & H1 & H2 & H3 & _).
    assert (0 <= acked (Dirty.track c e)) by (destruct c; unfold Dirty.track_ok in *; cbn; lia).
    destruct (confirm_entry_acked op records gen e c) as [Hle _]; [done|]. lia.
Qed.


(** C15: An operation is confirmed at most once, and only from its evidence:
    success needs a current epoch, both lease checks and the operation's own
    issued task in this job, and afterwards every further attempt to confirm
    that operation id, by any cycle and with any response, is refused and
    changes nothing. *)
Theorem confirm_at_most_once iter epoch op response lease1 lease2 db db' :
  confirm iter epoch op response lease1 lease2 db = Ok (tt, db') ->
  epoch_valid db epoch = true /\ lease1 = true /\ lease2 = true /\
  (exists k t, db_tasks db !! k = Some t /\ t_operation t = i_id op /\ t_job t = ep_job epoch /\
     t_state t = "issued"%string) /\
  forall iter' epoch' op' response' l1 l2, i_id op' = i_id op ->
    exists err, transact (confirm iter' epoch' op' response' l1 l2) db' = (db', Err err).
Proof.
  intros (gen & records & Hc & Hl2 & Hcd)%confirm_Ok. split_and!; [apply Hc|apply Hc|done| |].
  - destruct (cf_task _ _ _ _ _ _ _ Hc) as (k & t & ? & ? & ? & ? & ?). by exists k, t.
  - intros iter' epoch' op' response' l1 l2 Hid. unfold transact.
    destruct (confirm iter' epoch' op' response' l1 l2 db') as [[u db'']|err] eqn:Hrun; [|by eexists].
    apply confirm_Ok in Hrun as (gen' & records' & Hc' & _).
    destruct (cf_task _ _ _ _ _ _ _ Hc') as (k & t & Hk & Hop & _ & _ & Hst).
    destruct (cd_tasks _ _ _ _ _ Hcd k t Hk) as (t0 & _ & Hop0 & _ & _ & Hst0).
    rewrite <- Hop0, Hop, Hid, bool_decide_true in Hst0 by done. congruence.
Qed.

(** Confirmation keeps the entry invariant: if every entry was well formed
    and the operation's captured versions are not ahead of the entry's own,
    every entry is well formed afterwards. *)
Lemma confirm_preserves_entries_ok iter epoch op response lease1 lease2 db db' :
  confirm iter epoch op response lease1 lease2 db = Ok (tt, db') -> Dirty.entries_ok db ->
  (forall e, db_entries db !! i_entry op = Some e ->
     forall c, captured c (i_versions op) <= version (Dirty.track c e)) ->
  Dirty.entries_ok db'.
Proof.
  intros (gen & records & _ & _ & Hcd)%confirm_Ok Hok Hcap id e' He'.
  destruct (decide (id = i_entry op)) as [->|Hne]; [|rewrite (cd_others _ _ _ _ _ Hcd) in He' by done; by apply (Hok id)].
  destruct (cd_entry _ _ _ _ _ Hcd) as (b & Hb). rewrite Hb in He'.
  destruct (db_entries db !! i_entry op) as [e|] eqn:He; [|done]. cbn in He'.
  destruct (deleting op && _) eqn:Hgone in He'; [done|]. injection He' as <-.
  destruct (Hok _ _ He) as (Hd & H1 & H2 & H3 & Hv). specialize (Hcap e eq_refl).
  assert (Htrack : forall c, Dirty.track_ok (Dirty.track c (confirm_entry op records gen e))).
  { intros c. unfold Dirty.track_ok. rewrite confirm_entry_version.
    assert (0 <= acked (Dirty.track c e) <= version (Dirty.track c e)) by (by destruct c).
    destruct (confirm_entry_acked op records gen e c) as [Hle Hge]; [lia|]. specialize (Hcap c). lia. }
  unfold Dirty.entry_ok. cbn [e_dirty e_metadata e_content e_deletion set_e_baseline].
  split_and!; [|apply (Htrack Dirty.Metadata)|apply (Htrack Dirty.Content)|apply (Htrack Dirty.Deletion)|].
  - unfold confirm_entry, Dirty.CLEAN, Dirty.NEW, Dirty.MODIFIED, Dirty.DELETE. destruct (deleting op); cbn;
      repeat match goal with |- context [if ?b then _ else _] => destruct b end; lia.
  - unfold Dirty.has_change, Dirty.CLEAN, confirm_entry. destruct (deleting op) eqn:Hdel; cbn.
    + destruct (e_local e =? v_local (i_versions op)) eqn:E; [|done].
      unfold confirm_entry in Hgone. rewrite Hdel in Hgone. unfold settled_delete in Hgone. cbn in Hgone.
      by rewrite E in Hgone.
    + intros Hch. destruct (e_dirty e =? 4); [done|]. apply orb_prop in Hch as [Hch|Hch]; rewrite Hch;
        rewrite ?orb_true_r; done.
Qed.
(** A confirmed deletion never removes the media row. The row of a
    cloud-only original is meant to go with its cloud copy, but the
    confirmation marks the media as stored in both places before the statement
    that deletes cloud-only rows runs, so every media row survives and the
    entry's own is left claiming a local and a cloud copy. *)
Theorem confirmed_delete_keeps_media iter epoch op response lease1 lease2 db db' :
  confirm iter epoch op response lease1 lease2 db = Ok (tt, db') -> i_phase op = "delete"%string ->
  (forall k, is_Some (db_media db !! k) <-> is_Some (db_media db' !! k)) /\
  (forall e k m, db_entries db !! i_entry op = Some e -> e_media e = Some k -> db_media db' !! k = Some m ->
     m_location m = 3).
Proof.
  intros (gen & records & _ & _ & Hcd)%confirm_Ok _. split.
  - intros k. rewrite (cd_media _ _ _ _ _ Hcd), fmap_is_Some. done.
  - intros e k m He Hm Hk. rewrite (cd_media _ _ _ _ _ Hcd), He in Hk. cbn in Hk. rewrite Hm in Hk.
    destruct (db_media db !! k) as [m0|]; [|done]. injection Hk as <-.
    unfold confirm_media. by rewrite bool_decide_true.
Qed.

(** ** Evidence *)
Lemma find_task_Some db id k t : find_task db id = Some (k, t) -> db_tasks db !! k = Some t /\ t_operation t = id.
Proof. unfold find_task. intros [Hk Hp]%find_row_Some. split; [done|]. by apply bool_decide_eq_true in Hp. Qed.

Lemma issued_write_Ok issued db u db' :
  issued_write issued db = Ok (u, db') ->
  db' = set_db_tasks (update_where (fun _ t => bool_decide (t_operation t = i_id issued))
                        (set_t_issued (Some issued)) (db_tasks db)) db /\
  exists c, IssuedStore.columns issued = Ok c /\ IssuedStore.read (i_id issued) c = Some issued.
Proof.
  unfold issued_write. destruct (IssuedStore.write issued) as [c|e] eqn:Hw; [|done].
  intros ->%modify_Ok. split; [done|]. exists c. split; [|by apply IssuedStore.write_reads_back].
  by apply IssuedStore.write_columns.
Qed.

Lemma issued_read_updated issued db k t :
  db_tasks db !! k = Some t -> t_operation t = i_id issued ->
  issued_read (set_db_tasks (update_where (fun _ t => bool_decide (t_operation t = i_id issued))
                        (set_t_issued (Some issued)) (db_tasks db)) db) (i_id issued) = Some issued.
Proof.
  intros Hk Hop. unfold issued_read, find_task. cbn [db_tasks set_db_tasks].
  destruct (find_row _ _) as [[k' t']|] eqn:E.
  - apply find_row_Some in E as [Hk' Hp]. rewrite lookup_update_where in Hk'.
    destruct (db_tasks db !! k') as [t0|]; [|done]. injection Hk' as <-. cbn. apply bool_decide_eq_true in Hp.
    destruct (bool_decide (t_operation t0 = i_id issued)) eqn:Eb; [done|]. apply bool_decide_eq_false in Eb. done.
  - rewrite find_row_None in E. specialize (E k (set_t_issued (Some issued) t)).
    rewrite lookup_update_where, Hk in E. cbn in E. rewrite !bool_decide_true in E by done. by specialize (E eq_refl).
Qed.

(** Evidence is durable before anything is sent. Saving an operation
    succeeds only under its own job's current epoch and never over a settled
    operation of the same id; afterwards the stored evidence is exactly the
    operation, in state issued, its typed columns read back as the operation,
    and no entry has changed. *)
Theorem save_records_evidence epoch issued db db' :
  save epoch issued db = Ok (tt, db') ->
  epoch_valid db epoch = true /\ i_job issued = ep_job epoch /\ i_config issued = ep_config epoch /\
  (forall k t, find_task db (i_id issued) = Some (k, t) -> t_state t = "issued"%string /\ t_job t = i_job issued) /\
  issued_read db' (i_id issued) = Some issued /\
  (exists c, IssuedStore.columns issued = Ok c /\ IssuedStore.read (i_id issued) c = Some issued) /\
  (exists k t, db_tasks db' !! k = Some t /\ t_operation t = i_id issued /\ t_state t = "issued"%string) /\
  db_entries db' = db_entries db.
Proof.
  intros H. unfold save in H. apply bind_Ok in H as ([] & s & He & H). rewrite valid_epoch_run in He.
  destruct (epoch_valid db epoch) eqn:Hv; [|done]. injection He as <-.
  apply bind_Ok in H as ([] & s & [Hj ->]%ensure_Ok & H). zbool.
  apply bind_Ok in H as (found & s & [-> ->]%gets_Ok & H). apply bind_Ok in H as ([] & s1 & Hins & Hw).
  assert (Hs1 : db_entries s1 = db_entries db /\
    (forall k t, find_task db (i_id issued) = Some (k, t) -> t_state t = "issued"%string /\ t_job t = i_job issued) /\
    exists k t, db_tasks s1 !! k = Some t /\ t_operation t = i_id issued /\ t_state t = "issued"%string).
  { destruct (find_task db (i_id issued)) as [[k t]|] eqn:Hf.
    - tx_inv Hins. zbool.
      match goal with Hs : bool_decide _ = true |- _ => apply bool_decide_eq_true in Hs end.
      destruct (find_task_Some _ _ _ _ Hf) as [Hk Hop]. split_and!; [done|by intros ? ? [= <- <-]|by exists k, t].
    - tx_inv Hins. split_and!; [done|done|]. eexists (db_next_task db), _. split; [apply lookup_insert_eq|done]. }
  destruct Hs1 as (Hents & Hold & k & t & Hk & Hop & Hst). apply issued_write_Ok in Hw as [-> Hcols].
  split_and!; try done.
  - by apply (issued_read_updated issued s1 k t).
  - exists k, (set_t_issued (Some issued) t). cbn [db_tasks set_db_tasks].
    rewrite lookup_update_where, Hk. cbn. by rewrite bool_decide_true.
Qed.

(** Retiring an operation never drops an obligation: it succeeds only for
    an operation the service rejected, or for one whose request was never built
    under a configuration since replaced, and only while the stored evidence is
    that very operation; the entries, with all they owe, are untouched. *)
Theorem retire_keeps_obligation epoch op rejected reason db db' :
  retire_issued epoch op rejected reason db = Ok (tt, db') ->
  epoch_valid db epoch = true /\ issued_read db (i_id op) = Some op /\
  (rejected = true \/ i_body op = Json.Null /\ i_config op <> ep_config epoch) /\
  db_entries db' = db_entries db /\
  (forall k t', db_tasks db' !! k = Some t' -> t_operation t' = i_id op -> t_job t' = ep_job epoch ->
     t_state t' <> "issued"%string).
Proof.
  intros H. unfold retire_issued in H. apply bind_Ok in H as ([] & s & He & H). rewrite valid_epoch_run in He.
  destruct (epoch_valid db epoch) eqn:Hv; [|done]. injection He as <-. tx_inv H.
  match goal with Hs : bool_decide (issued_read _ _ = _) = true |- _ => apply bool_decide_eq_true in Hs end.
  split_and!; try done.
  - match goal with Hr : rejected || _ = true |- _ => apply orb_prop in Hr as [Hr|Hr] end; [by left|right].
    zbool. by destruct (i_body op).
  - intros k t' Hk Hop Hjob. cbn [db_tasks set_db_tasks] in Hk. rewrite lookup_update_where in Hk.
    destruct (db_tasks db !! k) as [t|]; [|done]. injection Hk as <-.
    destruct (_ && _ && _) eqn:E; [done|]. intros Hst. rewrite Hop, Hjob, Hst in E.
    rewrite !bool_decide_true, Z.eqb_refl in E by done. done.
Qed.

(** A deletion of a photo the cloud never had is settled locally only when
    nothing can still create it there: the entry must be a pending deletion at
    exactly the given version, without a remote identity, and with no issued
    operation and no confirmed create. Exactly that entry then goes. *)
Theorem absent_deletion_is_safe epoch entry version lease db db' :
  confirm_absent_deletion epoch entry version lease db = Ok (tt, db') ->
  lease = true /\ epoch_valid db epoch = true /\
  (exists e, db_entries db !! entry = Some e /\ e_job e = ep_job epoch /\ e_dirty e = Dirty.DELETE /\
     e_local e = version /\ r_photo (e_remote e) = None /\ r_master (e_remote e) = None) /\
  (forall k t, db_tasks db !! k = Some t -> t_entry t = Some entry ->
     t_state t <> "issued"%string /\ ~ (t_state t = "confirmed"%string /\ t_action t = "create"%string)) /\
  db_entries db' = delete entry (db_entries db).
Proof.
  intros H. unfold confirm_absent_deletion in H. apply bind_Ok in H as ([] & s & He & H). rewrite valid_epoch_run in He.
  destruct (epoch_valid db epoch) eqn:Hv; [|done]. injection He as <-. tx_inv H.
  destruct (db_entries db !! entry) as [e|] eqn:He; [|done].
  match goal with Hr : _ && negb (exists_where _ _) = true |- _ => rename Hr into Hall end.
  rewrite Hall. apply andb_prop in Hall as [Hall Hno]. apply negb_true_iff in Hno. rewrite exists_where_false in Hno.
  zbool. repeat match goal with H : bool_decide _ = true |- _ => apply bool_decide_eq_true in H end.
  split_and!; [done|done| | |].
  - by exists e.
  - intros k t Hk Ht. specialize (Hno k t Hk). unfold owns_deletion in Hno. rewrite bool_decide_true in Hno by done.
    cbn in Hno. apply orb_false_elim in Hno as [Hni%bool_decide_eq_false Hnc]. split; [done|]. intros [Hs Ha].
    rewrite !bool_decide_true in Hnc by done. done.
  - unfold delete_entries. cbn [db_entries set_db_entries]. apply map_eq. intros k. rewrite lookup_delete_where.
    destruct (decide (k = entry)) as [->|Hne].
    + rewrite lookup_delete_eq, He. cbn. by rewrite Z.eqb_refl.
    + rewrite lookup_delete_ne by done. destruct (db_entries db !! k); [|done]. cbn. apply Z.eqb_neq in Hne. by rewrite Hne.
Qed.

(** ** Examples *)
(** The sample photo's creation, issued in the sample cycle and answered by the
    pair of records the service stored. *)
Module Sample.
Local Open Scope string_scope.
Definition epoch : Epoch := mkEpoch 1 3 "cycle-1".
Definition named_record (name : string) : Json.Value := Json.Obj [("recordName", Json.Str name)].
Definition body : Json.Value :=
  Json.Obj [("operations", Json.Arr [Json.Obj [("record", named_record "photo-1")];
                                     Json.Obj [("record", named_record "master-1")]])].
Definition op : Issued :=
  mkIssued "op-1" 1 3 1 "gen-1" "create" (mkVersions 2 1 1 0) 1 "photo-1" "master-1" "c1" body (Json.Obj []).
Definition response : Json.Value :=
  Json.Obj [("records", Json.Arr [record_to_value Records.Sample.asset; record_to_value Records.Sample.master])].
Definition issued_db : Db := (transact (save epoch op) SyncDb.Sample.db).1.
Definition confirm_op : Tx Db unit := confirm map_to_list epoch op response true true.
Definition confirmed_db : Db := (transact confirm_op issued_db).1.
(** The same, with an edit of the photo between issue and confirmation. *)
Definition stamp : EditEvent := mkEvent 9 "device-1" "e9".
Definition edited_db : Db := (transact (Dirty.note 1 Dirty.Metadata stamp) issued_db).1.
Definition edited_confirmed_db : Db := (transact confirm_op edited_db).1.

(** A deletion of a photo whose original is only in the cloud. *)
Definition cloud_db : Db :=
  set_db_media (set_m_location 2 <$> db_media SyncDb.Sample.db)
    (set_db_entries (set_e_dirty 4 <$> db_entries SyncDb.Sample.db) SyncDb.Sample.db).
Definition delete_op : Issued :=
  mkIssued "op-2" 1 3 1 "gen-1" "delete" (mkVersions 2 1 1 0) 4 "photo-1" "master-1" "c1"
    (Json.Obj [("operations", Json.Arr [Json.Obj [("record", named_record "photo-1")]])]) Json.Null.
Definition tombstone : Json.Value :=
  Json.Obj [("records", Json.Arr [Json.Obj [("deleted", Json.Bool true); ("recordChangeTag", Json.Str "t2");
                                            ("recordName", Json.Str "photo-1")]])].
Definition deleting_db : Db := (transact (save epoch delete_op) cloud_db).1.
Definition deleted_db : Db := (transact (confirm map_to_list epoch delete_op tombstone true true) deleting_db).1.
End Sample.

Ltac compute_run := vm_compute; reflexivity.


Lemma epoch_superseded_witness :
  exists db', Reset.begin "token" SyncDb.Sample.db = Ok (tt, db') /\ epoch_valid db' Sample.epoch = false.
Proof.
  eexists. split; [reflexivity|].
  destruct (epoch_superseded SyncDb.Sample.db Sample.epoch ltac:(compute_run)) as [H _].
  by apply (H "token"%string).
Defined.


Lemma sample_entry_ok : Dirty.entry_ok SyncDb.Sample.entry.
Proof.
  unfold Dirty.entry_ok, Dirty.track_ok, Dirty.CLEAN, Dirty.NEW, Dirty.MODIFIED, Dirty.DELETE. cbn.
  split_and!; try lia; done.
Qed.

Lemma confirm_keeps_inflight_edit_witness :
  exists e', db_entries Sample.edited_confirmed_db !! 1 = Some e' /\ e_dirty e' <> Dirty.CLEAN /\
    Dirty.has_change Dirty.Metadata e' = true.
Proof.
  assert (H : Sample.confirm_op Sample.edited_db = Ok (tt, Sample.edited_confirmed_db)) by compute_run.
  destruct (confirm_keeps_inflight_edit _ _ _ _ _ _ _ _
    (Dirty.mark_entry Dirty.Metadata Sample.stamp SyncDb.Sample.entry) H) as (e' & He & Hd & _ & Hc).
  - compute_run.
  - apply Dirty.mark_entry_ok, sample_entry_ok.
  - clear H. cbn. lia.
  - exists e'. split; [exact He|]. split; [exact Hd|]. apply Hc; [clear; cbn; lia|reflexivity].
Defined.

Lemma confirm_at_most_once_witness :
  exists err, transact Sample.confirm_op Sample.confirmed_db = (Sample.confirmed_db, Err err).
Proof.
  assert (H : Sample.confirm_op Sample.issued_db = Ok (tt, Sample.confirmed_db)) by compute_run.
  destruct (confirm_at_most_once _ _ _ _ _ _ _ _ H) as (_ & _ & _ & _ & Hno).
  apply Hno. reflexivity.
Defined.

Lemma confirmed_delete_keeps_media_witness :
  db_entries Sample.deleted_db !! 1 = None /\ (m_location <$> db_media Sample.deleting_db !! 1) = Some 2 /\
  is_Some (db_media Sample.deleted_db !! 1).
Proof.
  assert (H : confirm map_to_list Sample.epoch Sample.delete_op Sample.tombstone true true Sample.deleting_db
              = Ok (tt, Sample.deleted_db)) by compute_run.
  split; [compute_run|]. split; [compute_run|].
  apply (proj1 (confirmed_delete_keeps_media _ _ _ _ _ _ _ _ H eq_refl) 1). eexists. compute_run.
Defined.

Lemma save_records_evidence_witness : issued_read Sample.issued_db "op-1" = Some Sample.op.
Proof.
  assert (H : save Sample.epoch Sample.op SyncDb.Sample.db = Ok (tt, Sample.issued_db)) by compute_run.
  apply (save_records_evidence _ _ _ _ H).
Defined.

Lemma retire_keeps_obligation_witness :
  exists db', retire_issued Sample.epoch Sample.op true "refused" Sample.issued_db = Ok (tt, db') /\
    db_entries db' = db_entries Sample.issued_db.
Proof.
  assert (H : retire_issued Sample.epoch Sample.op true "refused" Sample.issued_db
    = Ok (tt, (transact (retire_issued Sample.epoch Sample.op true "refused") Sample.issued_db).1)) by compute_run.
  eexists. split; [exact H|]. apply (retire_keeps_obligation _ _ _ _ _ _ H).
Defined.

Lemma absent_deletion_is_safe_witness :
  exists db', confirm_absent_deletion Sample.epoch 1 2 true Sample.cloud_db = Ok (tt, db') /\
    db_entries db' = delete 1 (db_entries Sample.cloud_db).
Proof.
  assert (H : confirm_absent_deletion Sample.epoch 1 2 true Sample.cloud_db
    = Ok (tt, (transact (confirm_absent_deletion Sample.epoch 1 2 true) Sample.cloud_db).1)) by compute_run.
  eexists. split; [exact H|]. apply (absent_deletion_is_safe _ _ _ _ _ _ H).
Defined.
End Runtime.
