(* ===== verification/SyncReceive.v ===== *)
(** Receive positions and received records ([sync/store/receive.rs]).

    The position of a job is a ladder of tokens: the pinned snapshot, where the
    delta stream resumes, the height of the newest projection, and the height
    the client has finished with. The last one moves only when nothing received
    is still owed. A page of records is stored with the token it advances, one
    record per entry and position, and its metadata is admitted at once.

    A job has one zone, set when it is created, so its progress row is found by
    the job alone. [file_uri] stands for [file_uri::from_path] (a [gio] call).
    Where a statement takes one of several rows without naming an order, the
    model takes the one with the least entry id. *)
From Stdlib Require Import Ascii String.
From stdpp Require Import pretty.
From S2P Require Import Prelude.
From S2P Require Import Json.
From S2P Require Import Media.
From S2P Require Import SyncDb.
From S2P Require Import NativeRecords.
From S2P Require Import TypedRecords.
From S2P Require Import SyncDirty.
From S2P Require Import SyncRuntime.
Import Json.
Local Open Scope Z_scope.
Local Open Scope json_scope.

Module Receive.
Import Records.

(** ** Progress *)
Record Namespace := mkNamespace { tenant : string; container : string; environment : string; database : string }.
#[export] Instance Namespace_eq_dec : EqDecision Namespace.
Proof. solve_decision. Defined.

(** [BootstrapState]. *)
Record BootstrapState := mkBootstrap { started : bool; types : gmap string TypeMarker }.
Definition no_bootstrap : BootstrapState := mkBootstrap false ∅.

Definition marker (b : BootstrapState) (record_type : string) : TypeMarker :=
  default (mkMarker false None 0) (types b !! record_type).
Definition is_complete (supported : list string) (b : BootstrapState) : bool :=
  started b && forallb (fun name => match types b !! name with Some m => tm_complete m | None => false end) supported.
Definition SUPPORTED_RECORD_TYPES : list string := [MASTER_RECORD_TYPE; ASSET_RECORD_TYPE].

(** [NativeProgress]: the row and its bootstrap markers. *)
Record NativeProgress := mkNative { row : Progress; bootstrap : BootstrapState }.

Definition namespace_of (g : Progress) : Namespace :=
  mkNamespace (g_tenant g) (g_container g) (g_environment g) (g_database g).
Definition matches (p : NativeProgress) (namespace : Namespace) (generation scope : string) : bool :=
  bool_decide (namespace_of (row p) = namespace) && bool_decide (g_generation (row p) = generation)
  && bool_decide (g_scope_digest (row p) = scope).
Definition needs_bootstrap (supported : list string) (p : NativeProgress) : bool :=
  bool_decide (g_snapshot (row p) = None) || negb (is_complete supported (bootstrap p)).
Definition can_apply (p : NativeProgress) (unresolved : nat) : bool :=
  bool_decide (is_Some (g_target (row p))) && negb (bool_decide (g_applied (row p) = g_target (row p)))
  && (unresolved =? 0)%nat && is_complete SUPPORTED_RECORD_TYPES (bootstrap p).

(** [read_bootstrap], [write_bootstrap] and [clear_bootstrap] ([store/state.rs]). *)
Definition read_bootstrap (db : Db) (job : Z) (started : bool) : BootstrapState :=
  mkBootstrap started (list_to_map (omap (fun km : Z * string * TypeMarker =>
    if km.1.1 =? job then Some (km.1.2, km.2) else None) (map_to_list (db_bootstrap db)))).
Definition clear_bootstrap (job : Z) (db : Db) : Db :=
  set_db_bootstrap (delete_where (fun k _ => k.1 =? job) (db_bootstrap db)) db.
Definition update_progress (job : Z) (f : Progress -> Progress) (db : Db) : Db :=
  set_db_progress (alter f job (db_progress db)) db.
Definition write_bootstrap (job : Z) (b : BootstrapState) (db : Db) : Db :=
  let db := clear_bootstrap job (update_progress job (set_g_bootstrap_started (started b)) db) in
  set_db_bootstrap (kmap (pair job) (types b) ∪ db_bootstrap db) db.

Definition read_progress (db : Db) (job : Z) : option NativeProgress :=
  g ← db_progress db !! job; Some (mkNative g (read_bootstrap db job (g_bootstrap_started g))).
Definition require_progress (job : Z) : Tx Db NativeProgress :=
  p ← gets (fun db => read_progress db job);
  need p (Backend "synchronization receive position does not exist yet").

(** ** Pending records ([store/records.rs]) *)
Definition pending (master : bool) (e : Entry) : option RecordRow :=
  if master then e_pending_master e else e_pending_asset e.
Definition put_pending (master : bool) (w : option RecordRow) (e : Entry) : Entry :=
  if master then set_e_pending_master w e else set_e_pending_asset w e.
Definition update_entry (id : Z) (f : Entry -> Entry) (db : Db) : Db :=
  set_db_entries (alter f id (db_entries db)) db.

(** [set_pending] of a record: the row is saved over the one at its position,
    then its photo column is fixed. *)
Definition set_pending (entry : Z) (master : bool) (record : NativeRecord) : Tx Db unit :=
  found ← gets (fun db => db_entries db !! entry);
  e ← need found NoRows;
  w ← lift (TypedRecords.save (pending master e) record);
  let photo := if master then match w_photo w with Some p => Some p | None => r_photo (e_remote e) end
               else Some (w_name w) in
  modify (update_entry entry (put_pending master (Some (set_w_photo photo w)))).
Definition clear_entry (e : Entry) : Entry := set_e_pending_master None (set_e_pending_asset None e).
Definition clear_pending (entry : Z) : Db -> Db := update_entry entry clear_entry.
Definition clear_job_pending (job : Z) (db : Db) : Db :=
  set_db_entries (update_where (fun _ e => e_job e =? job) clear_entry (db_entries db)) db.
(** [pending_document]: the record its columns read as. *)
Definition pending_document (db : Db) (entry : Z) (master : bool) : Tx Db (option NativeRecord) :=
  match e ← db_entries db !! entry; pending master e with
  | None => mret None
  | Some w => record ← need (TypedRecords.load_id w) (Backend "invalid column type"); mret (Some record)
  end.

(** ** What is still owed *)
Definition has_pending (e : Entry) : bool :=
  bool_decide (is_Some (e_pending_master e)) || bool_decide (is_Some (e_pending_asset e)).
Definition settled_resource (s : ResourceState) : bool := match s with RVerified | RRetained => true | _ => false end.
Definition settled_publication (s : PubState) : bool := match s with PComplete | PSuperseded => true | _ => false end.

Definition owed_resource (db : Db) (job : Z) (k : ResKey) (r : Resource) : bool :=
  (k.1.1.1 =? job) && bool_decide (g_generation <$> db_progress db !! job = Some k.1.1.2)
  && bool_decide (is_Some (s_record r)) && negb (settled_resource (s_state r)).
Definition owed_conflict (job : Z) (x : Conflict) : bool := (x_job x =? job) && bool_decide (x_state x = "open"%string).
Definition owed_publication (job : Z) (p : Publication) : bool :=
  (p_job p =? job) && negb (settled_publication (p_state p)).
Definition owed_fragment (job : Z) (e : Entry) : bool := (e_job e =? job) && has_pending e.

(** [unresolved_in_tx]. *)
Definition unresolved (db : Db) (job : Z) : nat :=
  count_where (owed_resource db job) (db_resources db)
  + count_where (fun _ => owed_conflict job) (db_conflicts db)
  + count_where (fun _ => owed_publication job) (db_publications db)
  + count_where (fun _ => owed_fragment job) (db_entries db).

(** ** Lookups by record *)
Definition entry_of_photo (db : Db) (job : Z) (photo : string) : option (Z * Entry) :=
  find_row (fun _ e => (e_job e =? job) && bool_decide (r_photo (e_remote e) = Some photo)) (db_entries db).
Definition entry_of_master (db : Db) (job : Z) (master : string) : option (Z * Entry) :=
  find_row (fun _ e => (e_job e =? job) && bool_decide (r_master (e_remote e) = Some master)) (db_entries db).
Definition is_named (name : string) (w : option RecordRow) : bool :=
  match w with Some w => bool_decide (w_name w = name) | None => false end.
Definition of_photo (photo : string) (w : option RecordRow) : bool :=
  match w with Some w => bool_decide (w_photo w = Some photo) | None => false end.
(** The pending rows of an entry, in position order. *)
Definition pending_rows (e : Entry) : list (option RecordRow) := [e_pending_master e; e_pending_asset e].
Definition entry_of_pending (P : option RecordRow -> bool) (db : Db) (job : Z) : option (Z * Entry) :=
  find_row (fun _ e => (e_job e =? job) && existsb P (pending_rows e)) (db_entries db).
Definition pending_row (P : option RecordRow -> bool) (db : Db) (job : Z) : option RecordRow :=
  ke ← entry_of_pending P db job; mjoin (List.find P (pending_rows ke.2)).

(** [record_revision_in]: a received revision before a confirmed one. *)
Definition record_revision_in (db : Db) (job : Z) (name : string) : option string :=
  match pending_row (is_named name) db job with
  | Some w => w_revision w
  | None =>
      match entry_of_photo db job name with
      | Some (_, e) => r_asset_revision (e_remote e)
      | None => ke ← entry_of_master db job name; r_master_revision (e_remote ke.2)
      end
  end.

(** [photo_id_for_record]. *)
Definition photo_id_for_record (db : Db) (job : Z) (name : string) : option string :=
  match pending_row (is_named name) db job ≫= w_photo with
  | Some photo => Some photo
  | None =>
      match entry_of_photo db job name with
      | Some (_, e) => r_photo (e_remote e)
      | None => ke ← entry_of_master db job name; r_photo (e_remote ke.2)
      end
  end.

(** ** Paths *)
(** [Path::join] and [Path::parent], for an absolute left part. *)
Fixpoint ends_with_slash (s : string) : bool :=
  match s with
  | EmptyString => false
  | String c EmptyString => bool_decide (c = "/"%char)
  | String _ rest => ends_with_slash rest
  end.
Definition path_join (root relative : string) : string :=
  if String.prefix "/" relative || bool_decide (root = ""%string) then relative
  else if ends_with_slash root then (root +:+ relative)%string else (root +:+ "/" +:+ relative)%string.
Definition path_parent (path : string) : option string :=
  match Runtime.drop_skippable (reverse (Media.split_slash path)) with
  | [] => None
  | _ :: rest =>
      match reverse (Runtime.drop_skippable rest) with
      | [] => Some (if String.prefix "/" path then "/"%string else ""%string)
      | up => Some (Runtime.join_slash up)
      end
  end.

(** [relative_path LIKE '.photoviewer-sync-pending/%']; [LIKE] ignores ASCII case. *)
Definition PLACEHOLDER : string := ".photoviewer-sync-pending/".
Definition is_placeholder (path : string) : bool := String.prefix PLACEHOLDER (Media.to_ascii_lowercase path).

Section Stage.
Context (file_uri : string -> string).

(** ** Admission of received metadata *)
Definition media_by_uri (db : Db) (uri : string) : option (Z * Media) :=
  find_row (fun _ m => bool_decide (m_uri m = uri)) (db_media db).
(** [fields[name]["value"]]. *)
Definition field (fields : Map) (name : string) : Value := default Null ((fun v => v.["value"]) <$> get fields name).
Definition favorite_of (v : Value) : bool := negb (default 0 (as_i64 v) =? 0).
(** Milliseconds to seconds ([div_euclid]). *)
Definition seconds (ms : Z) : Z := ms / 1000.

Definition set_path (id : Z) (path : string) (job : Z) (db : Db) : Db :=
  if exists_where (fun k e => (e_job e =? job) && bool_decide (e_path e = path) && negb (k =? id)) (db_entries db)
  then db else update_entry id (set_e_path path) db.

(** A pending metadata edit of a media row. *)
Definition metadata_edited (db : Db) (media : Z) : bool :=
  exists_where (fun _ e => bool_decide (e_media e = Some media) && Dirty.has_change Dirty.Metadata e) (db_entries db).

(** The rename of a cloud-only row that the entry is linked to: [false] when the
    admission stops there. *)
Definition admit_linked (job entry : Z) (relative path uri : string) : Tx Db bool :=
  found ← gets (fun db => e ← db_entries db !! entry; id ← e_media e; m ← db_media db !! id; Some (id, m));
  match found with
  | None => mret true
  | Some (media, m) =>
      if negb (m_location m =? 2) then mret false
      else if bool_decide (m_uri m = uri) then mret true
      else
        occupied ← gets (fun db => exists_where (fun k m => bool_decide (m_uri m = uri) && negb (k =? media)) (db_media db));
        if (occupied : bool) then mret false
        else
          folder ← need (path_parent path) (Constraint "NOT NULL media_items.folder_path");
          _ ← modify (fun db => set_db_media (alter (fun m => set_m_thumb_ready false
                (set_m_folder folder (set_m_path path (set_m_uri uri m)))) media (db_media db)) db);
          _ ← modify (set_path entry relative job);
          mret true
  end.
Definition admitted_media (root path uri : string) (favorite date : Value) : Media :=
  mkMedia uri path (default root (path_parent path)) (favorite_of favorite) (seconds <$> as_i64 date) None 2 false 0
    (default "image/jpeg"%string (Media.mime_from_extension path)) None None 0
    0 (Media.kind_value (default "image/jpeg"%string (Media.mime_from_extension path))) Media.MEDIA_SUBKIND_STANDARD "{}" 0 None "" None.
Definition admit_row (entry : Z) (root path uri : string) (favorite date : Value) : Tx Db unit :=
  known ← gets (fun db => media_by_uri db uri);
  _ ← match known with
      | Some _ => mret tt
      | None => modify (fun db => set_db_media (<[db_next_media db := admitted_media root path uri favorite date]> (db_media db))
                                   (set_db_next_media (db_next_media db + 1) db))
      end;
  _ ← modify (fun db => update_entry entry (fun e =>
        set_e_media (match e_media e with Some m => Some m | None => fst <$> media_by_uri db uri end) e) db);
  modify (fun db => set_db_media
    (update_where (fun k m => bool_decide (m_uri m = uri) && (m_location m =? 2) && negb (metadata_edited db k))
       (fun m => set_m_taken_at (seconds <$> as_i64 date) (set_m_favorite (favorite_of favorite) m)) (db_media db)) db).

(** [admit_asset_metadata]. *)
Definition admit_asset_metadata (job entry : Z) (record : NativeRecord) : Tx Db unit :=
  found ← gets (fun db => db_entries db !! entry);
  e ← need found NoRows;
  if e_dirty e =? 4 then mret tt
  else
    f ← need (fields record) (Backend "photo metadata has no fields");
    match as_str (field f "relativePath") with
    | None => mret tt
    | Some relative =>
        jr ← gets (fun db => db_jobs db !! job);
        j ← need jr NoRows;
        let path := path_join (j_root j) relative in
        let uri := file_uri path in
        go ← admit_linked job entry relative path uri;
        if (go : bool) then admit_row entry (j_root j) path uri (field f "isFavorite") (field f "assetDate") else mret tt
    end.

(** ** Staging one page *)
(** The entry a received record already belongs to. *)
Definition known_entry (db : Db) (job : Z) (name : string) : option (Z * Entry) :=
  match entry_of_photo db job name with
  | Some ke => Some ke
  | None => match entry_of_master db job name with
            | Some ke => Some ke
            | None => entry_of_pending (is_named name) db job
            end
  end.
Definition photo_entry (db : Db) (job : Z) (photo : string) : option Z :=
  match entry_of_photo db job photo with
  | Some ke => Some ke.1
  | None => fst <$> entry_of_pending (of_photo photo) db job
  end.
(** The entry at a path that has no other identity. *)
Definition entry_at_path (db : Db) (job : Z) (path : string) (photo : option string) : option Z :=
  fst <$> find_row (fun _ e => (e_job e =? job) && bool_decide (e_path e = path)
    && match r_photo (e_remote e) with None => true | Some p => bool_decide (photo = Some p) end) (db_entries db).

(** A record that names a path moves to the entry at that path. *)
Definition move_to_path (job : Z) (photo : option string) (path : string) (entry : option Z) : Tx Db (option Z) :=
  _ ← ensure (is_safe_relative_path path) (Backend "unsafe remote photo path");
  found ← gets (fun db => entry_at_path db job path photo);
  match found with
  | None => mret entry
  | Some local =>
      _ ← match entry with
          | Some old =>
              if old =? local then mret tt
              else
                here ← (fun db => pending_document db local true db);
                _ ← match here with
                    | Some _ => mret tt
                    | None => there ← (fun db => pending_document db old true db);
                              match there with Some record => set_pending local true record | None => mret tt end
                    end;
                modify (delete_entries (fun k e => (k =? old) && bool_decide (r_photo (e_remote e) = None)
                                                   && is_placeholder (e_path e)))
          | None => mret tt
          end;
      mret (Some local)
  end.

Definition stage_entry (job : Z) (name : string) (photo path : option string) (entry : option Z) : Tx Db Z :=
  match entry with
  | Some id => mret id
  | None =>
      let placeholder := (PLACEHOLDER +:+ default name photo)%string in
      let relative := default placeholder path in
      occupied ← gets (fun db => path_taken db job relative);
      insert_entry (new_entry job None (if (occupied : bool) then placeholder else relative) 0)
  end.

(** One event of [stage_records]: whether it was saved. *)
Definition stage_one (job : Z) (payload : Value) : Tx Db bool :=
  record ← need (record_from_value payload) TypedRecords.DECODE_ERROR;
  let asset := bool_decide (record_type record = Some ASSET_RECORD_TYPE) in
  let master := bool_decide (record_type record = Some MASTER_RECORD_TYPE) in
  existing ← gets (fun db => fst <$> known_entry db job (record_name record));
  let photo := if asset then Some (record_name record) else as_str payload.["fields"].["photoId"].["value"] in
  if negb asset && negb master && bool_decide (existing = None) then mret false
  else
    let path := as_str payload.["fields"].["relativePath"].["value"] in
    entry ← gets (fun db => match existing with Some id => Some id | None => p ← photo; photo_entry db job p end);
    entry ← match path with Some path => move_to_path job photo path entry | None => mret entry end;
    id ← stage_entry job (record_name record) photo path entry;
    _ ← modify (fun db => match path with
                          | Some path => if match db_entries db !! id with Some e => is_placeholder (e_path e) | None => false end
                                         then set_path id path job db else db
                          | None => db
                          end);
    found ← gets (fun db => db_entries db !! id);
    e ← need found NoRows;
    let is_asset := asset || is_tombstone record && bool_decide (r_photo (e_remote e) = Some (record_name record)) in
    _ ← set_pending id (negb is_asset) record;
    _ ← (if asset then admit_asset_metadata job id record else mret tt);
    mret true.

(** [stage_records]: the number of events saved. *)
Fixpoint stage_records (job : Z) (events : list Value) : Tx Db nat :=
  match events with
  | [] => mret 0%nat
  | payload :: rest =>
      saved ← stage_one job payload;
      n ← stage_records job rest;
      mret ((if (saved : bool) then 1 else 0) + n)%nat
  end.
End Stage.

(** ** Commands *)
(** The columns a changed namespace, generation or scope clears. *)
Definition forget_position (g : Progress) : Progress :=
  set_g_snapshot None (set_g_bootstrap_started false (set_g_discovery None (set_g_discovery_complete false
    (set_g_ingest None (set_g_applied None (set_g_target None g)))))).
Definition bind_position (namespace : Namespace) (generation scope : string) (g : Progress) : Progress :=
  set_g_tenant (tenant namespace) (set_g_container (container namespace) (set_g_environment (environment namespace)
    (set_g_database (database namespace) (set_g_generation generation (set_g_scope_digest scope g))))).
Definition new_progress (zone owner : string) (namespace : Namespace) (generation scope : string) : Progress :=
  mkProgress zone owner (tenant namespace) (container namespace) (environment namespace) (database namespace)
    generation scope None false None false None None None.

(** [NativeReceiveCommand::Begin]. *)
Definition begin (job : Z) (namespace : Namespace) (generation scope zone owner : string) : Tx Db NativeProgress :=
  existing ← gets (fun db => read_progress db job);
  let reset := match existing with Some p => negb (matches p namespace generation scope) | None => false end in
  _ ← (if reset then modify (fun db => clear_bootstrap job (clear_job_pending job (update_progress job forget_position db)))
       else mret tt);
  _ ← match existing with
      | Some _ => modify (update_progress job (bind_position namespace generation scope))
      | None =>
          known ← gets (fun db => bool_decide (is_Some (db_jobs db !! job)));
          _ ← ensure known (Constraint "FOREIGN KEY sync_native_progress.job_id");
          modify (fun db => set_db_progress
            (<[job := new_progress zone owner namespace generation scope]> (db_progress db)) db)
      end;
  written ← gets (fun db => read_progress db job);
  progress ← need written NoRows;
  mret (if reset
        then mkNative (set_g_snapshot None (set_g_ingest None (set_g_applied None (set_g_target None (row progress)))))
               no_bootstrap
        else progress).

(** [PinSnapshot]. *)
Definition pin_snapshot (job : Z) (snapshot zone_sync_token : string) : Tx Db unit :=
  progress ← require_progress job;
  _ ← ensure (match g_snapshot (row progress) with Some old => bool_decide (old = snapshot) | None => true end)
        (Backend "cannot replace an in-progress bootstrap snapshot");
  modify (update_progress job (fun g => set_g_snapshot (Some snapshot) (set_g_ingest (Some zone_sync_token) g))).

(** [SaveBootstrapPage], with [persist_bootstrap]. *)
Definition save_bootstrap_page (job : Z) (record_type : string) (continuation : option string) (record_count : Z)
  : Tx Db NativeProgress :=
  progress ← require_progress job;
  let bootstrap := mkBootstrap true
    (<[record_type := mkMarker (bool_decide (continuation = None)) continuation record_count]> (types (bootstrap progress))) in
  _ ← modify (write_bootstrap job bootstrap);
  _ ← modify (update_progress job (fun g =>
        set_g_snapshot (match g_snapshot g with Some t => Some t | None => g_snapshot (row progress) end) g));
  mret (mkNative (row progress) bootstrap).

(** [SaveDeltaPage]. *)
Definition save_delta_page (file_uri : string -> string) (job : Z) (events : list Value) (next_token : string) : Tx Db nat :=
  _ ← require_progress job;
  saved ← stage_records file_uri job events;
  _ ← modify (update_progress job (set_g_ingest (Some next_token)));
  mret saved.

(** [AdvanceApplied]. *)
Definition advance_applied (job : Z) : Tx Db unit :=
  n ← gets (fun db => unresolved db job);
  progress ← require_progress job;
  _ ← ensure (can_apply progress n)
        (Backend ("cannot advance applied position: " +:+ pretty (N.of_nat n) +:+ " unresolved items remain"));
  modify (update_progress job (fun g => set_g_applied (g_target g) g)).

(** [AdoptConfirmedHead]. *)
Definition issued_tasks (db : Db) (job : Z) : nat :=
  count_where (fun _ t => (t_job t =? job) && bool_decide (t_state t = "issued"%string)) (db_tasks db).
Definition adopt_confirmed_head (job : Z) (sync_token : string) : Tx Db unit :=
  n ← gets (fun db => unresolved db job);
  _ ← ensure (n =? 0)%nat
        (Backend ("cannot adopt a confirmed upload head: " +:+ pretty (N.of_nat n) +:+ " unresolved items remain"));
  issued ← gets (fun db => issued_tasks db job);
  _ ← ensure (issued =? 0)%nat (Backend "cannot adopt a confirmed upload head while issued operations remain");
  modify (update_progress job (fun g =>
    set_g_ingest (Some sync_token) (set_g_target (Some sync_token) (set_g_applied (Some sync_token) g)))).

(** [Reset]. *)
Definition reset (job : Z) : Tx Db unit :=
  modify (fun db => clear_bootstrap job (clear_job_pending job (update_progress job (fun g =>
    set_g_snapshot None (set_g_bootstrap_started false (set_g_ingest None (set_g_target None (set_g_applied None g))))) db))).

(** ** Receipt leaves local truth alone *)
(** The columns receipt never writes. *)
Record same_truth (e e' : Entry) : Prop := {
  st_job : e_job e' = e_job e;
  st_retired : e_retired e' = e_retired e;
  st_dirty : e_dirty e' = e_dirty e;
  st_local : e_local e' = e_local e;
  st_metadata : e_metadata e' = e_metadata e;
  st_content : e_content e' = e_content e;
  st_deletion : e_deletion e' = e_deletion e;
  st_digest : e_digest e' = e_digest e;
  st_remote : e_remote e' = e_remote e;
  st_baseline : e_baseline e' = e_baseline e;
  st_media : forall m, e_media e = Some m -> e_media e' = Some m
}.
#[export] Instance same_truth_preorder : PreOrder same_truth.
Proof.
  split; [intros e; by constructor|]. intros e1 e2 e3 [] []. constructor; [congruence..|auto].
Qed.

(** An entry with a local file, outside the names reserved for fragments. *)
Definition local_file (db : Db) (e : Entry) : Prop :=
  is_placeholder (e_path e) = false /\
  exists id m, e_media e = Some id /\ db_media db !! id = Some m /\ m_location m <> 2.
Definition owned (db : Db) (e : Entry) : Prop := is_Some (r_photo (e_remote e)) \/ local_file db e.

Definition media_ids_ok (db : Db) : Prop := forall id m, db_media db !! id = Some m -> id < db_next_media db.
Definition ids_ok (db : Db) : Prop := entry_ids_ok db /\ media_ids_ok db.

Record received (db db' : Db) : Prop := {
  rc_entries : forall k e, db_entries db !! k = Some e -> owned db e ->
    exists e', db_entries db' !! k = Some e' /\ same_truth e e' /\ (local_file db e -> e_path e' = e_path e);
  rc_media : forall k m, db_media db !! k = Some m ->
    exists m', db_media db' !! k = Some m' /\ m_location m' = m_location m /\ (m_location m <> 2 -> m' = m);
  rc_ids : ids_ok db'
}.
Definition receipt (db db' : Db) : Prop := ids_ok db -> received db db'.

Lemma local_file_received db db' e e' :
  received db db' -> same_truth e e' -> e_path e' = e_path e -> local_file db e -> local_file db' e'.
Proof.
  intros Hr Ht Hp (Hpl & id & m & Hid & Hm & Hloc). split; [by rewrite Hp|].
  destruct (rc_media _ _ Hr _ _ Hm) as (m' & Hm' & Hl & _). exists id, m'.
  split_and!; [by apply (st_media _ _ Ht)|done|congruence].
Qed.
#[export] Instance receipt_preorder : PreOrder receipt.
Proof.
  split.
  - intros db Hids. constructor; [|by eauto|done]. intros k e Hk _. exists e. by split_and!.
  - intros db1 db2 db3 H12 H23 Hids. specialize (H12 Hids). specialize (H23 (rc_ids _ _ H12)). constructor.
    + intros k e1 Hk Hown. destruct (rc_entries _ _ H12 k e1 Hk Hown) as (e2 & Hk2 & T12 & P12).
      assert (Hown2 : owned db2 e2).
      { destruct Hown as [Hp|Hl]; [left; by rewrite (st_remote _ _ T12)|right].
        by apply (local_file_received db1 _ e1); auto. }
      destruct (rc_entries _ _ H23 k e2 Hk2 Hown2) as (e3 & Hk3 & T23 & P23). exists e3.
      split_and!; [done|by trans e2|]. intros Hl. rewrite P23; [by apply P12|].
      by apply (local_file_received db1 _ e1); auto.
    + intros k m Hm. destruct (rc_media _ _ H12 _ _ Hm) as (m2 & Hm2 & L12 & E12).
      destruct (rc_media _ _ H23 _ _ Hm2) as (m3 & Hm3 & L23 & E23). exists m3. split_and!; [done|congruence|].
      intros Hloc. rewrite E23 by congruence. by apply E12.
    + apply H23.
Qed.

(** Statements. *)
Lemma receipt_frame db db' :
  db_entries db' = db_entries db -> db_media db' = db_media db ->
  db_next_entry db' = db_next_entry db -> db_next_media db' = db_next_media db -> receipt db db'.
Proof.
  intros He Hm Hne Hnm Hids. constructor; rewrite ?He, ?Hm.
  - intros k e Hk _. exists e. by split_and!.
  - intros k m Hk. by exists m.
  - unfold ids_ok, entry_ids_ok, media_ids_ok. by rewrite He, Hm, Hne, Hnm.
Qed.
(** Entries change in place, and media rows not at all. *)
Lemma receipt_entries db (f : Z -> Entry -> Entry) :
  (forall k e, db_entries db !! k = Some e -> same_truth e (f k e) /\
    (local_file db e -> e_path (f k e) = e_path e)) ->
  receipt db (set_db_entries (map_imap (fun k e => Some (f k e)) (db_entries db)) db).
Proof.
  intros Hf [[Hpos Hids] Hmids]. constructor; cbn [db_entries db_media set_db_entries].
  - intros k e Hk _. exists (f k e). rewrite map_lookup_imap, Hk. split; [done|by apply Hf].
  - intros k m Hm. by exists m.
  - split; [|done]. split; [done|]. intros k e. cbn. rewrite map_lookup_imap. destruct (db_entries db !! k) as [e0|] eqn:E; [|done].
    intros _. by apply (Hids k e0).
Qed.
Lemma receipt_update_entry db id f :
  (forall e, db_entries db !! id = Some e -> same_truth e (f e) /\ (local_file db e -> e_path (f e) = e_path e)) ->
  receipt db (update_entry id f db).
Proof.
  intros Hf. unfold update_entry.
  assert (alter f id (db_entries db) = map_imap (fun k e => Some (if k =? id then f e else e)) (db_entries db)) as ->.
  { apply map_eq. intros k. rewrite map_lookup_imap. destruct (decide (k = id)) as [->|Hne].
    - rewrite lookup_alter_eq. destruct (db_entries db !! id); cbn; by rewrite ?Z.eqb_refl.
    - rewrite lookup_alter_ne by done. apply Z.eqb_neq in Hne. by destruct (db_entries db !! k); cbn; rewrite ?Hne. }
  apply (receipt_entries db (fun k e => if k =? id then f e else e)). intros k e Hk.
  destruct (Z.eqb_spec k id) as [->|_]; [by apply Hf|]. by split.
Qed.
Lemma receipt_insert_entry db e :
  receipt db (set_db_entries (<[db_next_entry db := e]> (db_entries db)) (set_db_next_entry (db_next_entry db + 1) db)).
Proof.
  intros [[Hpos Hids] Hmids]. constructor; cbn [db_entries db_media set_db_entries set_db_next_entry].
  - intros k e0 Hk _. exists e0. rewrite lookup_insert_ne; [by split_and!|]. intros <-. apply Hids in Hk. lia.
  - intros k m Hm. by exists m.
  - split; [|done]. split; [cbn; lia|]. cbn. intros k e0 [[<- _]|[_ Hk]]%lookup_insert_Some; [lia|]. apply Hids in Hk. lia.
Qed.
Lemma receipt_delete_unowned P db :
  (forall k e, db_entries db !! k = Some e -> P k e = true -> ~ owned db e) -> receipt db (delete_entries P db).
Proof.
  intros HP [[Hpos Hids] Hmids]. unfold delete_entries.
  constructor; cbn [db_entries db_media db_next_entry set_db_entries set_db_conflicts set_db_tasks set_db_publications].
  - intros k e Hk Hown. exists e. split; [|done]. apply lookup_delete_where_Some. split; [done|].
    destruct (P k e) eqn:E; [by destruct (HP k e Hk E)|done].
  - intros k m Hm. by exists m.
  - split; [|done]. split; [done|]. cbn. intros k e [Hk _]%lookup_delete_where_Some. by apply (Hids k e).
Qed.
Lemma receipt_update_media db (P : Z -> Media -> bool) f :
  (forall k m, db_media db !! k = Some m -> P k m = true -> m_location m = 2 /\ m_location (f m) = 2) ->
  receipt db (set_db_media (update_where P f (db_media db)) db).
Proof.
  intros Hf [[Hpos Hids] Hmids]. constructor; cbn [db_entries db_media set_db_media].
  - intros k e Hk _. exists e. by split_and!.
  - intros k m Hm. rewrite lookup_update_where, Hm. eexists. split; [done|]. destruct (P k m) eqn:E; [|done].
    destruct (Hf k m Hm E) as [H1 H2]. by rewrite H1, H2.
  - split; [done|]. intros k m. cbn. rewrite lookup_update_where. destruct (db_media db !! k) as [m0|] eqn:E; [|done].
    intros _. by apply (Hmids k m0).
Qed.
Lemma receipt_insert_media db m :
  receipt db (set_db_media (<[db_next_media db := m]> (db_media db)) (set_db_next_media (db_next_media db + 1) db)).
Proof.
  intros [[Hpos Hids] Hmids]. constructor; cbn [db_entries db_media set_db_media set_db_next_media].
  - intros k e Hk _. exists e. by split_and!.
  - intros k m0 Hm. exists m0. rewrite lookup_insert_ne; [done|]. intros <-. apply Hmids in Hm. lia.
  - split; [done|]. intros k m0. cbn. intros [[<- _]|[_ Hk]]%lookup_insert_Some; [lia|]. apply Hmids in Hk. lia.
Qed.

(** Computations that only respect. *)
Notation receiving := (respects receipt).
Lemma respects_pending_document (R : relation Db) `{!PreOrder R} entry master :
  respects R (fun db => pending_document db entry master db).
Proof.
  intros db a db'. unfold pending_document. destruct (_ ≫= _) as [w|]; intros H; tx_inv H; done.
Qed.
#[export] Hint Resolve respects_pending_document : respects.

Lemma receiving_set_pending entry master record : receiving (set_pending entry master record).
Proof.
  unfold set_pending. respect. apply respects_modify. intros db. apply receipt_update_entry. intros e _.
  by destruct master.
Qed.
Lemma receiving_insert_entry e : receiving (insert_entry e).
Proof. intros db id db' H. unfold insert_entry in H. tx_inv H. subst. apply receipt_insert_entry. Qed.
#[export] Hint Resolve receiving_set_pending receiving_insert_entry : respects.
Lemma receiving_move_to_path job photo path entry : receiving (move_to_path job photo path entry).
Proof.
  unfold move_to_path. respect. apply respects_modify. intros db. apply receipt_delete_unowned.
  intros k e Hk HP. repeat (apply andb_prop in HP as [HP ?]). intros [[p Hp]|[Hpl _]].
  - match goal with H : bool_decide (_ = None) = true |- _ => apply bool_decide_eq_true in H end. congruence.
  - congruence.
Qed.
Lemma receiving_stage_entry job name photo path entry : receiving (stage_entry job name photo path entry).
Proof. unfold stage_entry. respect. Qed.
#[export] Hint Resolve receiving_move_to_path receiving_stage_entry : respects.

(** A path is set on an entry that has no local file. *)
Lemma receipt_set_path db id path job :
  (forall e, db_entries db !! id = Some e -> ~ local_file db e) -> receipt db (set_path id path job db).
Proof.
  intros Hn. unfold set_path. destruct (exists_where _ _); [done|]. apply receipt_update_entry.
  intros e He. split; [by constructor|]. intros Hl. by destruct (Hn e He).
Qed.
Lemma alter_update_where {Row} (f : Row -> Row) id (t : gmap Z Row) :
  alter f id t = update_where (fun k _ => k =? id) f t.
Proof.
  apply map_eq. intros k. rewrite lookup_update_where. destruct (decide (k = id)) as [->|Hne].
  - rewrite lookup_alter_eq. by destruct (t !! id); cbn; rewrite ?Z.eqb_refl.
  - rewrite lookup_alter_ne by done. apply Z.eqb_neq in Hne. by destruct (t !! k); cbn; rewrite ?Hne.
Qed.

Section Receiving.
Context (file_uri : string -> string).

Lemma receiving_admit_linked job entry relative path uri : receiving (admit_linked job entry relative path uri).
Proof.
  intros db b db' H. unfold admit_linked in H. tx_inv H.
  destruct (db_entries db !! entry ≫= _) as [[id m]|] eqn:Hf; [|by tx_inv H].
  destruct (db_entries db !! entry) as [e|] eqn:He; [|done]. cbn in Hf.
  destruct (e_media e) as [id'|] eqn:Hid; [|done]. cbn in Hf. destruct (db_media db !! id') as [m'|] eqn:Hm; [|done].
  injection Hf as -> ->. destruct (Z.eqb_spec (m_location m) 2) as [Hloc|]; cbn [negb] in H; [|by tx_inv H].
  destruct (bool_decide (m_uri m = uri)); [by tx_inv H|]. tx_inv H.
  destruct (exists_where _ _); [by tx_inv H|]. tx_inv H.
  etrans; [|apply receipt_set_path]; rewrite alter_update_where.
  - apply receipt_update_media. intros k m0 Hk ->%Z.eqb_eq. rewrite Hm in Hk. by injection Hk as <-.
  - cbn [db_entries set_db_media]. intros e0. rewrite He. intros [= <-] (_ & k & m0 & Hk & Hm0 & Hl).
    rewrite Hid in Hk. injection Hk as <-. cbn [db_media set_db_media] in Hm0.
    rewrite lookup_update_where, Hm in Hm0. cbn in Hm0. rewrite Z.eqb_refl in Hm0. by injection Hm0 as <-.
Qed.
Lemma receiving_admit_row entry root path uri favorite date : receiving (admit_row entry root path uri favorite date).
Proof.
  unfold admit_row. respect.
  - apply respects_modify. intros db. apply receipt_insert_media.
  - apply respects_modify. intros db. apply receipt_update_entry. intros e _. split; [|done].
    constructor; try done. cbn. by intros m ->.
  - apply respects_modify. intros db. apply receipt_update_media. intros k m _ Hb.
    apply andb_prop in Hb as [[_ Hl%Z.eqb_eq]%andb_prop _]. done.
Qed.
Hint Resolve receiving_admit_linked receiving_admit_row : respects.
Lemma receiving_admit job entry record : receiving (admit_asset_metadata file_uri job entry record).
Proof. unfold admit_asset_metadata. respect. Qed.
Hint Resolve receiving_admit : respects.

Lemma receiving_stage_one job payload : receiving (stage_one file_uri job payload).
Proof.
  unfold stage_one. respect; apply respects_modify; intros db; destruct (as_str _) as [path|]; try done.
  all: destruct (db_entries db !! _) as [e|] eqn:He; [|done]; destruct (is_placeholder (e_path e)) eqn:Hp; [|done].
  all: apply receipt_set_path; intros e0 He0 [Hpl _]; congruence.
Qed.
Lemma receiving_stage_records job events : receiving (stage_records file_uri job events).
Proof. induction events; simpl; respect; apply receiving_stage_one. Qed.

End Receiving.

(** ** Bootstrap markers *)
Lemma lookup_read_bootstrap db job b t : types (read_bootstrap db job b) !! t = db_bootstrap db !! (job, t).
Proof.
  unfold read_bootstrap. cbn [types].
  set (f := fun km : Z * string * TypeMarker => if km.1.1 =? job then Some (km.1.2, km.2) else None).
  assert (Hf : forall t m, (t, m) ∈ omap f (map_to_list (db_bootstrap db)) <-> db_bootstrap db !! (job, t) = Some m).
  { intros t' m. rewrite list_elem_of_omap. split.
    - intros ([[j t0] m0] & Hin%elem_of_map_to_list & Hs). unfold f in Hs. cbn in Hs.
      destruct (Z.eqb_spec j job) as [->|]; [|done]. by injection Hs as -> ->.
    - intros Hk. exists (job, t', m). rewrite elem_of_map_to_list. split; [done|]. unfold f. cbn. by rewrite Z.eqb_refl. }
  destruct (db_bootstrap db !! (job, t)) as [m|] eqn:E.
  - apply elem_of_list_to_map_1'; [|by apply Hf]. intros m' Hm'%Hf. congruence.
  - apply not_elem_of_list_to_map_1. intros ((t' & m) & -> & Hin)%list_elem_of_fmap. apply Hf in Hin. cbn in *. congruence.
Qed.
Lemma lookup_write_bootstrap db job b j t :
  db_bootstrap (write_bootstrap job b db) !! (j, t) = if j =? job then types b !! t else db_bootstrap db !! (j, t).
Proof.
  unfold write_bootstrap, clear_bootstrap. cbn [db_bootstrap set_db_bootstrap update_progress set_db_progress].
  rewrite lookup_union, lookup_delete_where. cbn [fst]. destruct (Z.eqb_spec j job) as [->|Hne].
  - rewrite lookup_kmap by apply _. destruct (types b !! t), (db_bootstrap db !! (job, t)); done.
  - assert (kmap (M2 := gmap (Z * string)) (pair job) (types b) !! (j, t) = None) as ->.
    { apply lookup_kmap_None; [apply _|]. intros i [= ? ?]. done. }
    rewrite (left_id_L _ _). by destruct (db_bootstrap db !! (j, t)).
Qed.
Lemma read_write_bootstrap db job b st : types (read_bootstrap (write_bootstrap job b db) job st) = types b.
Proof. apply map_eq. intros t. by rewrite lookup_read_bootstrap, lookup_write_bootstrap, Z.eqb_refl. Qed.

(** One type or one page is never a complete inventory. Saving a page stores
    exactly that type's marker, complete only when the page has no continuation;
    afterwards the job needs no bootstrap exactly when its snapshot is pinned
    and every supported type (this one as just stored) is complete. *)
Theorem bootstrap_page_correct job record_type continuation count db p db' :
  save_bootstrap_page job record_type continuation count db = Ok (p, db') ->
  exists q, read_progress db' job = Some q /\ bootstrap q = bootstrap p /\
    types (bootstrap q) !! record_type = Some (mkMarker (bool_decide (continuation = None)) continuation count) /\
    (forall t, t <> record_type -> types (bootstrap q) !! t = db_bootstrap db !! (job, t)) /\
    (forall j t, j <> job -> db_bootstrap db' !! (j, t) = db_bootstrap db !! (j, t)) /\
    (needs_bootstrap SUPPORTED_RECORD_TYPES q = false <->
       is_Some (g_snapshot (row p)) /\
       Forall (fun t => exists m, types (bootstrap q) !! t = Some m /\ tm_complete m = true) SUPPORTED_RECORD_TYPES).
Proof.
  unfold save_bootstrap_page, require_progress. intros H. tx_inv H. subst.
  match goal with H : read_progress db job = Some ?q |- _ => rename q into p0, H into Hp end.
  unfold read_progress in Hp. destruct (db_progress db !! job) as [g|] eqn:Hg; [|done]. injection Hp as <-.
  cbn [row bootstrap]. set (b := mkBootstrap true _).
  assert (Hrow : exists g', db_progress (update_progress job (fun g0 =>
      set_g_snapshot (match g_snapshot g0 with Some t => Some t | None => g_snapshot g end) g0)
      (write_bootstrap job b db)) !! job = Some g' /\ g_bootstrap_started g' = true /\ g_snapshot g' = g_snapshot g).
  { unfold update_progress at 1, write_bootstrap, clear_bootstrap, update_progress.
    cbn [db_progress set_db_progress set_db_bootstrap]. rewrite !lookup_alter_eq, Hg. eexists. split; [done|].
    split; [done|]. cbn. by destruct (g_snapshot g). }
  destruct Hrow as (g' & Hg' & Hst & Hsn). unfold read_progress at 1. rewrite Hg'. eexists. split; [done|].
  cbn [bootstrap]. rewrite Hst.
  set (db1 := update_progress job _ _).
  assert (Hb : read_bootstrap db1 job true = b).
  { assert (types (read_bootstrap db1 job true) = types b) as Ht by apply read_write_bootstrap.
    unfold read_bootstrap in *. by f_equal. }
  rewrite Hb. split_and!.
  - done.
  - cbn. by rewrite lookup_insert_eq.
  - intros t Ht. cbn [types b]. rewrite lookup_insert_ne by done. by rewrite lookup_read_bootstrap.
  - intros j t Hj. unfold db1, update_progress. cbn [db_bootstrap set_db_progress]. rewrite lookup_write_bootstrap.
    by rewrite (proj2 (Z.eqb_neq _ _) Hj).
  - unfold needs_bootstrap, is_complete. cbn [row bootstrap]. rewrite Hsn. cbn [started b andb].
    rewrite orb_false_iff, bool_decide_eq_false, <- not_eq_None_Some, negb_false_iff, forallb_forall, Forall_forall.
    apply and_iff_compat_l. split; intros Hall t Hin; specialize (Hall t).
    + apply list_elem_of_In in Hin. specialize (Hall Hin). destruct (types b !! t) as [m|]; [by exists m|done].
    + apply list_elem_of_In in Hin. destruct (Hall Hin) as (m & -> & Hm). done.
Qed.

(** ** Examples *)
Module Sample.
Import SyncDb.Sample.
Definition page : Tx Db nat := save_delta_page (fun p => "file://" +:+ p)%string 1 [record_to_value Records.Sample.asset] "t2".
Definition after : Db := (transact page db).1.
Definition listing : Tx Db NativeProgress := save_bootstrap_page 1 ASSET_RECORD_TYPE None 2.
Definition listed : Db := (transact listing db).1.
End Sample.
Lemma sample_ids : ids_ok SyncDb.Sample.db.
Proof.
  split; [split; [done|]|].
  - intros id e [-> ->]%SyncDb.Sample.entries_are. done.
  - intros id m. cbn. intros [<- _]%lookup_singleton_Some. done.
Qed.
Lemma bootstrap_page_witness :
  exists q, read_progress Sample.listed 1 = Some q /\ needs_bootstrap SUPPORTED_RECORD_TYPES q = true.
Proof.
  assert (H : exists p, Sample.listing SyncDb.Sample.db = Ok (p, Sample.listed)) by (eexists; vm_compute; reflexivity).
  destruct H as [p H]. destruct (bootstrap_page_correct _ _ _ _ _ _ _ H) as (q & Hq & _ & _ & Hother & _ & Hneeds).
  exists q. split; [exact Hq|]. destruct (needs_bootstrap SUPPORTED_RECORD_TYPES q); [reflexivity|].
  destruct (proj1 Hneeds eq_refl) as [_ Hall]. apply Forall_cons in Hall as [(m & Hm & _) _].
  rewrite Hother in Hm by discriminate. vm_compute in Hm. discriminate.
Defined.
End Receive.
