(* ===== verification/SyncProjection.v ===== *)
(** Projection of the cloud onto the library ([project_publication], [adoption]
    and the publication commands of [sync/store/runtime.rs], [promote] of
    [sync/store/receive.rs]).

    A complete received photo is weighed against what the user did: per
    category the latest edit event wins, a pending deletion stays, a file never
    published is adopted only when its bytes are the cloud's. What the cloud
    wins becomes a publication whose captured versions are checked again before
    its files are placed.

    [photo_digest] stands for the hexadecimal SHA-256 of the photo's JSON, used
    to name a publication. *)
From Stdlib Require Import Ascii String.
From stdpp Require Import pretty.
From S2P Require Import Prelude.
From S2P Require Import Json.
From S2P Require Import Media.
From S2P Require Import Content.
From S2P Require Import SyncDb.
From S2P Require Import NativeRecords.
From S2P Require Import TypedRecords.
From S2P Require Import SyncDirty.
From S2P Require Import SyncPublication.
From S2P Require Import SyncRecovery.
From S2P Require Import SyncRuntime.
From S2P Require Import SyncReceive.
Import Json.
Local Open Scope Z_scope.
Local Open Scope json_scope.

Module Projection.
Import Records Receive Dirty.

(** ** Checking a publication against the present *)
(** The newest live publication of an entry with a captured photo. *)
Definition latest_publication (P : Publication -> bool) (db : Db) : option (Z * Publication) :=
  last (base.filter (fun kp : Z * Publication => P kp.2 = true) (rows_by_id (db_publications db))).
Definition live_pub (p : Publication) : bool := bool_decide (p_state p = PPending) || bool_decide (p_state p = PPublishing).
Definition captured_photo (p : Publication) : bool := bool_decide (is_Some (p_projection p)) && live_pub p.

(** [capture["projection"].as_str()]. *)
Definition projection_of (doc : option Recovery.CaptureDoc) : option RemotePhoto :=
  d ← doc; mjoin (Recovery.cap_projection d).

(** The entry, job and versions a capture names are the present ones. *)
Definition capture_current (db : Db) (capture : Value) (job entry : Z) : bool :=
  match db_entries db !! entry, db_jobs db !! job with
  | Some e, Some j =>
      (e_job e =? job) && bool_decide (as_i64 capture.["local"] = Some (e_local e))
      && bool_decide (as_i64 capture.["config"] = Some (j_config j))
      && (e_dirty e =? default 0 (as_i64 capture.["dirty"])) && bool_decide (db_changes db !! job = None)
  | _, _ => false
  end.
(** [check_publication]. *)
Definition SUPERSEDED_LOCALLY : AppError := Backend "local edit/configuration superseded the publication".
Definition check_publication (capture : Recovery.CaptureDoc) : Tx Db unit :=
  job ← need (as_i64 (Recovery.cap_scalars capture).["job"]) (Backend "missing captured job");
  entry ← need (as_i64 (Recovery.cap_scalars capture).["entry"]) (Backend "missing captured entry");
  valid ← gets (fun db => capture_current db (Recovery.cap_scalars capture) job entry);
  _ ← ensure valid SUPERSEDED_LOCALLY;
  current ← gets (fun db => kp ← latest_publication (fun p => bool_decide (p_entry p = Some entry) && captured_photo p) db;
                            projection_of (Recovery.capture db (p_id kp.2)));
  ensure (bool_decide (Recovery.cap_projection capture = None)
          || bool_decide (current = projection_of (Some capture)))
    (Backend "a later received version superseded the publication").

(** ** Weighing edits *)
Inductive ProjectedContent := Remote | Local.
Inductive Adoption := Bound | Deferred | MissingLocal | Divergent.

(** [local_event_wins]. *)
Definition local_event_wins (local remote : option EditEvent) : bool :=
  bool_decide (local = None) && bool_decide (remote = None) || bool_decide (latest_event local remote = local).
(** [entry_events]. *)
Definition entry_events (e : Entry) : EditEvents :=
  mkEvents (event (e_metadata e)) (event (e_content e)) (event (e_deletion e)).

Definition supersede_pending (entry : Z) (db : Db) : Db :=
  set_db_publications (update_where (fun _ p => bool_decide (p_entry p = Some entry) && bool_decide (p_state p = PPending))
    (set_p_state PSuperseded) (db_publications db)) db.
Definition update_media (db : Db) (id : option Z) (P : Media -> bool) (f : Media -> Media) : Db :=
  set_db_media (update_where (fun k m => bool_decide (id = Some k) && P m) f (db_media db)) db.
Definition linked_media (db : Db) (entry : Z) : option Z := e ← db_entries db !! entry; e_media e.
Definition generation_of (db : Db) (job : Z) : option string := g_generation <$> db_progress db !! job.

(** What [project_publication] reads of the entry it settles. *)
Record Located := mkLocated {
  l_entry : Z; l_local : Z; l_dirty : Z; l_baseline : option RemotePhoto; l_identity : option string; l_path : string }.
Definition located (ke : Z * Entry) : Located :=
  mkLocated ke.1 (e_local ke.2) (e_dirty ke.2) (e_baseline ke.2) (r_photo (e_remote ke.2)) (e_path ke.2).
(** A received pair filed elsewhere moves to the new entry. *)
Definition move_fragments (job created : Z) (photo : string) : Tx Db unit :=
  old ← gets (fun db => find_row (fun k e => (e_job e =? job) && existsb (of_photo photo) (pending_rows e)
                                             && negb (k =? created)) (db_entries db));
  match old with
  | None => mret tt
  | Some (old, _) =>
      _ ← for_each [true; false] (fun master =>
            raw ← (fun db => pending_document db old master db);
            match raw with Some record => set_pending created master record | None => mret tt end);
      modify (clear_pending old)
  end.
Definition entry_by_path (db : Db) (job : Z) (path : string) : option (Z * Entry) :=
  find_row (fun _ e => (e_job e =? job) && bool_decide (e_path e = path)) (db_entries db).
Definition locate (job : Z) (photo : RemotePhoto) : Tx Db Located :=
  found ← gets (fun db => match entry_of_photo db job (photo_id photo) with
                          | Some ke => Some ke
                          | None => entry_by_path db job (relative_path photo)
                          end);
  match found with
  | Some ke => mret (located ke)
  | None =>
      created ← insert_entry (set_e_remote (mkRemote (Some (photo_id photo)) (Some (master_id photo)) None None None None)
                  (new_entry job None (relative_path photo) 0));
      _ ← move_fragments job created (photo_id photo);
      mret (mkLocated created 0 0 None (Some (photo_id photo)) (relative_path photo))
  end.

(** A confirmed association repairs a media row left at the local default. *)
Definition repair_location (job entry : Z) (photo : string) (db : Db) : Db :=
  let confirmed := match db_entries db !! entry with
    | Some e => bool_decide (r_photo (e_remote e) = Some photo) && negb (e_retired e)
        && match r_confirmed (e_remote e), generation_of db (e_job e) with
           | Some g, Some g' => bool_decide (g = g') | _, _ => false end
        && job_enabled db (e_job e)
    | None => false end in
  if confirmed then update_media db (linked_media db entry) (fun m => m_location m =? 1) (set_m_location 3) else db.

(** ** Adoption *)
(** A live media row at the entry's path with a local original. *)
Definition file_of (db : Db) (entry : Z) (P : Media -> bool) : option Z :=
  e ← db_entries db !! entry;
  j ← db_jobs db !! e_job e;
  fst <$> find_row (fun _ m => bool_decide (m_path m = (rtrim_slash (j_root j) +:+ "/" +:+ e_path e)%string)
                               && bool_decide (m_trashed_at m = None) && P m) (db_media db).
Definition ADOPTED_REASONS : list string :=
  ["another local/cloud identity owns this path"; "cloud content at this path differs from the local file"]%string.

Definition adopted_entry (media : Z) (photo : RemotePhoto) (asset_revision master_revision generation : string)
    (keep_metadata : bool) (observation : LocalDigest) (e : Entry) : Entry :=
  set_e_digest (Some observation)
    (set_e_baseline (Some photo)
      (set_e_media (Some media)
        (set_e_remote (mkRemote (Some (photo_id photo)) (Some (master_id photo)) (Some asset_revision)
                         (Some master_revision) (Some generation) (Some (content_generation photo)))
          (set_e_dirty (if keep_metadata then MODIFIED else CLEAN)
            (set_e_retired false
              (set_e_content (set_acked (Z.max (acked (e_content e)) (version (e_content e))) (e_content e))
                (set_e_metadata (if keep_metadata then e_metadata e
                                 else set_acked (Z.max (acked (e_metadata e)) (version (e_metadata e))) (e_metadata e)) e))))))).

Definition adopt (job entry media : Z) (photo : RemotePhoto) (asset_revision master_revision : string)
    (observation : LocalDigest) : Tx Db unit :=
  found ← gets (fun db => db_entries db !! entry);
  e ← need found NoRows;
  let keep_metadata := has_change Metadata e in
  g ← gets (fun db => generation_of db job);
  generation ← need g NoRows;
  _ ← modify (fun db => if keep_metadata then db
        else update_media db (Some media) (fun _ => true)
               (fun m => set_m_taken_at (seconds <$> asset_date_ms photo) (set_m_favorite (is_favorite photo) m)));
  _ ← modify (fun db => update_media db (Some media) (fun _ => true) (set_m_location 3));
  _ ← modify (update_entry entry (adopted_entry media photo asset_revision master_revision generation keep_metadata observation));
  _ ← Runtime.resolve_conflicts entry "same local and cloud bytes" ADOPTED_REASONS;
  modify (fun db => set_db_publications (delete_where (fun _ p =>
    bool_decide (p_entry p = Some entry) && negb (bool_decide (p_state p = PPublishing))) (db_publications db)) db).

Definition same_bytes (photo : RemotePhoto) (observation : LocalDigest) : bool :=
  bool_decide (Content.hex_from_descriptor_base64 (file_checksum (original photo)) = Some (d_sha256 observation))
  && (d_size observation =? a_size (original photo)).

(** [adoption]. *)
Definition adoption (job entry : Z) (photo : RemotePhoto) (dirty : Z) (digests : gmap string LocalDigest) : Tx Db Adoption :=
  busy ← gets (fun db => Runtime.busy db entry);
  if (busy : bool) then mret Deferred
  else if is_hidden photo || dirty_contains dirty DELETE then mret Divergent
  else
    file ← gets (fun db => file_of db entry (fun m => negb (m_location m =? 2)));
    match file, digests !! relative_path photo with
    | None, _ => mret MissingLocal
    | Some _, None => mret Divergent
    | Some media, Some observation =>
        found ← gets (fun db => db_entries db !! entry);
        e ← need found NoRows;
        if negb (d_entry observation =? entry) || negb (d_version observation =? e_local e) then mret Deferred
        else
          _ ← modify (update_entry entry (set_e_digest (Some observation)));
          if negb (same_bytes photo observation) then mret Divergent
          else
            revisions ← gets (fun db => a ← record_revision_in db job (photo_id photo);
                                        m ← record_revision_in db job (master_id photo); Some (a, m));
            match revisions with
            | None => mret Deferred
            | Some (asset_revision, master_revision) =>
                _ ← adopt job entry media photo asset_revision master_revision observation; mret Bound
            end
    end.

(** ** Projection *)
Definition same_metadata (old photo : RemotePhoto) : bool :=
  bool_decide (is_favorite old = is_favorite photo) && bool_decide (asset_date_ms old = asset_date_ms photo)
  && bool_decide (relative_path old = relative_path photo)
  && bool_decide (ev_metadata (events old) = ev_metadata (events photo)).
Definition same_content (old photo : RemotePhoto) : bool :=
  bool_decide (content_generation old = content_generation photo) && bool_decide (original old = original photo)
  && bool_decide (thumbnail old = thumbnail photo)
  && bool_decide (ev_content (events old) = ev_content (events photo)).
Definition holds {A} (P : A -> bool) (o : option A) : bool := match o with Some a => P a | None => false end.

(** What is kept of the local side. *)
Record Decision := mkDecision { preserve_metadata : bool; keep_delete : bool; keep_content : bool }.
Definition decide_edits (l : Located) (photo : RemotePhoto) (missing_local : bool) (e : Entry) : Decision :=
  let preserve := negb missing_local && has_change Metadata e
    && (holds (fun old => same_metadata old photo) (l_baseline l)
        || local_event_wins (ev_metadata (entry_events e)) (ev_metadata (events photo))) in
  let delete := dirty_contains (l_dirty l) DELETE in
  let content := negb missing_local
    && (delete || (has_change Content e || dirty_contains (l_dirty l) NEW)
          && (holds (fun old => same_content old photo) (l_baseline l)
              || local_event_wins (ev_content (entry_events e)) (ev_content (events photo)))) in
  mkDecision preserve delete content.
Definition settled (d : Decision) : Z :=
  if keep_delete d then DELETE else if preserve_metadata d || keep_content d then MODIFIED else CLEAN.

Definition settle_track (keep : bool) (t : Track) : Track := if keep then t else set_acked (version t) t.
Definition settle_entry (photo : RemotePhoto) (d : Decision) (asset_revision master_revision : option string) (e : Entry) : Entry :=
  let r := e_remote e in
  set_e_remote (mkRemote (Some (photo_id photo)) (Some (master_id photo)) (Runtime.or_else asset_revision (r_asset_revision r))
                  (Runtime.or_else master_revision (r_master_revision r)) (r_confirmed r) (r_content r))
    (set_e_dirty (settled d)
      (set_e_metadata (settle_track (preserve_metadata d) (e_metadata e))
        (set_e_content (settle_track (keep_content d) (e_content e))
          (set_e_deletion (settle_track (keep_delete d) (e_deletion e)) e)))).

Definition EDIT_REASONS : list string :=
  ["remote change intersects an unconfirmed local edit; preserve both versions";
   "cloud content at this path differs from the local file"]%string.

(** The cloud's version needs no placement: it becomes the baseline. *)
Definition settle_in_place (job : Z) (l : Located) (photo : RemotePhoto) (d : Decision) : Tx Db ProjectedContent :=
  _ ← modify (fun db => if preserve_metadata d then db
        else update_media db (linked_media db (l_entry l)) (fun _ => true)
               (fun m => set_m_taken_at (seconds <$> asset_date_ms photo) (set_m_favorite (is_favorite photo) m)));
  _ ← modify (fun db => update_entry (l_entry l) (fun e => set_e_baseline (Some photo)
        (set_e_remote (set_r_confirmed (generation_of db job) (set_r_content (Some (content_generation photo)) (e_remote e))) e)) db);
  _ ← modify (supersede_pending (l_entry l));
  mret (if keep_content d then Local else Remote).

Section Project.
Context (photo_digest : RemotePhoto -> string).

Definition publication_id (job : Z) (photo : RemotePhoto) : string :=
  "publication-" +:+ pretty job +:+ "-" +:+ photo_id photo +:+ "-" +:+ photo_digest photo.
Definition opt_int (o : option Z) : Value := match o with Some n => Int n | None => Null end.
Definition capture_document (job : Z) (l : Located) (config : Z) (photo : RemotePhoto) (d : Decision) (path : string)
    (favorite : option bool) (taken_at : option Z) : Recovery.CaptureDoc :=
  Recovery.mkCaptureDoc
    (obj [("job", Int job); ("entry", Int (l_entry l)); ("local", Int (l_local l)); ("config", Int config);
          ("dirty", Int (settled d)); ("contentGeneration", Str (content_generation photo));
          ("preserveMetadata", Bool (preserve_metadata d)); ("localRelativePath", Str path);
          ("favorite", opt_int (Z.b2z <$> favorite)); ("takenAt", opt_int taken_at)]%string)
    (Some (Some photo)).

(** A publication of the cloud's version is captured at the present versions. *)
Definition place (job : Z) (l : Located) (photo : RemotePhoto) (d : Decision) : Tx Db ProjectedContent :=
  jr ← gets (fun db => db_jobs db !! job);
  j ← need jr NoRows;
  let id := publication_id job photo in
  _ ← modify (fun db => set_db_publications (update_where (fun _ p =>
        (p_job p =? job) && bool_decide (p_photo p = Some (photo_id photo)) && negb (bool_decide (p_id p = id))
        && bool_decide (p_state p = PPending)) (set_p_state PSuperseded) (db_publications db)) db);
  found ← gets (fun db => db_entries db !! l_entry l);
  e ← need found NoRows;
  media ← gets (fun db => e_media e ≫= fun id => db_media db !! id);
  existing ← gets (fun db => exists_where (Publications.pub_by_id id) (db_publications db));
  _ ← (if (existing : bool) then Recovery.update_pub id (fun p => set_p_state (Publications.reopen (p_state p)) p)
       else modify (fun db => set_db_publications
         (<[db_next_publication db := mkPub id job (Some (l_entry l)) (Some (photo_id photo)) (Some (master_id photo))
              (Some (asset_id (original photo))) (Some (asset_id (thumbnail photo))) PPending None None None None]>
            (db_publications db)) (set_db_next_publication (db_next_publication db + 1) db)));
  _ ← Recovery.set_capture id (capture_document job l (j_config j) photo d (e_path e)
        (m_favorite <$> media) (media ≫= m_taken_at));
  _ ← modify (fun db => set_db_resources (update_where (fun k r =>
        (k.1.1.1 =? job) && bool_decide (generation_of db job = Some k.1.1.2)
        && (bool_decide (k.1.2 = asset_id (original photo)) && bool_decide (k.2 = RoleOriginal)
            || bool_decide (k.1.2 = asset_id (thumbnail photo)) && bool_decide (k.2 = RoleThumbnail))
        && bool_decide (s_staging r = None)) (fun r => set_s_cache None (set_s_state RPending r)) (db_resources db)) db);
  mret Remote.

(** Why a photo has no local representation to settle on. *)
Definition conflict_reason (l : Located) (photo : RemotePhoto) (missing_local : bool) : option string :=
  if is_hidden photo then Some "remote hidden photo has no supported local representation"%string
  else if bool_decide (l_identity l = None) && negb missing_local
  then Some "cloud content at this path differs from the local file"%string
  else if holds (fun id => negb (bool_decide (id = photo_id photo))) (l_identity l)
  then Some "another local/cloud identity owns this path"%string
  else None.

(** A cloud-only row has no local bytes to keep. *)
Definition cloud_only (db : Db) (entry : Z) : bool :=
  holds (fun m => m_location m =? 2) (id ← linked_media db entry; db_media db !! id) && negb (Runtime.busy db entry).

Definition settle (job : Z) (l : Located) (photo : RemotePhoto) (missing_local : bool) : Tx Db ProjectedContent :=
  match conflict_reason l photo missing_local with
  | Some reason => _ ← Recovery.write_conflict job (l_entry l) reason (Some photo); mret Remote
  | None =>
      found ← gets (fun db => db_entries db !! l_entry l);
      e ← need found NoRows;
      let d := decide_edits l photo missing_local e in
      _ ← modify (fun db => update_entry (l_entry l)
            (settle_entry photo d (record_revision_in db job (photo_id photo)) (record_revision_in db job (master_id photo))) db);
      _ ← Runtime.resolve_conflicts (l_entry l) "latest edit event" EDIT_REASONS;
      if missing_local || negb (keep_content d)
           && (negb (holds (fun old => same_content old photo) (l_baseline l))
               || negb (preserve_metadata d) && negb (bool_decide (l_path l = relative_path photo)))
      then place job l photo d else settle_in_place job l photo d
  end.

(** [project_publication]. *)
Definition project_publication (job : Z) (photo : RemotePhoto) (digests : gmap string LocalDigest) : Tx Db ProjectedContent :=
  l ← locate job photo;
  _ ← modify (repair_location job (l_entry l) (photo_id photo));
  found ← gets (fun db => db_entries db !! l_entry l);
  e ← need found NoRows;
  if bool_decide (l_baseline l = Some photo)
     && (bool_decide (l_path l = relative_path photo) || has_change Metadata e)
  then
    if has_change Content e || dirty_contains (l_dirty l) DELETE
    then _ ← modify (supersede_pending (l_entry l)); mret Local
    else mret Remote
  else
    cloud ← gets (fun db => cloud_only db (l_entry l));
    if (cloud : bool) && negb (dirty_contains (l_dirty l) DELETE) then settle job l photo true
    else if bool_decide (l_identity l = None)
    then
      verdict ← adoption job (l_entry l) photo (l_dirty l) digests;
      match verdict with
      | Bound | Deferred => mret Remote
      | MissingLocal => settle job l photo true
      | Divergent => settle job l photo false
      end
    else settle job l photo false.
End Project.

(** ** Promotion *)
(** [RemotePhoto::resources]. *)
Record RemoteResource := mkRemoteResource {
  rr_asset : string; rr_role : Role; rr_record : string; rr_size : Z; rr_sha256 : string }.
Definition resource_of (descriptor : AssetDescriptor) (role : Role) (record_name : string) : RemoteResource :=
  mkRemoteResource (asset_id descriptor) role record_name (a_size descriptor)
    (default ""%string (Content.hex_from_descriptor_base64 (file_checksum descriptor))).
Definition resources (photo : RemotePhoto) : list RemoteResource :=
  [resource_of (original photo) RoleOriginal (photo_id photo);
   resource_of (thumbnail photo) RoleThumbnail (photo_id photo)].

(** [size as i64] of a [u64]. *)
Definition as_i64_cast (n : Z) : Z := if n <=? I64_MAX then n else n - 18446744073709551616.

(** The baseline of an entry names an asset. *)
Definition baseline_names (asset : string) (e : Entry) : bool :=
  holds (fun b => bool_decide (asset_id (original b) = asset) || bool_decide (asset_id (thumbnail b) = asset)) (e_baseline e).
Definition owes_asset (asset : string) (p : Publication) : bool :=
  bool_decide (p_original p = Some asset) || bool_decide (p_thumbnail p = Some asset).

(** The state an obligation is written with: settled when the confirmed
    baseline already names the asset and no publication still needs it. *)
Definition confirmed_asset (db : Db) (job : Z) (r : RemoteResource) : bool :=
  exists_where (fun _ e => (e_job e =? job) && bool_decide (r_photo (e_remote e) = Some (rr_record r))
                           && baseline_names (rr_asset r) e) (db_entries db)
  && negb (exists_where (fun _ p => (p_job p =? job) && negb (settled_publication (p_state p)) && owes_asset (rr_asset r) p)
             (db_publications db)).
(** The library file of the entry of a photo. *)
Definition library_uri (db : Db) (job : Z) (photo : string) : option string :=
  ke ← entry_of_photo db job photo;
  id ← file_of db ke.1 (fun _ => true);
  m_uri <$> db_media db !! id.
(** The entry owes nothing upward and has no publication of its own. *)
Definition owes_nothing (db : Db) (job : Z) (photo : string) : bool :=
  match entry_of_photo db job photo with
  | Some (id, e) => (e_dirty e =? 0)
      && negb (exists_where (fun _ p => bool_decide (p_entry p = Some id) && negb (settled_publication (p_state p)))
                 (db_publications db))
  | None => false
  end.
Definition upsert_resource (job : Z) (generation : string) (r : RemoteResource) (db : Db) : Db :=
  let key := (job, generation, rr_asset r, rr_role r) in
  let verified := confirmed_asset db job r in
  let row :=
    match db_resources db !! key with
    | None => mkResource (Some (rr_record r)) (Some (rr_sha256 r)) (Some (as_i64_cast (rr_size r))) None
                (if verified then RVerified else RPending) (library_uri db job (rr_record r))
    | Some old =>
        let settle := verified && owes_nothing db job (rr_record r) in
        mkResource (Some (rr_record r)) (Some (rr_sha256 r)) (Some (as_i64_cast (rr_size r)))
          (if settle then None else s_staging old) (if settle then RVerified else s_state old)
          (if settle then library_uri db job (rr_record r) else s_cache old)
    end in
  set_db_resources (<[key := row]> (db_resources db)) db.

(** [UPDATE media_items] with the original's properties, on a cloud-only row. *)
Definition describe_media (job : Z) (photo : RemotePhoto) (db : Db) : Db :=
  update_media db (ke ← entry_of_photo db job (photo_id photo); e_media ke.2) (fun m => m_location m =? 2)
    (fun m => set_m_size (as_i64_cast (a_size (original photo))) (set_m_height (a_height (original photo))
                (set_m_width (a_width (original photo)) (set_m_kind (Media.kind_value (mime_type (original photo)))
                (set_m_mime (mime_type (original photo)) m))))).
Definition record_revisions (job : Z) (photo : RemotePhoto) (db : Db) : Db :=
  let asset := record_revision_in db job (photo_id photo) in
  let master := record_revision_in db job (master_id photo) in
  set_db_entries (update_where (fun _ e => (e_job e =? job) && bool_decide (r_photo (e_remote e) = Some (photo_id photo)))
    (fun e => set_e_remote (set_r_asset_revision (Runtime.or_else asset (r_asset_revision (e_remote e)))
                (set_r_master_revision (Runtime.or_else master (r_master_revision (e_remote e))) (e_remote e))) e)
    (db_entries db)) db.

Section Promote.
Context (file_uri : string -> string) (photo_digest : RemotePhoto -> string).

(** The metadata of a projected photo as the record [promote] admits. *)
Definition metadata_record (photo : RemotePhoto) : NativeRecord :=
  mkRecord (photo_id photo) (Some ASSET_RECORD_TYPE) None None
    (Some (fold_left (fun m kv => put kv.1 kv.2 m)
      [("relativePath", TypedRecords.typed_field "STRING" (Str (relative_path photo)));
       ("masterRef", TypedRecords.typed_field "REFERENCE" (obj [("recordName", Str (master_id photo)); ("action", Str "NONE")]));
       ("isFavorite", TypedRecords.typed_field "INT64" (Int (Z.b2z (is_favorite photo))));
       ("assetDate", TypedRecords.typed_field "TIMESTAMP" (opt_int (asset_date_ms photo)))]%string [])) None false.

Definition promote_photo (job : Z) (generation : string) (digests : gmap string LocalDigest) (photo : RemotePhoto) : Tx Db unit :=
  content ← project_publication photo_digest job photo digests;
  entry ← gets (fun db => fst <$> entry_of_photo db job (photo_id photo));
  _ ← match entry with
      | Some id => admit_asset_metadata file_uri job id (metadata_record photo)
      | None => mret tt
      end;
  _ ← modify (describe_media job photo);
  _ ← modify (record_revisions job photo);
  _ ← modify (fun db => match entry with Some id => clear_pending id db | None => db end);
  _ ← modify (fun db => delete_entries (fun _ e => (e_job e =? job) && existsb (of_photo (photo_id photo)) (pending_rows e)
        && bool_decide (r_photo (e_remote e) = None) && is_placeholder (e_path e)) db);
  match content with
  | Local =>
      modify (fun db =>
        if exists_where (fun _ p => (p_job p =? job) && bool_decide (p_photo p = Some (photo_id photo)) && live_pub p)
             (db_publications db) then db
        else set_db_resources (update_where (fun k r => (k.1.1.1 =? job) && bool_decide (s_record r = Some (photo_id photo)))
               (set_s_record None) (db_resources db)) db)
  | Remote => modify (fun db => fold_left (fun db r => upsert_resource job generation r db) (resources photo) db)
  end.

(** [actions::retire]. *)
Definition retire_entry (e : Entry) : Entry :=
  set_e_retired true (set_e_dirty 0 (set_e_remote no_remote (set_e_baseline None e))).

(** An explicit tombstone: the deletion converged, the clean entry retires, or
    local changes become a conflict. *)
Definition DELETED_REASON : string := "remote photo was deleted while local changes remain".
Definition bury (job : Z) (generation : string) (name : string) : Tx Db unit :=
  found ← gets (fun db => entry_of_photo db job name);
  _ ← match found with
      | None => mret tt
      | Some (id, e) =>
          _ ← (if e_dirty e =? DELETE
               then modify (fun db =>
                 if exists_where (fun _ t => bool_decide (t_entry t = Some id) && bool_decide (t_state t = "issued"%string)) (db_tasks db)
                 then db else delete_entries (fun k _ => k =? id) db)
               else if e_dirty e =? 0
               then
                 _ ← modify (fun db => delete_media (fun k m => bool_decide (linked_media db id = Some k) && (m_location m =? 2)) db);
                 _ ← modify (fun db => update_media db (linked_media db id) (fun m => m_location m =? 3) (set_m_location 1));
                 modify (update_entry id retire_entry)
               else Recovery.write_conflict job id DELETED_REASON None);
          modify (supersede_pending id)
      end;
  _ ← modify (fun db => set_db_resources (update_where (fun k r => (k.1.1.1 =? job) && bool_decide (k.1.1.2 = generation)
        && bool_decide (s_record r = Some name)) (set_s_record None) (db_resources db)) db);
  modify (fun db => set_db_entries (update_where (fun _ e => (e_job e =? job)
        && (bool_decide (r_photo (e_remote e) = Some name) || bool_decide (r_master (e_remote e) = Some name)
            || existsb (is_named name) (pending_rows e))) clear_entry (db_entries db)) db).

(** Another photo's adoption gives no staging bytes to a shared asset. *)
Definition reopen_shared (job : Z) (generation : string) (db : Db) : Db :=
  set_db_resources (update_where (fun k r =>
    (k.1.1.1 =? job) && bool_decide (k.1.1.2 = generation) && bool_decide (s_staging r = None)
    && (negb (bool_decide (s_state r = RPending)) || bool_decide (is_Some (s_cache r)))
    && exists_where (fun _ e => (e_job e =? job) && baseline_names k.1.2 e
         && match r_photo (e_remote e), s_record r with
            | Some photo, Some record => negb (bool_decide (photo = record)) | _, _ => false end) (db_entries db)
    && exists_where (fun _ p => (p_job p =? job) && live_pub p
         && (bool_decide (k.2 = RoleOriginal) && bool_decide (p_original p = Some k.1.2)
             || bool_decide (k.2 = RoleThumbnail) && bool_decide (p_thumbnail p = Some k.1.2))) (db_publications db))
    (fun r => set_s_cache None (set_s_state RPending r)) (db_resources db)) db.

(** [NativeReceiveOutcome::Promoted]. *)
Record Promoted := mkPromoted { pr_photos : nat; pr_unknown : nat; pr_resources : nat; pr_applied : bool }.
(** [promote]. *)
Definition promote (job : Z) (graph : RemoteGraph) (target_token : string) (digests : gmap string LocalDigest) : Tx Db Promoted :=
  progress ← require_progress job;
  let generation := g_generation (row progress) in
  _ ← for_each (photos graph) (promote_photo job generation digests);
  _ ← for_each (tombstones graph) (bury job generation);
  _ ← modify (reopen_shared job generation);
  n ← gets (fun db => unresolved db job);
  _ ← modify (update_progress job (set_g_target (Some target_token)));
  found ← gets (fun db => read_progress db job);
  promoted ← need found NoRows;
  let applied := can_apply promoted n in
  _ ← modify (fun db => if applied then update_progress job (fun g => set_g_applied (g_target g) g) db else db);
  mret (mkPromoted (length (photos graph)) (length (records graph)) n applied).
End Promote.

(** ** What projection does to entries *)
(** Statements that leave the entries alone. *)
Lemma write_conflict_entries job entry reason photo db u db' :
  Recovery.write_conflict job entry reason photo db = Ok (u, db') ->
  db_entries db' = db_entries db /\ db_media db' = db_media db /\ db_tasks db' = db_tasks db /\
  db_next_entry db' = db_next_entry db /\ db_next_media db' = db_next_media db /\ db_next_task db' = db_next_task db /\
  db_progress db' = db_progress db /\ db_jobs db' = db_jobs db.
Proof.
  unfold Recovery.write_conflict. intros H. tx_inv H. destruct (Recovery.open_conflict db entry) as [[id x]|]; tx_inv H; done.
Qed.
Lemma set_capture_entries id doc db u db' :
  Recovery.set_capture id doc db = Ok (u, db') -> exists ps, db' = set_db_publications ps db.
Proof.
  unfold Recovery.set_capture, Recovery.update_pub. intros H. tx_inv H. destruct (_ && _); tx_inv H; [|by eexists].
  exists (db_publications db). by destruct db.
Qed.
Lemma place_entries digest job l photo d db c db' :
  place digest job l photo d db = Ok (c, db') ->
  c = Remote /\ exists ps rs n, db' = set_db_resources rs (set_db_publications ps (set_db_next_publication n db)).
Proof.
  unfold place, Recovery.update_pub. intros H. tx_inv H. split; [done|].
  match goal with Hs : Recovery.set_capture _ _ _ = Ok _ |- _ => apply set_capture_entries in Hs as (ps & ->) end.
  match goal with Hi : (if ?b then _ else _) _ = Ok _ |- _ => destruct b; tx_inv Hi end;
    eexists ps, _, _; by destruct db.
Qed.

(** The entry after [settle]: the settled columns, then the baseline if the
    cloud's version needed no placement. *)
Definition only_baseline (e e' : Entry) : Prop :=
  exists b g c, e' = e \/ e' = set_e_baseline b (set_e_remote (set_r_confirmed g (set_r_content c (e_remote e))) e).
Lemma settle_entries digest job l photo missing db c db' e :
  settle digest job l photo missing db = Ok (c, db') -> db_entries db !! l_entry l = Some e ->
  conflict_reason l photo missing = None ->
  let d := decide_edits l photo missing e in
  (exists a m e', db_entries db' !! l_entry l = Some e' /\ only_baseline (settle_entry photo d a m e) e') /\
  (forall k, k <> l_entry l -> db_entries db' !! k = db_entries db !! k) /\
  db_next_entry db' = db_next_entry db /\ db_tasks db' = db_tasks db /\ db_next_task db' = db_next_task db /\
  (keep_content d = true -> missing = false -> c = Local) /\
  (forall k, is_Some (db_media db !! k) -> is_Some (db_media db' !! k)) /\
  (preserve_metadata d = true -> db_media db' = db_media db).
Proof.
  intros H He Hc d. unfold settle in H. rewrite Hc in H. unfold Runtime.resolve_conflicts in H. tx_inv H.
  match goal with Hx : db_entries db !! l_entry l = Some ?x |- _ => rewrite He in Hx; injection Hx as <- end.
  fold d in H. set (db1 := set_db_conflicts _ _) in H.
  set (a := record_revision_in db job (photo_id photo)) in db1. set (m := record_revision_in db job (master_id photo)) in db1.
  assert (Hl : db_entries db1 !! l_entry l = Some (settle_entry photo d a m e)).
  { unfold db1, update_entry. cbn [db_entries set_db_conflicts set_db_entries]. by rewrite lookup_alter_eq, He. }
  assert (Ho : forall k, k <> l_entry l -> db_entries db1 !! k = db_entries db !! k).
  { intros k Hk. unfold db1, update_entry. cbn [db_entries set_db_conflicts set_db_entries]. by rewrite lookup_alter_ne. }
  destruct (_ || _) eqn:Hplace.
  - apply place_entries in H as (-> & ps & rs & n & ->).
    cbn [db_entries db_tasks db_media db_next_entry db_next_task set_db_resources set_db_publications set_db_next_publication].
    split_and!; try done.
    + exists a, m, (settle_entry photo d a m e). split; [done|]. by exists None, None, None; left.
    + intros Hkc ->. rewrite Hkc in Hplace. done.
  - unfold settle_in_place in H. tx_inv H. subst.
    set (db2 := if preserve_metadata d then db1 else update_media _ _ _ _).
    assert (He2 : db_entries db2 = db_entries db1) by (unfold db2; by destruct (preserve_metadata d)).
    unfold supersede_pending, update_entry.
    cbn [db_entries db_tasks db_media db_next_entry db_next_task set_db_publications set_db_entries]. split_and!.
    + eexists a, m, _. rewrite lookup_alter_eq, He2, Hl. split; [done|]. eexists _, _, _. by right.
    + intros k Hk. rewrite lookup_alter_ne by done. by rewrite He2, Ho.
    + unfold db2. by destruct (preserve_metadata d).
    + unfold db2. by destruct (preserve_metadata d).
    + unfold db2. by destruct (preserve_metadata d).
    + by intros ->.
    + intros k [row0 Hx]. unfold db2. destruct (preserve_metadata d); [by exists row0|].
      unfold update_media. cbn [db_media set_db_media]. rewrite lookup_update_where.
      change (db_media db1) with (db_media db). rewrite Hx. by eexists.
    + intros Hp. unfold db2. by rewrite Hp.
Qed.

(** Repairing a location touches rows at the local default only. *)
Lemma repair_location_shape job entry photo db :
  exists P, repair_location job entry photo db = set_db_media (update_where P (set_m_location 3) (db_media db)) db /\
    forall k m, P k m = true -> m_location m = 1.
Proof.
  unfold repair_location. destruct (match db_entries db !! entry with Some _ => _ | None => _ end).
  - eexists. split; [reflexivity|]. cbn. intros k m [_ Hm%Z.eqb_eq]%andb_prop. done.
  - exists (fun _ _ => false). split; [|done]. destruct db as [media]. unfold set_db_media. cbn. f_equal.
    apply map_eq. intros k. rewrite lookup_update_where. by destruct (media !! k).
Qed.
Lemma cloud_only_repair job entry photo db k : cloud_only (repair_location job entry photo db) k = cloud_only db k.
Proof.
  destruct (repair_location_shape job entry photo db) as (P & -> & HP). unfold cloud_only, linked_media.
  cbn [db_entries db_media set_db_media]. f_equal. destruct (db_entries db !! k ≫= e_media) as [id|]; [|done]. cbn.
  rewrite lookup_update_where. destruct (db_media db !! id) as [m|]; [|done]. cbn.
  destruct (P id m) eqn:E; [|done]. cbn. by rewrite (HP _ _ E).
Qed.
Lemma repair_frame job entry photo db :
  let db' := repair_location job entry photo db in
  db_entries db' = db_entries db /\ db_tasks db' = db_tasks db /\ db_next_entry db' = db_next_entry db /\
  db_next_task db' = db_next_task db /\ db_publications db' = db_publications db /\ db_next_media db' = db_next_media db.
Proof. cbn. destruct (repair_location_shape job entry photo db) as (P & -> & _). done. Qed.

(** The edit that stays: none older than the other side's, a real event before
    a missing one, the local one when neither side names a time. *)
Definition outranks (local remote : option EditEvent) : bool :=
  match local, remote with
  | Some l, Some r => key_ge l r
  | None, Some _ => false
  | _, None => true
  end.
Lemma local_event_wins_spec l r : local_event_wins l r = outranks l r.
Proof.
  unfold local_event_wins. destruct l as [l|], r as [r|]; cbn; [|by rewrite bool_decide_true|done..].
  destruct (key_ge l r) eqn:E; [by rewrite bool_decide_true|]. rewrite bool_decide_false; [done|].
  intros [= ->]. destruct (key_ge_total l l); congruence.
Qed.
Definition keeps_metadata (photo : RemotePhoto) (e : Entry) : bool :=
  holds (fun old => same_metadata old photo) (e_baseline e)
  || outranks (event (e_metadata e)) (ev_metadata (events photo)).
Definition keeps_content (photo : RemotePhoto) (e : Entry) : bool :=
  (e_dirty e =? DELETE) || holds (fun old => same_content old photo) (e_baseline e)
  || outranks (event (e_content e)) (ev_content (events photo)).

Lemma same_metadata_refl photo : same_metadata photo photo = true.
Proof. unfold same_metadata. by rewrite !bool_decide_true. Qed.
Lemma same_content_refl photo : same_content photo photo = true.
Proof. unfold same_content. by rewrite !bool_decide_true. Qed.

(** How [settle] leaves the tracks of an entry. *)
Lemma has_change_settle keep t : (acked (settle_track keep t) <? version (settle_track keep t)) = keep && (acked t <? version t).
Proof. destruct keep; cbn; [done|]. apply Z.ltb_irrefl. Qed.
Lemma version_settle keep t : version (settle_track keep t) = version t.
Proof. by destruct keep. Qed.
Lemma event_settle keep t : event (settle_track keep t) = event t.
Proof. by destruct keep. Qed.

(** Edits are never taken back: versions, events and the local version stay. *)
Record same_edits (e e' : Entry) : Prop := {
  se_version : forall c, version (track c e') = version (track c e);
  se_event : forall c, event (track c e') = event (track c e);
  se_local : e_local e' = e_local e;
  se_job : e_job e' = e_job e;
  se_media : e_media e' = e_media e;
  se_path : e_path e' = e_path e
}.
Lemma only_baseline_track e e' :
  only_baseline e e' -> (forall c, track c e' = track c e) /\ e_local e' = e_local e /\ e_job e' = e_job e /\
    e_media e' = e_media e /\ e_path e' = e_path e /\ e_dirty e' = e_dirty e /\ e_retired e' = e_retired e /\
    r_photo (e_remote e') = r_photo (e_remote e).
Proof. intros (b & g & c & [->| ->]); split_and!; try done; by intros []. Qed.
Lemma settle_same_edits photo d a m e e' : only_baseline (settle_entry photo d a m e) e' -> same_edits e e'.
Proof.
  intros (Ht & Hl & Hj & Hm & Hp & _)%only_baseline_track. constructor; try done; intros c; rewrite Ht;
    destruct c; cbn; by rewrite ?version_settle, ?event_settle.
Qed.

Lemma entry_of_photo_Some db job photo id e :
  entry_of_photo db job photo = Some (id, e) ->
  db_entries db !! id = Some e /\ e_job e = job /\ r_photo (e_remote e) = Some photo.
Proof.
  unfold entry_of_photo. intros [Hk Hp]%find_row_Some. zbool. split_and!; try done. by eapply bool_decide_eq_true.
Qed.

(** The run of a projection onto the entry that owns the photo. *)
Lemma project_owned_run digest job photo digests db id e :
  entry_of_photo db job (photo_id photo) = Some (id, e) ->
  project_publication digest job photo digests db =
    let db1 := repair_location job id (photo_id photo) db in
    if bool_decide (e_baseline e = Some photo)
       && (bool_decide (e_path e = relative_path photo) || has_change Metadata e)
    then if has_change Content e || (e_dirty e =? DELETE) then Ok (Local, supersede_pending id db1) else Ok (Remote, db1)
    else settle digest job (located (id, e)) photo (cloud_only db id && negb (e_dirty e =? DELETE)) db1.
Proof.
  intros Hf. destruct (entry_of_photo_Some _ _ _ _ _ Hf) as (He & _ & Hp).
  unfold project_publication, locate. erewrite bind_run by (erewrite bind_run by done; rewrite Hf; done).
  erewrite bind_run by done. erewrite bind_run by done. cbn [l_entry located fst].
  rewrite (proj1 (repair_frame job id (photo_id photo) db)), He. erewrite bind_run by done.
  cbn [l_baseline l_path l_dirty l_identity located snd]. unfold dirty_contains.
  destruct (_ && (_ || _)); [by destruct (_ || _)|].
  erewrite bind_run by done. rewrite cloud_only_repair, Hp.
  destruct (cloud_only db id && negb (e_dirty e =? DELETE)); [done|]. by rewrite bool_decide_false by done.
Qed.

Lemma owned_no_conflict db job photo id e missing :
  entry_of_photo db job (photo_id photo) = Some (id, e) -> is_hidden photo = false ->
  conflict_reason (located (id, e)) photo missing = None.
Proof.
  intros (_ & _ & Hp)%entry_of_photo_Some Hh. unfold conflict_reason. cbn [l_identity located snd]. rewrite Hh, Hp.
  cbn. by rewrite bool_decide_true.
Qed.


(** A cloud-only photo has no such weighing. When a changed photo arrives for
    an entry whose media row is cloud-only and which is not being deleted, every
    pending metadata and content edit of the entry counts as settled afterwards,
    whichever event is the later one. *)
Theorem cloud_only_edits_settled digest job photo digests db id e c db' :
  entry_of_photo db job (photo_id photo) = Some (id, e) -> is_hidden photo = false -> cloud_only db id = true ->
  e_dirty e <> DELETE -> e_baseline e <> Some photo ->
  project_publication digest job photo digests db = Ok (c, db') ->
  exists e', db_entries db' !! id = Some e' /\ same_edits e e' /\ e_dirty e' = CLEAN /\
    has_change Metadata e' = false /\ has_change Content e' = false.
Proof.
  intros Hf Hh Hcloud Hd Hb. rewrite (project_owned_run _ _ _ _ _ _ _ Hf), Hcloud. cbv zeta.
  destruct (entry_of_photo_Some _ _ _ _ _ Hf) as (He & _ & _). apply Z.eqb_neq in Hd. rewrite Hd.
  rewrite bool_decide_false by done. cbn [andb negb]. intros Hrun.
  destruct (settle_entries _ _ _ _ _ _ _ _ e Hrun) as ((a & m & e' & Hl & Hob) & _).
  { cbn [l_entry located fst]. by rewrite (proj1 (repair_frame job id (photo_id photo) db)). }
  { by eapply owned_no_conflict. }
  cbn [l_entry located fst] in Hl. destruct (only_baseline_track _ _ Hob) as (Ht & _ & _ & _ & _ & Hd' & _).
  exists e'. split; [done|]. split; [by eapply settle_same_edits|]. unfold has_change. rewrite !Ht, Hd'.
  cbn [track settle_entry e_metadata e_content e_dirty set_e_remote set_e_dirty set_e_metadata set_e_content set_e_deletion].
  rewrite !has_change_settle. unfold settled, decide_edits, dirty_contains. cbn [l_dirty located snd]. rewrite Hd. done.
Qed.

(** ** Adoption *)
Lemma adopt_Ok job entry media photo a m observation db u db' e :
  adopt job entry media photo a m observation db = Ok (u, db') -> db_entries db !! entry = Some e ->
  exists g, generation_of db job = Some g /\
    db_entries db' = <[entry := adopted_entry media photo a m g (has_change Metadata e) observation e]> (db_entries db) /\
    db_tasks db' = db_tasks db /\ db_next_entry db' = db_next_entry db /\ db_next_task db' = db_next_task db /\
    db_next_media db' = db_next_media db /\
    (forall k, exists f, db_media db' !! k = f <$> db_media db !! k /\ forall m, m_location (f m) = m_location m \/ m_location (f m) = 3) /\
    (forall k m', db_media db' !! k = Some m' -> k <> media \/ has_change Metadata e = true ->
       exists m, db_media db !! k = Some m /\ m_favorite m' = m_favorite m /\ m_taken_at m' = m_taken_at m).
Proof.
  intros H He. unfold adopt, Runtime.resolve_conflicts in H. tx_inv H.
  match goal with Hx : db_entries db !! entry = Some ?x |- _ => rewrite He in Hx; injection Hx as <- end.
  match goal with Hx : generation_of db job = Some ?x |- _ => rename x into g, Hx into Hg end.
  exists g. split; [done|].
  cbn [db_entries db_tasks db_media db_next_entry db_next_task db_next_media set_db_publications set_db_conflicts update_entry
       set_db_entries update_media set_db_media].
  set (db1 := if has_change Metadata e then db else update_media _ _ _ _).
  assert (Hs : db_entries db1 = db_entries db /\ db_tasks db1 = db_tasks db /\ db_next_entry db1 = db_next_entry db /\
    db_next_task db1 = db_next_task db /\ db_next_media db1 = db_next_media db) by (unfold db1; by destruct (has_change Metadata e)).
  destruct Hs as (-> & -> & -> & -> & ->). split_and!; try done.
  - apply map_eq. intros k. destruct (decide (k = entry)) as [->|Hk].
    + by rewrite lookup_alter_eq, lookup_insert_eq, He.
    + by rewrite lookup_alter_ne, lookup_insert_ne.
  - intros k. rewrite lookup_update_where. unfold db1. destruct (has_change Metadata e).
    + eexists. split; [done|]. intros x. cbn. destruct (_ && _); auto.
    + cbn [update_media db_media set_db_media]. rewrite lookup_update_where, <- option_fmap_compose.
      eexists. split; [done|]. intros x. cbn. destruct (bool_decide (Some media = Some k)); auto.
  - intros k m'. rewrite lookup_update_where. intros Hm' Hcase.
    destruct (db_media db1 !! k) as [m1|] eqn:Hm1; [|done]. injection Hm' as <-.
    assert (Hfav : exists m, db_media db !! k = Some m /\ m_favorite m1 = m_favorite m /\ m_taken_at m1 = m_taken_at m).
    { unfold db1 in Hm1. destruct (has_change Metadata e); [by exists m1|]. destruct Hcase as [Hne|]; [|done].
      cbn [update_media db_media set_db_media] in Hm1. rewrite lookup_update_where in Hm1.
      destruct (db_media db !! k) as [m0|]; [|done]. injection Hm1 as <-. exists m0.
      rewrite bool_decide_false by congruence. done. }
    destruct Hfav as (m0 & ? & ? & ?). exists m0. by destruct (_ && _).
Qed.

(** The comparison has been made for this entry at its present version, and the
    file is the cloud's original. *)
Record proven_same (db : Db) (job entry : Z) (photo : RemotePhoto) (digests : gmap string LocalDigest) (e : Entry)
    (media : Z) (observation : LocalDigest) : Prop := {
  ps_idle : Runtime.busy db entry = false;
  ps_visible : is_hidden photo = false;
  ps_file : file_of db entry (fun m => negb (m_location m =? 2)) = Some media;
  ps_observed : digests !! relative_path photo = Some observation;
  ps_entry : d_entry observation = entry;
  ps_version : d_version observation = e_local e;
  ps_hash : Content.hex_from_descriptor_base64 (file_checksum (original photo)) = Some (d_sha256 observation);
  ps_size : d_size observation = a_size (original photo)
}.
(** C28: A local file takes over a cloud identity only on proof that it is the
    cloud's original. Whenever adoption binds an entry, no operation owned the
    entry, it was not being deleted, the digest was measured for this entry at
    its present local version and equals the cloud's checksum and size. The
    entry then carries the photo's identity and baseline; a pending metadata
    edit stays pending and its values stay in the library, a pending content
    edit is settled, and no other entry changes. *)
Theorem adoption_requires_same_bytes job entry photo dirty digests db e db' :
  db_entries db !! entry = Some e -> track_ok (e_content e) ->
  adoption job entry photo dirty digests db = Ok (Bound, db') ->
  dirty <> DELETE /\
  exists media observation e', proven_same db job entry photo digests e media observation /\
    db_entries db' = <[entry := e']> (db_entries db) /\
    r_photo (e_remote e') = Some (photo_id photo) /\ r_master (e_remote e') = Some (master_id photo) /\
    e_baseline e' = Some photo /\ e_media e' = Some media /\ e_local e' = e_local e /\
    has_change Content e' = false /\ (has_change Metadata e = true -> e_metadata e' = e_metadata e) /\
    (e_dirty e' = MODIFIED <-> has_change Metadata e = true) /\
    (has_change Metadata e = true -> forall k m', db_media db' !! k = Some m' ->
       exists m, db_media db !! k = Some m /\ m_favorite m' = m_favorite m /\ m_taken_at m' = m_taken_at m).
Proof.
  intros He Htr H. unfold adoption in H. tx_inv H. destruct (Runtime.busy db entry) eqn:Hbusy; [by tx_inv H|].
  destruct (is_hidden photo || dirty_contains dirty DELETE) eqn:Hd; [by tx_inv H|].
  apply orb_false_iff in Hd as [Hh Hd%Z.eqb_neq]. split; [done|]. tx_inv H.
  destruct (file_of _ _ _) as [media|] eqn:Hfile; [|by tx_inv H].
  destruct (digests !! relative_path photo) as [ob|] eqn:Hob; [|by tx_inv H]. tx_inv H.
  match goal with Hx : db_entries db !! entry = Some ?x |- _ => rewrite He in Hx; injection Hx as <- end.
  destruct (negb (d_entry ob =? entry) || negb (d_version ob =? e_local e)) eqn:Hver; [by tx_inv H|]. zbool. tx_inv H.
  destruct (same_bytes photo ob) eqn:Hsame; cbn [negb] in H; [|by tx_inv H]. tx_inv H.
  destruct (_ ≫= _) as [[a m]|]; [|by tx_inv H]. tx_inv H. apply andb_prop in Hsame as [Hhash Hsize].
  match goal with Ha : adopt _ _ _ _ _ _ _ _ = Ok _ |- _ =>
    destruct (adopt_Ok _ _ _ _ _ _ _ _ _ _ (set_e_digest (Some ob) e) Ha) as (g & _ & Hent & _ & _ & _ & _ & _ & Hfav) end.
  { unfold update_entry. cbn [db_entries set_db_entries]. by rewrite lookup_alter_eq, He. }
  exists media, ob, (adopted_entry media photo a m g (has_change Metadata e) ob (set_e_digest (Some ob) e)).
  split; [|split].
  - constructor; try done; [by eapply bool_decide_eq_true|by apply Z.eqb_eq].
  - rewrite Hent. apply map_eq. intros k. destruct (decide (k = d_entry ob)) as [->|Hk]; [by rewrite !lookup_insert_eq|].
    rewrite !lookup_insert_ne by done. unfold update_entry. cbn [db_entries set_db_entries]. by rewrite lookup_alter_ne.
  - split_and!; try done.
    + unfold has_change. cbn. destruct Htr. apply Z.ltb_ge. lia.
    + cbn. by intros ->.
    + cbn. unfold MODIFIED, CLEAN. destruct (has_change Metadata e); done.
    + intros Hm k m' Hk. apply (Hfav k m' Hk). by right.
Qed.

(** ** A missing record is not a deletion *)
Record carries (e e' : Entry) : Prop := {
  ca_photo : r_photo (e_remote e') = r_photo (e_remote e);
  ca_job : e_job e' = e_job e;
  ca_local : e_local e' = e_local e;
  ca_version : forall c, version (track c e') = version (track c e);
  ca_event : forall c, event (track c e') = event (track c e);
  ca_delete : e_dirty e = DELETE -> e_dirty e' = DELETE
}.
#[export] Instance carries_preorder : PreOrder carries.
Proof. split; [by intros e|]. intros e1 e2 e3 [] []. constructor; intros; auto; congruence. Qed.

(** Entries of photos that no tombstone names stay, and so do local originals. *)
Record kept_rows (tombs : list string) (db db' : Db) : Prop := {
  kr_entries : forall k e p, db_entries db !! k = Some e -> r_photo (e_remote e) = Some p -> p ∉ tombs ->
    exists e', db_entries db' !! k = Some e' /\ carries e e';
  kr_media : forall k m, db_media db !! k = Some m -> m_location m <> 2 ->
    exists m', db_media db' !! k = Some m' /\ m_location m' <> 2;
  kr_ids : ids_ok db'
}.
Definition kept (tombs : list string) (db db' : Db) : Prop := ids_ok db -> kept_rows tombs db db'.
#[export] Instance kept_preorder tombs : PreOrder (kept tombs).
Proof.
  split.
  - intros db Hids. constructor; [|by eauto|done]. intros k e p Hk _ _. by exists e.
  - intros db1 db2 db3 H12 H23 Hids. specialize (H12 Hids). specialize (H23 (kr_ids _ _ _ H12)). constructor.
    + intros k e p Hk Hp Hn. destruct (kr_entries _ _ _ H12 k e p Hk Hp Hn) as (e2 & Hk2 & C12).
      destruct (kr_entries _ _ _ H23 k e2 p Hk2) as (e3 & Hk3 & C23); [by rewrite (ca_photo _ _ C12)|done|].
      exists e3. split; [done|by trans e2].
    + intros k m Hm Hl. destruct (kr_media _ _ _ H12 k m Hm Hl) as (m2 & Hm2 & Hl2). by apply (kr_media _ _ _ H23 k m2).
    + apply H23.
Qed.

Lemma kept_receipt tombs db db' : receipt db db' -> kept tombs db db'.
Proof.
  intros Hr Hids. specialize (Hr Hids). constructor.
  - intros k e p Hk Hp _. destruct (rc_entries _ _ Hr k e Hk) as (e' & Hk' & Ht & _); [by left; rewrite Hp|].
    exists e'. split; [done|]. destruct Ht. constructor; try congruence; intros []; cbn; congruence.
  - intros k m Hm Hl. destruct (rc_media _ _ Hr k m Hm) as (m' & Hm' & Heq & _). exists m'. split; [done|]. by rewrite Heq.
  - apply Hr.
Qed.
Lemma kept_frame tombs db db' :
  db_entries db' = db_entries db -> db_media db' = db_media db ->
  db_next_entry db' = db_next_entry db -> db_next_media db' = db_next_media db -> kept tombs db db'.
Proof. intros. by apply kept_receipt, receipt_frame. Qed.
(** The entries change in place and the media rows keep their local originals. *)
Lemma kept_in_place tombs db db' :
  (forall k e, db_entries db !! k = Some e -> exists e', db_entries db' !! k = Some e' /\
     (forall p, r_photo (e_remote e) = Some p -> p ∉ tombs -> carries e e')) ->
  (forall k e', db_entries db' !! k = Some e' -> is_Some (db_entries db !! k)) ->
  (forall k m, db_media db !! k = Some m -> m_location m <> 2 -> exists m', db_media db' !! k = Some m' /\ m_location m' <> 2) ->
  (forall k m', db_media db' !! k = Some m' -> is_Some (db_media db !! k)) ->
  db_next_entry db' = db_next_entry db -> db_next_media db' = db_next_media db -> kept tombs db db'.
Proof.
  intros He He' Hm Hm' Hn Hnm [[Hpos Hids] Hmids]. constructor; [|done|].
  - intros k e p Hk Hp Ht. destruct (He k e Hk) as (e' & Hk' & Hc). eauto.
  - split; [split|]; rewrite ?Hn; [done| |].
    + intros k e' Hk'. destruct (He' k e' Hk') as [e Hk]. by apply (Hids k e).
    + intros k m' Hk'. rewrite Hnm. destruct (Hm' k m' Hk') as [m Hk]. by apply (Hmids k m).
Qed.
Lemma kept_update_entries tombs db P f :
  (forall k e p, db_entries db !! k = Some e -> P k e = true -> r_photo (e_remote e) = Some p -> p ∉ tombs -> carries e (f e)) ->
  kept tombs db (set_db_entries (update_where P f (db_entries db)) db).
Proof.
  intros Hf. apply kept_in_place; cbn [db_entries db_media db_next_entry db_next_media set_db_entries]; try done; eauto.
  - intros k e Hk. rewrite lookup_update_where, Hk. eexists. split; [done|]. intros p Hp Ht.
    destruct (P k e) eqn:E; [by eapply Hf|done].
  - intros k e'. rewrite lookup_update_where. destruct (db_entries db !! k); [by eexists|done].
Qed.
Lemma kept_update_entry tombs db id f :
  (forall e p, db_entries db !! id = Some e -> r_photo (e_remote e) = Some p -> p ∉ tombs -> carries e (f e)) ->
  kept tombs db (update_entry id f db).
Proof.
  intros Hf. unfold update_entry. rewrite alter_update_where. apply kept_update_entries.
  intros k e p Hk ->%Z.eqb_eq. by apply Hf.
Qed.
Lemma kept_update_media tombs db P f :
  (forall m, m_location m <> 2 -> m_location (f m) <> 2) ->
  kept tombs db (set_db_media (update_where P f (db_media db)) db).
Proof.
  intros Hf. apply kept_in_place; cbn [db_entries db_media db_next_entry db_next_media set_db_media]; try done; eauto.
  - intros k e Hk. exists e. split; [done|]. by intros.
  - intros k m Hm Hl. rewrite lookup_update_where, Hm. eexists. split; [done|]. destruct (P k m); auto.
  - intros k m'. rewrite lookup_update_where. destruct (db_media db !! k); [by eexists|done].
Qed.
Lemma kept_delete_entries tombs P db :
  (forall k e p, db_entries db !! k = Some e -> P k e = true -> r_photo (e_remote e) = Some p -> p ∈ tombs) ->
  kept tombs db (delete_entries P db).
Proof.
  intros HP [[Hpos Hids] Hmids]. unfold delete_entries. constructor;
    cbn [db_entries db_media db_next_entry set_db_entries set_db_conflicts set_db_tasks set_db_publications].
  - intros k e p Hk Hp Ht. exists e. split; [|done]. apply lookup_delete_where_Some. split; [done|].
    destruct (P k e) eqn:E; [|done]. by destruct Ht; eapply HP.
  - eauto.
  - split; [|done]. split; [done|]. cbn. intros k e [Hk _]%lookup_delete_where_Some. by apply (Hids k e).
Qed.
Lemma kept_delete_media tombs P db :
  (forall k m, P k m = true -> m_location m = 2) -> kept tombs db (delete_media P db).
Proof.
  intros HP. apply kept_in_place; cbn [delete_media db_entries db_media db_next_entry db_next_media set_db_media set_db_entries]; try done.
  - intros k e Hk. rewrite lookup_update_where, Hk. eexists. split; [done|]. intros p _ _.
    destruct (match e_media e with Some _ => _ | None => _ end); [|done]. constructor; try done; by intros [].
  - intros k e'. rewrite lookup_update_where. destruct (db_entries db !! k); [by eexists|done].
  - intros k m Hm Hl. exists m. split; [|done]. apply lookup_delete_where_Some. split; [done|].
    destruct (P k m) eqn:E; [|done]. by destruct (Hl (HP _ _ E)).
  - intros k m [Hk _]%lookup_delete_where_Some. by eexists.
Qed.

(** ** Projection keeps *)
Lemma receipt_clear_pending id db : receipt db (clear_pending id db).
Proof. apply receipt_update_entry. intros e _. by split. Qed.
#[export] Hint Resolve receipt_clear_pending : respects.
Lemma receiving_move_fragments job created photo : receiving (move_fragments job created photo).
Proof. unfold move_fragments. respect. Qed.

(** What was read of the entry is still so. *)
Definition describes (l : Located) (db : Db) : Prop :=
  exists e, db_entries db !! l_entry l = Some e /\ e_dirty e = l_dirty l /\ r_photo (e_remote e) = l_identity l.

Lemma locate_Ok job photo db l db' :
  locate job photo db = Ok (l, db') -> receipt db db' /\ (ids_ok db -> describes l db').
Proof.
  unfold locate. intros H. tx_inv H. destruct (match entry_of_photo _ _ _ with Some _ => _ | None => _ end) as [[id e]|] eqn:Hf.
  - tx_inv H. split; [done|]. intros _. exists e. split; [|done]. cbn.
    destruct (entry_of_photo db job (photo_id photo)) as [[id' e']|] eqn:Hp.
    + injection Hf as -> ->. by apply entry_of_photo_Some in Hp as [Hk _].
    + by apply find_row_Some in Hf as [Hk _].
  - tx_inv H. subst.
    match goal with Hi : insert_entry _ _ = Ok (?x, ?s) |- _ => rename x into id, s into db1, Hi into Hins end.
    match goal with Hm : move_fragments _ _ _ _ = Ok _ |- _ => pose proof (receiving_move_fragments _ _ _ _ _ _ Hm) as Hmv end.
    split; [etrans; [|done]; by eapply receiving_insert_entry|]. intros Hids.
    pose proof (receiving_insert_entry _ _ _ _ Hins Hids) as Hr1. specialize (Hmv (rc_ids _ _ Hr1)).
    unfold insert_entry in Hins. tx_inv Hins. subst. set (e := set_e_remote _ _) in *.
    destruct (rc_entries _ _ Hmv (db_next_entry db) e) as (e' & He' & Ht & _).
    { cbn [db_entries set_db_entries]. by rewrite lookup_insert_eq. }
    { left. by eexists. }
    exists e'. split; [done|]. by rewrite (st_dirty _ _ Ht), (st_remote _ _ Ht).
Qed.

Lemma kept_settle tombs digest job l photo missing db c db' :
  describes l db -> settle digest job l photo missing db = Ok (c, db') -> kept tombs db db'.
Proof.
  intros (e & He & Hd & Hp) H. destruct (conflict_reason l photo missing) as [reason|] eqn:Hc.
  - unfold settle in H. rewrite Hc in H. tx_inv H.
    match goal with Hw : Recovery.write_conflict _ _ _ _ _ = Ok _ |- _ =>
      apply write_conflict_entries in Hw as (E1 & E2 & _ & E3 & E4 & _) end. by apply kept_frame.
  - assert (Hid : forall p, l_identity l = Some p -> p = photo_id photo).
    { intros p Hip. unfold conflict_reason in Hc. rewrite Hip in Hc. destruct (is_hidden photo); [done|]. cbn in Hc.
      by destruct (bool_decide (p = photo_id photo)) eqn:E; [apply bool_decide_eq_true in E|]. }
    pose proof H as Hrun.
    destruct (settle_entries _ _ _ _ _ _ _ _ e H He Hc) as ((a & m & e' & Hl & Hob) & Ho & Hn & _ & _ & _ & Hmed & _).
    assert (Hm : (forall k m, db_media db !! k = Some m -> exists m', db_media db' !! k = Some m' /\ m_location m' = m_location m) /\
      (forall k m', db_media db' !! k = Some m' -> is_Some (db_media db !! k)) /\ db_next_media db' = db_next_media db).
    { clear -Hrun Hc. unfold settle in Hrun. rewrite Hc in Hrun. unfold Runtime.resolve_conflicts in Hrun. tx_inv Hrun.
      destruct (_ || _).
      - apply place_entries in Hrun as (_ & ps & rs & n & ->). split_and!; [by eauto|by eauto|done].
      - unfold settle_in_place in Hrun. tx_inv Hrun. subst.
        destruct (preserve_metadata _); [split_and!; by eauto|].
        cbn [supersede_pending update_entry update_media db_media db_next_media set_db_publications set_db_entries set_db_media
             set_db_conflicts].
        split_and!; [| |done]; intros k m0; rewrite lookup_update_where.
        + intros ->. eexists. split; [done|]. by destruct (_ && _).
        + destruct (db_media db !! k); [by eexists|done]. }
    destruct Hm as (Hm1 & Hm2 & Hm3).
    apply kept_in_place; [| | |done|done|done].
    + intros k e0 Hk. destruct (decide (k = l_entry l)) as [->|Hne].
      * rewrite He in Hk. injection Hk as <-. exists e'. split; [done|]. intros p Hpp _.
        destruct (settle_same_edits _ _ _ _ _ _ Hob). destruct (only_baseline_track _ _ Hob) as (_ & _ & _ & _ & _ & Hd' & _ & Hp').
        constructor; try done.
        -- rewrite Hp', Hpp. cbn. f_equal. symmetry. apply Hid. congruence.
        -- intros Hdel. rewrite Hd'. cbn. unfold settled, decide_edits, dirty_contains. cbn. rewrite <- Hd, Hdel. done.
      * exists e0. by rewrite Ho.
    + intros k e0 Hk. destruct (decide (k = l_entry l)) as [->|Hne]; [by eexists|]. rewrite Ho in Hk by done. by eexists.
    + intros k m0 Hk Hloc. destruct (Hm1 k m0 Hk) as (m' & ? & Heq). exists m'. split; [done|]. by rewrite Heq.
Qed.

(** Adoption that does not bind only caches the digest it compared. *)
Definition measured (entry : Z) (db db' : Db) : Prop :=
  db' = db \/ exists ob, db' = update_entry entry (set_e_digest (Some ob)) db.
Lemma adoption_Ok job entry photo dirty digests db v db' :
  adoption job entry photo dirty digests db = Ok (v, db') ->
  exists db1, measured entry db db1 /\
    (v <> Bound /\ db' = db1 \/
     v = Bound /\ exists media a m ob, adopt job entry media photo a m ob db1 = Ok (tt, db')).
Proof.
  assert (Hno : forall v0, v0 <> Bound -> forall db0 : Db, exists db1, measured entry db0 db1 /\
    (v0 <> Bound /\ db0 = db1 \/ v0 = Bound /\ exists media a m ob, adopt job entry media photo a m ob db1 = Ok (tt, db0))).
  { intros v0 Hv db0. exists db0. split; [by left|by left]. }
  intros H. unfold adoption in H. tx_inv H. destruct (Runtime.busy db entry); [tx_inv H; by apply Hno|].
  destruct (_ || _); [tx_inv H; by apply Hno|]. tx_inv H.
  destruct (file_of _ _ _) as [media|]; [|tx_inv H; by apply Hno].
  destruct (digests !! relative_path photo) as [ob|]; [|tx_inv H; by apply Hno]. tx_inv H.
  destruct (_ || _); [tx_inv H; by apply Hno|]. tx_inv H.
  exists (update_entry entry (set_e_digest (Some ob)) db). split; [right; by eexists|].
  destruct (same_bytes photo ob); cbn [negb] in H; [|tx_inv H; by left]. tx_inv H.
  destruct (_ ≫= _) as [[a m]|]; [|tx_inv H; by left]. tx_inv H. right. split; [done|].
  match goal with Ha : adopt _ _ _ _ _ _ _ _ = Ok (?u, _) |- _ => destruct u end. by eexists _, _, _, _.
Qed.
Lemma measured_entry entry db db' e :
  measured entry db db' -> db_entries db !! entry = Some e ->
  exists e', db_entries db' !! entry = Some e' /\ e_dirty e' = e_dirty e /\ e_remote e' = e_remote e.
Proof.
  intros [->|[ob ->]] He; [by exists e|]. unfold update_entry. cbn [db_entries set_db_entries].
  rewrite lookup_alter_eq, He. by eexists.
Qed.
Lemma kept_measured tombs entry db db' : measured entry db db' -> kept tombs db db'.
Proof.
  intros [->|[ob ->]]; [done|]. apply kept_update_entry. intros e p _ _ _. constructor; try done; by intros [].
Qed.
Lemma kept_adopt tombs job entry media photo a m ob db db' e :
  adopt job entry media photo a m ob db = Ok (tt, db') -> db_entries db !! entry = Some e ->
  r_photo (e_remote e) = None -> kept tombs db db'.
Proof.
  intros Ha He Hp. destruct (adopt_Ok _ _ _ _ _ _ _ _ _ _ _ Ha He) as (g & _ & Hent & _ & Hn & _ & Hnm & Hmed & _).
  apply kept_in_place; [| | | |done|done]; rewrite ?Hent.
  - intros k e0 Hk. destruct (decide (k = entry)) as [->|Hne].
    + rewrite lookup_insert_eq. eexists. split; [done|]. intros p Hpp. congruence.
    + rewrite lookup_insert_ne by done. by exists e0.
  - intros k e'. destruct (decide (k = entry)) as [->|Hne]; [by eexists|]. rewrite lookup_insert_ne by done. by eexists.
  - intros k m0 Hm Hl. destruct (Hmed k) as (f & -> & Hf). rewrite Hm. eexists. split; [done|]. destruct (Hf m0); lia.
  - intros k m'. destruct (Hmed k) as (f & -> & _). destruct (db_media db !! k); [by eexists|done].
Qed.

Lemma keeping_project tombs digest job photo digests :
  respects (kept tombs) (project_publication digest job photo digests).
Proof.
  intros db c db' H. unfold project_publication in H.
  apply bind_Ok in H as (l & db1 & Hloc & H). destruct (locate_Ok _ _ _ _ _ Hloc) as [Hr Hdesc].
  intros Hids. pose proof (Hr Hids) as Hr1. specialize (Hdesc Hids).
  assert (K : kept tombs db1 db'); [|exact ((transitivity (R := kept tombs) (kept_receipt tombs _ _ Hr) K) Hids)].
  clear Hloc Hr Hids Hr1 db. tx_inv H. etrans.
  { destruct (repair_location_shape job (l_entry l) (photo_id photo) db1) as (P & Heq & _).
    instantiate (1 := repair_location job (l_entry l) (photo_id photo) db1). rewrite Heq. apply kept_update_media. done. }
  set (db2 := repair_location _ _ _ _) in *.
  assert (Hdesc2 : describes l db2) by (unfold describes, db2; by rewrite (proj1 (repair_frame _ _ _ _))).
  clearbody db2. clear Hdesc db1.
  destruct (_ && (_ || _)).
  { destruct (_ || _); tx_inv H; [by apply kept_frame|done]. }
  tx_inv H. destruct (_ && negb _); [by eapply kept_settle|].
  destruct (bool_decide (l_identity l = None)) eqn:Hidn; [|by eapply kept_settle].
  apply bool_decide_eq_true in Hidn. destruct Hdesc2 as (e & He & Hd & Hp).
  apply bind_Ok in H as (v & db3 & Hv & H). destruct (adoption_Ok _ _ _ _ _ _ _ _ Hv) as (db4 & Hmeas & Hcase).
  etrans; [by eapply kept_measured|]. destruct (measured_entry _ _ _ _ Hmeas He) as (e4 & He4 & Hd4 & Hp4).
  assert (Hdesc4 : describes l db4) by (exists e4; split_and!; [done|congruence|by rewrite Hp4]).
  destruct Hcase as [[Hv' ->]|(-> & media & a & m & ob & Ha)].
  - destruct v; [done|by tx_inv H|by eapply kept_settle|by eapply kept_settle].
  - tx_inv H. eapply kept_adopt; [done..|]. rewrite Hp4. congruence.
Qed.

Section KeepPromotion.
Context (file_uri : string -> string) (photo_digest : RemotePhoto -> string) (tombs : list string).
Notation keeping := (respects (kept tombs)).

Lemma carries_clear e : carries e (clear_entry e).
Proof. constructor; try done; by intros []. Qed.
Lemma kept_fold_resources job generation rs db :
  kept tombs db (fold_left (fun db r => upsert_resource job generation r db) rs db).
Proof.
  revert db. induction rs as [|r rs IH]; intros db; simpl; [done|]. etrans; [|apply IH]. by apply kept_frame.
Qed.
Lemma keeping_promote_photo job generation digests photo :
  keeping (promote_photo file_uri photo_digest job generation digests photo).
Proof.
  unfold promote_photo. respect_binds.
  - apply keeping_project.
  - match goal with |- context [match ?o with Some _ => _ | None => _ end] => destruct o as [id|] end; [|by apply respects_mret; apply _].
    intros db u db' H. apply kept_receipt. by eapply receiving_admit.
  - apply respects_modify. intros db. apply kept_update_media. done.
  - apply respects_modify. intros db. apply kept_update_entries. intros k e p _ _ _ _. constructor; try done; by intros [].
  - apply respects_modify. intros db. match goal with |- context [match ?o with Some _ => _ | None => _ end] => destruct o end; [|done].
    apply kept_receipt, receipt_clear_pending.
  - apply respects_modify. intros db. apply kept_delete_entries. intros k e p _ Hb Hp. zbool.
    repeat match goal with H : bool_decide _ = true |- _ => apply bool_decide_eq_true in H end. congruence.
  - match goal with |- respects _ (match ?c with Remote => _ | Local => _ end) => destruct c end; apply respects_modify; intros db.
    + apply kept_fold_resources.
    + destruct (exists_where _ _); [done|]. by apply kept_frame.
Qed.

Lemma keeping_bury job generation name : name ∈ tombs -> keeping (bury job generation name).
Proof.
  intros Hin db u db' H. unfold bury in H. tx_inv H. etrans; [|apply kept_update_entries; intros k e p _ _ _ _; apply carries_clear].
  match goal with Hm : (match ?o with Some _ => _ | None => _ end) db = Ok (_, ?s) |- _ =>
    rename Hm into Hf; transitivity s; [|by apply kept_frame]; destruct o as [[id e]|] eqn:Ho end; [|by tx_inv Hf].
  apply entry_of_photo_Some in Ho as (He & _ & Hp). apply bind_Ok in Hf as ([] & db1 & H1 & ->%modify_Ok).
  transitivity db1; [|by apply kept_frame].
  destruct (e_dirty e =? DELETE).
  - tx_inv H1. destruct (exists_where _ _); [done|]. apply kept_delete_entries. intros k e0 p Hk ->%Z.eqb_eq Hp0.
    rewrite He in Hk. injection Hk as <-. rewrite Hp in Hp0. by injection Hp0 as <-.
  - destruct (e_dirty e =? 0).
    + tx_inv H1. etrans; [|apply kept_update_entry]; [etrans; [|apply kept_update_media]|].
      * apply kept_delete_media. intros k m [_ Hl%Z.eqb_eq]%andb_prop. done.
      * done.
      * intros e0 p He0 Hp0 Hn. cbn [update_media delete_media db_entries set_db_media set_db_entries] in He0.
        rewrite lookup_update_where, He in He0. cbn in He0. injection He0 as <-.
        assert (r_photo (e_remote e) = Some p) by (by destruct (match e_media e with Some _ => _ | None => _ end)).
        congruence.
    + apply write_conflict_entries in H1 as (E1 & E2 & _ & E3 & E4 & _). by apply kept_frame.
Qed.

Lemma keeping_promote job graph target digests :
  (forall name, name ∈ tombstones graph -> name ∈ tombs) -> keeping (promote file_uri photo_digest job graph target digests).
Proof.
  intros Htombs. unfold promote, require_progress. respect_binds.
  - apply respects_for_each; [apply _|]. intros photo _. apply keeping_promote_photo.
  - apply respects_for_each; [apply _|]. intros name Hname. by apply keeping_bury, Htombs.
  - apply respects_modify. intros db. by apply kept_frame.
  - apply respects_modify. intros db. by apply kept_frame.
  - apply respects_modify. intros db. destruct (can_apply _ _); [by apply kept_frame|done].
Qed.
End KeepPromotion.


(** ** Examples *)
Module Sample.
Import SyncDb.Sample.
Definition digest (p : RemotePhoto) : string := photo_id p.
Definition photo : RemotePhoto :=
  let p := Records.Sample.photo in
  mkPhoto (photo_id p) (master_id p) (content_generation p) (relative_path p) true None false (original p) (thumbnail p)
    (thumbnail_source_sha256 p) (mkEvents (Some (mkEvent 5 "device-1" "e1")) (Some (mkEvent 5 "device-1" "e2")) None).
(** The entry of the sample library owns the photo; its metadata edit is later
    than the cloud's, its content edit earlier. *)
Definition owner : Entry :=
  mkEntry 1 (Some 1) "2024/a.jpg" false MODIFIED None 2 (mkTrack 1 0 (Some (mkEvent 9 "device-2" "e9")))
    (mkTrack 1 0 (Some (mkEvent 1 "device-2" "e8"))) no_track None
    (mkRemote (Some "photo-1") (Some "master-1") (Some "a0") (Some "m0") (Some "gen-1") (Some "c0"))%string None None None.
Definition owned_db : Db := set_db_entries {[1 := owner]} db.
Definition cloud_db : Db := set_db_media {[1 := set_m_location 2 SyncDb.Sample.photo]} owned_db.
Definition project : Tx Db ProjectedContent := project_publication digest 1 photo ∅.
Definition owned_after : Db := (transact project owned_db).1.
Definition cloud_after : Db := (transact project cloud_db).1.
(** An unpublished file with the photo's bytes, and the received pair. *)
Definition row_of (r : NativeRecord) : option RecordRow :=
  match TypedRecords.save None r with Ok w => Some w | Err _ => None end.
Definition unclaimed : Entry := set_e_pending_master (row_of Records.Sample.master) (set_e_pending_asset (row_of Records.Sample.asset) entry).
Definition unclaimed_db : Db := set_db_entries {[1 := unclaimed]} db.
Definition digests : gmap string LocalDigest := {["2024/a.jpg"%string := mkDigest 1 2 Records.Sample.zero_hex 11]}.
Definition adopted : Db := (transact (adoption 1 1 photo NEW digests) unclaimed_db).1.
Definition graph : RemoteGraph := mkGraph [] [] ["photo-9"%string].
Definition promoted : Db := (transact (promote id digest 1 graph "t3" ∅) owned_db).1.
End Sample.
Lemma sample_owned_ids : ids_ok Sample.owned_db.
Proof.
  split; [split; [done|]|].
  - intros id e. cbn. intros [<- _]%lookup_singleton_Some. done.
  - intros id m. cbn. intros [<- _]%lookup_singleton_Some. done.
Qed.
Lemma cloud_only_edits_witness :
  exists e', db_entries Sample.cloud_after !! 1 = Some e' /\ has_change Metadata e' = false.
Proof.
  destruct (cloud_only_edits_settled Sample.digest 1 Sample.photo ∅ Sample.cloud_db 1 Sample.owner Remote Sample.cloud_after)
    as (e' & He & _ & _ & Hm & _); [by vm_compute|by vm_compute|by vm_compute|done|done|by vm_compute|].
  exists e'. by split.
Defined.
Lemma adoption_requires_same_bytes_witness :
  exists e', db_entries Sample.adopted = <[1 := e']> (db_entries Sample.unclaimed_db) /\ e_baseline e' = Some Sample.photo.
Proof.
  destruct (adoption_requires_same_bytes 1 1 Sample.photo NEW Sample.digests Sample.unclaimed_db Sample.unclaimed Sample.adopted)
    as (_ & media & observation & e' & _ & Hent & _ & _ & Hb & _); [by vm_compute|done|by vm_compute|].
  exists e'. split; [exact Hent|exact Hb].
Defined.
End Projection.
