(* ===== verification/SyncPlacement.v ===== *)
(** Placing a publication ([Publishing], [Rollback], [CleanPublication], [Admit]
    and the collision commands of [sync/store/runtime.rs]) and the media upsert
    they share with the scanner ([upsert_media_items_in] of [core/db.rs]).

    The files of a publication are placed outside the database. Before that the
    publication is marked [publishing] with what is needed to undo the placement;
    afterwards [Admit] commits the photo. Both check the captured versions, so a
    local edit in between keeps the cloud's version out. *)
From Stdlib Require Import Ascii String.
From S2P Require Import Prelude.
From S2P Require Import Json.
From S2P Require Import Media.
From S2P Require Import SyncDb.
From S2P Require Import NativeRecords.
From S2P Require Import SyncReset.
From S2P Require Import SyncDirty.
From S2P Require Import SyncPublication.
From S2P Require Import SyncRecovery.
From S2P Require Import SyncRuntime.
From S2P Require Import SyncReceive.
From S2P Require Import SyncProjection.
Import Json.
Local Open Scope Z_scope.
Local Open Scope json_scope.

Module Placement.
Import Receive Projection.

(** ** Media rows *)
(** An item to index. [n_mtime_ns] is [file_mtime] in nanoseconds since the epoch
    and [n_flags] the value [media_type_flags] gives for its subkind and
    attributes, which the statements bind beside them. *)
Record NewMediaItem := mkNewItem {
  n_uri : string;
  n_path : string;
  n_folder : string;
  n_mime : string;
  n_width : option Z;
  n_height : option Z;
  n_taken_at : option Z;
  n_mtime_ns : Z;
  n_size : Z;
  n_subkind : string;
  n_attributes : string;
  n_flags : Z;
  n_duration : option Z;
  n_hash : string
}.
(** [ts] and [ts_ns] of a time in nanoseconds. *)
Definition NANOS : Z := 1000000000.
Definition ts (t : Z) : Z := t / NANOS.
Definition ts_ns (t : Z) : Z :=
  if (I64_MIN <=? t) && (t <=? I64_MAX) then t else Z.max I64_MIN (Z.min I64_MAX (ts t * NANOS)).
(** [recovery_target]. *)
Definition recovery_target (p : Publication) : option string :=
  columns ← p_details p; as_str (Recovery.read_scalars Recovery.DETAILS columns).["target"].
(** Another placement owns the item's path. *)
Definition blocked (db : Db) (publication : option string) (item : NewMediaItem) : bool :=
  exists_where (fun _ p => bool_decide (p_state p = PPublishing) && bool_decide (recovery_target p = Some (n_path item))
    && match publication with None => true | Some id => negb (bool_decide (p_id p = id)) end) (db_publications db).

Definition indexed_media (item : NewMediaItem) (m : Media) : Media :=
  mkMedia (m_uri m) (n_path item) (n_folder item) (m_favorite m) (n_taken_at item) None
    (if m_location m =? 2 then 3 else m_location m) (m_thumb_ready m) (ts_ns (n_mtime_ns item)) (n_mime item) (n_width item)
    (n_height item) (as_i64_cast (n_size item)) (ts (n_mtime_ns item)) (Media.kind_value (n_mime item)) (n_subkind item)
    (n_attributes item) (n_flags item) (n_duration item) (n_hash item) (m_generated_at m).
Definition new_media (item : NewMediaItem) : Media :=
  mkMedia (n_uri item) (n_path item) (n_folder item) false (n_taken_at item) None 1 false (ts_ns (n_mtime_ns item)) (n_mime item)
    (n_width item) (n_height item) (as_i64_cast (n_size item)) (ts (n_mtime_ns item)) (Media.kind_value (n_mime item))
    (n_subkind item) (n_attributes item) (n_flags item) (n_duration item) (n_hash item) None.
(** Bytes that changed under a row, unless a publication placed them. *)
Definition content_changed (publication : option string) (item : NewMediaItem) (m : Media) : bool :=
  bool_decide (publication = None)
  && ((m_location m =? 2) || negb (m_mtime_ns m =? ts_ns (n_mtime_ns item)) || negb (m_size m =? as_i64_cast (n_size item))).

(** One item of [upsert_media_items_in]: the id of its row, or nothing when blocked. *)
Definition upsert_one (publication : option string) (stamp : EditEvent) (item : NewMediaItem) : Tx Db (option Z) :=
  stop ← gets (fun db => blocked db publication item);
  if (stop : bool) then mret None
  else
    existing ← gets (fun db => media_by_uri db (n_uri item));
    id ← match existing with
         | Some (id, _) => _ ← modify (fun db => set_db_media (alter (indexed_media item) id (db_media db)) db); mret id
         | None =>
             id ← gets db_next_media;
             _ ← modify (fun db => set_db_media (<[id := new_media item]> (db_media db)) (set_db_next_media (id + 1) db));
             mret id
         end;
    _ ← (if match existing with Some (_, m) => content_changed publication item m | None => false end
         then _ ← Dirty.note id Dirty.Content stamp; mret tt else mret tt);
    mret (Some id).
Fixpoint upsert_media_items_in (publication : option string) (items : list (NewMediaItem * EditEvent)) : Tx Db (list Z) :=
  match items with
  | [] => mret []
  | (item, stamp) :: rest =>
      id ← upsert_one publication stamp item;
      ids ← upsert_media_items_in publication rest;
      mret (match id with Some id => id :: ids | None => ids end)
  end.

(** ** Publication commands *)
Definition set_pub_state (id : string) (P : Publication -> bool) (s : PubState) : Tx Db unit :=
  Recovery.update_pub id (fun p => if P p then set_p_state s p else p).
Definition MISSING_CAPTURE : AppError := Backend "missing publication capture".

(** [Command::CleanPublication] and [Command::Rollback]. *)
Definition clean_publication (id : string) : Tx Db unit := Recovery.set_details id None.
Definition rollback (id : string) : Tx Db unit :=
  _ ← set_pub_state id (fun p => bool_decide (p_state p = PPublishing)) PPending;
  Recovery.set_details id None.
(** [Command::Publishing]. *)
Definition publishing (id : string) (details : Value) : Tx Db unit :=
  doc ← gets (fun db => Recovery.capture db id);
  capture ← need doc MISSING_CAPTURE;
  _ ← check_publication capture;
  _ ← set_pub_state id (fun _ => true) PPublishing;
  Recovery.set_details id (Some details).

(** UNIQUE(uri), UNIQUE(job_id, relative_path) and UNIQUE(job_id, native_photo_id) of an update. *)
Definition uri_free (db : Db) (id : Z) (uri : string) : bool :=
  negb (exists_where (fun k m => bool_decide (m_uri m = uri) && negb (k =? id)) (db_media db)).
Definition path_free (db : Db) (id job : Z) (path : string) : bool :=
  negb (exists_where (fun k e => (e_job e =? job) && bool_decide (e_path e = path) && negb (k =? id)) (db_entries db)).
Definition photo_free (db : Db) (id job : Z) (photo : string) : bool :=
  negb (exists_where (fun k e => (e_job e =? job) && bool_decide (r_photo (e_remote e) = Some photo) && negb (k =? id))
          (db_entries db)).

Definition move_media (media : Z) (uri path folder : string) : Tx Db unit :=
  free ← gets (fun db => uri_free db media uri);
  _ ← ensure free (Constraint "media_items.uri");
  modify (fun db => set_db_media (alter (fun m => set_m_folder folder (set_m_path path (set_m_uri uri m))) media (db_media db)) db).

(** [capture["preserveMetadata"] == true]. *)
Definition preserves (capture : Value) : bool := bool_decide (capture.["preserveMetadata"] = Bool true).
Definition admit_favorite (capture : Value) (photo : RemotePhoto) : bool :=
  if preserves capture then negb (default 0 (as_i64 capture.["favorite"]) =? 0) else is_favorite photo.

Definition verify_role (job : Z) (asset : string) (role : Role) (uri : string) : Tx Db unit :=
  let P db (k : ResKey) (r : Resource) := (k.1.1.1 =? job) && bool_decide (generation_of db job = Some k.1.1.2)
    && bool_decide (k.1.2 = asset) && bool_decide (k.2 = role)
    && (bool_decide (s_state r = RStaged) || bool_decide (s_state r = RVerified)) in
  count ← gets (fun db => count_where (P db) (db_resources db));
  _ ← modify (fun db => set_db_resources (update_where (P db) (fun r => set_s_cache (Some uri) (set_s_state RVerified r))
        (db_resources db)) db);
  ensure (count =? 1)%nat (Backend "publication resource is no longer staged").

Definition admitted_entry (media : Z) (photo : RemotePhoto) (asset_revision master_revision : string)
    (generation : option string) (path : string) (e : Entry) : Entry :=
  set_e_baseline (Some photo)
    (set_e_digest None
      (set_e_path path
        (set_e_remote (mkRemote (Some (photo_id photo)) (Some (master_id photo)) (Some asset_revision) (Some master_revision)
                         generation (Some (content_generation photo)))
          (set_e_media (Some media) e)))).

(** [Command::Admit]. *)
Definition admit_publication (id : string) (photo : RemotePhoto) (item : NewMediaItem) (stamp : EditEvent) : Tx Db unit :=
  doc ← gets (fun db => Recovery.capture db id);
  capture ← need doc MISSING_CAPTURE;
  _ ← check_publication capture;
  let scalars := Recovery.cap_scalars capture in
  entry ← need (as_i64 scalars.["entry"]) (Backend "publication has no entry");
  job ← need (as_i64 scalars.["job"]) (Backend "publication has no job");
  found ← gets (fun db => db_entries db !! entry);
  e ← need found NoRows;
  _ ← match e_media e with
      | Some media => move_media media (n_uri item) (n_path item) (n_folder item)
      | None => mret tt
      end;
  ids ← upsert_media_items_in (Some id) [(item, stamp)];
  media ← need (head ids) (Backend "media admission was blocked");
  _ ← modify (fun db => set_db_media (alter (fun m => set_m_generated_at (Some (db_now db)) (set_m_thumb_ready true (set_m_location 3
        (set_m_favorite (admit_favorite scalars photo) m)))) media (db_media db)) db);
  a ← gets (fun db => record_revision_in db job (photo_id photo));
  asset_revision ← need a (Backend "photo has no confirmed record revision");
  m ← gets (fun db => record_revision_in db job (master_id photo));
  master_revision ← need m (Backend "photo has no confirmed record revision");
  path ← (if preserves scalars then need (as_str scalars.["localRelativePath"]) (Backend "missing local metadata path")
          else mret (relative_path photo));
  free ← gets (fun db => path_free db entry (e_job e) path && photo_free db entry (e_job e) (photo_id photo));
  _ ← ensure free (Constraint "sync_entries.job_id, sync_entries.relative_path");
  _ ← modify (fun db => update_entry entry
        (admitted_entry media photo asset_revision master_revision (generation_of db job) path) db);
  _ ← verify_role job (asset_id (original photo)) RoleOriginal (n_uri item);
  _ ← verify_role job (asset_id (thumbnail photo)) RoleThumbnail (n_uri item);
  set_pub_state id (fun _ => true) PComplete.

(** ** Collisions *)
(** [Command::BeginCollision]. *)
Definition begin_collision (id : string) (capture details : Value) : Tx Db unit :=
  let doc := Recovery.mkCaptureDoc capture None in
  _ ← check_publication doc;
  entry ← need (as_i64 capture.["entry"]) (Backend "collision has no entry");
  busy ← gets (fun db => Runtime.busy db entry);
  _ ← ensure (negb busy) (Backend "an issued operation still owns the local collision");
  job ← need (as_i64 capture.["job"]) (Constraint "NOT NULL sync_publications.job_id");
  taken ← gets (fun db => exists_where (Publications.pub_by_id id) (db_publications db));
  _ ← ensure (negb taken) (Constraint "sync_publications.publication_id");
  _ ← modify (fun db => set_db_publications
        (<[db_next_publication db := mkPub id job (Some entry) (as_str capture.["photo"]) None None None PPublishing None None None None]>
           (db_publications db)) (set_db_next_publication (db_next_publication db + 1) db));
  _ ← Recovery.set_capture id doc;
  Recovery.set_details id (Some details).

Definition COLLISION_REASONS : list string := ADOPTED_REASONS.
(** The relative path of a moved file under a job root ([Path::strip_prefix]). *)
Definition relative_to (root path : string) : option string :=
  Runtime.join_slash <$> Runtime.relative_segments root path.
Definition follow_move (preserved : string) (row : Z * string) : Tx Db unit :=
  match relative_to row.2 preserved with
  | None => mret tt
  | Some relative =>
      found ← gets (fun db => db_entries db !! row.1);
      e ← need found NoRows;
      free ← gets (fun db => path_free db row.1 (e_job e) relative);
      _ ← ensure free (Constraint "sync_entries.job_id, sync_entries.relative_path");
      _ ← modify (update_entry row.1 (fun e => set_e_digest None (set_e_local (e_local e + 1) (set_e_path relative e))));
      Runtime.resolve_conflicts row.1 "local path preserved with a numeric suffix" COLLISION_REASONS
  end.
(** The entries of a media row with their job roots. *)
Definition entries_of_media (db : Db) (media : Z) : list (Z * string) :=
  omap (fun ke : Z * Entry => if bool_decide (e_media ke.2 = Some media)
                 then (fun j => (ke.1, j_root j)) <$> db_jobs db !! e_job ke.2 else None) (rows_by_id (db_entries db)).

Section Collision.
Context (file_uri : string -> string).
(** [Command::FinishCollision]. *)
Definition finish_collision (id : string) : Tx Db unit :=
  doc ← gets (fun db => Recovery.capture db id);
  capture ← need doc (Backend "missing collision capture");
  found ← (fun db => Recovery.details db id db);
  details ← need found (Backend "missing collision details");
  _ ← check_publication capture;
  entry ← need (as_i64 (Recovery.cap_scalars capture).["entry"]) (Backend "collision has no entry");
  source ← need (as_str details.["source"]) (Backend "collision has no source");
  preserved ← need (as_str details.["preserved"]) (Backend "collision has no preserved path");
  row ← gets (fun db => id ← linked_media db entry; m ← db_media db !! id; if bool_decide (m_path m = source) then Some id else None);
  media ← need row NoRows;
  parent ← need (path_parent preserved) (Backend "collision has no parent");
  _ ← move_media media (file_uri preserved) preserved parent;
  rows ← gets (fun db => entries_of_media db media);
  _ ← for_each rows (follow_move preserved);
  _ ← set_pub_state id (fun _ => true) PComplete;
  Recovery.set_details id None.
End Collision.
(** [Command::AbortCollision]. *)
Definition abort_collision (id : string) : Tx Db unit :=
  _ ← set_pub_state id (fun _ => true) PSuperseded;
  Recovery.set_details id None.
(** [Command::Conflict]. *)
Definition conflict (job entry : Z) (detail : string) : Tx Db unit := Recovery.write_conflict job entry detail None.

(** ** Only the captured version is placed *)
Lemma check_publication_run doc db u db' :
  check_publication doc db = Ok (u, db') ->
  db' = db /\ exists job entry, as_i64 (Recovery.cap_scalars doc).["job"] = Some job /\
    as_i64 (Recovery.cap_scalars doc).["entry"] = Some entry /\
    capture_current db (Recovery.cap_scalars doc) job entry = true.
Proof. unfold check_publication. intros H. tx_inv H. split; [done|]. by eexists _, _. Qed.
Lemma capture_current_spec db capture job entry :
  capture_current db capture job entry = true ->
  exists e j, db_entries db !! entry = Some e /\ db_jobs db !! job = Some j /\ e_job e = job /\
    as_i64 capture.["local"] = Some (e_local e) /\ as_i64 capture.["config"] = Some (j_config j) /\
    e_dirty e = default 0 (as_i64 capture.["dirty"]) /\ db_changes db !! job = None.
Proof.
  unfold capture_current. destruct (db_entries db !! entry) as [e|]; [|done]. destruct (db_jobs db !! job) as [j|]; [|done].
  intros H. zbool. repeat match goal with H : bool_decide _ = true |- _ => apply bool_decide_eq_true in H end.
  by exists e, j.
Qed.
(** A capture that names another local version is refused. *)
Lemma check_publication_stale doc job entry db :
  as_i64 (Recovery.cap_scalars doc).["job"] = Some job -> as_i64 (Recovery.cap_scalars doc).["entry"] = Some entry ->
  (forall e, db_entries db !! entry = Some e -> as_i64 (Recovery.cap_scalars doc).["local"] <> Some (e_local e)) ->
  check_publication doc db = Err SUPERSEDED_LOCALLY.
Proof.
  intros Hj He Hstale. unfold check_publication. rewrite Hj, He.
  erewrite bind_run by done. erewrite bind_run by done. erewrite bind_run by done. apply bind_Err. unfold ensure.
  destruct (capture_current _ _ _ _) eqn:Hc; [|done].
  destruct (capture_current_spec _ _ _ _ Hc) as (e & j & Hk & _ & _ & Hl & _). by destruct (Hstale e Hk).
Qed.

(** A local edit keeps the cloud's version out. Whenever a publication was
    acceptable and the user then edits its entry (metadata, content or
    deletion), both the start of its placement and its admission are refused
    and change nothing: the edited file is not replaced. *)
Theorem edit_invalidates_placement id entry doc category stamp db r db1 :
  Recovery.capture db id = Some doc -> as_i64 (Recovery.cap_scalars doc).["entry"] = Some entry ->
  check_publication doc db = Ok (tt, db) -> Dirty.mark entry category stamp db = Ok (r, db1) ->
  (forall details, transact (publishing id details) db1 = (db1, Err SUPERSEDED_LOCALLY)) /\
  (forall photo item stamp', transact (admit_publication id photo item stamp') db1 = (db1, Err SUPERSEDED_LOCALLY)).
Proof.
  intros Hcap Hent Hok Hmark. destruct (check_publication_run _ _ _ _ Hok) as (_ & job & entry' & Hj & Hent' & Hcur).
  rewrite Hent in Hent'. injection Hent' as <-. destruct (capture_current_spec _ _ _ _ Hcur) as (e & j & He & _ & _ & Hl & _).
  unfold Dirty.mark in Hmark. tx_inv Hmark. subst.
  set (db1 := set_db_entries _ db). assert (Hcap1 : Recovery.capture db1 id = Some doc) by exact Hcap.
  assert (Hstale : check_publication doc db1 = Err SUPERSEDED_LOCALLY).
  { apply (check_publication_stale doc job entry); [done..|]. intros e1. unfold db1. cbn [db_entries set_db_entries].
    rewrite lookup_alter_eq, He. intros [= <-]. rewrite Hl. intros [= Heq].
    assert (Hloc : e_local (Dirty.mark_entry category stamp e) = e_local e + 1) by (by destruct category). lia. }
  unfold transact, publishing, admit_publication. split; intros.
  - erewrite bind_run by done. rewrite Hcap1. erewrite bind_run by done. by erewrite bind_Err.
  - erewrite bind_run by done. rewrite Hcap1. erewrite bind_run by done. by erewrite bind_Err.
Qed.

(** ** What admission commits *)
Ltac run_parts :=
  repeat match goal with
  | H : (_ ≫= _) _ = Ok _ |- _ => tx_inv H
  | H : (mret _ : Tx Db _) _ = Ok _ |- _ => apply mret_Ok in H as [? ?]; subst
  end.
Lemma move_media_Ok media uri path folder db u db' :
  move_media media uri path folder db = Ok (u, db') -> exists ms, db' = set_db_media ms db.
Proof. unfold move_media. intros H. tx_inv H. by eexists. Qed.
Lemma upsert_placed_Ok id item stamp db ids db' :
  upsert_media_items_in (Some id) [(item, stamp)] db = Ok (ids, db') ->
  exists ms n, db' = set_db_next_media n (set_db_media ms db).
Proof.
  cbn [upsert_media_items_in]. intros H. tx_inv H. unfold upsert_one in Hrun. tx_inv Hrun.
  destruct (blocked _ _ _). { tx_inv Hrun. exists (db_media db), (db_next_media db). by destruct db. }
  tx_inv Hrun. destruct (media_by_uri db (n_uri item)) as [[k m]|].
  - unfold content_changed in *. rewrite (bool_decide_false (Some id = None)) in * by done. cbn [andb] in *.
    run_parts. exists (alter (indexed_media item) k (db_media db)), (db_next_media db). by destruct db.
  - run_parts. by eexists _, _.
Qed.
Lemma verify_role_Ok job asset role uri db u db' :
  verify_role job asset role uri db = Ok (u, db') ->
  exists rs, db' = set_db_resources rs db /\
    (forall k r, db_resources db !! k = Some r -> exists r', rs !! k = Some r' /\
       (k.1.2 = asset /\ k.2 = role \/ r' = r) /\ (s_state r = RVerified -> s_state r' = RVerified)) /\
    exists g r', generation_of db job = Some g /\ rs !! (job, g, asset, role) = Some r' /\ s_state r' = RVerified /\
      s_cache r' = Some uri.
Proof.
  unfold verify_role. intros H. tx_inv H. set (P := fun k r => _) in *.
  exists (update_where P (fun r => set_s_cache (Some uri) (set_s_state RVerified r)) (db_resources db)). split; [done|]. split.
  - intros k r Hk. rewrite lookup_update_where, Hk. eexists. split; [done|]. destruct (P k r) eqn:HP; [|by split; [right|]].
    split; [|done]. left. unfold P in HP. zbool.
    repeat match goal with H : bool_decide _ = true |- _ => apply bool_decide_eq_true in H end. done.
  - match goal with Hc : (count_where ?Q ?t =? 1)%nat = true |- _ => apply Nat.eqb_eq in Hc; rename Hc into Hcount end.
    destruct (exists_where P (db_resources db)) eqn:Hex.
    + apply exists_where_true in Hex as (k & r & Hk & HP). pose proof HP as HP0. unfold P in HP0. zbool.
      repeat match goal with H : bool_decide _ = true |- _ => apply bool_decide_eq_true in H end.
      destruct k as [[[j g] a] ro]. cbn in *. subst. eexists g, _. split; [done|]. rewrite lookup_update_where, Hk. cbn.
      by rewrite HP.
    + exfalso. rewrite exists_where_false in Hex. unfold count_where in Hcount.
      match type of Hcount with length ?l = _ => destruct l as [|[k r] rest] eqn:Hl end; [done|].
      assert (Hin : (k, r) ∈ (k, r) :: rest) by left. rewrite <- Hl in Hin. apply list_elem_of_filter in Hin as [HP Hin].
      apply elem_of_map_to_list in Hin. cbn in HP. by rewrite (Hex k r Hin) in HP.
Qed.

(** Only media rows change before the photo is bound. *)
Lemma placed_media e id item stamp db u db1 ids db2 :
  match e_media e with
  | Some media => move_media media (n_uri item) (n_path item) (n_folder item)
  | None => mret tt
  end db = Ok (u, db1) ->
  upsert_media_items_in (Some id) [(item, stamp)] db1 = Ok (ids, db2) ->
  exists ms n, db2 = set_db_next_media n (set_db_media ms db).
Proof.
  intros Hm (ms & n & ->)%upsert_placed_Ok. destruct (e_media e).
  - apply move_media_Ok in Hm as [ms' ->]. by eexists _, _.
  - tx_leaf Hm. by eexists _, _.
Qed.
Lemma set_pub_state_Ok id P st db u db' :
  set_pub_state id P st db = Ok (u, db') ->
  db' = set_db_publications (update_where (Publications.pub_by_id id) (fun p => if P p then set_p_state st p else p)
          (db_publications db)) db.
Proof. unfold set_pub_state, Recovery.update_pub. intros H. by tx_inv H. Qed.
#[local] Opaque verify_role set_pub_state.

(** Every write of a successful admission. *)
Lemma admit_Ok id photo item stamp db u db' :
  admit_publication id photo item stamp db = Ok (u, db') ->
  exists doc job entry e e', Recovery.capture db id = Some doc /\
    capture_current db (Recovery.cap_scalars doc) job entry = true /\
    db_entries db !! entry = Some e /\ db_entries db' = <[entry := e']> (db_entries db) /\
    r_photo (e_remote e') = Some (photo_id photo) /\ r_master (e_remote e') = Some (master_id photo) /\
    e_baseline e' = Some photo /\ e_local e' = e_local e /\ (forall c, Dirty.track c e' = Dirty.track c e) /\
    e_dirty e' = e_dirty e /\
    (forall asset role, (asset, role) = (asset_id (original photo), RoleOriginal) \/
                        (asset, role) = (asset_id (thumbnail photo), RoleThumbnail) ->
       exists g r, generation_of db job = Some g /\ db_resources db' !! (job, g, asset, role) = Some r /\
         s_state r = RVerified /\ s_cache r = Some (n_uri item)) /\
    db_publications db' = update_where (Publications.pub_by_id id) (set_p_state PComplete) (db_publications db).
Proof.
  intros H. unfold admit_publication in H. tx_inv H.
  match goal with Hc : check_publication ?d _ = Ok _ |- _ =>
    rename d into doc; destruct (check_publication_run _ _ _ _ Hc) as (-> & job & entry & Hj & He & Hcur) end.
  repeat match goal with H1 : as_i64 _ = Some ?x |- _ => first [rewrite Hj in H1; injection H1 as <-|rewrite He in H1; injection H1 as <-] end.
  match goal with Hm : match e_media ?e with _ => _ end _ = Ok (_, ?d1), Hu : upsert_media_items_in _ _ ?d1 = Ok (_, ?d2),
     Hp : (if preserves _ then _ else _) _ = Ok (_, ?d3) |- _ =>
    rename e into e0; destruct (placed_media _ _ _ _ _ _ _ _ _ Hm Hu) as (ms & n & ->);
    assert (Hd3 : exists ms', d3 = set_db_next_media n (set_db_media ms' db));
    [by destruct (preserves _); tx_leaf Hp; eexists|] end.
  destruct Hd3 as [ms' ->].
  match goal with Hv : verify_role _ _ RoleOriginal _ _ = Ok _, Hw : verify_role _ _ RoleThumbnail _ _ = Ok _ |- _ =>
    apply verify_role_Ok in Hv as (rs & -> & _ & g & r1 & Hg & Hr1 & Hs1 & Hc1);
    apply verify_role_Ok in Hw as (rs' & -> & Hrs' & g' & r2 & Hg' & Hr2 & Hs2 & Hc2) end.
  apply set_pub_state_Ok in H as ->.
  match goal with He0 : db_entries db !! entry = Some _ |- _ => rename He0 into Hentry end.
  exists doc, job, entry, e0. eexists. do 3 (split; [done|]).
  split. { cbn [db_entries set_db_publications set_db_resources update_entry set_db_entries set_db_next_media set_db_media].
    apply map_eq. intros k. destruct (decide (k = entry)) as [->|Hk]; [by rewrite lookup_alter_eq, Hentry, lookup_insert_eq|].
    by rewrite lookup_alter_ne, lookup_insert_ne. }
  do 4 (split; [done|]). split; [by intros []|]. split; [done|]. split.
  - intros asset role [[= -> ->]|[= -> ->]].
    + destruct (Hrs' _ _ Hr1) as (r' & Hr' & [[_ Hbad]|Heq] & Hs'); [done|subst r'].
      exists g, r1. done.
    + by exists g', r2.
  - done.
Qed.

(** C29: Admission commits a whole photo or nothing. When it succeeds, the
    publication's capture named the entry's present local version, state and
    the job's configuration; the entry now carries the photo's identity and
    baseline with its edits untouched and no other entry changed; both
    resources of the current generation are verified at the library file; and
    the publication is complete. *)
Theorem admission_commits_pair id photo item stamp db u db' :
  admit_publication id photo item stamp db = Ok (u, db') ->
  exists doc job entry e e', Recovery.capture db id = Some doc /\
    capture_current db (Recovery.cap_scalars doc) job entry = true /\
    db_entries db !! entry = Some e /\ db_entries db' = <[entry := e']> (db_entries db) /\
    r_photo (e_remote e') = Some (photo_id photo) /\ r_master (e_remote e') = Some (master_id photo) /\
    e_baseline e' = Some photo /\ e_local e' = e_local e /\ (forall c, Dirty.track c e' = Dirty.track c e) /\
    e_dirty e' = e_dirty e /\
    (forall asset role, (asset, role) = (asset_id (original photo), RoleOriginal) \/
                        (asset, role) = (asset_id (thumbnail photo), RoleThumbnail) ->
       exists g r, generation_of db job = Some g /\ db_resources db' !! (job, g, asset, role) = Some r /\
         s_state r = RVerified /\ s_cache r = Some (n_uri item)) /\
    (forall k p, db_publications db' !! k = Some p -> p_id p = id -> p_state p = PComplete).
Proof.
  intros (doc & job & entry & e & e' & ? & ? & ? & ? & ? & ? & ? & ? & ? & ? & ? & Hp)%admit_Ok.
  exists doc, job, entry, e, e'. split_and!; try done.
  intros k p. rewrite Hp, lookup_update_where. destruct (db_publications db !! k) as [p0|]; [|done].
  intros [= <-]. unfold Publications.pub_by_id. by destruct (bool_decide_reflect (p_id p0 = id)).
Qed.

(** ** Examples *)
Module Sample.
Import Projection.Sample.
(** The cloud's version of the sample photo, received and downloaded. *)
Definition received : Db := (transact (promote id digest 1 (Records.mkGraph [photo] [] []) "t3" ∅) owned_db).1.
Definition ready : Db := set_db_resources (set_s_state RStaged <$> db_resources received) received.
Definition pub : string := publication_id digest 1 photo.
Definition doc : Recovery.CaptureDoc := default (Recovery.mkCaptureDoc Null None) (Recovery.capture ready pub).
Definition item : NewMediaItem :=
  mkNewItem "file:///photos/2024/a.jpg" "/photos/2024/a.jpg" "/photos/2024" "image/jpeg" None None None 7 11 "standard" "{}" 0 None "".
Definition stamp : EditEvent := mkEvent 20 "device-2" "e20".
Definition admitted : Db := (transact (admit_publication pub photo item stamp) ready).1.
Definition edited : Db := (transact (Dirty.mark 1 Dirty.Content stamp) ready).1.
End Sample.
Lemma edit_invalidates_placement_witness :
  transact (admit_publication Sample.pub Projection.Sample.photo Sample.item Sample.stamp) Sample.edited = (Sample.edited, Err SUPERSEDED_LOCALLY).
Proof.
  assert (H : exists r, Dirty.mark 1 Dirty.Content Sample.stamp Sample.ready = Ok (r, Sample.edited))
    by (eexists; vm_compute; reflexivity).
  destruct H as [r H].
  destruct (edit_invalidates_placement Sample.pub 1 Sample.doc Dirty.Content Sample.stamp Sample.ready r Sample.edited)
    as [_ Ha]; [by vm_compute|by vm_compute|by vm_compute|exact H|]. apply Ha.
Defined.
Lemma admission_commits_pair_witness :
  exists entry e', db_entries Sample.admitted = <[entry := e']> (db_entries Sample.ready) /\
    e_baseline e' = Some Projection.Sample.photo /\
    (forall k p, db_publications Sample.admitted !! k = Some p -> p_id p = Sample.pub -> p_state p = PComplete).
Proof.
  destruct (admission_commits_pair Sample.pub Projection.Sample.photo Sample.item Sample.stamp Sample.ready tt Sample.admitted)
    as (doc & job & entry & e & e' & _ & _ & _ & Hent & _ & _ & Hb & _ & _ & _ & _ & Hp); [by vm_compute|].
  exists entry, e'. split; [exact Hent|]. split; [exact Hb|exact Hp].
Defined.
End Placement.
