(* ===== verification/MediaQueries.v ===== *)
(** Reading the library: the page, count, rank and neighbour queries of
    [core/db.rs] and the [MediaRepository] of [core/repository.rs] above them.

    A query is a condition on rows and an order, newest first. The grid pages
    through the rows of a query, the viewer asks for the position of a photo and
    its neighbours, and section headers come from counts per day. Each of these
    is a statement of its own. The theorems compare them with one list: the rows
    of the query in order. *)
From Stdlib Require Import Ascii String.
From S2P Require Import Prelude.
From S2P Require Import Media.
From S2P Require Import SearchText.
From S2P Require Import SectionModel.
From S2P Require Import SyncDb.
From S2P Require Import SyncReceive.
From S2P Require Import SyncProjection.
From S2P Require Import SyncPlacement.
From stdpp Require Import pretty.
Local Open Scope Z_scope.

Module Queries.
Import Receive Placement.

(** ** Queries *)
Inductive SearchField := FieldAll | FieldName | FieldDate.
Inductive MediaQuery :=
  | LiveAll
  | Search (term : string) (field : SearchField)
  | SearchKind (term media_kind : string) (field : SearchField)
  | AlbumFolder (path : string)
  | Favorites
  | Images
  | Videos
  | MotionPhotos
  | MediaType (media_type : Media.LogicalMediaType)
  | Trash.

(** A condition of a [WHERE] clause, and the rows it selects from a table. *)
Definition Where := Z -> Media -> bool.
Definition both (P Q : Where) : Where := fun id m => P id m && Q id m.
Definition live : Where := fun _ m => bool_decide (m_trashed_at m = None).
Definition trashed_only : Where := fun _ m => negb (bool_decide (m_trashed_at m = None)).
Definition in_folder (folder : string) : Where := fun _ m => bool_decide (m_folder m = folder).
Definition favorite : Where := fun _ m => m_favorite m.
Definition of_kind (kind : string) : Where := fun _ m => bool_decide (m_kind m = kind).
Definition of_subkind (subkind : string) : Where := fun _ m => bool_decide (m_subkind m = subkind).
Definition of_type (t : Media.LogicalMediaType) : Where := fun _ m => Media.sql_predicate t (m_flags m).

(** The view [visible_media]: a photo that is only in the cloud is shown when its
    thumbnail is here and an enabled connection offers it. *)
Definition offered (db : Db) (id : Z) : bool :=
  exists_where (fun _ e => bool_decide (e_media e = Some id) && job_enabled db (e_job e) && negb (e_dirty e =? 4)) (db_entries db).
Definition visible (db : Db) : Where := fun id m => negb (m_location m =? 2) || m_thumb_ready m && offered db id.
Definition visible_media (db : Db) : gmap Z Media := delete_where (fun id m => negb (visible db id m)) (db_media db).

(** ** Order *)
(** [COALESCE(taken_at, file_mtime)] and [media_sort_expr]. *)
Definition sort_time (m : Media) : Z := default (m_mtime m) (m_taken_at m).
Definition media_sort_expr (trashed : bool) (m : Media) : option Z := if trashed then m_trashed_at m else Some (sort_time m).
(** NULL is below every number in an order, and no comparison with it holds. *)
Definition key_lt (a b : option Z) : bool :=
  match a, b with None, Some _ => true | Some a, Some b => a <? b | _, None => false end.
Definition sql_cmp (op : Z -> Z -> bool) (a : option Z) (b : Z) : bool := match a with Some a => op a b | None => false end.
(** [x] comes strictly before [y] in [ORDER BY key DESC, id DESC]. *)
Definition before (key : Media -> option Z) (x y : Z * Media) : bool :=
  key_lt (key y.2) (key x.2) || bool_decide (key x.2 = key y.2) && (y.1 <? x.1).
Definition descending (key : Media -> option Z) (x y : Z * Media) : Prop := before key y x = false.
Definition ascending (key : Media -> option Z) (x y : Z * Media) : Prop := before key x y = false.
#[export] Instance descending_dec key : RelDecision (descending key).
Proof. intros x y. unfold descending. apply _. Defined.
#[export] Instance ascending_dec key : RelDecision (ascending key).
Proof. intros x y. unfold ascending. apply _. Defined.

Definition rows_where (P : Where) (t : gmap Z Media) : list (Z * Media) :=
  base.filter (fun r : Z * Media => P r.1 r.2 = true) (map_to_list t).
Definition ordered (key : Media -> option Z) (P : Where) (t : gmap Z Media) : list (Z * Media) :=
  merge_sort (descending key) (rows_where P t).
Definition ordered_asc (key : Media -> option Z) (P : Where) (t : gmap Z Media) : list (Z * Media) :=
  merge_sort (ascending key) (rows_where P t).
Definition count_of (P : Where) (t : gmap Z Media) : Z := Z.of_nat (count_where P t).
(** [LIMIT limit OFFSET offset]. *)
Definition page_of {A} (offset limit : Z) (l : list A) : list A := take (Z.to_nat limit) (drop (Z.to_nat offset) l).

(** A count read as [u32]. *)
Definition as_u32 (n : Z) : result Z := if n <=? U32_MAX then Ok n else Err (Conversion "IntegralValueOutOfRange").
Definition as_u64_cast (n : Z) : Z := n mod 18446744073709551616.

Inductive Zone := Utc | Localtime.

(** [date_of zone t]: the civil date SQLite gives the epoch second [t], nothing
    outside the years it supports; [timestamp_ok]: chrono represents the second. *)
Section Queries.
Context (date_of : Zone -> Z -> option (Z * Z * Z)) (timestamp_ok : Z -> bool).

(** ** Rows *)
Definition required_ts (t : Z) : result Z := if timestamp_ok t then Ok (t * NANOS) else Err (Conversion "invalid timestamp").
Definition optional_ts (t : option Z) : result (option Z) :=
  match t with Some t => x ← required_ts t; Ok (Some x) | None => Ok None end.
Definition row_mtime (m : Media) : result Z :=
  if m_mtime_ns m =? 0 then required_ts (m_mtime m)
  else if timestamp_ok (ts (m_mtime_ns m)) then Ok (m_mtime_ns m) else Err (Conversion "invalid nanosecond timestamp").
Definition row_location (m : Media) : result Media.MediaLocation :=
  if m_location m =? 1 then Ok Media.Local else if m_location m =? 2 then Ok Media.Cloud
  else if m_location m =? 3 then Ok Media.Both else Err (Conversion "invalid media storage location").
Definition row_to_media_item (r : Z * Media) : result Media.MediaItem :=
  let m := r.2 in
  taken ← optional_ts (m_taken_at m);
  mtime ← row_mtime m;
  trashed ← optional_ts (m_trashed_at m);
  location ← row_location m;
  Ok (Media.mkMediaItem r.1 (m_uri m) (m_path m) (m_folder m) (m_mime m) (m_subkind m) (m_attributes m) (m_width m) (m_height m)
        (m_duration m) taken mtime (as_u64_cast (m_size m)) (m_hash m) (m_favorite m) trashed location (m_thumb_ready m)).
Definition to_items (rows : list (Z * Media)) : result (list Media.MediaItem) := mapM row_to_media_item rows.

Definition get_media_item (db : Db) (id : Z) : result Media.MediaItem :=
  m ← ok_or_err (db_media db !! id) NoRows; row_to_media_item (id, m).
Definition get_media_item_by_uri (db : Db) (uri : string) : result (option Media.MediaItem) :=
  match media_by_uri db uri with Some r => x ← row_to_media_item r; Ok (Some x) | None => Ok None end.

(** ** Search *)
(** [strftime('%Y-%m-%d', ...)]: a four-digit year and two-digit month and day. *)
Definition padded (width : nat) (n : Z) : string :=
  let s := pretty n in (String.concat "" (replicate (width - String.length s) "0"%string) +:+ s)%string.
Definition date_text (zone : Zone) (m : Media) : option string :=
  (fun d => padded 4 d.1.1 +:+ "-" +:+ padded 2 d.1.2 +:+ "-" +:+ padded 2 d.2)%string <$> date_of zone (sort_time m).
Definition name_matches (term : string) (m : Media) : bool :=
  Text.like (Text.lower (Text.search_like_pattern term)) (Text.lower (Text.chars (m_path m))).
Definition date_matches (zone : Zone) (term : string) (m : Media) : bool :=
  match date_text zone m with Some t => Text.like (Text.search_like_pattern term) (Text.chars t) | None => false end.
Definition field_clause (zone : Zone) (term : string) (field : SearchField) : Where := fun _ m =>
  match field with
  | FieldAll => name_matches term m || date_matches zone term m
  | FieldName => name_matches term m
  | FieldDate => date_matches zone term m
  end.
Definition search_where (zone : Zone) (term : string) (media_kind : option string) (field : SearchField) : Where :=
  match media_kind with
  | Some kind => both live (both (of_kind kind) (field_clause zone term field))
  | None => both live (field_clause zone term field)
  end.

(** ** Counts and pages *)
Definition newest : Media -> option Z := media_sort_expr false.
Definition count_live_media (db : Db) : Z := count_of live (visible_media db).
Definition count_live_media_search (db : Db) (term : string) (kind : option string) (field : SearchField) : Z :=
  count_of (search_where Localtime term kind field) (visible_media db).
Definition count_media_by_folder (db : Db) (folder : string) : Z := count_of (both live (in_folder folder)) (visible_media db).
Definition count_favorite_media (db : Db) : Z := count_of (both live favorite) (visible_media db).
Definition count_media_by_kind (db : Db) (kind : string) : Z := count_of (both live (of_kind kind)) (visible_media db).
Definition count_media_by_subkind (db : Db) (subkind : string) : Z := count_of (both live (of_subkind subkind)) (visible_media db).
Definition count_media_by_logical_type (db : Db) (t : Media.LogicalMediaType) : Z := count_of (both live (of_type t)) (visible_media db).
Definition count_trashed_media (db : Db) : Z := count_of trashed_only (db_media db).

Definition list_all_media (db : Db) : result (list Media.MediaItem) := to_items (ordered newest live (visible_media db)).
Definition list_media_page (db : Db) (offset limit : Z) : result (list Media.MediaItem) :=
  to_items (page_of offset limit (ordered newest live (visible_media db))).
Definition list_media_search_page (db : Db) (term : string) (kind : option string) (field : SearchField) (offset limit : Z)
  : result (list Media.MediaItem) :=
  to_items (page_of offset limit (ordered newest (search_where Localtime term kind field) (visible_media db))).
Definition list_media_by_folder_page (db : Db) (folder : string) (offset limit : Z) : result (list Media.MediaItem) :=
  to_items (page_of offset limit (ordered newest (both live (in_folder folder)) (visible_media db))).
Definition list_favorite_media_page (db : Db) (offset limit : Z) : result (list Media.MediaItem) :=
  to_items (page_of offset limit (ordered newest (both live favorite) (visible_media db))).
Definition list_media_by_kind_page (db : Db) (kind : string) (offset limit : Z) : result (list Media.MediaItem) :=
  to_items (page_of offset limit (ordered newest (both live (of_kind kind)) (visible_media db))).
Definition list_media_by_subkind_page (db : Db) (subkind : string) (offset limit : Z) : result (list Media.MediaItem) :=
  to_items (page_of offset limit (ordered newest (both live (of_subkind subkind)) (visible_media db))).
Definition list_media_by_logical_type_page (db : Db) (t : Media.LogicalMediaType) (offset limit : Z) : result (list Media.MediaItem) :=
  to_items (page_of offset limit (ordered newest (both live (of_type t)) (visible_media db))).
Definition list_trashed_media_page (db : Db) (offset limit : Z) : result (list Media.MediaItem) :=
  to_items (page_of offset limit (ordered m_trashed_at trashed_only (db_media db))).
Definition list_trashed_media (db : Db) : result (list Media.MediaItem) := list_trashed_media_page db 0 U32_MAX.
Definition list_media_by_folder (db : Db) (folder : string) : result (list Media.MediaItem) :=
  list_media_by_folder_page db folder 0 U32_MAX.

(** ** Days *)
Definition tally (dates : list (Z * Z * Z)) : list (Z * Z * Z * Z) :=
  (fun d => (d, Z.of_nat (length (base.filter (d =.) dates)) mod 4294967296)) <$> remove_dups dates.
(** [count_media_by_date_for_filter]: a row without a date cannot be read. *)
Definition count_media_by_date_for_filter (db : Db) (P : Where) : result (list (Z * Z * Z * Z)) :=
  dates ← mapM (fun r : Z * Media => ok_or_err (date_of Localtime (sort_time r.2)) (Conversion "InvalidColumnType"))
               (rows_where P (visible_media db));
  Ok (tally dates).
Definition count_live_media_by_date (db : Db) : result (list (Z * Z * Z * Z)) := count_media_by_date_for_filter db live.

(** ** Ranks and neighbours *)
Definition rank_before (db : Db) (P : Where) (trashed : bool) (sort_key id : Z) : result Z :=
  let sort := media_sort_expr trashed in
  as_u32 (count_of (both P (fun k m => sql_cmp Z.geb (sort m) sort_key && (sql_cmp Z.gtb (sort m) sort_key || (k >? id))))
            (visible_media db)).
Definition rank_and_total (db : Db) (P : Where) (trashed : bool) (sort_key id : Z) : result (Z * Z) :=
  total ← as_u32 (count_of P (visible_media db));
  index ← rank_before db P trashed sort_key id;
  Ok (index, total).
(** The sort key of a row of the query, if it is one. *)
Definition current_sort (db : Db) (P : Where) (trashed : bool) (id : Z) : result (option Z) :=
  match visible_media db !! id with
  | Some m => if P id m then t ← ok_or_err (media_sort_expr trashed m) (Conversion "InvalidColumnType"); Ok (Some t) else Ok None
  | None => Ok None
  end.
Definition media_position (db : Db) (id : Z) (P : Where) (trashed : bool) : result (option (Z * Z)) :=
  sort ← current_sort db P trashed id;
  match sort with
  | None => Ok None
  | Some item_sort => rt ← rank_and_total db P trashed item_sort id; Ok (Some (rt.1 + 1, rt.2))
  end.
(** The walk of [media_ranks_in_order], which stops at the last wanted row. *)
Fixpoint ranks_walk (wanted : gset Z) (rows : list Z) (rank : Z) (ranks : gmap Z Z) : gmap Z Z :=
  match rows with
  | [] => ranks
  | id :: rest =>
      if decide (id ∈ wanted) then
        let ranks := <[id := rank]> ranks in
        if (size ranks =? size wanted)%nat then ranks else ranks_walk wanted rest (u32_saturating_add rank 1) ranks
      else ranks_walk wanted rest (u32_saturating_add rank 1) ranks
  end.
Definition media_ranks_in_order (db : Db) (ids : list Z) (P : Where) (trashed : bool) : gmap Z Z :=
  match ids with
  | [] => ∅
  | _ => ranks_walk (list_to_set ids) ((ordered (media_sort_expr trashed) P (visible_media db)).*1) 0 ∅
  end.
Definition seek_media_neighbor (db : Db) (id delta : Z) (P : Where) (trashed : bool) : result (option Media.MediaItem) :=
  if delta =? 0 then Ok None
  else
    let sort := media_sort_expr trashed in
    current ← current_sort db P trashed id;
    match current with
    | None => Ok None
    | Some time =>
        let rows :=
          if 0 <? delta
          then ordered sort (both P (fun k m => sql_cmp Z.leb (sort m) time && (sql_cmp Z.ltb (sort m) time || (k <? id))))
                 (visible_media db)
          else ordered_asc sort (both P (fun k m => sql_cmp Z.geb (sort m) time && (sql_cmp Z.gtb (sort m) time || (k >? id))))
                 (visible_media db) in
        match rows !! Z.to_nat (Z.abs delta - 1) with
        | Some r => x ← row_to_media_item r; Ok (Some x)
        | None => Ok None
        end
    end.
(** [media_neighbor_with_filter_and_order]: the neighbour with its rank. *)
Definition media_neighbor_with_filter_and_order (db : Db) (id delta : Z) (P : Where) (trashed : bool)
  : result (option (Z * Z * Media.MediaItem)) :=
  found ← seek_media_neighbor db id delta P trashed;
  match found with
  | None => Ok None
  | Some item =>
      let item_sort := ts (if trashed then default (Media.file_mtime item) (Media.trashed_at item) else Media.sort_datetime item) in
      rt ← rank_and_total db P trashed item_sort (Media.id item);
      Ok (Some (rt.1, rt.2, item))
  end.
Definition search_media_neighbor (db : Db) (term : string) (kind : option string) (field : SearchField) (id delta : Z) :=
  media_neighbor_with_filter_and_order db id delta (search_where Localtime term kind field) false.

(** ** The repository *)
(** [search_count_filter] reads dates in UTC. *)
Definition search_count_filter (term : string) (kind : option string) (field : SearchField) : Where :=
  search_where Utc term kind field.
Definition nav_projection (q : MediaQuery) : Where * bool :=
  let trashed := match q with Trash => true | _ => false end in
  let filter := match q with
    | LiveAll => live
    | Trash => trashed_only
    | AlbumFolder path => both live (in_folder path)
    | Favorites => both live favorite
    | Images => both live (of_kind "image")
    | Videos => both live (of_kind "video")
    | MotionPhotos => both live (of_type Media.MotionPhoto)
    | MediaType t => both live (of_type t)
    | Search term field => search_count_filter term None field
    | SearchKind term kind field => search_count_filter term (Some kind) field
    end in
  (filter, trashed).
Definition count (db : Db) (q : MediaQuery) : result Z :=
  let n := match q with
    | LiveAll => count_live_media db
    | Search term field => count_live_media_search db term None field
    | SearchKind term kind field => count_live_media_search db term (Some kind) field
    | Trash => count_trashed_media db
    | AlbumFolder path => count_media_by_folder db path
    | Favorites => count_favorite_media db
    | Images => count_media_by_kind db "image"
    | Videos => count_media_by_kind db "video"
    | MotionPhotos => count_media_by_logical_type db Media.MotionPhoto
    | MediaType t => count_media_by_logical_type db t
    end in
  if n <=? U32_MAX then Ok n else Err (Backend "media count does not fit u32").
Definition items (db : Db) (q : MediaQuery) (start limit : Z) : result (list Media.MediaItem) :=
  match q with
  | LiveAll => list_media_page db start limit
  | Search term field => list_media_search_page db term None field start limit
  | SearchKind term kind field => list_media_search_page db term (Some kind) field start limit
  | Trash => list_trashed_media_page db start limit
  | AlbumFolder path => list_media_by_folder_page db path start limit
  | Favorites => list_favorite_media_page db start limit
  | Images => list_media_by_kind_page db "image" start limit
  | Videos => list_media_by_kind_page db "video" start limit
  | MotionPhotos => list_media_by_logical_type_page db Media.MotionPhoto start limit
  | MediaType t => list_media_by_logical_type_page db t start limit
  end.
Record MediaPage := mkPage { pg_query : MediaQuery; pg_start : Z; pg_total : Z; pg_items : list Media.MediaItem }.
Definition page (db : Db) (q : MediaQuery) (start limit : Z) : result MediaPage :=
  total ← count db q; xs ← items db q start limit; Ok (mkPage q start total xs).
Definition date_groups_for_query (db : Db) (q : MediaQuery) : result (list (Z * Z * Z * Z)) :=
  match q with
  | LiveAll => count_live_media_by_date db
  | Search term field => count_media_by_date_for_filter db (search_count_filter term None field)
  | SearchKind term kind field => count_media_by_date_for_filter db (search_count_filter term (Some kind) field)
  | AlbumFolder path => count_media_by_date_for_filter db (both live (in_folder path))
  | Favorites => count_media_by_date_for_filter db (both live favorite)
  | Images => count_media_by_date_for_filter db (both live (of_kind "image"))
  | Videos => count_media_by_date_for_filter db (both live (of_kind "video"))
  | MotionPhotos => count_media_by_date_for_filter db (both live (fun _ m => negb (Z.land (m_flags m) 1 =? 0)))
  | MediaType t => count_media_by_date_for_filter db (both live (of_type t))
  | Trash => count_media_by_date_for_filter db trashed_only
  end.
Definition section_counts_for_query (db : Db) (q : MediaQuery) (mode : Sections.GroupBy) : result (gmap Sections.SectionKey Z) :=
  groups ← date_groups_for_query db q; Ok (Sections.counts_from_date_groups groups mode).
Definition neighbor_item (db : Db) (q : MediaQuery) (id delta : Z) : result (option Media.MediaItem) :=
  seek_media_neighbor db id delta (nav_projection q).1 (nav_projection q).2.
Definition position (db : Db) (q : MediaQuery) (id : Z) : result (option (Z * Z)) :=
  media_position db id (nav_projection q).1 (nav_projection q).2.
Definition positions_in_order (db : Db) (q : MediaQuery) (ids : list Z) : gmap Z Z :=
  media_ranks_in_order db ids (nav_projection q).1 (nav_projection q).2.
Definition neighbor (db : Db) (q : MediaQuery) (id delta : Z) : result (option (Z * Z * Media.MediaItem)) :=
  if delta =? 0 then Ok None
  else match q with
    | LiveAll => media_neighbor_with_filter_and_order db id delta live false
    | AlbumFolder path => media_neighbor_with_filter_and_order db id delta (both live (in_folder path)) false
    | Favorites => media_neighbor_with_filter_and_order db id delta (both live favorite) false
    | Images => media_neighbor_with_filter_and_order db id delta (both live (of_kind "image")) false
    | Videos => media_neighbor_with_filter_and_order db id delta (both live (of_kind "video")) false
    | MotionPhotos => media_neighbor_with_filter_and_order db id delta (both live (of_type Media.MotionPhoto)) false
    | MediaType t => media_neighbor_with_filter_and_order db id delta (both live (of_type t)) false
    | Search term field => search_media_neighbor db term None field id delta
    | SearchKind term kind field => search_media_neighbor db term (Some kind) field id delta
    | Trash => media_neighbor_with_filter_and_order db id delta trashed_only true
    end.
End Queries.

(** ** Strictly sorted lists *)
Lemma filter_none {A} (P : A -> Prop) `{!forall x, Decision (P x)} l : Forall (fun x => ~ P x) l -> base.filter P l = [].
Proof. induction 1; [done|]. by rewrite filter_cons_False. Qed.
Lemma filter_ext_in {A} (P Q : A -> Prop) `{!forall x, Decision (P x), !forall x, Decision (Q x)} (l : list A) :
  (forall x, x ∈ l -> P x <-> Q x) -> base.filter P l = base.filter Q l.
Proof.
  induction l as [|x l IH]; intros Hl; [done|]. rewrite !filter_cons, IH by (intros y Hy; apply Hl; by right).
  pose proof (Hl x (list_elem_of_here _ _)). destruct (decide (P x)), (decide (Q x)); tauto.
Qed.
Section Sorted.
Context {A : Type} (R : A -> A -> bool).
Context (asym : forall x y, R x y = true -> R y x = false).

Lemma sorted_comparable l x y : StronglySorted R l -> x ∈ l -> y ∈ l -> x = y \/ R x y = true \/ R y x = true.
Proof.
  induction 1 as [|z l Hl IH Hz]; [by intros ?%elem_of_nil|]. rewrite Forall_forall in Hz.
  intros [->|Hx]%elem_of_cons [->|Hy]%elem_of_cons; auto; [right; left|right; right]; by apply Is_true_true, Hz.
Qed.
Lemma sorted_split l i x : StronglySorted R l -> l !! i = Some x ->
  Forall (fun y => R y x = true) (take i l) /\ Forall (fun y => R x y = true) (drop (S i) l).
Proof.
  intros Hl Hi. rewrite <- (take_drop_middle _ _ _ Hi) in Hl. apply StronglySorted_app in Hl as (Hc & _ & Hd).
  inversion Hd as [|? ? _ Hx]; subst. split; apply Forall_forall; intros y Hy.
  - apply Is_true_true. apply Hc; [done|by left].
  - rewrite Forall_forall in Hx. by apply Is_true_true, Hx.
Qed.
Lemma filter_before l i x : StronglySorted R l -> l !! i = Some x -> base.filter (fun y => R y x = true) l = take i l.
Proof.
  intros Hl Hi. destruct (sorted_split _ _ _ Hl Hi) as [Hb Ha]. rewrite <- (take_drop_middle _ _ _ Hi) at 1.
  rewrite filter_app, filter_cons_False, filter_all, (filter_none _ (drop _ _)), app_nil_r; [done| |done|].
  - eapply Forall_impl; [exact Ha|]. intros y Hy%asym. cbn. congruence.
  - intros H. pose proof (asym _ _ H). congruence.
Qed.
Lemma filter_after l i x : StronglySorted R l -> l !! i = Some x -> base.filter (fun y => R x y = true) l = drop (S i) l.
Proof.
  intros Hl Hi. destruct (sorted_split _ _ _ Hl Hi) as [Hb Ha]. rewrite <- (take_drop_middle _ _ _ Hi) at 1.
  rewrite filter_app, filter_cons_False, (filter_none _ (take _ _)), filter_all; [done|done| |].
  - eapply Forall_impl; [exact Hb|]. intros y Hy%asym. cbn. congruence.
  - intros H. pose proof (asym _ _ H). congruence.
Qed.
Lemma sorted_reverse l : StronglySorted R l -> StronglySorted (flip R) (reverse l).
Proof.
  induction 1 as [|x l Hl IH Hx]; [constructor|]. rewrite reverse_cons. apply StronglySorted_app_2; [|done|repeat constructor].
  intros y z Hy Hz%list_elem_of_singleton. subst z. rewrite Forall_forall in Hx. apply Hx. by apply elem_of_reverse.
Qed.
(** Sorting by the complement of a strict order gives back any list strictly
    sorted by it. *)
Lemma sort_unique (S : relation A) `{!RelDecision S, !Total S, !Transitive S} rows l :
  (forall x y, S x y <-> R y x = false) -> StronglySorted R l -> rows ≡ₚ l -> merge_sort S rows = l.
Proof.
  intros HS Hl Hp. apply (StronglySorted_unique_strong S).
  - intros x y Hx Hy H1%HS H2%HS. rewrite merge_sort_Permutation, Hp in Hx.
    destruct (sorted_comparable _ _ _ Hl Hx Hy) as [->|[H|H]]; [done|congruence|congruence].
  - by apply StronglySorted_merge_sort.
  - eapply StronglySorted_weaken; [|done]. intros x y H%Is_true_true. by apply HS, asym.
  - by rewrite merge_sort_Permutation.
Qed.
End Sorted.

(** ** The order of a query *)
Lemma NoDup_rows P t : NoDup (rows_where P t).*1.
Proof.
  unfold rows_where. eapply sublist_NoDup; [apply (NoDup_fst_map_to_list t)|]. apply fmap_sublist, sublist_filter.
Qed.
Lemma elem_of_rows P t id m : (id, m) ∈ rows_where P t <-> t !! id = Some m /\ P id m = true.
Proof. unfold rows_where. rewrite list_elem_of_filter, elem_of_map_to_list. cbn. tauto. Qed.
Section Order.
Context (key : Media -> option Z).

Lemma before_asym x y : before key x y = true -> before key y x = false.
Proof.
  unfold before, key_lt. destruct (key x.2) as [a|], (key y.2) as [b|]; rewrite ?orb_true_iff, ?orb_false_iff, ?andb_true_iff, ?andb_false_iff;
    rewrite ?bool_decide_eq_true, ?bool_decide_eq_false; intros H; destruct H as [H|[H1 H2]]; try done; simplify_eq; try lia; split; try done; try lia;
    try (left; congruence); try (right; lia).
  left. intros ?. simplify_eq. lia.
Qed.
Lemma before_total x y : x.1 <> y.1 -> before key x y = true \/ before key y x = true.
Proof.
  unfold before, key_lt. intros Hxy. destruct (key x.2) as [a|], (key y.2) as [b|]; rewrite ?orb_true_iff, ?andb_true_iff, ?bool_decide_eq_true; try by auto.
  - destruct (Z.lt_trichotomy a b) as [?|[->|?]]; [right; left; lia| |left; left; lia].
    destruct (Z.lt_trichotomy x.1 y.1) as [?|[?|?]]; [right; right; split; [done|lia]|done|left; right; split; [done|lia]].
  - destruct (Z.lt_trichotomy x.1 y.1) as [?|[?|?]]; [right; right; split; [done|lia]|done|left; right; split; [done|lia]].
Qed.
Lemma not_before_trans x y z : before key x y = false -> before key y z = false -> before key x z = false.
Proof.
  unfold before, key_lt. destruct (key x.2) as [a|], (key y.2) as [b|], (key z.2) as [c|];
    rewrite ?orb_false_iff, ?andb_false_iff, ?bool_decide_eq_false; intros [H1 H2] [H3 H4]; try done; (split; [try done; try lia|]);
    destruct H2 as [H2|H2], H4 as [H4|H4]; try (left; congruence); try (right; lia).
  - left. intros ?. simplify_eq. assert (b = c) by lia. congruence.
  - left. intros ?. simplify_eq. assert (b = c) by lia. congruence.
  - left. intros ?. simplify_eq. assert (b = c) by lia. congruence.
Qed.
#[local] Instance descending_total : Total (descending key).
Proof. intros x y. unfold descending. destruct (before key y x) eqn:E; [right; by apply before_asym|by left]. Qed.
#[local] Instance ascending_total : Total (ascending key).
Proof. intros x y. unfold ascending. destruct (before key x y) eqn:E; [right; by apply before_asym|by left]. Qed.
#[local] Instance descending_trans : Transitive (descending key).
Proof. intros x y z H1 H2. unfold descending in *. by eapply not_before_trans. Qed.
#[local] Instance ascending_trans : Transitive (ascending key).
Proof. intros x y z H1 H2. unfold ascending in *. by eapply not_before_trans. Qed.

Lemma ordered_perm P t : ordered key P t ≡ₚ rows_where P t.
Proof. apply merge_sort_Permutation. Qed.
Lemma ordered_sorted P t : StronglySorted (before key) (ordered key P t).
Proof.
  assert (Hs : StronglySorted (descending key) (ordered key P t)) by (apply StronglySorted_merge_sort; apply _).
  assert (Hn : NoDup (ordered key P t).*1) by (rewrite ordered_perm; apply NoDup_rows).
  induction Hs as [|x l Hl IH Hx]; [constructor|]. rewrite fmap_cons in Hn. apply NoDup_cons in Hn as [Hn Hnl].
  constructor; [by apply IH|]. rewrite Forall_forall in Hx |- *. intros y Hy. apply Is_true_true.
  destruct (before_total x y) as [H|H]; [|done|]; [intros He; apply Hn; rewrite He; by apply list_elem_of_fmap_2|].
  pose proof (Hx y Hy) as Hd. unfold descending in Hd. congruence.
Qed.
(** Any strictly sorted arrangement of the rows is what the statement returns. *)
Lemma ordered_unique P t l : StronglySorted (before key) l -> rows_where P t ≡ₚ l -> ordered key P t = l.
Proof. intros Hl Hp. apply (sort_unique _ before_asym (descending key)); [intros x y; reflexivity|done|done]. Qed.
Lemma ordered_asc_unique P t l : StronglySorted (before key) l -> rows_where P t ≡ₚ l -> ordered_asc key P t = reverse l.
Proof.
  intros Hl Hp. apply (sort_unique (flip (before key)) (fun x y => before_asym y x) (ascending key)).
  - intros x y. reflexivity.
  - by apply sorted_reverse.
  - by rewrite reverse_Permutation.
Qed.
Lemma rows_both P Q t : rows_where (both P Q) t = base.filter (fun r => Q r.1 r.2 = true) (rows_where P t).
Proof.
  unfold rows_where. rewrite list_filter_filter. apply list_filter_iff. intros [id m]. unfold both. cbn. rewrite andb_true_iff. tauto.
Qed.
Lemma rows_both_perm P Q t : rows_where (both P Q) t ≡ₚ base.filter (fun r => Q r.1 r.2 = true) (ordered key P t).
Proof. by rewrite rows_both, ordered_perm. Qed.
End Order.

(** ** The statements against the ordered list *)
Definition row_index (id : Z) (l : list (Z * Media)) : option nat := fst <$> list_find (fun r => r.1 = id) l.

Lemma row_index_Some id l i : NoDup l.*1 -> row_index id l = Some i <-> exists m, l !! i = Some (id, m).
Proof.
  intros Hn. unfold row_index. split.
  - destruct (list_find _ l) as [[j [k m]]|] eqn:E; [|done]. intros [= <-]. apply list_find_Some in E as (Hl & <- & _). by exists m.
  - intros [m Hl]. destruct (list_find _ l) as [[j [k m']]|] eqn:E.
    + apply list_find_Some in E as (Hj & Hk & _). cbn in Hk. subst k. cbn. f_equal.
      apply (NoDup_lookup _ _ _ id Hn); by rewrite list_lookup_fmap, ?Hj, ?Hl.
    + apply list_find_None in E. eapply Forall_lookup_1 in E; [|done]. done.
Qed.
Lemma row_index_None id l : row_index id l = None <-> id ∉ l.*1.
Proof.
  unfold row_index. rewrite fmap_None, list_find_None, Forall_forall, list_elem_of_fmap. split.
  - intros H ([k m] & -> & Hin). by apply (H _ Hin).
  - intros H [k m] Hin. cbn. intros ->. apply H. by exists (id, m).
Qed.

Lemma index_fst k l : fst <$> list_find (eq k) l.*1 = row_index k l.
Proof.
  unfold row_index. induction l as [|r l IH]; [done|]. rewrite fmap_cons. cbn [list_find].
  destruct (decide (k = r.1)), (decide (r.1 = k)); try congruence; [done|].
  destruct (list_find (eq k) l.*1) as [[]|], (list_find _ l) as [[]|]; cbn in *; congruence.
Qed.

Section Statements.
Context (db : Db) (P : Where) (trashed : bool).
Notation V := (visible_media db).
Notation key := (media_sort_expr trashed).
Notation L := (ordered (media_sort_expr trashed) P (visible_media db)).
Implicit Types (id : Z) (m : Media).

Lemma NoDup_listing : NoDup L.*1.
Proof. rewrite ordered_perm. apply NoDup_rows. Qed.
Lemma elem_of_listing id m : (id, m) ∈ L <-> V !! id = Some m /\ P id m = true.
Proof. rewrite ordered_perm. apply elem_of_rows. Qed.
Lemma rank_where id m t : key m = Some t -> forall r : Z * Media,
  sql_cmp Z.geb (key r.2) t && (sql_cmp Z.gtb (key r.2) t || (r.1 >? id)) = before key r (id, m).
Proof.
  intros Hm [k m']. unfold before. cbn [fst snd]. rewrite Hm. destruct (key m') as [a|]; cbn.
  2: { by rewrite bool_decide_false. }
  destruct (Z.lt_trichotomy t a) as [H|[->|H]].
  - rewrite (proj2 (Z.ltb_lt t a)) by done. rewrite orb_true_l. apply andb_true_iff. rewrite orb_true_iff. lia.
  - rewrite bool_decide_true by done. destruct (Z.ltb_spec id k); lia.
  - rewrite bool_decide_false by (intros [=]; lia). lia.
Qed.
Lemma seek_where id m t : key m = Some t -> forall r : Z * Media, is_Some (key r.2) ->
  sql_cmp Z.leb (key r.2) t && (sql_cmp Z.ltb (key r.2) t || (r.1 <? id)) = before key (id, m) r.
Proof.
  intros Hm [k m'] [a Ha]. unfold before. cbn [fst snd] in *. rewrite Hm, Ha. cbn.
  destruct (Z.lt_trichotomy a t) as [H|[->|H]].
  - lia.
  - rewrite bool_decide_true by done. destruct (Z.ltb_spec k id); lia.
  - rewrite bool_decide_false by (intros [=]; lia). lia.
Qed.

Lemma count_listing Q : count_of Q V = Z.of_nat (length (ordered key Q V)).
Proof. unfold count_of. by rewrite ordered_perm. Qed.
Lemma rank_before_at i id m t : L !! i = Some (id, m) -> key m = Some t -> Z.of_nat (length L) <= U32_MAX ->
  rank_before db P trashed t id = Ok (Z.of_nat i).
Proof.
  intros Hi Hm Hlen. unfold rank_before. rewrite count_listing, ordered_perm, (rows_both_perm key).
  rewrite (list_filter_iff _ (fun r => before key r (id, m) = true)) by (intros r; by rewrite rank_where with (m := m)).
  rewrite (filter_before _ (before_asym key) _ i) by (apply ordered_sorted || done).
  apply lookup_lt_Some in Hi. rewrite length_take_le by lia. unfold as_u32. by rewrite (proj2 (Z.leb_le _ _)) by lia.
Qed.

(** Every row of the query has a sort key: the trash lists trashed rows only. *)
Definition keyed : Prop := forall id m, V !! id = Some m -> P id m = true -> is_Some (key m).
Context (Hkeyed : keyed).

Lemma current_sort_at id : current_sort db P trashed id =
  Ok (match row_index id L with Some i => r ← L !! i; key r.2 | None => None end).
Proof.
  unfold current_sort. destruct (row_index id L) as [i|] eqn:E.
  - apply row_index_Some in E as [m Hi]; [|apply NoDup_listing]. rewrite Hi.
    pose proof (proj1 (elem_of_listing id m) (list_elem_of_lookup_2 _ _ _ Hi)) as [Hv HP]. rewrite Hv, HP.
    destruct (Hkeyed _ _ Hv HP) as [t Ht]. cbn. by rewrite Ht.
  - apply row_index_None in E. destruct (V !! id) as [m|] eqn:Hv; [|done]. destruct (P id m) eqn:HP; [|done].
    destruct E. change id with (id, m).1. apply list_elem_of_fmap_2. by apply elem_of_listing.
Qed.
Lemma media_position_at id : Z.of_nat (length L) <= U32_MAX ->
  media_position db id P trashed = Ok ((fun i => (Z.of_nat i + 1, Z.of_nat (length L))) <$> row_index id L).
Proof.
  intros Hlen. unfold media_position. rewrite current_sort_at. cbn. destruct (row_index id L) as [i|] eqn:E; [|done].
  apply row_index_Some in E as [m Hi]; [|apply NoDup_listing]. rewrite Hi. cbn.
  pose proof (proj1 (elem_of_listing id m) (list_elem_of_lookup_2 _ _ _ Hi)) as [Hv HP].
  destruct (Hkeyed _ _ Hv HP) as [t Ht]. rewrite Ht. unfold rank_and_total.
  rewrite count_listing. unfold as_u32 at 1. rewrite (proj2 (Z.leb_le _ _)) by lia. cbn.
  by rewrite (rank_before_at i id m).
Qed.
(** Where a step of [delta] from row [i] lands. *)
Definition step (i : nat) (delta : Z) : option (Z * Media) :=
  if 0 <=? Z.of_nat i + delta then L !! Z.to_nat (Z.of_nat i + delta) else None.
Lemma after_rows i id m t : L !! i = Some (id, m) -> key m = Some t ->
  ordered key (both P (fun k m => sql_cmp Z.leb (key m) t && (sql_cmp Z.ltb (key m) t || (k <? id)))) V = drop (S i) L.
Proof.
  intros Hi Hm. apply ordered_unique.
  - pose proof (ordered_sorted key P V) as Hs. rewrite <- (take_drop (S i) L) in Hs. by apply StronglySorted_app_1_r in Hs.
  - rewrite (rows_both_perm key), <- (filter_after _ (before_asym key) L i (id, m)) by (apply ordered_sorted || done).
    apply reflexive_eq, filter_ext_in. intros [k m'] [Hv HP]%elem_of_listing. cbn [fst snd].
    rewrite <- (seek_where id m t Hm (k, m') (Hkeyed _ _ Hv HP)). done.
Qed.
Lemma before_rows i id m t : L !! i = Some (id, m) -> key m = Some t ->
  ordered_asc key (both P (fun k m => sql_cmp Z.geb (key m) t && (sql_cmp Z.gtb (key m) t || (k >? id)))) V = reverse (take i L).
Proof.
  intros Hi Hm. apply ordered_asc_unique.
  - pose proof (ordered_sorted key P V) as Hs. rewrite <- (take_drop i L) in Hs. by apply StronglySorted_app_1_l in Hs.
  - rewrite (rows_both_perm key), <- (filter_before _ (before_asym key) L i (id, m)) by (apply ordered_sorted || done).
    apply reflexive_eq, list_filter_iff. intros r. by rewrite (rank_where id m t Hm r).
Qed.
Lemma seek_at timestamp_ok id delta : seek_media_neighbor timestamp_ok db id delta P trashed =
  match (i ← row_index id L; if delta =? 0 then None else step i delta) with
  | Some r => x ← row_to_media_item timestamp_ok r; Ok (Some x) | None => Ok None end.
Proof.
  unfold seek_media_neighbor. destruct (delta =? 0) eqn:Ed; [by destruct (row_index id L)|]. apply Z.eqb_neq in Ed.
  rewrite current_sort_at. cbn. destruct (row_index id L) as [i|] eqn:E; [|done].
  apply row_index_Some in E as [m Hi]; [|apply NoDup_listing]. rewrite Hi. cbn.
  pose proof (proj1 (elem_of_listing id m) (list_elem_of_lookup_2 _ _ _ Hi)) as [Hv HP].
  destruct (Hkeyed _ _ Hv HP) as [t Ht]. rewrite Ht. rewrite (after_rows i id m t Hi Ht), (before_rows i id m t Hi Ht).
  apply lookup_lt_Some in Hi as Hlt. unfold step. destruct (Z.ltb_spec 0 delta) as [Hd|Hd].
  - rewrite lookup_drop, (proj2 (Z.leb_le _ _)) by lia. replace (S i + Z.to_nat (Z.abs delta - 1))%nat with (Z.to_nat (Z.of_nat i + delta)) by lia. done.
  - destruct (Z.leb_spec 0 (Z.of_nat i + delta)) as [Hs|Hs].
    + rewrite reverse_lookup by (rewrite length_take_le; lia). rewrite length_take_le, lookup_take_lt by lia.
      replace (i - S (Z.to_nat (Z.abs delta - 1)))%nat with (Z.to_nat (Z.of_nat i + delta)) by lia. done.
    + rewrite lookup_ge_None_2; [done|]. rewrite length_reverse, length_take_le; lia.
Qed.
End Statements.

(** The walk that ranks a batch records the position of every wanted row. *)
Lemma ranks_walk_at wanted rows rank ranks k :
  dom ranks ⊆ wanted -> NoDup rows -> (forall x, x ∈ rows -> ranks !! x = None) -> 0 <= rank ->
  rank + Z.of_nat (length rows) <= U32_MAX ->
  ranks_walk wanted rows rank ranks !! k =
  match ranks !! k with
  | Some r => Some r
  | None => if decide (k ∈ wanted) then (fun j => rank + Z.of_nat j.1) <$> list_find (eq k) rows else None
  end.
Proof.
  revert rank ranks. induction rows as [|x rows IH]; intros rank ranks Hd Hn Hr H0 Hlen; cbn [ranks_walk length] in *.
  { destruct (ranks !! k); [done|]. by destruct (decide _). }
  apply NoDup_cons in Hn as [Hx Hn]. assert (Hsat : u32_saturating_add rank 1 = rank + 1) by (unfold u32_saturating_add; lia).
  assert (Hshift : (fun j : nat * Z => rank + Z.of_nat j.1) <$> (prod_map S id <$> list_find (eq k) rows) =
    (fun j : nat * Z => rank + 1 + Z.of_nat j.1) <$> list_find (eq k) rows).
  { destruct (list_find (eq k) rows) as [[j y]|]; [|done]. cbn. f_equal. lia. }
  assert (Hnone : ranks !! x = None) by (apply Hr; by left). cbn [list_find].
  destruct (decide (x ∈ wanted)) as [Hw|Hw].
  - assert (Hrec : forall r, (match <[x := rank]> ranks !! k with Some r => Some r | None => r end) =
      match ranks !! k with Some r => Some r | None => if decide (k = x) then Some rank else r end).
    { intros r. destruct (decide (k = x)) as [->|Hne]; [by rewrite lookup_insert_eq, Hnone|by rewrite lookup_insert_ne]. }
    assert (Hd' : dom (<[x := rank]> ranks) ⊆ wanted) by (rewrite dom_insert; set_solver).
    destruct (Nat.eqb_spec (size (<[x := rank]> ranks)) (size wanted)) as [Hs|Hs].
    + (* every wanted row is recorded *)
      assert (Hall : k ∈ wanted -> is_Some (<[x := rank]> ranks !! k)).
      { intros Hk. apply elem_of_dom. rewrite <- size_dom in Hs. by rewrite (set_subseteq_size_eq _ _ Hd') by lia. }
      specialize (Hrec (if decide (k ∈ wanted) then (fun j => rank + Z.of_nat j.1) <$> (prod_map S id <$> list_find (eq k) rows) else None)).
      destruct (<[x := rank]> ranks !! k) as [r|] eqn:E.
      * rewrite Hrec. destruct (ranks !! k); [done|]. destruct (decide (k = x)) as [->|]; [|done]. rewrite decide_True by done. cbn. f_equal. lia.
      * destruct (decide (k ∈ wanted)) as [Hk|Hk]; [by destruct (Hall Hk)|].
        apply lookup_insert_None in E as [-> _]. done.
    + rewrite IH; [|done|done| |lia|lia].
      * rewrite Hsat, Hrec. destruct (ranks !! k); [done|]. destruct (decide (k = x)) as [->|]; [|by rewrite Hshift].
        rewrite decide_True by done. cbn. f_equal. lia.
      * intros y Hy. rewrite lookup_insert_ne by (intros ->; done). apply Hr. by right.
  - rewrite IH; [|done|done| |lia|lia]; [|intros y Hy; apply Hr; by right]. rewrite Hsat. destruct (ranks !! k); [done|].
    destruct (decide (k ∈ wanted)) as [Hk|]; [|done]. rewrite decide_False by (by intros ->). by rewrite Hshift.
Qed.

(** ** One list *)
(** What the views rely on: all operations of a query answer for one list of
    items. *)
Definition index_of (id : Z) (xs : list Media.MediaItem) : option nat := fst <$> list_find (fun x => Media.id x = id) xs.
Definition item_at (xs : list Media.MediaItem) (i : nat) (delta : Z) : option Media.MediaItem :=
  if delta =? 0 then None else if 0 <=? Z.of_nat i + delta then xs !! Z.to_nat (Z.of_nat i + delta) else None.

Section Repository.
Context (date_of : Zone -> Z -> option (Z * Z * Z)) (timestamp_ok : Z -> bool).
Notation nav_projection := (nav_projection date_of).

Class ListView (db : Db) (q : MediaQuery) (xs : list Media.MediaItem) : Prop := {
  view_count : count date_of db q = Ok (Z.of_nat (length xs));
  view_items : forall start limit, items date_of timestamp_ok db q start limit = Ok (page_of start limit xs);
  view_position : forall id, position date_of db q id = Ok ((fun i => (Z.of_nat i + 1, Z.of_nat (length xs))) <$> index_of id xs);
  view_neighbor : forall id delta, neighbor_item date_of timestamp_ok db q id delta = Ok (i ← index_of id xs; item_at xs i delta);
  view_ranks : forall ids id, positions_in_order date_of db q ids !! id =
    if decide (id ∈ ids) then Z.of_nat <$> index_of id xs else None
}.

(** The condition and the table the page and count statements of a query use. *)
Definition item_where (q : MediaQuery) : Where :=
  match q with
  | Search term field => search_where date_of Localtime term None field
  | SearchKind term kind field => search_where date_of Localtime term (Some kind) field
  | _ => (nav_projection q).1
  end.
Definition item_table (db : Db) (q : MediaQuery) : gmap Z Media := match q with Trash => db_media db | _ => visible_media db end.
Definition listing (db : Db) (q : MediaQuery) : list (Z * Media) :=
  ordered (media_sort_expr (nav_projection q).2) (item_where q) (item_table db q).
(** The page statements and the navigation statements select the same rows. *)
Definition aligned (db : Db) (q : MediaQuery) : Prop := forall id m, db_media db !! id = Some m ->
  item_table db q !! id = Some m /\ item_where q id m = true <-> visible_media db !! id = Some m /\ (nav_projection q).1 id m = true.

Lemma to_items_Forall2 rows xs : to_items timestamp_ok rows = Ok xs <->
  Forall2 (fun r x => row_to_media_item timestamp_ok r = Ok x) rows xs.
Proof.
  unfold to_items. revert xs. induction rows as [|r rows IH]; intros xs; cbn [mapM].
  - split; [by intros [= <-]|by inversion 1].
  - cbn. destruct (row_to_media_item timestamp_ok r) as [x|e] eqn:E; cbn.
    + destruct (mapM _ rows) as [ys|e]; cbn.
      * split; [intros [= <-]; constructor; [done|by apply IH]|]. inversion 1 as [|? y ? zs Hy Hz]; simplify_eq.
        apply IH in Hz. rewrite E in Hy. injection Hy as ->. injection Hz as ->. reflexivity.
      * split; [done|]. inversion 1 as [|? y ? zs Hy Hz]; simplify_eq. apply IH in Hz. congruence.
    + split; [done|]. inversion 1. congruence.
Qed.
Lemma row_id r x : row_to_media_item timestamp_ok r = Ok x -> Media.id x = r.1.
Proof.
  unfold row_to_media_item. destruct (optional_ts timestamp_ok (m_taken_at r.2)); cbn; [|done].
  destruct (row_mtime _ _); cbn; [|done]. destruct (optional_ts _ _); cbn; [|done]. destruct (row_location _); cbn; [|done].
  by intros [= <-].
Qed.
Lemma index_rows rows xs id : to_items timestamp_ok rows = Ok xs -> row_index id rows = index_of id xs.
Proof.
  rewrite to_items_Forall2. unfold row_index, index_of. induction 1 as [|r x rows xs Hr _ IH]; [done|]. cbn [list_find].
  rewrite (row_id _ _ Hr). destruct (decide (r.1 = id)); [done|].
  destruct (list_find _ rows) as [[]|], (list_find _ xs) as [[]|]; cbn in *; congruence.
Qed.
Lemma to_items_page rows xs start limit : to_items timestamp_ok rows = Ok xs ->
  to_items timestamp_ok (page_of start limit rows) = Ok (page_of start limit xs).
Proof. rewrite !to_items_Forall2. intros H. by apply Forall2_take, Forall2_drop. Qed.

Lemma items_listing db q start limit :
  items date_of timestamp_ok db q start limit = to_items timestamp_ok (page_of start limit (listing db q)).
Proof. by destruct q. Qed.
Lemma count_items db q : count date_of db q =
  if Z.of_nat (length (listing db q)) <=? U32_MAX then Ok (Z.of_nat (length (listing db q))) else Err (Backend "media count does not fit u32").
Proof.
  assert (H : forall key P t, count_of P t = Z.of_nat (length (ordered key P t))) by (intros; unfold count_of; by rewrite ordered_perm).
  unfold count, listing. destruct q; erewrite <- H; reflexivity.
Qed.
Lemma query_keyed db q : keyed db (nav_projection q).1 (nav_projection q).2.
Proof.
  intros id m _ HP. destruct q; cbn in *; try by eexists. unfold trashed_only in HP. destruct (m_trashed_at m); [by eexists|done].
Qed.
Lemma nav_listing db q : aligned db q ->
  ordered (media_sort_expr (nav_projection q).2) (nav_projection q).1 (visible_media db) = listing db q.
Proof.
  intros Ha. apply ordered_unique; [apply ordered_sorted|]. unfold listing. rewrite ordered_perm.
  apply NoDup_Permutation; [eapply NoDup_fmap_1, NoDup_rows|eapply NoDup_fmap_1, NoDup_rows|]. intros [id m]. rewrite !elem_of_rows.
  assert (Hv : forall t, t = visible_media db \/ t = db_media db -> t !! id = Some m -> db_media db !! id = Some m).
  { intros t [->| ->]; [|done]. unfold visible_media. by intros [? _]%lookup_delete_where_Some. }
  split; intros [H1 H2].
  - apply Ha; [apply (Hv (visible_media db)); auto|auto].
  - apply Ha; [apply (Hv (item_table db q)); [by destruct q; auto|done]|auto].
Qed.

Lemma listing_pages db q xs : to_items timestamp_ok (listing db q) = Ok xs -> Z.of_nat (length xs) <= U32_MAX ->
  count date_of db q = Ok (Z.of_nat (length xs)) /\
  forall start limit, items date_of timestamp_ok db q start limit = Ok (page_of start limit xs).
Proof.
  intros Hxs Hlen. assert (Hl : length (listing db q) = length xs) by (by apply to_items_Forall2, Forall2_length in Hxs). split.
  - rewrite count_items, Hl. by rewrite (proj2 (Z.leb_le _ _)).
  - intros start limit. rewrite items_listing. by apply to_items_page.
Qed.
Lemma listing_position db q xs id : aligned db q -> to_items timestamp_ok (listing db q) = Ok xs -> Z.of_nat (length xs) <= U32_MAX ->
  position date_of db q id = Ok ((fun i => (Z.of_nat i + 1, Z.of_nat (length xs))) <$> index_of id xs).
Proof.
  intros Ha Hxs Hlen. assert (Hl : length (listing db q) = length xs) by (by apply to_items_Forall2, Forall2_length in Hxs).
  unfold position. rewrite media_position_at by (apply query_keyed || by rewrite nav_listing, Hl). by rewrite nav_listing, (index_rows _ xs), Hl.
Qed.
Lemma listing_neighbor db q xs id delta : aligned db q -> to_items timestamp_ok (listing db q) = Ok xs ->
  neighbor_item date_of timestamp_ok db q id delta = Ok (i ← index_of id xs; item_at xs i delta).
Proof.
  intros Ha Hxs. assert (Hl : length (listing db q) = length xs) by (by apply to_items_Forall2, Forall2_length in Hxs).
  unfold neighbor_item. rewrite seek_at by apply query_keyed. unfold step. rewrite nav_listing, (index_rows _ xs) by done.
  destruct (index_of id xs) as [i|]; [|done]. cbn. unfold item_at. destruct (delta =? 0); [done|]. destruct (0 <=? _); [|done].
  apply to_items_Forall2 in Hxs. destruct (listing db q !! _) as [r|] eqn:E.
  - eapply Forall2_lookup_l in Hxs as (x & -> & Hx); [|done]. by rewrite Hx.
  - apply lookup_ge_None in E. rewrite lookup_ge_None_2; [done|]. by rewrite <- Hl.
Qed.
Lemma listing_ranks db q xs ids id : aligned db q -> to_items timestamp_ok (listing db q) = Ok xs -> Z.of_nat (length xs) <= U32_MAX ->
  positions_in_order date_of db q ids !! id = if decide (id ∈ ids) then Z.of_nat <$> index_of id xs else None.
Proof.
  intros Ha Hxs Hlen. assert (Hl : length (listing db q) = length xs) by (by apply to_items_Forall2, Forall2_length in Hxs).
  unfold positions_in_order, media_ranks_in_order. destruct ids as [|k ids]; [done|].
  rewrite nav_listing by done. assert (Hn : NoDup (listing db q).*1) by (unfold listing; rewrite ordered_perm; apply NoDup_rows).
  rewrite ranks_walk_at; [|set_solver|done|done|done|rewrite length_fmap; lia].
  rewrite lookup_empty, <- (index_rows _ xs), <- index_fst by done.
  rewrite (decide_ext (id ∈ (list_to_set (k :: ids) : gset Z)) (id ∈ k :: ids)) by apply elem_of_list_to_set.
  destruct (decide (id ∈ k :: ids)); [|done]. by destruct (list_find _ _).
Qed.


(** Only two kinds of query are served by statements that can differ: the trash,
    which pages through every row but navigates visible ones, and searches on
    dates, which page by local and navigate by universal dates. *)
Definition plain (q : MediaQuery) : bool :=
  match q with
  | Trash => false
  | Search _ field | SearchKind _ _ field => match field with FieldName => true | _ => false end
  | _ => true
  end.
Lemma plain_aligned db q : plain q = true -> aligned db q.
Proof. intros Hq id m _. by destruct q as [|? []|? ? []| | | | | | |]. Qed.

(** ** Section headers *)
Lemma tally_keys (ds ks : list (Z * Z * Z)) : NoDup ks -> (forall d, d ∈ ds -> d ∈ ks) ->
  (ks ≫= fun d => replicate (length (base.filter (d =.) ds)) d) ≡ₚ ds.
Proof.
  intros Hn. revert ds. induction Hn as [|k ks Hk _ IH]; intros ds Hds.
  { destruct ds as [|d ds]; [done|]. by destruct (not_elem_of_nil d); apply Hds; left. }
  rewrite bind_cons. rewrite <- (filter_app_complement (k =.) ds) at 2.
  rewrite <- (IH (base.filter (fun d => k <> d) ds)).
  2: { intros d [Hne Hd]%list_elem_of_filter. apply Hds, elem_of_cons in Hd as [->|]; done. }
  apply Permutation_app; [apply reflexive_eq|].
  - induction ds as [|d ds IHd]; [done|]. rewrite !filter_cons. destruct (decide (k = d)) as [->|].
    + cbn. f_equal. apply IHd. intros x Hx. apply Hds. by right.
    + apply IHd. intros x Hx. apply Hds. by right.
  - apply reflexive_eq. assert (Hout : forall d, d ∈ ks -> d <> k) by (by intros d ? ->). clear IH Hk Hds.
    induction ks as [|d ks IHk]; [done|]. rewrite !bind_cons, IHk by (intros x Hx; apply Hout; by right). do 2 f_equal.
    rewrite list_filter_filter_l; [done|]. intros x <- ->. by apply (Hout d); [left|].
Qed.
Lemma tally_dates ds : Z.of_nat (length ds) <= U32_MAX -> (tally ds ≫= fun g => replicate (Z.to_nat g.2) g.1) ≡ₚ ds.
Proof.
  intros Hlen. rewrite <- (tally_keys ds (remove_dups ds)) at 2; [|apply NoDup_remove_dups|intros d; by rewrite elem_of_remove_dups].
  unfold tally. rewrite list_fmap_bind. apply reflexive_eq, list_bind_ext; [|done]. intros d. cbn. f_equal.
  rewrite Z.mod_small; [lia|]. pose proof (length_filter (d =.) ds). unfold U32_MAX in Hlen. lia.
Qed.

(** The local day of a row. *)
Definition day (r : Z * Media) : Z * Z * Z := default (0, 0, 0) (date_of Localtime (sort_time r.2)).
Lemma date_groups db q : date_groups_for_query date_of db q = count_media_by_date_for_filter date_of db (nav_projection q).1.
Proof. by destruct q. Qed.
Lemma days_of rows : Forall (fun r : Z * Media => is_Some (date_of Localtime (sort_time r.2))) rows ->
  mapM (fun r : Z * Media => ok_or_err (date_of Localtime (sort_time r.2)) (Conversion "InvalidColumnType")) rows = Ok (day <$> rows).
Proof.
  induction 1 as [|r rows [d Hd] _ IH]; [done|]. cbn [mapM]. rewrite Hd. cbn. rewrite IH. cbn. unfold day. by rewrite Hd.
Qed.
(** Local days never run backwards along the epoch. *)
Definition days_ascend : Prop := forall s t, s <= t -> forall a b, date_of Localtime s = Some a -> date_of Localtime t = Some b -> Sections.rank_le a b.

Lemma days_sorted l : days_ascend -> StronglySorted (before newest) l ->
  Forall (fun r : Z * Media => is_Some (date_of Localtime (sort_time r.2))) l -> StronglySorted Sections.date_ge (day <$> l).
Proof.
  intros Hasc. induction 1 as [|r l Hl IH Hr]; intros Hd; [constructor|]. apply Forall_cons in Hd as [[a Ha] Hdl].
  rewrite fmap_cons. constructor; [by apply IH|]. apply Forall_fmap. rewrite Forall_forall in Hr, Hdl |- *. intros x Hx. cbn.
  destruct (Hdl x Hx) as [b Hb]. unfold day, Sections.date_ge. rewrite Ha, Hb. cbn. eapply Hasc; [|done..].
  specialize (Hr x Hx). apply Is_true_true in Hr. unfold before, newest, media_sort_expr, key_lt in Hr.
  apply orb_true_iff in Hr as [Hr|[Hr _]%andb_true_iff]; [lia|]. apply bool_decide_eq_true in Hr. injection Hr. lia.
Qed.

(** Section headers agree with the grid. For every query of the library but
    the trash, the section found in the counts at a global offset is the local
    year, month or day of the item the query shows at that offset, in every
    grouping mode, so a header never covers an item of another section. *)
Theorem section_headers_follow_list db q mode i :
  q <> Trash -> aligned db q -> days_ascend ->
  Forall (fun r : Z * Media => is_Some (date_of Localtime (sort_time r.2))) (listing db q) ->
  Z.of_nat (length (listing db q)) <= U32_MAX -> (i < length (listing db q))%nat ->
  exists counts, section_counts_for_query date_of db q mode = Ok counts /\
    Sections.section_for_global_offset counts (Z.of_nat i) =
    (fun r => let '(y, m, d) := day r in Sections.key_for mode y m d) <$> listing db q !! i.
Proof.
  intros Hq Ha Hasc Hdays Hlen Hi. assert (Hp : rows_where (nav_projection q).1 (visible_media db) ≡ₚ listing db q).
  { rewrite <- nav_listing by done. symmetry. apply ordered_perm. }
  unfold section_counts_for_query. rewrite date_groups. unfold count_media_by_date_for_filter.
  rewrite days_of by (by rewrite Hp). cbn. eexists. split; [done|].
  rewrite (Sections.section_for_global_offset_correct mode _ (day <$> listing db q)).
  - rewrite list_lookup_fmap. destruct (listing db q !! i) as [r|]; [|done]. cbn. by destruct (day r) as [[]].
  - apply Forall_fmap, Forall_forall. intros d _. cbn. apply Z.mod_pos_bound. lia.
  - rewrite tally_dates; [by rewrite Hp|]. rewrite length_fmap, Hp. done.
  - apply days_sorted; [done| |done]. assert (He : (nav_projection q).2 = false) by (by destruct q).
    unfold listing. rewrite He. apply ordered_sorted.
  - by rewrite length_fmap.
  - by rewrite length_fmap.
Qed.

(** ** The viewer's arrow keys *)
(** Pressing an arrow key over and over: the items shown, up to [fuel] of them. *)
Fixpoint arrow_walk (db : Db) (q : MediaQuery) (delta : Z) (fuel : nat) (id : Z) : list Media.MediaItem :=
  match fuel with
  | O => []
  | S fuel => match neighbor_item date_of timestamp_ok db q id delta with
              | Ok (Some x) => x :: arrow_walk db q delta fuel (Media.id x)
              | _ => []
              end
  end.
Lemma index_of_lookup xs i x : NoDup (Media.id <$> xs) -> xs !! i = Some x -> index_of (Media.id x) xs = Some i.
Proof.
  intros Hn Hi. unfold index_of. destruct (list_find _ xs) as [[j y]|] eqn:E.
  - apply list_find_Some in E as (Hj & He & _). cbn. f_equal.
    apply (NoDup_lookup _ _ _ (Media.id x) Hn); by rewrite list_lookup_fmap, ?Hi, ?Hj; cbn; rewrite ?He.
  - apply list_find_None in E. by eapply Forall_lookup_1 in E.
Qed.
(** From any item of a query the right arrow shows every later item, each
    once and in order, and then stops; the left arrow shows every earlier one
    back to the first. *)
Theorem arrow_keys_walk_list db q xs i x fuel :
  ListView db q xs -> NoDup (Media.id <$> xs) -> xs !! i = Some x -> (length xs <= fuel)%nat ->
  arrow_walk db q 1 fuel (Media.id x) = drop (S i) xs /\ arrow_walk db q (-1) fuel (Media.id x) = reverse (take i xs).
Proof.
  intros V Hn Hi Hf. assert (Hright : forall f j y, xs !! j = Some y -> (length xs <= j + f)%nat -> arrow_walk db q 1 f (Media.id y) = drop (S j) xs).
  { induction f as [|f IH]; intros j y Hj Hlen; cbn [arrow_walk]. { apply lookup_lt_Some in Hj. lia. }
    rewrite view_neighbor, (index_of_lookup _ _ _ Hn Hj). cbn. unfold item_at. cbn. replace (Z.to_nat (Z.of_nat j + 1)) with (S j) by lia.
    rewrite (proj2 (Z.leb_le _ _)) by lia. destruct (xs !! S j) as [z|] eqn:E; [|by rewrite drop_ge by (by apply lookup_ge_None)].
    rewrite (drop_S _ _ _ E). f_equal. apply IH; [done|lia]. }
  split; [apply (Hright fuel); [done|lia]|]. clear Hright.
  assert (Hleft : forall f j y, xs !! j = Some y -> (j <= f)%nat -> arrow_walk db q (-1) f (Media.id y) = reverse (take j xs)).
  { induction f as [|f IH]; intros j y Hj Hlen; cbn [arrow_walk]. { by replace j with O by lia. }
    rewrite view_neighbor, (index_of_lookup _ _ _ Hn Hj). cbn. unfold item_at. cbn. destruct j as [|j]; [done|].
    rewrite (proj2 (Z.leb_le _ _)) by lia. replace (Z.to_nat _) with j by lia.
    destruct (lookup_lt_is_Some_2 xs j) as [z Hz]; [apply lookup_lt_Some in Hj; lia|]. rewrite Hz.
    rewrite (take_S_r _ _ _ Hz), reverse_app. cbn. f_equal. apply IH; [done|lia]. }
  apply Hleft; [done|]. apply lookup_lt_Some in Hi. lia.
Qed.
End Repository.

(** ** Witnesses and divergences *)
Module Sample.
Definition date_of (zone : Zone) (t : Z) : option (Z * Z * Z) :=
  Some (2024, 1, 1 + (t + match zone with Utc => 0 | Localtime => 3600 end) / 86400).
Definition photo (uri : string) (location : Z) (taken trashed : option Z) : Media :=
  set_m_trashed_at trashed (set_m_taken_at taken (set_m_location location (set_m_uri uri SyncDb.Sample.photo))).
Definition rows : gmap Z Media :=
  {[1 := photo "a" 1 (Some 100) None; 2 := photo "b" 1 (Some 300) None; 3 := photo "c" 1 (Some 200) None; 4 := photo "d" 2 None (Some 9)]}.
Definition db : Db := set_db_media rows SyncDb.Sample.db.
Definition shown : list Media.MediaItem :=
  match to_items (fun _ => true) (listing date_of db LiveAll) with Ok xs => xs | Err _ => [] end.
End Sample.

Lemma sample_view_items : to_items (fun _ => true) (listing Sample.date_of Sample.db LiveAll) = Ok Sample.shown /\
  Media.id <$> Sample.shown = [2; 3; 1].
Proof. split; vm_compute; reflexivity. Qed.
Lemma section_headers_follow_list_witness : exists counts,
  section_counts_for_query Sample.date_of Sample.db LiveAll Sections.Day = Ok counts /\
  Sections.section_for_global_offset counts 1 = Some (Sections.mkKey (Some 2024) (Some 1) (Some 1)).
Proof.
  apply (section_headers_follow_list Sample.date_of Sample.db LiveAll Sections.Day 1).
  - discriminate.
  - by apply plain_aligned.
  - intros s t Hst a b [= <-] [= <-]. unfold Sections.rank_le. cbn. pose proof (Z.div_le_mono (s + 3600) (t + 3600) 86400). lia.
  - apply Forall_forall. intros r _. by eexists.
  - vm_compute. discriminate.
  - vm_compute. lia.
Defined.
Lemma arrow_keys_walk_list_witness : Media.id <$> arrow_walk Sample.date_of (fun _ => true) Sample.db LiveAll 1 3 2 = [3; 1].
Proof.
  destruct (lookup_lt_is_Some_2 Sample.shown 0) as [x Hx]; [vm_compute; lia|].
  assert (Hid : Media.id x = 2) by (vm_compute in Hx; by injection Hx as <-).
  pose proof (arrow_keys_walk_list Sample.date_of (fun _ => true) Sample.db LiveAll Sample.shown 0 x 3) as H.
  rewrite Hid in H. destruct H as [-> _].
  - destruct (listing_pages Sample.date_of (fun _ => true) Sample.db LiveAll Sample.shown) as [Hc Hi];
      [apply sample_view_items|vm_compute; discriminate|]. split; [exact Hc|exact Hi|..]; intros.
    + apply (listing_position _ (fun _ => true)); [by apply plain_aligned|apply sample_view_items|vm_compute; discriminate].
    + apply listing_neighbor; [by apply plain_aligned|apply sample_view_items].
    + apply (listing_ranks _ (fun _ => true)); [by apply plain_aligned|apply sample_view_items|vm_compute; discriminate].
  - apply (bool_decide_unpack _). vm_compute. exact I.
  - done.
  - vm_compute. lia.
  - vm_compute. reflexivity.
Defined.

(** A trashed row that is only in the cloud is on the trash page and counted
    there, but has no position and no neighbours: those statements look at
    visible rows. *)
Lemma trash_navigation_diverges :
  (exists x, items Sample.date_of (fun _ => true) Sample.db Trash 0 10 = Ok [x] /\ Media.id x = 4) /\
  count Sample.date_of Sample.db Trash = Ok 1 /\ position Sample.date_of Sample.db Trash 4 = Ok None.
Proof.
  split_and!; [|vm_compute; reflexivity|vm_compute; reflexivity].
  destruct (items Sample.date_of (fun _ => true) Sample.db Trash 0 10) as [[|x [|y l]]|e] eqn:E; vm_compute in E; try discriminate.
  exists x. split; [done|]. by injection E as <-.
Qed.
(** A photo taken at 23:50 UTC in a zone one hour ahead: a search for the local
    day shows it, but the viewer finds no position for it and the sections of
    the search are empty. *)
Lemma date_search_diverges : let db := set_db_media {[1 := Sample.photo "a" 1 (Some 85800) None]} SyncDb.Sample.db in
  let q := Search "2024-01-02" FieldDate in
  count Sample.date_of db q = Ok 1 /\ position Sample.date_of db q 1 = Ok None /\
  section_counts_for_query Sample.date_of db q Sections.Day = Ok ∅.
Proof. cbv zeta. split_and!; vm_compute; reflexivity. Qed.
(** The same photo is counted under its local day, while grouping files it under
    its universal day. *)
Lemma grouping_zone_diverges : let db := set_db_media {[1 := Sample.photo "a" 1 (Some 85800) None]} SyncDb.Sample.db in
  match get_media_item (fun _ => true) db 1, section_counts_for_query Sample.date_of db LiveAll Sections.Day with
  | Ok x, Ok counts => counts !! Sections.make_key (fun t => default (0, 0, 0) (Sample.date_of Utc (ts t))) x Sections.Day = None
  | _, _ => False
  end.
Proof. vm_compute. reflexivity. Qed.
End Queries.
