(* ===== verification/Files.v ===== *)
(** Local files as the sync service uses them: paths, a file system with names,
    inodes and links, and computations over the database and the files whose
    every intermediate state is recorded.

    A run takes a list of faults: the next operation that may fail does so when
    its fault is set. The states between operations are where the process may
    stop. [wpc] reasons about both: the states of a run satisfy a crash
    condition, and its outcome a postcondition. *)
From Stdlib Require Import Ascii String.
From S2P Require Import Prelude.
From S2P Require Import Media.
From S2P Require Import SyncDb.
From S2P Require Import SyncRuntime.
From S2P Require Import SyncReceive.
Local Open Scope Z_scope.

Module Files.
Import Receive.

(** ** Paths *)
Inductive Component := RootDir | CurDir | ParentDir | Normal (name : string).
(** [Path::components]: a leading [.] is kept, later ones are skipped. *)
Definition path_components (p : string) : list Component :=
  (if String.prefix "/" p then [RootDir] else if bool_decide (head (Media.split_slash p) = Some "."%string) then [CurDir] else [])
  ++ ((fun s => if bool_decide (s = ".."%string) then ParentDir else Normal s) <$> Media.components p).
(** ** The file system *)
Record File := mkFile { f_bytes : list Z; f_mtime : Z }.
(** A name is a regular file, a symbolic link or a directory, the last two with
    their own length and modification time. *)
Inductive Node := NFile (ino : Z) | NLink (to : string) (len mtime : Z) | NDir (len mtime : Z).
Record Fs := mkFs { names : gmap string Node; inodes : gmap Z File; next_ino : Z }.
Definition set_names (v : gmap string Node) (fs : Fs) : Fs := mkFs v (inodes fs) (next_ino fs).
Definition set_inodes (v : gmap Z File) (fs : Fs) : Fs := mkFs (names fs) v (next_ino fs).

Inductive FileType := IsFile | IsLink | IsDir.
#[export] Instance FileType_eq_dec : EqDecision FileType.
Proof. solve_decision. Defined.
(** What a stat call reports; times are nanoseconds since the epoch. *)
Record Metadata := mkMetadata { file_type : FileType; ino : Z; len : Z; modified : Z }.
Definition node_metadata (fs : Fs) (n : Node) : option Metadata :=
  match n with
  | NFile i => (fun f => mkMetadata IsFile i (Z.of_nat (length (f_bytes f))) (f_mtime f)) <$> inodes fs !! i
  | NLink _ l m => Some (mkMetadata IsLink 0 l m)
  | NDir l m => Some (mkMetadata IsDir 0 l m)
  end.
Definition symlink_metadata (fs : Fs) (p : string) : option Metadata := names fs !! p ≫= node_metadata fs.

(** The name a path leads to; the kernel follows at most forty links. *)
Definition MAX_LINKS : nat := 40.
Fixpoint follow (fuel : nat) (fs : Fs) (p : string) : option string :=
  match names fs !! p with
  | Some (NLink to _ _) => match fuel with O => None | S fuel => follow fuel fs to end
  | _ => Some p
  end.
Definition resolve : Fs -> string -> option string := follow MAX_LINKS.
Definition metadata (fs : Fs) (p : string) : option Metadata := q ← resolve fs p; symlink_metadata fs q.
Definition is_type (t : FileType) (fs : Fs) (p : string) : bool := bool_decide (file_type <$> metadata fs p = Some t).
Definition is_file : Fs -> string -> bool := is_type IsFile.
Definition is_dir : Fs -> string -> bool := is_type IsDir.
Definition path_exists (fs : Fs) (p : string) : bool := bool_decide (is_Some (metadata fs p)).
Definition read (fs : Fs) (p : string) : option (list Z) :=
  q ← resolve fs p; n ← names fs !! q; match n with NFile i => f_bytes <$> inodes fs !! i | _ => None end.

Definition NOT_FOUND : AppError := Io "not found".
Definition ALREADY_EXISTS : AppError := Io "already exists".
Definition IS_DIRECTORY : AppError := Io "is a directory".

(** [std::fs::remove_file]. *)
Definition remove_file (p : string) (fs : Fs) : result Fs :=
  match names fs !! p with
  | None => Err NOT_FOUND
  | Some (NDir _ _) => Err IS_DIRECTORY
  | Some _ => Ok (set_names (delete p (names fs)) fs)
  end.
Definition same_file (a b : Node) : bool :=
  match a, b with NFile i, NFile j => i =? j | _, _ => false end.
(** [std::fs::rename] of a file or link: two names of one file stay as they are. *)
Definition rename (p q : string) (fs : Fs) : result Fs :=
  match names fs !! p, names fs !! q with
  | None, _ => Err NOT_FOUND
  | Some (NDir _ _), _ | _, Some (NDir _ _) => Err IS_DIRECTORY
  | Some a, Some b => if same_file a b then Ok fs else Ok (set_names (<[q := a]> (delete p (names fs))) fs)
  | Some a, None => Ok (set_names (<[q := a]> (delete p (names fs))) fs)
  end.
(** [std::fs::hard_link]. *)
Definition hard_link (p q : string) (fs : Fs) : result Fs :=
  match names fs !! p, names fs !! q with
  | _, Some _ => Err ALREADY_EXISTS
  | None, _ => Err NOT_FOUND
  | Some (NDir _ _), _ => Err IS_DIRECTORY
  | Some a, None => Ok (set_names (<[q := a]> (names fs)) fs)
  end.
(** The content of the file a path leads to, created when the name is free. *)
Definition write_file (p : string) (f : File) (fs : Fs) : result Fs :=
  q ← ok_or_err (resolve fs p) NOT_FOUND;
  match names fs !! q with
  | None => Ok (mkFs (<[q := NFile (next_ino fs)]> (names fs)) (<[next_ino fs := f]> (inodes fs)) (next_ino fs + 1))
  | Some (NFile i) => Ok (set_inodes (<[i := f]> (inodes fs)) fs)
  | Some _ => Err IS_DIRECTORY
  end.
(** [File::set_modified]. *)
Definition set_modified (p : string) (mtime : Z) (fs : Fs) : result Fs :=
  q ← ok_or_err (resolve fs p) NOT_FOUND;
  match names fs !! q with
  | Some (NFile i) => Ok (set_inodes (alter (fun f => mkFile (f_bytes f) mtime) i (inodes fs)) fs)
  | Some _ => Err IS_DIRECTORY
  | None => Err NOT_FOUND
  end.
(** The directories above a path, the topmost first. *)
Definition dirs_of (p : string) : list string :=
  match Media.split_slash p with
  | ""%string :: segments => (fun n => ("/" +:+ Runtime.join_slash (take n segments))%string) <$> seq 1 (length segments)
  | segments => (fun n => Runtime.join_slash (take n segments)) <$> seq 1 (length segments)
  end.
(** [std::fs::create_dir] of a name that is not a directory. *)
Definition create_dir (p : string) (fs : Fs) : result Fs :=
  match names fs !! p with
  | None => Ok (set_names (<[p := NDir 0 0]> (names fs)) fs)
  | Some _ => Err ALREADY_EXISTS
  end.

(** ** Runs

    A run starts from a list of faults and a state and records the state after
    every operation that changed it. *)
Record St := mkSt { st_db : Db; st_fs : Fs }.
Definition set_fs (fs : Fs) (st : St) : St := mkSt (st_db st) fs.
Record Outcome (A : Type) := mkOutcome { o_trace : list St; o_state : St; o_faults : list bool; o_result : result A }.
Arguments mkOutcome {A}.
Arguments o_trace {A}.
Arguments o_state {A}.
Arguments o_faults {A}.
Arguments o_result {A}.
Definition IO (A : Type) : Type := list bool -> St -> Outcome A.
#[export] Instance IO_ret : MRet IO := fun A a fl st => mkOutcome [] st fl (Ok a).
#[export] Instance IO_bind : MBind IO := fun A B k m fl st =>
  let o := m fl st in
  match o_result o with
  | Ok a => let o' := k a (o_faults o) (o_state o) in mkOutcome (o_trace o ++ o_trace o') (o_state o') (o_faults o') (o_result o')
  | Err e => mkOutcome (o_trace o) (o_state o) (o_faults o) (Err e)
  end.
Definition fail {A} (e : AppError) : IO A := fun fl st => mkOutcome [] st fl (Err e).
(** A query of the present state. *)
Definition look {A} (f : St -> A) : IO A := fun fl st => mkOutcome [] st fl (Ok (f st)).
Definition checked {A} (r : result A) : IO A := fun fl st => mkOutcome [] st fl r.
Definition require (b : bool) (e : AppError) : IO unit := if b then mret tt else fail e.
Definition some {A} (o : option A) (e : AppError) : IO A := checked (ok_or_err o e).
(** [let _ = m;] and [match m]: the result as a value. *)
Definition attempt {A} (m : IO A) : IO (result A) := fun fl st =>
  let o := m fl st in mkOutcome (o_trace o) (o_state o) (o_faults o) (Ok (o_result o)).
(** An operation that may fail for a reason outside the program. *)
Definition FAULT : AppError := Io "interrupted".
Definition op {A} (f : St -> result (A * St)) : IO A := fun fl st =>
  if default false (head fl) then mkOutcome [] st (tail fl) (Err FAULT)
  else match f st with
       | Ok (a, st') => mkOutcome [st'] st' (tail fl) (Ok a)
       | Err e => mkOutcome [] st (tail fl) (Err e)
       end.
(** A file operation, a database command and a database query. *)
Definition file_op (f : Fs -> result Fs) : IO unit := op (fun st => fs ← f (st_fs st); Ok (tt, set_fs fs st)).
Definition command {A} (m : Tx Db A) : IO A :=
  op (fun st => r ← m (st_db st); Ok (r.1, mkSt r.2 (st_fs st))).
Definition query {A} (f : Db -> result A) : IO A := op (fun st => a ← f (st_db st); Ok (a, st)).
(** [File::open(dir)?.sync_all()]: what was done in the directory is kept. *)
Definition sync_dir (dir : string) : IO unit :=
  op (fun st => if is_dir (st_fs st) dir then Ok (tt, st) else Err NOT_FOUND).
Definition sync_file (p : string) : IO unit :=
  op (fun st => if path_exists (st_fs st) p then Ok (tt, st) else Err NOT_FOUND).
Fixpoint create_dirs (upward : list string) : IO unit :=
  match upward with
  | [] => mret tt
  | d :: up =>
      known ← look (fun st => is_dir (st_fs st) d);
      if (known : bool) then mret tt else _ ← create_dirs up; file_op (create_dir d)
  end.
(** [std::fs::create_dir_all]. *)
Definition create_dir_all (p : string) : IO unit := create_dirs (reverse (dirs_of p)).
(** [std::fs::copy]: the destination exists before it has its content. *)
Definition copy (now : Z) (from to : string) : IO unit :=
  bytes ← look (fun st => read (st_fs st) from);
  bytes ← some bytes NOT_FOUND;
  _ ← file_op (write_file to (mkFile [] now));
  file_op (write_file to (mkFile bytes now)).

(** The states in which a run may stop. *)
Definition stops {A} (m : IO A) (fl : list bool) (st : St) : list St := st :: o_trace (m fl st).

(** ** Crash conditions

    [wpc faulty C m Q st]: a run of [m] from [st], with any faults when [faulty]
    and with none otherwise, passes only through states of [C] and ends with an
    outcome of [Q]. *)
Definition allowed (faulty : bool) (fl : list bool) : Prop := faulty = true \/ fl = [].
Definition wpc (faulty : bool) (C : St -> Prop) {A} (m : IO A) (Q : result A -> St -> Prop) (st : St) : Prop :=
  forall fl, allowed faulty fl ->
    Forall C (o_trace (m fl st)) /\ allowed faulty (o_faults (m fl st)) /\ Q (o_result (m fl st)) (o_state (m fl st)).

Section Wpc.
Context (faulty : bool) (C : St -> Prop).
Notation W := (wpc faulty C).
Implicit Types (st : St).

Lemma wpc_bind {A B} (m : IO A) (k : A -> IO B) Q st :
  W m (fun r st' => match r with Ok a => W (k a) Q st' | Err e => Q (Err e) st' end) st -> W (m ≫= k) Q st.
Proof.
  intros Hm fl Hfl. destruct (Hm fl Hfl) as (HC & Hfl' & HQ). unfold mbind, IO_bind.
  destruct (o_result (m fl st)) as [a|e]; [|done]. cbn. destruct (HQ _ Hfl') as (HC' & Hfl2 & HQ').
  split; [by apply Forall_app|done].
Qed.
Lemma wpc_ret {A} (a : A) (Q : result A -> St -> Prop) st : Q (Ok a) st -> W (mret a) Q st.
Proof. intros HQ fl Hfl. by split_and!; [constructor|..]. Qed.
Lemma wpc_fail {A} e (Q : result A -> St -> Prop) st : Q (Err e) st -> W (fail e) Q st.
Proof. intros HQ fl Hfl. by split_and!; [constructor|..]. Qed.
Lemma wpc_look {A} (f : St -> A) (Q : result A -> St -> Prop) st : Q (Ok (f st)) st -> W (look f) Q st.
Proof. intros HQ fl Hfl. by split_and!; [constructor|..]. Qed.
Lemma wpc_checked {A} (r : result A) (Q : result A -> St -> Prop) st : Q r st -> W (checked r) Q st.
Proof. intros HQ fl Hfl. by split_and!; [constructor|..]. Qed.
Lemma wpc_require b e Q st : (b = true -> Q (Ok tt) st) -> (b = false -> Q (Err e) st) -> W (require b e) Q st.
Proof. intros H1 H2. destruct b; [apply wpc_ret|apply wpc_fail]; auto. Qed.
Lemma wpc_some {A} (o : option A) e (Q : result A -> St -> Prop) st :
  (forall a, o = Some a -> Q (Ok a) st) -> (o = None -> Q (Err e) st) -> W (some o e) Q st.
Proof. intros H1 H2. apply wpc_checked. destruct o; cbn; auto. Qed.
Lemma wpc_attempt {A} (m : IO A) (Q : result (result A) -> St -> Prop) st :
  W m (fun r st' => Q (Ok r) st') st -> W (attempt m) Q st.
Proof. intros Hm fl Hfl. apply (Hm fl Hfl). Qed.
Lemma wpc_op {A} (f : St -> result (A * St)) (Q : result A -> St -> Prop) st :
  (faulty = true -> Q (Err FAULT) st) ->
  match f st with Ok (a, st') => C st' /\ Q (Ok a) st' | Err e => Q (Err e) st end -> W (op f) Q st.
Proof.
  intros Hf Hs fl Hfl. unfold op.
  assert (Ht : allowed faulty (tail fl)) by (destruct Hfl as [?| ->]; [by left|by right]).
  destruct (default false (head fl)) eqn:E.
  - split_and!; [constructor|done|]. destruct Hfl as [?| ->]; [by apply Hf|done].
  - destruct (f st) as [[a st']|e]; cbn; split_and!; try done; [|by destruct Hs]. constructor; [by destruct Hs|constructor].
Qed.
Lemma wpc_file_op f (Q : result unit -> St -> Prop) st :
  (faulty = true -> Q (Err FAULT) st) ->
  match f (st_fs st) with Ok fs => C (set_fs fs st) /\ Q (Ok tt) (set_fs fs st) | Err e => Q (Err e) st end ->
  W (file_op f) Q st.
Proof. intros Hf Hs. apply wpc_op; [done|]. by destruct (f (st_fs st)). Qed.
Lemma wpc_command {A} (m : Tx Db A) (Q : result A -> St -> Prop) st :
  (faulty = true -> Q (Err FAULT) st) ->
  match m (st_db st) with Ok (a, db) => C (mkSt db (st_fs st)) /\ Q (Ok a) (mkSt db (st_fs st)) | Err e => Q (Err e) st end ->
  W (command m) Q st.
Proof. intros Hf Hs. apply wpc_op; [done|]. by destruct (m (st_db st)) as [[]|]. Qed.
Lemma wpc_query {A} (f : Db -> result A) (Q : result A -> St -> Prop) st :
  C st -> (faulty = true -> Q (Err FAULT) st) -> Q (f (st_db st)) st -> W (query f) Q st.
Proof. intros HC Hf Hs. apply wpc_op; [done|]. by destruct (f (st_db st)). Qed.
Lemma wpc_sync_dir dir (Q : result unit -> St -> Prop) st :
  C st -> (faulty = true -> Q (Err FAULT) st) -> Q (if is_dir (st_fs st) dir then Ok tt else Err NOT_FOUND) st ->
  W (sync_dir dir) Q st.
Proof. intros HC Hf Hs. apply wpc_op; [done|]. by destruct (is_dir _ _). Qed.
Lemma wpc_command_respects {A} (R : relation Db) (m : Tx Db A) (Q : result A -> St -> Prop) st : respects R m ->
  (forall e, (faulty = false -> m (st_db st) = Err e) -> Q (Err e) st) ->
  (forall a db, m (st_db st) = Ok (a, db) -> R (st_db st) db -> C (mkSt db (st_fs st)) /\ Q (Ok a) (mkSt db (st_fs st))) ->
  W (command m) Q st.
Proof.
  intros HR He Hok. apply wpc_command; [intros ->; by apply He|]. destruct (m (st_db st)) as [[a db]|e] eqn:E; [|by apply He].
  apply Hok; [done|]. by eapply HR.
Qed.
Lemma wpc_mono {A} (m : IO A) (Q Q' : result A -> St -> Prop) st :
  W m Q st -> (forall r st', Q r st' -> Q' r st') -> W m Q' st.
Proof. intros Hm HQ fl Hfl. destruct (Hm fl Hfl) as (? & ? & ?). auto. Qed.
End Wpc.
(** A run passes through fewer states than a weaker condition allows. *)
Lemma wpc_weaken faulty (C C' : St -> Prop) {A} (m : IO A) Q st : wpc faulty C m Q st -> (forall st', C st' -> C' st') -> wpc faulty C' m Q st.
Proof. intros Hm HC fl Hfl. destruct (Hm fl Hfl) as (H & ? & ?). split_and!; [|done|done]. by eapply Forall_impl. Qed.
(** Every stop of a run satisfies what the start and the steps satisfy. *)
Lemma wpc_stops (C : St -> Prop) {A} (m : IO A) Q faulty fl st st' : wpc faulty C m Q st -> allowed faulty fl -> C st -> st' ∈ stops m fl st -> C st'.
Proof. intros Hm Hfl HC [->|Hin]%elem_of_cons; [done|]. destruct (Hm fl Hfl) as (H & _). rewrite Forall_forall in H. by apply H. Qed.

(** ** Relations kept at every stop

    [keeping R m]: whatever fails and wherever a run of [m] stops, the state there
    is related by [R] to the state before. *)
Definition keeping (R : relation St) {A} (m : IO A) : Prop := forall st, wpc true (R st) m (fun _ => R st) st.
Section Keeping.
Context (R : relation St) `{!PreOrder R}.
Notation keeping := (keeping R).
Lemma keeping_stops {A} (m : IO A) fl st st' : keeping m -> st' ∈ stops m fl st -> R st st'.
Proof. intros Hm Hin. by apply (wpc_stops (R st) m _ true fl st st' (Hm st)); [left|..]. Qed.
Lemma keeping_final {A} (m : IO A) fl st : keeping m -> R st (o_state (m fl st)).
Proof. intros Hm. by destruct (Hm st fl) as (_ & _ & H); [left|]. Qed.
(** From a state reached so far. *)
Lemma keeping_from {A} (m : IO A) st0 st : keeping m -> R st0 st -> wpc true (R st0) m (fun _ => R st0) st.
Proof. intros Hm Hk. eapply wpc_weaken; [eapply wpc_mono; [apply Hm|]|]; cbn; intros; by etrans. Qed.
Lemma keeping_bind {A B} (m : IO A) (k : A -> IO B) : keeping m -> (forall a, keeping (k a)) -> keeping (m ≫= k).
Proof. intros Hm Hk st. apply wpc_bind. eapply wpc_mono; [apply Hm|]. intros [a|e] st' H; [by apply keeping_from|done]. Qed.
Lemma keeping_ret {A} (a : A) : keeping (mret a).
Proof. intros st. by apply wpc_ret. Qed.
Lemma keeping_fail {A} e : keeping (@fail A e).
Proof. intros st. by apply wpc_fail. Qed.
Lemma keeping_look {A} (f : St -> A) : keeping (look f).
Proof. intros st. by apply wpc_look. Qed.
Lemma keeping_checked {A} (r : result A) : keeping (checked r).
Proof. intros st. by apply wpc_checked. Qed.
Lemma keeping_some {A} (o : option A) e : keeping (some o e).
Proof. intros st. by apply wpc_some. Qed.
Lemma keeping_require b e : keeping (require b e).
Proof. destruct b; [apply keeping_ret|apply keeping_fail]. Qed.
Lemma keeping_attempt {A} (m : IO A) : keeping m -> keeping (attempt m).
Proof. intros Hm st. apply wpc_attempt. eapply wpc_mono; [apply Hm|done]. Qed.
Lemma keeping_op {A} (f : St -> result (A * St)) : (forall st a st', f st = Ok (a, st') -> R st st') -> keeping (op f).
Proof. intros Hf st. apply wpc_op; [done|]. destruct (f st) as [[a st']|] eqn:E; [|done]. by pose proof (Hf _ _ _ E). Qed.
Lemma keeping_query {A} (f : Db -> result A) : keeping (query f).
Proof. apply keeping_op. intros st a st'. cbn. destruct (f (st_db st)); [|done]. by intros [= _ <-]. Qed.
Lemma keeping_sync_dir d : keeping (sync_dir d).
Proof. apply keeping_op. intros st a st'. destruct (is_dir _ _); [|done]. by intros [= _ <-]. Qed.
(** What a check lets pass is known afterwards. *)
Lemma keeping_require_then {B} b e (k : IO B) : (b = true -> keeping k) -> keeping (_ ← require b e; k).
Proof. intros Hk st. apply wpc_bind, wpc_require; [intros Hb; by apply Hk|done]. Qed.
Lemma keeping_some_then {A B} (o : option A) e (k : A -> IO B) :
  (forall a, o = Some a -> keeping (k a)) -> keeping (a ← some o e; k a).
Proof. intros Hk st. apply wpc_bind, wpc_some; [intros a Ha; by apply Hk|done]. Qed.
End Keeping.
Create HintDb keeping.
#[export] Hint Resolve keeping_ret keeping_fail keeping_look keeping_checked keeping_some keeping_require
  keeping_query keeping_sync_dir : keeping.
Ltac keep := repeat first
  [ solve [eauto with keeping typeclass_instances]
  | lazymatch goal with
    | |- keeping _ (_ ≫= _) => apply keeping_bind; [apply _| |intros ?]
    | |- keeping _ (attempt _) => apply keeping_attempt
    | |- keeping _ (match ?x with _ => _ end) => destruct x
    end ].

(** ** Absolute paths as lists of names *)
Definition plain_char (c : ascii) : bool := negb (Ascii.eqb c "/").
Definition plain_name (s : string) : bool :=
  negb (Runtime.skippable s) && forallb plain_char (String.list_ascii_of_string s).
Definition abs (l : list string) : string := ("/" +:+ Runtime.join_slash l)%string.

Lemma split_slash_plain s : forallb plain_char (String.list_ascii_of_string s) = true -> Media.split_slash s = [s].
Proof.
  induction s as [|c s IH]; [done|]. intros [Hc Hs]%andb_prop. apply negb_true_iff in Hc.
  cbn [Media.split_slash]. by rewrite Hc, IH.
Qed.
Lemma split_slash_app s t :
  forallb plain_char (String.list_ascii_of_string s) = true ->
  Media.split_slash (s +:+ "/" +:+ t)%string = s :: Media.split_slash t.
Proof.
  induction s as [|c s IH]; [done|]. intros [Hc Hs]%andb_prop. apply negb_true_iff in Hc.
  change (String c s +:+ "/" +:+ t)%string with (String c (s +:+ "/" +:+ t)). cbn [Media.split_slash]. by rewrite Hc, IH.
Qed.
Lemma plain_chars s : plain_name s = true -> forallb plain_char (String.list_ascii_of_string s) = true.
Proof. by intros [_ H]%andb_prop. Qed.
Lemma split_join l : l <> [] -> Forall (fun s => plain_name s = true) l -> Media.split_slash (Runtime.join_slash l) = l.
Proof.
  intros Hne Hl. induction Hl as [|s l Hs Hl IH]; [done|]. destruct l as [|t l].
  - by apply split_slash_plain, plain_chars.
  - change (Runtime.join_slash (s :: t :: l)) with (s +:+ "/" +:+ Runtime.join_slash (t :: l))%string.
    rewrite split_slash_app by by apply plain_chars. by rewrite IH.
Qed.
Lemma append_cons c s t : (String c s +:+ t)%string = String c (s +:+ t).
Proof. done. Qed.
Lemma append_assoc r s t : ((r +:+ s) +:+ t = r +:+ s +:+ t)%string.
Proof. induction r as [|c r IH]; [done|]. by rewrite !append_cons, IH. Qed.
Lemma join_cons s l : l <> [] -> Runtime.join_slash (s :: l) = (s +:+ "/" +:+ Runtime.join_slash l)%string.
Proof. by destruct l. Qed.
Lemma join_app l m : l <> [] -> m <> [] ->
  Runtime.join_slash (l ++ m) = (Runtime.join_slash l +:+ "/" +:+ Runtime.join_slash m)%string.
Proof.
  intros Hl Hm. induction l as [|x l IH]; [done|]. destruct l as [|y l]; [by apply join_cons|].
  cbn [app] in *. rewrite !(join_cons x), IH by done. by rewrite !append_assoc.
Qed.
Lemma split_abs l : l <> [] -> Forall (fun s => plain_name s = true) l -> Media.split_slash (abs l) = ""%string :: l.
Proof.
  intros. change (abs l) with ("" +:+ "/" +:+ Runtime.join_slash l)%string. rewrite split_slash_app by done.
  by rewrite split_join.
Qed.
Lemma abs_inj l m : l <> [] -> m <> [] -> Forall (fun s => plain_name s = true) l -> Forall (fun s => plain_name s = true) m ->
  abs l = abs m -> l = m.
Proof. intros Hl Hm Pl Pm H. apply (f_equal Media.split_slash) in H. rewrite !split_abs in H by done. by injection H. Qed.

Lemma plain_not_skippable s : plain_name s = true -> Runtime.skippable s = false.
Proof. intros [H _]%andb_prop. by apply negb_true_iff. Qed.
Lemma ends_with_slash_cons c s : s <> ""%string -> ends_with_slash (String c s) = ends_with_slash s.
Proof. by destruct s. Qed.
Lemma ends_with_slash_app s t : t <> ""%string -> ends_with_slash (s +:+ t)%string = ends_with_slash t.
Proof.
  intros Ht. induction s as [|c s IH]; [done|]. rewrite append_cons, ends_with_slash_cons; [done|].
  destruct s; [done|]. by rewrite append_cons.
Qed.
Lemma plain_nonempty s : plain_name s = true -> s <> ""%string.
Proof. by intros H ->. Qed.
Lemma plain_no_slash_end s : forallb plain_char (String.list_ascii_of_string s) = true -> ends_with_slash s = false.
Proof.
  induction s as [|c s IH]; [done|]. intros [Hc Hs]%andb_prop. destruct (decide (s = ""%string)) as [->|Hne].
  - cbn. apply bool_decide_false. by intros ->.
  - rewrite ends_with_slash_cons by done. by apply IH.
Qed.
Lemma join_nonempty l : l <> [] -> Forall (fun s => plain_name s = true) l -> Runtime.join_slash l <> ""%string.
Proof.
  intros Hne Hl. destruct Hl as [|s l Hs Hl]; [done|]. apply plain_nonempty in Hs. destruct s as [|c s]; [done|].
  destruct l; [done|]. by rewrite join_cons.
Qed.
Lemma join_no_slash_end l : l <> [] -> Forall (fun s => plain_name s = true) l -> ends_with_slash (Runtime.join_slash l) = false.
Proof.
  intros Hne Hl. induction Hl as [|s l Hs Hl IH]; [done|]. destruct l as [|t l].
  - by apply plain_no_slash_end, plain_chars.
  - rewrite join_cons by done. rewrite ends_with_slash_app by done. rewrite ends_with_slash_app by by apply join_nonempty.
    by apply IH.
Qed.
Lemma prefix_slash_plain s : forallb plain_char (String.list_ascii_of_string s) = true -> String.prefix "/" s = false.
Proof.
  destruct s as [|c s]; [done|]. intros [Hc _]%andb_prop. cbn [String.prefix].
  destruct (Ascii.ascii_dec "/" c) as [<-|]; [by vm_compute in Hc|done].
Qed.
Lemma path_join_abs l s : l <> [] -> Forall (fun s => plain_name s = true) l -> plain_name s = true ->
  path_join (abs l) s = abs (l ++ [s]).
Proof.
  intros Hl Pl Ps. unfold path_join. rewrite prefix_slash_plain by by apply plain_chars. cbn [orb].
  rewrite bool_decide_false by done. unfold abs at 1. rewrite ends_with_slash_app by by apply join_nonempty.
  rewrite join_no_slash_end by done. unfold abs. rewrite join_app by done. by rewrite append_assoc.
Qed.
Lemma path_parent_abs l s : l <> [] -> Forall (fun s => plain_name s = true) l -> plain_name s = true ->
  path_parent (abs (l ++ [s])) = Some (abs l).
Proof.
  intros Hl Pl Ps. unfold path_parent. rewrite split_abs; [|by destruct l|by apply Forall_app; repeat constructor].
  rewrite app_comm_cons, reverse_snoc. cbn [Runtime.drop_skippable]. rewrite plain_not_skippable by done.
  destruct l as [|x l _] using rev_ind; [done|]. apply Forall_app in Pl as [_ [Px _]%Forall_cons].
  rewrite app_comm_cons, reverse_snoc. cbn [Runtime.drop_skippable]. rewrite plain_not_skippable by done.
  rewrite <- reverse_snoc, reverse_involutive. cbn [app]. f_equal. unfold abs. by rewrite join_cons by by destruct l.
Qed.
(** ** Names *)
Lemma split_slash_ne s : Media.split_slash s <> [].
Proof. destruct s as [|c s]; [done|]. cbn [Media.split_slash]. destruct (Ascii.eqb c "/"); [done|]. by destruct (Media.split_slash s). Qed.
Lemma split_slash_plain_chars s : Forall (fun t => forallb plain_char (String.list_ascii_of_string t) = true) (Media.split_slash s).
Proof.
  induction s as [|c s IH]; [by repeat constructor|]. cbn [Media.split_slash]. destruct (Ascii.eqb c "/") eqn:Hc; [by constructor|].
  assert (Hp : plain_char c = true) by (unfold plain_char; by rewrite Hc).
  destruct IH as [|t l Ht Hl]; [by repeat constructor; cbn [String.list_ascii_of_string forallb]; rewrite Hp|].
  constructor; [|done]. cbn [String.list_ascii_of_string forallb]. by rewrite Hp.
Qed.
Lemma join_split s : Runtime.join_slash (Media.split_slash s) = s.
Proof.
  induction s as [|c s IH]; [done|]. cbn [Media.split_slash]. destruct (Ascii.eqb c "/") eqn:Hc.
  - apply Ascii.eqb_eq in Hc as ->. rewrite join_cons by apply split_slash_ne. by rewrite IH.
  - pose proof (split_slash_ne s). destruct (Media.split_slash s) as [|t l]; [done|]. destruct l as [|u l].
    + cbn in IH |- *. by rewrite IH.
    + rewrite join_cons in IH |- * by done. by rewrite append_cons, IH.
Qed.
Lemma rsplit_dot_plain s x y : forallb plain_char (String.list_ascii_of_string s) = true -> Media.rsplit_dot s = Some (x, y) ->
  forallb plain_char (String.list_ascii_of_string x) = true /\ forallb plain_char (String.list_ascii_of_string y) = true.
Proof.
  revert x y. induction s as [|c s IH]; intros x y; [done|]. cbn [String.list_ascii_of_string forallb Media.rsplit_dot].
  intros [Hc Hs]%andb_prop. destruct (Media.rsplit_dot s) as [[x' y']|] eqn:E.
  - intros [= <- <-]. destruct (IH x' y') as [Hx Hy]; [done..|]. cbn. by rewrite Hc, Hx.
  - destruct (Ascii.eqb c "."); [|done]. by intros [= <- <-].
Qed.
Lemma file_name_plain s name : Media.file_name s = Some name -> forallb plain_char (String.list_ascii_of_string name) = true.
Proof.
  unfold Media.file_name. destruct (last (Media.components s)) as [n|] eqn:Hl; [|done]. destruct (String.eqb n ".."); [done|].
  intros [= <-]. apply last_Some_elem_of in Hl. apply list_elem_of_filter in Hl as [_ Hin].
  pose proof (split_slash_plain_chars s) as H. rewrite Forall_forall in H. by apply H.
Qed.
Lemma extension_plain s e : Media.extension s = Some e -> forallb plain_char (String.list_ascii_of_string e) = true.
Proof.
  unfold Media.extension. destruct (Media.file_name s) as [name|] eqn:Hn; [|done].
  destruct (Media.rsplit_dot name) as [[x y]|] eqn:Hr; [|done]. destruct (String.eqb x ""); [done|]. intros [= <-].
  eapply rsplit_dot_plain; [by eapply file_name_plain|exact Hr].
Qed.
Lemma plain_append s t : forallb plain_char (String.list_ascii_of_string s) = true ->
  forallb plain_char (String.list_ascii_of_string t) = true -> forallb plain_char (String.list_ascii_of_string (s +:+ t)%string) = true.
Proof. intros Hs Ht. induction s as [|c s IH]; [done|]. apply andb_prop in Hs as [Hc Hs]. rewrite append_cons. cbn. rewrite Hc. by apply IH. Qed.

(** The parent of a name in a folder that is a parent. *)
Lemma split_join_chars l : l <> [] -> Forall (fun t => forallb plain_char (String.list_ascii_of_string t) = true) l ->
  Media.split_slash (Runtime.join_slash l) = l.
Proof.
  intros Hne Hl. induction Hl as [|s l Hs Hl IH]; [done|]. destruct l as [|t l]; [by apply split_slash_plain|].
  change (Runtime.join_slash (s :: t :: l)) with (s +:+ "/" +:+ Runtime.join_slash (t :: l))%string.
  rewrite split_slash_app by done. by rewrite IH.
Qed.
Lemma drop_skippable_suffix l : exists k, l = k ++ Runtime.drop_skippable l.
Proof.
  induction l as [|s l [k IH]]; [by exists []|]. cbn. destruct (Runtime.skippable s); [|by exists []].
  exists (s :: k). cbn. by rewrite <- IH.
Qed.
Lemma drop_skippable_head l s rest : Runtime.drop_skippable l = s :: rest -> Runtime.skippable s = false.
Proof. induction l as [|t l IH]; [done|]. cbn. destruct (Runtime.skippable t) eqn:E; [done|]. by intros [= <- _]. Qed.
Lemma drop_skippable_id s rest : Runtime.skippable s = false -> Runtime.drop_skippable (s :: rest) = s :: rest.
Proof. cbn. by intros ->. Qed.
Lemma join_last_end up last : Forall (fun t => forallb plain_char (String.list_ascii_of_string t) = true) (reverse (last :: up)) ->
  Runtime.skippable last = false -> ends_with_slash (Runtime.join_slash (reverse (last :: up))) = false.
Proof.
  rewrite reverse_cons. intros [Hu [Hl _]%Forall_cons]%Forall_app Hs.
  assert (Hne : last <> ""%string) by by intros ->. pose proof (plain_no_slash_end _ Hl) as He.
  destruct (reverse up) as [|u us] eqn:E; [done|]. rewrite join_app by done.
  by rewrite !ends_with_slash_app by by destruct last.
Qed.
Lemma path_parent_join p d name : path_parent p = Some d -> plain_name name = true -> path_parent (path_join d name) = Some d.
Proof.
  intros Hp Hname. pose proof (prefix_slash_plain _ (plain_chars _ Hname)) as Hpre.
  pose proof (split_slash_plain _ (plain_chars _ Hname)) as Hsplit. unfold path_parent in Hp.
  destruct (drop_skippable_suffix (reverse (Media.split_slash p))) as [k Hk].
  destruct (Runtime.drop_skippable (reverse (Media.split_slash p))) as [|x rest]; [done|].
  destruct (drop_skippable_suffix rest) as [k' Hk']. destruct (Runtime.drop_skippable rest) as [|last up] eqn:Eup.
  - change (reverse (@nil string)) with (@nil string) in Hp. destruct (String.prefix "/" p); injection Hp as <-.
    + assert (path_join "/" name = ("" +:+ "/" +:+ name)%string) as -> by (unfold path_join; by rewrite Hpre).
      unfold path_parent. rewrite split_slash_app, Hsplit by done.
      change (reverse [""%string; name]) with [name; ""%string]. rewrite drop_skippable_id by by apply plain_not_skippable.
      assert (String.prefix "/" ("" +:+ "/" +:+ name) = true) as -> by by destruct name. done.
    + assert (path_join "" name = name) as -> by (unfold path_join; by rewrite orb_true_r).
      unfold path_parent. rewrite Hsplit. change (reverse [name]) with [name].
      rewrite drop_skippable_id by by apply plain_not_skippable. cbn. by rewrite Hpre.
  - assert (Hne : reverse (last :: up) <> []) by (rewrite reverse_cons; by destruct (reverse up)).
    assert (Hd : d = Runtime.join_slash (reverse (last :: up))) by (destruct (reverse (last :: up)); [done|by injection Hp as <-]).
    assert (Hch : Forall (fun t => forallb plain_char (String.list_ascii_of_string t) = true) (reverse (last :: up))).
    { pose proof (split_slash_plain_chars p) as H. rewrite <- (reverse_involutive (Media.split_slash p)), Hk, Hk' in H.
      apply Forall_reverse. apply Forall_reverse in H. rewrite reverse_involutive in H. apply Forall_app in H as [_ [_ H]%Forall_cons].
      by apply Forall_app in H as [_ H]. }
    apply drop_skippable_head in Eup.
    assert (path_join d name = Runtime.join_slash (reverse (last :: up) ++ [name])) as ->.
    { rewrite join_app by done. unfold path_join. rewrite Hpre, Hd, join_last_end, bool_decide_false; [done| |done..].
      intros E. apply (f_equal Media.split_slash) in E. rewrite split_join_chars in E by done.
      apply (f_equal reverse) in E. rewrite reverse_involutive in E. by injection E as ->. }
    unfold path_parent. rewrite split_join_chars; [|by destruct (reverse (last :: up))|by apply Forall_app; repeat constructor; [|apply plain_chars]].
    rewrite reverse_app, reverse_involutive. change (reverse [name]) with [name]. cbn [app].
    rewrite drop_skippable_id by by apply plain_not_skippable. rewrite drop_skippable_id by done.
    destruct (reverse (last :: up)); [done|by rewrite Hd].
Qed.
Lemma rtrim_slash_id s : ends_with_slash s = false -> rtrim_slash s = s.
Proof.
  induction s as [|c s IH]; [done|]. intros Hs. cbn [rtrim_slash]. destruct (decide (s = ""%string)) as [->|Hne].
  - cbn in Hs |- *. by rewrite Hs.
  - rewrite IH by by rewrite ends_with_slash_cons in Hs. by rewrite bool_decide_false.
Qed.
Lemma trim_plain l : Forall (fun s => plain_name s = true) l -> Runtime.trim_segments l = l.
Proof.
  assert (Hd : forall l, Forall (fun s => plain_name s = true) l -> Runtime.drop_skippable l = l).
  { intros m Hm. destruct Hm as [|s m Hs _]; [done|]. cbn. by rewrite plain_not_skippable. }
  intros Hl. unfold Runtime.trim_segments. rewrite (Hd l) by done. rewrite Hd; [|by apply Forall_reverse].
  apply reverse_involutive.
Qed.
Lemma relative_segments_abs l m : l <> [] -> m <> [] -> Forall (fun s => plain_name s = true) l ->
  Forall (fun s => plain_name s = true) m -> Runtime.relative_segments (abs l) (abs (l ++ m)) = Some m.
Proof.
  intros Hl Hm Pl Pm. unfold Runtime.relative_segments, under_root.
  rewrite rtrim_slash_id by (unfold abs; rewrite ends_with_slash_app by (by apply join_nonempty); by apply join_no_slash_end).
  assert (Hs : strip_prefix (abs l +:+ "/") (abs (l ++ m)) = Some (Runtime.join_slash m)).
  { apply strip_prefix_Some. unfold abs. rewrite join_app by done. by rewrite !append_assoc. }
  rewrite Hs. cbn. by rewrite split_join, trim_plain.
Qed.
Lemma components_plain l : Forall (fun s => plain_name s = true) l -> l <> [] ->
  Media.components (Runtime.join_slash l) = l.
Proof.
  intros Pl Hl. unfold Media.components. rewrite split_join by done. apply filter_all. eapply Forall_impl; [exact Pl|].
  intros s Hs%plain_not_skippable. unfold Runtime.skippable in Hs. apply orb_false_elim in Hs as [H1 H2].
  by apply bool_decide_eq_false in H1, H2.
Qed.
Lemma path_components_plain l : l <> [] -> Forall (fun s => plain_name s = true) l -> ".."%string ∉ l ->
  path_components (Runtime.join_slash l) = Normal <$> l.
Proof.
  intros Hl Pl Hup. unfold path_components. rewrite components_plain, split_join by done.
  assert (Hp : String.prefix "/" (Runtime.join_slash l) = false).
  { destruct Pl as [|s l Ps Pl]; [done|]. pose proof (plain_nonempty s Ps). apply plain_chars in Ps.
    destruct s as [|c s]; [done|]. destruct l; [by apply prefix_slash_plain|].
    rewrite join_cons by done. rewrite append_cons. apply prefix_slash_plain in Ps. cbn [String.prefix] in Ps |- *.
    destruct (Ascii.ascii_dec "/" c); [by destruct s|done]. }
  rewrite Hp. rewrite bool_decide_false.
  - cbn [app]. clear Hp Hl. induction Pl as [|s l Ps Pl IH]; [done|]. cbn. apply not_elem_of_cons in Hup as [Hs Hup].
    rewrite bool_decide_false by (intros ->; done). f_equal. by apply IH.
  - destruct Pl as [|s l Ps Pl]; [done|]. intros [= ->]. done.
Qed.
(** Every file name has its content and inode numbers are not reused. *)
Definition wf (fs : Fs) : Prop :=
  (forall p i, names fs !! p = Some (NFile i) -> is_Some (inodes fs !! i)) /\
  (forall i f, inodes fs !! i = Some f -> i < next_ino fs).

(** ** Stat calls on names that are no links *)
Lemma resolve_plain fs p : (forall to l m, names fs !! p <> Some (NLink to l m)) -> resolve fs p = Some p.
Proof.
  unfold resolve, MAX_LINKS. cbn [follow]. intros H. destruct (names fs !! p) as [[i|to l m|l m]|] eqn:E; try done. by destruct (H to l m).
Qed.
Lemma metadata_plain fs p : (forall to l m, names fs !! p <> Some (NLink to l m)) -> metadata fs p = symlink_metadata fs p.
Proof. intros H. unfold metadata. by rewrite resolve_plain. Qed.
Lemma metadata_absent fs p : names fs !! p = None -> metadata fs p = None.
Proof. intros H. rewrite metadata_plain by (intros; congruence). unfold symlink_metadata. by rewrite H. Qed.
Definition file_metadata (i : Z) (f : File) : Metadata := mkMetadata IsFile i (Z.of_nat (length (f_bytes f))) (f_mtime f).
Lemma symlink_metadata_file fs p i f : names fs !! p = Some (NFile i) -> inodes fs !! i = Some f ->
  symlink_metadata fs p = Some (file_metadata i f).
Proof. intros Hp Hi. unfold symlink_metadata. rewrite Hp. cbn. by rewrite Hi. Qed.
Lemma metadata_file fs p i f : names fs !! p = Some (NFile i) -> inodes fs !! i = Some f -> metadata fs p = Some (file_metadata i f).
Proof. intros Hp Hi. rewrite metadata_plain by (intros; congruence). by apply symlink_metadata_file. Qed.
Lemma read_file fs p i f : names fs !! p = Some (NFile i) -> inodes fs !! i = Some f -> read fs p = Some (f_bytes f).
Proof. intros Hp Hi. unfold read. rewrite resolve_plain by (intros; congruence). cbn. rewrite Hp. cbn. by rewrite Hi. Qed.
Lemma is_dir_dir fs p l m : names fs !! p = Some (NDir l m) -> is_dir fs p = true.
Proof.
  intros Hp. unfold is_dir, is_type. rewrite metadata_plain by (intros; congruence). unfold symlink_metadata. by rewrite Hp.
Qed.
Lemma is_file_absent fs p : names fs !! p = None -> is_file fs p = false.
Proof. intros Hp. unfold is_file, is_type. by rewrite metadata_absent. Qed.
Lemma path_exists_absent fs p : names fs !! p = None -> path_exists fs p = false.
Proof. intros Hp. unfold path_exists. by rewrite metadata_absent. Qed.
Lemma is_file_file fs p i f : names fs !! p = Some (NFile i) -> inodes fs !! i = Some f -> is_file fs p = true /\ path_exists fs p = true.
Proof. intros Hp Hi. unfold is_file, is_type, path_exists. by rewrite (metadata_file _ _ _ _ Hp Hi). Qed.

(** One step of a computation: its rule. *)
Ltac wp :=
  cbn beta iota delta [andb ok_or_err];
  lazymatch goal with
  | |- wpc _ _ (mbind _ _) _ _ => apply wpc_bind
  | |- wpc _ _ (mret _) _ _ => apply wpc_ret
  | |- wpc _ _ (fail _) _ _ => apply wpc_fail
  | |- wpc _ _ (look _) _ _ => apply wpc_look
  | |- wpc _ _ (checked _) _ _ => apply wpc_checked
  | |- wpc _ _ (some _ _) _ _ => apply wpc_checked
  | |- wpc _ _ (require true _) _ _ => apply wpc_ret
  end; cbn beta iota.
End Files.
