(* ===== verification/TrashFiles.v ===== *)
(** The trash on disk ([core/trash.rs]): entries of a freedesktop-style trash
    directory, moving a file into the application's own trash, restoring it and
    deleting it for good.

    An entry is a file under [files/] and an information file under [info/] with
    the percent-encoded original path. Restoring and deleting only ever act on
    an entry whose recorded path is the one asked for. *)
From Stdlib Require Import Ascii String.
From S2P Require Import Prelude.
From S2P Require Import Media.
From S2P Require Import SyncDb.
From S2P Require Import SyncRuntime.
From S2P Require Import SyncReceive.
From S2P Require Import Files.
From stdpp Require Import pretty.
Local Open Scope Z_scope.

Module Trash.
Import Receive Files.
Local Open Scope string_scope.
Local Open Scope list_scope.
Local Open Scope Z_scope.

(** ** Bytes and text *)
Definition byte_of (c : ascii) : Z := Z.of_nat (nat_of_ascii c).
Definition bytes_of (s : string) : list Z := byte_of <$> String.list_ascii_of_string s.
Definition text_of (bytes : list Z) : string := String.string_of_list_ascii ((fun b => ascii_of_nat (Z.to_nat b)) <$> bytes).
Definition within (lo hi b : Z) : bool := (lo <=? b) && (b <=? hi).
(** Well-formed UTF-8. *)
Fixpoint utf8_valid (s : list Z) : bool :=
  match s with
  | [] => true
  | b :: s =>
      if within 0 127 b then utf8_valid s
      else match s with
      | c :: s1 =>
          if within 194 223 b then within 128 191 c && utf8_valid s1
          else match s1 with
          | d :: s2 =>
              if b =? 224 then within 160 191 c && within 128 191 d && utf8_valid s2
              else if b =? 237 then within 128 159 c && within 128 191 d && utf8_valid s2
              else if within 225 239 b then within 128 191 c && within 128 191 d && utf8_valid s2
              else match s2 with
              | e :: s3 =>
                  let tail := within 128 191 d && within 128 191 e && utf8_valid s3 in
                  if b =? 240 then within 144 191 c && tail
                  else if b =? 244 then within 128 143 c && tail
                  else within 241 243 b && within 128 191 c && tail
              | [] => false
              end
          | [] => false
          end
      | [] => false
      end
  end.

Definition hex_digit (c : ascii) : option Z :=
  let b := byte_of c in
  if within 48 57 b then Some (b - 48) else if within 97 102 b then Some (b - 97 + 10)
  else if within 65 70 b then Some (b - 65 + 10) else None.
(** The loop of [percent_decode]: an escape that is not complete stays. *)
Fixpoint percent_decoded (s : string) : list Z :=
  match s with
  | EmptyString => []
  | String c rest =>
      match rest with
      | String h (String l tail) =>
          if Ascii.eqb c "%" then
            match hex_digit h, hex_digit l with
            | Some hi, Some lo => hi * 16 + lo :: percent_decoded tail
            | _, _ => byte_of c :: percent_decoded rest
            end
          else byte_of c :: percent_decoded rest
      | _ => byte_of c :: percent_decoded rest
      end
  end.
Definition unreserved (b : Z) : bool :=
  within 65 90 b || within 97 122 b || within 48 57 b || (b =? 45) || (b =? 46) || (b =? 95) || (b =? 126) || (b =? 47).
(** The upper-case digits of [%02X]. *)
Definition hex_upper (n : Z) : ascii := ascii_of_nat (Z.to_nat (if n <? 10 then 48 + n else 55 + n)).
Fixpoint percent_encode_path (path : string) : string :=
  match path with
  | EmptyString => ""
  | String c rest =>
      let b := byte_of c in
      if unreserved b then String c (percent_encode_path rest)
      else String "%" (String (hex_upper (b / 16)) (String (hex_upper (b mod 16)) (percent_encode_path rest)))
  end.

(** [str::lines]. *)
Definition newline : ascii := ascii_of_nat 10.
Definition carriage_return : ascii := ascii_of_nat 13.
Fixpoint split_on (sep : ascii) (s : string) : list string :=
  match s with
  | EmptyString => [""]
  | String c rest =>
      if Ascii.eqb c sep then "" :: split_on sep rest
      else match split_on sep rest with seg :: segs => String c seg :: segs | [] => [String c ""] end
  end.
Fixpoint strip_cr (s : string) : string :=
  match s with
  | EmptyString => ""
  | String c EmptyString => if Ascii.eqb c carriage_return then "" else s
  | String c rest => String c (strip_cr rest)
  end.
Definition lines (s : string) : list string :=
  match reverse (split_on newline s) with
  | [] => []
  | final :: terminated => reverse (strip_cr <$> terminated) ++ (if bool_decide (final = "") then [] else [final])
  end.
Definition strip_suffix (suffix s : string) : option string :=
  let n := (String.length s - String.length suffix)%nat in
  if bool_decide (s = String.substring 0 n s +:+ suffix) then Some (String.substring 0 n s) else None.

(** [Path::file_stem], and [Path::with_extension] of a path with a name. *)
Definition file_stem (name : string) : string :=
  match Media.rsplit_dot name with Some (before, _) => if bool_decide (before = "") then name else before | None => name end.
Definition with_extension (p extension : string) : string :=
  match Media.file_name p, path_parent p with
  | Some name, Some parent => path_join parent (file_stem name +:+ "." +:+ extension)
  | _, _ => p
  end.

(** ** Roots *)
Definition trash_roots_from (xdg_data_home home : option string) : list string :=
  let roots := match home with Some home => [path_join home ".local/share/Trash"] | None => [] end in
  let roots := match xdg_data_home with
    | Some data => if bool_decide (data = "") then roots
                   else let r := path_join data "Trash" in if bool_decide (r ∈ roots) then roots else roots ++ [r]
    | None => roots
    end in
  match roots with [] => ["/tmp/Trash"] | _ => roots end.
Definition files_dir_for (info_path : string) : string :=
  match (p ← path_parent info_path; path_parent p) with Some root => path_join root "files" | None => "/tmp/Trash/files" end.

(** ** Entries *)
Record TrashEntry := mkEntry { t_original : string; t_actual : string; t_info : string; t_file : string }.

(** [read_order]: the order in which a directory lists its entries; [replaced]:
    the text [from_utf8_lossy] makes of bytes that are not UTF-8;
    [cross_device]: a rename between two paths crosses devices; [date]: the
    formatted local time; [stamp]: the present in nanoseconds; [gio_move]: gio's
    move without overwriting. *)
Section Trash.
Context (read_order : list string -> list string) (replaced : list Z -> string).
Context (cross_device : string -> string -> bool) (now : Z) (date : string) (stamp : Z).
Context (gio_move : string -> string -> Fs -> result Fs).

Definition percent_decode (s : string) : string :=
  let out := percent_decoded s in if utf8_valid out then text_of out else replaced out.
Definition read_dir (fs : Fs) (dir : string) : option (list string) :=
  if is_dir fs dir
  then Some (read_order (base.filter (fun p => path_parent p = Some dir) ((map_to_list (names fs)).*1))) else None.
Definition read_to_string (fs : Fs) (p : string) : option string :=
  bytes ← read fs p; if utf8_valid bytes then Some (text_of bytes) else None.
(** The path an information file records, and one name under [info/]. *)
Definition recorded_path (fs : Fs) (info_path : string) : option string :=
  content ← read_to_string fs info_path;
  path_line ← List.find (String.prefix "Path=") (lines content);
  Some (percent_decode (String.substring 5 (String.length path_line - 5) path_line)).
Definition scan_entry (fs : Fs) (files_dir info_path : string) : option TrashEntry :=
  file_name ← Media.file_name info_path;
  actual ← strip_suffix ".trashinfo" file_name;
  original ← recorded_path fs info_path;
  let file_path := path_join files_dir actual in
  if path_exists fs file_path then Some (mkEntry original actual info_path file_path) else None.
Definition scan_root (fs : Fs) (root : string) : list TrashEntry :=
  match read_dir fs (path_join root "info") with
  | Some entries => omap (scan_entry fs (path_join root "files")) entries
  | None => []
  end.
Definition scan_trash_entries (fs : Fs) (roots : list string) : list TrashEntry := roots ≫= scan_root fs.
Definition find_trash_entry_in (fs : Fs) (original : string) (roots : list string) : option (string * string) :=
  (fun e => (t_actual e, t_info e)) <$> List.find (fun e => bool_decide (t_original e = original)) (scan_trash_entries fs roots).
Definition resolve_trash_entry_in_roots (fs : Fs) (original : string) (roots : list string) : result (string * string) :=
  ok_or_err (find_trash_entry_in fs original roots) (Backend "no verified trash entry").
(** Where the file of a trashed photo is now. *)
Definition trashed_file_in_roots (fs : Fs) (original : string) (roots : list string) : result string :=
  r ← resolve_trash_entry_in_roots fs original roots; Ok (path_join (files_dir_for r.2) r.1).

(** ** Moving to the application's trash *)
Definition trashinfo_for (original : string) : string :=
  "[Trash Info]" +:+ String newline ("Path=" +:+ percent_encode_path original +:+
    String newline ("DeletionDate=" +:+ date +:+ String newline "")).
Definition trash_name_free (fs : Fs) (files_dir info_dir name : string) : bool :=
  negb (path_exists fs (path_join files_dir name)) && negb (path_exists fs (path_join info_dir (name +:+ ".trashinfo"))).
Definition numbered_name (basename : string) (n : Z) : string :=
  match Media.extension basename with
  | Some ext => if bool_decide (ext = "") then file_stem basename +:+ "." +:+ pretty n else file_stem basename +:+ "." +:+ pretty n +:+ "." +:+ ext
  | None => file_stem basename +:+ "." +:+ pretty n
  end.
Fixpoint first_free (fs : Fs) (files_dir info_dir basename : string) (n : Z) (tries : nat) : option string :=
  match tries with
  | O => None
  | S tries => let candidate := numbered_name basename n in
              if trash_name_free fs files_dir info_dir candidate then Some candidate
              else first_free fs files_dir info_dir basename (n + 1) tries
  end.
Definition unique_trash_name (fs : Fs) (files_dir info_dir basename : string) : string :=
  if trash_name_free fs files_dir info_dir basename then basename
  else match first_free fs files_dir info_dir basename 0 10000 with
       | Some candidate => candidate
       | None => basename +:+ "." +:+ pretty stamp
       end.
(** [move_file]: across devices, a copy and a removal. *)
Definition move_file (from to : string) : IO unit :=
  if cross_device from to then _ ← copy now from to; file_op (remove_file from) else file_op (rename from to).
(** [std::fs::write]. *)
Definition write_bytes (p : string) (bytes : list Z) : IO unit :=
  _ ← file_op (write_file p (mkFile [] now)); file_op (write_file p (mkFile bytes now)).
Definition move_path_to_trash_root (original root : string) : IO unit :=
  there ← look (fun st => is_file (st_fs st) original);
  _ ← require there (Backend "file does not exist");
  let info_dir := path_join root "info" in
  let files_dir := path_join root "files" in
  _ ← create_dir_all info_dir;
  _ ← create_dir_all files_dir;
  basename ← some (Media.file_name original) (Backend "orig path has no filename");
  actual ← look (fun st => unique_trash_name (st_fs st) files_dir info_dir basename);
  let target := path_join files_dir actual in
  _ ← move_file original target;
  written ← attempt (write_bytes (path_join info_dir (actual +:+ ".trashinfo")) (bytes_of (trashinfo_for original)));
  match written with
  | Ok _ => mret tt
  | Err e => _ ← attempt (move_file target original); fail e
  end.

(** ** Restoring *)
Record PreparedRestore := mkRestore { pr_original : string; pr_trashed : string; pr_info : string }.
Definition prepare_restore_in_roots (original : string) (roots : list string) : IO PreparedRestore :=
  found ← look (fun st => resolve_trash_entry_in_roots (st_fs st) original roots);
  found ← checked found;
  _ ← match path_parent original with Some parent => create_dir_all parent | None => mret tt end;
  let trashed := path_join (files_dir_for found.2) found.1 in
  _ ← file_op (gio_move trashed original);
  mret (mkRestore original trashed found.2).
(** [PreparedRestore::commit] and its drop without a commit. *)
Definition commit_restore (p : PreparedRestore) : IO unit := _ ← attempt (file_op (remove_file (pr_info p))); mret tt.
Definition drop_restore (p : PreparedRestore) : IO unit := _ ← attempt (file_op (gio_move (pr_original p) (pr_trashed p))); mret tt.
Definition restore_from_trash_in_roots (original : string) (roots : list string) : IO unit :=
  prepared ← prepare_restore_in_roots original roots; commit_restore prepared.

(** ** Permanent deletion *)
Record PreparedPermanentDelete := mkDelete { pd_original : string; pd_staged : string; pd_info : string }.
Definition prepare_permanent_delete_in_roots (original : string) (roots : list string) : IO PreparedPermanentDelete :=
  found ← look (fun st => resolve_trash_entry_in_roots (st_fs st) original roots);
  found ← checked found;
  let file := path_join (files_dir_for found.2) found.1 in
  let staged := with_extension file ("photo-viewer-delete-" +:+ pretty stamp) in
  _ ← file_op (rename file staged);
  mret (mkDelete file staged found.2).
(** The drop of a deletion that was not committed puts the file back. *)
Definition drop_permanent_delete (p : PreparedPermanentDelete) : IO unit :=
  _ ← attempt (file_op (rename (pd_staged p) (pd_original p))); mret tt.
(** [PreparedPermanentDelete::commit]: when the file cannot be unlinked the value
    is dropped uncommitted. *)
Definition commit_permanent_delete (p : PreparedPermanentDelete) : IO unit :=
  removed ← attempt (file_op (remove_file (pd_staged p)));
  match removed with
  | Ok _ => _ ← attempt (file_op (remove_file (pd_info p))); mret tt
  | Err e => _ ← drop_permanent_delete p; fail e
  end.
End Trash.

(** ** Text of an information file *)
Lemma text_of_bytes s : text_of (bytes_of s) = s.
Proof.
  induction s as [|c s IH]; [done|]. unfold text_of, bytes_of in *. cbn. rewrite IH. unfold byte_of.
  by rewrite Nat2Z.id, ascii_nat_embedding.
Qed.
Lemma bytes_app s t : bytes_of (s +:+ t) = bytes_of s ++ bytes_of t.
Proof.
  induction s as [|c s IH]; [done|]. change (bytes_of (String c s +:+ t)) with (byte_of c :: bytes_of (s +:+ t)). by rewrite IH.
Qed.
(** Every byte is unreserved and stands for itself, or its escape reads back. *)
Lemma escape_reads c : unreserved (byte_of c) = false ->
  hex_digit (hex_upper (byte_of c / 16)) = Some (byte_of c / 16) /\ hex_digit (hex_upper (byte_of c mod 16)) = Some (byte_of c mod 16).
Proof. destruct c as [[] [] [] [] [] [] [] []]; intros H; (split; [vm_compute; reflexivity|vm_compute; reflexivity]) || discriminate H. Qed.
Lemma unreserved_plain c : unreserved (byte_of c) = true -> Ascii.eqb c "%" = false.
Proof. by destruct c as [[] [] [] [] [] [] [] []]. Qed.
Lemma decoded_encoded path : percent_decoded (percent_encode_path path) = bytes_of path.
Proof.
  induction path as [|c path IH]; [done|]. cbn [percent_encode_path]. destruct (unreserved (byte_of c)) eqn:E.
  - transitivity (byte_of c :: percent_decoded (percent_encode_path path)); [|by rewrite IH].
    cbn [percent_decoded]. destruct (percent_encode_path path) as [|h [|l tail]]; try done. by rewrite unreserved_plain.
  - cbn [percent_decoded]. destruct (escape_reads c E) as [-> ->]. cbn [Ascii.eqb]. rewrite IH.
    change (bytes_of (String c path)) with (byte_of c :: bytes_of path). f_equal. pose proof (Z.div_mod (byte_of c) 16). lia.
Qed.
Definition printable (c : ascii) : bool := within 32 126 (byte_of c).
Definition all_chars (P : ascii -> bool) (s : string) : bool := forallb P (String.list_ascii_of_string s).
Lemma all_chars_app P s t : all_chars P (s +:+ t) = all_chars P s && all_chars P t.
Proof.
  induction s as [|c s IH]; [done|]. change (all_chars P (String c s +:+ t)) with (P c && all_chars P (s +:+ t)).
  rewrite IH. apply andb_assoc.
Qed.
Lemma encoded_printable path : all_chars printable (percent_encode_path path) = true.
Proof.
  induction path as [|c path IH]; [done|]. cbn [percent_encode_path]. unfold all_chars in *.
  destruct (unreserved (byte_of c)) eqn:E; cbn [String.list_ascii_of_string forallb]; rewrite IH, ?andb_true_r.
  - by destruct c as [[] [] [] [] [] [] [] []].
  - by destruct c as [[] [] [] [] [] [] [] []].
Qed.
(** ASCII in front of a text does not change whether it is UTF-8. *)
Lemma utf8_ascii s t : all_chars (fun c => within 0 127 (byte_of c)) s = true -> utf8_valid (bytes_of s ++ t) = utf8_valid t.
Proof.
  induction s as [|c s IH]; [done|]. unfold all_chars. cbn [String.list_ascii_of_string forallb]. intros [Hc Hs]%andb_true_iff.
  change (bytes_of (String c s)) with (byte_of c :: bytes_of s). cbn [app utf8_valid]. rewrite Hc. by apply IH.
Qed.
Lemma split_first a rest : all_chars printable a = true -> split_on newline (a +:+ String newline rest) = a :: split_on newline rest.
Proof.
  induction a as [|c a IH]; [done|]. unfold all_chars. cbn [String.list_ascii_of_string forallb]. intros [Hc Ha]%andb_true_iff.
  change (String c a +:+ String newline rest) with (String c (a +:+ String newline rest)). cbn [split_on].
  assert (Ascii.eqb c newline = false) as -> by (by destruct c as [[] [] [] [] [] [] [] []]). by rewrite IH.
Qed.
Lemma strip_printable a : all_chars printable a = true -> strip_cr a = a.
Proof.
  induction a as [|c a IH]; [done|]. unfold all_chars in *. cbn [String.list_ascii_of_string forallb]. intros [Hc Ha]%andb_true_iff.
  cbn [strip_cr]. destruct a as [|d a]; [by destruct c as [[] [] [] [] [] [] [] []]|]. by rewrite IH.
Qed.
Lemma lines_first a rest : all_chars printable a = true -> lines (a +:+ String newline rest) = a :: lines rest.
Proof.
  intros Ha. unfold lines. rewrite split_first, reverse_cons by done. destruct (reverse (split_on newline rest)) as [|final segs] eqn:E.
  - apply (f_equal reverse) in E. rewrite reverse_involutive in E. by destruct rest as [|x r]; cbn in E; [|destruct (Ascii.eqb x newline), (split_on newline r)].
  - cbn [app]. rewrite fmap_app, reverse_app. cbn. by rewrite strip_printable.
Qed.
Lemma substring_all t : String.substring 0 (String.length t) t = t.
Proof. induction t as [|c t IH]; [done|]. cbn [String.length String.substring]. by rewrite IH. Qed.
Lemma length_append s t : String.length (s +:+ t) = (String.length s + String.length t)%nat.
Proof. induction s as [|c s IH]; [done|]. change (String c s +:+ t) with (String c (s +:+ t)). cbn [String.length]. by rewrite IH. Qed.
Lemma substring_drop s t : String.substring (String.length s) (String.length (s +:+ t) - String.length s) (s +:+ t) = t.
Proof.
  rewrite length_append. replace (String.length s + String.length t - String.length s)%nat with (String.length t) by lia.
  induction s as [|c s IH]; [apply substring_all|]. change (String c s +:+ t) with (String c (s +:+ t)). exact IH.
Qed.
Lemma substring_take s t : String.substring 0 (String.length (s +:+ t) - String.length t) (s +:+ t) = s.
Proof.
  rewrite length_append, Nat.add_sub. induction s as [|c s IH]; [by destruct t|].
  change (String c s +:+ t) with (String c (s +:+ t)). cbn [String.length String.substring]. by rewrite IH.
Qed.
Lemma strip_suffix_app s t : strip_suffix t (s +:+ t) = Some s.
Proof. unfold strip_suffix. rewrite substring_take. by rewrite bool_decide_true. Qed.

(** ** The application's trash *)
Section AppTrash.
Context (read_order : list string -> list string) (replaced : list Z -> string).
Context (cross_device : string -> string -> bool) (now : Z) (date : string) (stamp : Z).
Context (st : St) (oc rc : list string) (name : string) (i : Z) (f : File).

Notation plains l := (Forall (fun s => plain_name s = true) l).
Notation fs0 := (st_fs st).
Notation root := (abs rc).
Notation info_dir := (abs (rc ++ ["info"])).
Notation files_dir := (abs (rc ++ ["files"])).
Notation original := (abs (oc ++ [name])).
Notation actual := (unique_trash_name stamp fs0 files_dir info_dir name).
Notation target := (abs ((rc ++ ["files"]) ++ [actual])).
Notation info := (abs ((rc ++ ["info"]) ++ [actual +:+ ".trashinfo"])).
Implicit Types (fs : Fs).

(** A photo outside the trash, a trash with its two directories, room for the
    entry and no record of the photo's path yet. *)
Record trash_ready : Prop := {
  tr_wf : wf fs0;
  tr_oc : oc <> [] /\ plains oc;
  tr_rc : rc <> [] /\ plains rc;
  tr_name : plain_name name = true /\ name <> "..";
  tr_actual : plain_name actual = true /\ names fs0 !! target = None /\ names fs0 !! info = None;
  tr_file : names fs0 !! original = Some (NFile i) /\ inodes fs0 !! i = Some f;
  tr_parent : exists l m, names fs0 !! abs oc = Some (NDir l m);
  tr_dirs : (exists l m, names fs0 !! info_dir = Some (NDir l m)) /\ (exists l m, names fs0 !! files_dir = Some (NDir l m));
  tr_outside : oc <> rc ++ ["info"] /\ oc <> rc ++ ["files"];
  tr_utf8 : utf8_valid (bytes_of original) = true;
  tr_links : forall p to l m, path_parent p = Some info_dir -> names fs0 !! p <> Some (NLink to l m);
  tr_new : forall p, path_parent p = Some info_dir -> recorded_path replaced fs0 p <> Some original
}.
Context (R : trash_ready).

Definition own : list string := [original; target; info].
Record frame fs : Prop := {
  fm_wf : wf fs;
  fm_names : forall p, p ∉ own -> names fs !! p = names fs0 !! p;
  fm_inodes : forall k g, inodes fs0 !! k = Some g -> inodes fs !! k = Some g
}.
(** The photo's content is at [p]. *)
Definition held fs p : Prop := exists k g, names fs !! p = Some (NFile k) /\ inodes fs !! k = Some g /\ f_bytes g = f_bytes f.
Definition same_db (st' : St) : Prop := st_db st' = st_db st.
Definition safe (st' : St) : Prop := same_db st' /\ frame (st_fs st') /\ (held (st_fs st') original \/ held (st_fs st') target).

Lemma plain_name_append s t : plain_name s = true -> forallb plain_char (String.list_ascii_of_string t) = true -> plain_name (s +:+ t) = true.
Proof.
  unfold plain_name. intros [Hs Pc]%andb_true_iff Ht. apply andb_true_iff. split.
  - apply negb_true_iff. apply negb_true_iff in Hs. unfold Runtime.skippable in *. apply orb_false_iff in Hs as [H1 H2].
    apply bool_decide_eq_false in H1, H2. apply orb_false_iff. rewrite !bool_decide_eq_false. destruct s as [|c s]; [done|].
    change (String c s +:+ t) with (String c (s +:+ t)). split; [done|]. intros [= -> E]. destruct s; [by destruct H2|done].
  - change (all_chars plain_char (s +:+ t) = true). rewrite all_chars_app. by apply andb_true_iff.
Qed.
Lemma plain_info : plain_name (actual +:+ ".trashinfo") = true.
Proof. destruct (tr_actual R) as (Pa & _). by apply plain_name_append. Qed.
Lemma plains_info : plains (rc ++ ["info"]) /\ plains (rc ++ ["files"]).
Proof. destruct (tr_rc R) as [_ Pr]. split; apply Forall_app; split; try done; by repeat constructor. Qed.
Lemma distinct_paths : original <> target /\ original <> info /\ target <> info.
Proof.
  destruct (tr_rc R) as [Hr Pr], (tr_actual R) as (Pa & Ht & Hi), (tr_file R) as [Hf _], plains_info as [PI PF].
  split_and!; intros E; [rewrite E in Hf; congruence|rewrite E in Hf; congruence|].
  apply abs_inj in E; [|by destruct rc|by destruct rc|by apply Forall_app; repeat constructor|].
  - apply app_inj_2 in E as [E _]; [|done]. by apply app_inj_2 in E as [_ ?].
  - apply Forall_app; split; [done|]. repeat constructor. apply plain_info.
Qed.

Lemma components_abs l : plains l -> Media.components (abs l) = l.
Proof.
  intros Pl. destruct (decide (l = [])) as [->|Hl]; [done|]. unfold Media.components. rewrite split_abs, filter_cons_False by (done || naive_solver).
  apply filter_all. eapply Forall_impl; [exact Pl|]. intros s Hs. apply plain_not_skippable in Hs. unfold Runtime.skippable in Hs.
  apply orb_false_iff in Hs as [H1 H2]. by apply bool_decide_eq_false in H1, H2.
Qed.
Lemma file_name_abs l s : plains l -> plain_name s = true -> s <> ".." -> Media.file_name (abs (l ++ [s])) = Some s.
Proof.
  intros Pl Ps Hs. unfold Media.file_name. rewrite components_abs by (by apply Forall_app; repeat constructor). rewrite last_snoc.
  by rewrite (proj2 (String.eqb_neq s "..")).
Qed.
(** *** Operations on the names of the move *)
Lemma trash_frame_start : frame fs0.
Proof. split; [apply (tr_wf R)|done|done]. Qed.
Lemma held_start : held fs0 original.
Proof. destruct (tr_file R) as [Hn Hi]. by exists i, f. Qed.
Lemma no_link fs p k : names fs !! p = None \/ names fs !! p = Some (NFile k) -> resolve fs p = Some p.
Proof. intros H. apply resolve_plain. intros to l m. destruct H; congruence. Qed.
(** A write to a free name, or to a file made here, touches nothing else. *)
Lemma write_free fs p g : frame fs -> p ∈ own -> names fs !! p = None -> exists fs' k, write_file p g fs = Ok fs' /\ frame fs' /\
  names fs' = <[p := NFile k]> (names fs) /\ inodes fs' = <[k := g]> (inodes fs) /\ inodes fs !! k = None.
Proof.
  intros [[W1 W2] Fn Fi] Hp Hn. assert (Hk : inodes fs !! next_ino fs = None).
  { destruct (inodes fs !! next_ino fs) eqn:E; [|done]. apply W2 in E. lia. }
  eexists _, (next_ino fs). unfold write_file. rewrite (no_link _ _ 0) by auto. cbn. rewrite Hn. split_and!; try done.
  split; cbn [names inodes next_ino].
  - split; cbn [names inodes next_ino].
    + intros p' j. rewrite lookup_insert_Some. intros [[_ [= <-]]|[_ Hj]]; [by rewrite lookup_insert_eq|].
      apply W1 in Hj. rewrite lookup_insert_ne; [done|]. intros <-. rewrite Hk in Hj. by destruct Hj.
    + intros j g'. rewrite lookup_insert_Some. intros [[<- _]|[_ Hj%W2]]; lia.
  - intros p' Hp'. rewrite lookup_insert_ne by (intros ->; done). by apply Fn.
  - intros j g' Hj. rewrite lookup_insert_ne; [by apply Fi|]. intros <-. apply Fi in Hj. congruence.
Qed.
Lemma write_again fs p k g : frame fs -> names fs !! p = Some (NFile k) -> inodes fs0 !! k = None -> is_Some (inodes fs !! k) ->
  exists fs', write_file p g fs = Ok fs' /\ frame fs' /\ names fs' = names fs /\ inodes fs' = <[k := g]> (inodes fs).
Proof.
  intros [[W1 W2] Fn Fi] Hp Hk Hs. eexists. unfold write_file. rewrite (no_link _ _ k) by auto. cbn. rewrite Hp. split_and!; try done.
  split; cbn [names inodes next_ino set_inodes set_names]; [split; cbn [names inodes next_ino set_inodes set_names]| |].
  - intros p' j Hj. apply W1 in Hj. destruct (decide (j = k)) as [->|]; [by rewrite lookup_insert_eq|by rewrite lookup_insert_ne].
  - intros j g'. rewrite lookup_insert_Some. intros [[<- _]|[_ Hj%W2]]; [|done]. destruct Hs as [g0 Hg]. by apply W2 in Hg.
  - done.
  - intros j g' Hj. rewrite lookup_insert_ne; [by apply Fi|]. intros <-. congruence.
Qed.
Lemma trash_frame_names fs l : frame fs -> (forall p, p ∉ own -> l !! p = names fs !! p) ->
  (forall p k, l !! p = Some (NFile k) -> exists q, names fs !! q = Some (NFile k)) -> frame (set_names l fs).
Proof.
  intros [[W1 W2] Fn Fi] Hl Hk. split; cbn; [split| |].
  - intros p k Hp. destruct (Hk _ _ Hp) as [q Hq]. by apply (W1 q).
  - done.
  - intros p Hp. rewrite Hl by done. by apply Fn.
  - done.
Qed.

Ltac two_names H := apply not_elem_of_cons in H as [? [? _]%not_elem_of_cons].

Section Steps.
Context (faulty : bool).
(** What a step keeps: the rest of the file system, and the photo at [q]. *)
Definition keeps (q : string) (own' : list string) (st1 st2 : St) : Prop :=
  same_db st2 /\ frame (st_fs st2) /\ held (st_fs st2) q /\ forall x, x ∉ own' -> names (st_fs st2) !! x = names (st_fs st1) !! x.

Lemma write_bytes_ok p q bytes st1 : same_db st1 -> frame (st_fs st1) -> p ∈ own -> q <> p -> q = original \/ q = target ->
  held (st_fs st1) q -> names (st_fs st1) !! p = None ->
  wpc faulty safe (write_bytes now p bytes) (fun r st2 => keeps q [p] st1 st2 /\
    match r with
    | Ok _ => exists k g, names (st_fs st2) !! p = Some (NFile k) /\ inodes (st_fs st2) !! k = Some g /\ f_bytes g = bytes /\ inodes fs0 !! k = None
    | Err _ => faulty = true
    end) st1.
Proof.
  intros Hdb Fr Hp Hqp Hq (kq & gq & Nq & Iq & Bq) Hn.
  assert (Hsafe : forall st2, same_db st2 -> frame (st_fs st2) -> held (st_fs st2) q -> safe st2) by (intros st2 ? ? ?; split_and!; [done|done|]; destruct Hq as [->| ->]; auto).
  unfold write_bytes. apply wpc_bind, wpc_file_op.
  { intros Hf. split; [|done]. split_and!; [done|done|by exists kq, gq|done]. }
  destruct (write_free (st_fs st1) p (mkFile [] now) Fr Hp Hn) as (fs1 & k & -> & Fr1 & N1 & I1 & Hk).
  assert (Hkq : kq <> k) by congruence.
  assert (H1 : held fs1 q). { exists kq, gq. rewrite N1, I1, !lookup_insert_ne by done. done. }
  assert (Hk0 : inodes fs0 !! k = None). { destruct (inodes fs0 !! k) eqn:E; [|done]. apply (fm_inodes _ Fr) in E. congruence. }
  split; [by apply Hsafe|]. cbn beta iota. apply wpc_file_op; cbn [st_fs set_fs].
  { intros Hf. split; [|done]. split_and!; [done|done|done|]. intros x Hx. cbn. rewrite N1, lookup_insert_ne; [done|]. set_solver. }
  destruct (write_again fs1 p k (mkFile bytes now) Fr1) as (fs2 & -> & Fr2 & N2 & I2); [by rewrite N1, lookup_insert_eq|done|by rewrite I1, lookup_insert_eq|].
  assert (H2 : held fs2 q). { exists kq, gq. rewrite N2, I2, N1, I1, !lookup_insert_ne by done. done. }
  split; [by apply Hsafe|]. split.
  - split_and!; [done|done|done|]. intros x Hx. cbn. rewrite N2, N1, lookup_insert_ne; [done|]. set_solver.
  - exists k, (mkFile bytes now). cbn. rewrite N2, N1, I2, !lookup_insert_eq. done.
Qed.

Lemma move_file_ok from to st1 : (from = original /\ to = target) \/ (from = target /\ to = original) ->
  same_db st1 -> frame (st_fs st1) -> held (st_fs st1) from -> names (st_fs st1) !! to = None ->
  wpc faulty safe (move_file cross_device now from to) (fun r st2 =>
    match r with
    | Ok _ => keeps to [from; to] st1 st2 /\ names (st_fs st2) !! from = None
    | Err _ => faulty = true /\ keeps from [from; to] st1 st2
    end) st1.
Proof.
  intros Hft Hdb Fr Hheld Hn. destruct distinct_paths as (D1 & D2 & D3).
  assert (Hne : from <> to) by (destruct Hft as [[-> ->]|[-> ->]]; done).
  assert (Hown : to ∈ own /\ from ∈ own) by (unfold own; destruct Hft as [[-> ->]|[-> ->]]; set_solver).
  assert (Hsafe : forall st2 q, q = from \/ q = to -> same_db st2 -> frame (st_fs st2) -> held (st_fs st2) q -> safe st2).
  { intros st2 q Hq ? ? ?. split_and!; [done|done|]. destruct Hft as [[-> ->]|[-> ->]], Hq as [->| ->]; auto. }
  pose proof Hheld as (k & g & Nk & Ik & Bk). unfold move_file. destruct (cross_device from to).
  - apply wpc_bind. eapply wpc_mono with (Q := fun r st2 => keeps from [to] st1 st2 /\
      match r with Ok _ => exists j h, names (st_fs st2) !! to = Some (NFile j) /\ inodes (st_fs st2) !! j = Some h /\ f_bytes h = f_bytes f | Err _ => faulty = true end).
    + unfold copy. wp. wp. rewrite (read_file _ _ _ _ Nk Ik). wp. wp. rewrite Bk.
      eapply wpc_mono; [apply (write_bytes_ok to from (f_bytes f) st1); try done; [tauto|by destruct Hft as [[-> _]|[-> _]]; auto]|].
      intros [[]|e] st2 [Hkeep Hr]; split; try done. destruct Hr as (j & h & ? & ? & ? & _). by exists j, h.
    + intros [[]|e] st2 [(Hdb2 & Fr2 & H2 & Hx) Hr]; cbn beta iota.
      2: { split; [done|]. split_and!; try done. intros x Hx'. two_names Hx'. apply Hx. rewrite not_elem_of_cons. split; [done|apply not_elem_of_nil]. }
      destruct Hr as (j & h & Nj & Ij & Bj). apply wpc_file_op.
      { intros Hf. split; [done|]. split_and!; try done. intros x Hx'. two_names Hx'. apply Hx. rewrite not_elem_of_cons. split; [done|apply not_elem_of_nil]. }
      destruct H2 as (k2 & g2 & N2 & I2 & B2). unfold remove_file. rewrite N2.
      assert (Fr3 : frame (set_names (delete from (names (st_fs st2))) (st_fs st2))).
      { apply trash_frame_names; [done| |].
        - intros p Hp. rewrite lookup_delete_ne; [done|]. intros ->; tauto.
        - intros p kk. rewrite lookup_delete_Some. intros [_ ?]. by exists p. }
      assert (H3 : held (set_names (delete from (names (st_fs st2))) (st_fs st2)) to).
      { exists j, h. cbn. by rewrite lookup_delete_ne. }
      split; [by apply (Hsafe _ to); auto|]. split; [|cbn; by rewrite lookup_delete_eq]. split_and!; try done.
      intros x Hx'. two_names Hx'. cbn. rewrite lookup_delete_ne by congruence. apply Hx. rewrite not_elem_of_cons. split; [done|apply not_elem_of_nil].
  - apply wpc_file_op. { intros Hf. split; [done|]. split_and!; try done. }
    unfold rename. rewrite Nk, Hn.
    assert (Fr3 : frame (set_names (<[to := NFile k]> (delete from (names (st_fs st1)))) (st_fs st1))).
    { apply trash_frame_names; [done| |].
      - intros p Hp. rewrite lookup_insert_ne, lookup_delete_ne; [done|..]; intros ->; tauto.
      - intros p kk. rewrite lookup_insert_Some, lookup_delete_Some. intros [[_ [= <-]]|[_ [_ ?]]]; [by exists from|by exists p]. }
    assert (H3 : held (set_names (<[to := NFile k]> (delete from (names (st_fs st1)))) (st_fs st1)) to).
    { exists k, g. cbn. by rewrite lookup_insert_eq. }
    split; [by apply (Hsafe _ to); auto|]. split; [|cbn; by rewrite lookup_insert_ne, lookup_delete_eq]. split_and!; try done.
    intros x Hx. two_names Hx. cbn. by rewrite lookup_insert_ne, lookup_delete_ne by congruence.
Qed.

(** Directories that are there are not made again. *)
Lemma create_known p l m C Q st1 : (exists up, reverse (dirs_of p) = p :: up) -> names (st_fs st1) !! p = Some (NDir l m) ->
  Q (Ok tt) st1 -> wpc faulty C (create_dir_all p) Q st1.
Proof.
  intros [up Hup] Hp HQ. unfold create_dir_all. rewrite Hup. cbn [create_dirs]. wp. wp. by rewrite (is_dir_dir _ _ _ _ Hp); wp.
Qed.
Lemma dirs_from_abs l : l <> [] -> plains l -> exists up, reverse (dirs_of (abs l)) = abs l :: up.
Proof.
  intros Hl Pl. unfold dirs_of. rewrite split_abs by done. destruct (length l) as [|n] eqn:E; [by destruct l|].
  rewrite seq_S, fmap_app, reverse_app. cbn. rewrite firstn_all2 by lia. by eexists.
Qed.
(** The state once the entry is complete. *)
Definition trashed_state (st2 : St) : Prop :=
  same_db st2 /\ frame (st_fs st2) /\ held (st_fs st2) target /\ names (st_fs st2) !! original = None /\
  exists n h, names (st_fs st2) !! info = Some (NFile n) /\ inodes (st_fs st2) !! n = Some h /\ f_bytes h = bytes_of (trashinfo_for date original).
Lemma move_to_root_ok : wpc faulty safe (move_path_to_trash_root cross_device now date stamp original root) (fun r st2 =>
    match r with Ok _ => trashed_state st2 | Err _ => faulty = true /\ safe st2 end) st.
Proof.
  destruct (tr_oc R) as [Ho Po], (tr_rc R) as [Hr Pr], (tr_name R) as [Pn Hdot], (tr_actual R) as (Pa & Ht & Hi), (tr_file R) as [Hf Hif].
  destruct (tr_dirs R) as [(li & mi & Hid) (lf & mf & Hfd)], plains_info as [PI PF], distinct_paths as (D1 & D2 & D3).
  assert (Hin : path_join root "info" = info_dir) by (by apply path_join_abs).
  assert (Hfi : path_join root "files" = files_dir) by (by apply path_join_abs).
  assert (Hname : Media.file_name original = Some name) by (by apply file_name_abs).
  assert (Htp : path_join files_dir actual = target) by (by apply path_join_abs; [destruct rc|..]).
  assert (Hip : path_join info_dir (actual +:+ ".trashinfo") = info) by (apply path_join_abs; [by destruct rc|done|apply plain_info]).
  unfold move_path_to_trash_root. wp. wp. rewrite (proj1 (is_file_file _ _ _ _ Hf Hif)). cbn beta. wp. wp. cbv zeta. rewrite Hin, Hfi.
  wp. eapply create_known; [apply dirs_from_abs; [by destruct rc|done]|done|]. cbn beta iota.
  wp. eapply create_known; [apply dirs_from_abs; [by destruct rc|done]|done|]. cbn beta iota.
  wp. wp. rewrite Hname. cbn [ok_or_err]. wp. wp. rewrite Htp, Hip. wp.
  eapply wpc_mono; [apply (move_file_ok original target st); [by left|done|apply trash_frame_start|apply held_start|done]|].
  intros [[]|e] st1; cbn beta iota.
  2: { intros [Hfl (Hdb & Fr & Hh & _)]. split; [done|]. split_and!; auto. }
  intros [(Hdb1 & Fr1 & H1 & X1) No1]. wp. apply wpc_attempt.
  eapply wpc_mono; [apply (write_bytes_ok info target (bytes_of (trashinfo_for date original)) st1); try done; [unfold own; set_solver|by auto|]|].
  { rewrite X1 by set_solver. done. }
  intros [[]|e] st2 [(Hdb2 & Fr2 & H2 & X2) Hr2]; cbn beta iota.
  - wp. destruct Hr2 as (n & h & ? & ? & ? & _). split_and!; try done; [|by exists n, h]. rewrite X2 by set_solver. done.
  - wp. apply wpc_attempt. eapply wpc_mono; [apply (move_file_ok target original st2); [by right|done|done|done|by rewrite X2 by set_solver]|].
    intros [[]|e'] st3; cbn beta iota.
    + intros [(Hdb3 & Fr3 & H3 & _) _]. wp. split; [done|]. split_and!; auto.
    + intros [_ (Hdb3 & Fr3 & H3 & _)]. wp. split; [done|]. split_and!; auto.
Qed.
End Steps.

(** *** Finding the entry *)
Lemma find_unique {A} (P : A -> bool) l x : x ∈ l -> P x = true -> (forall y, y ∈ l -> P y = true -> y = x) -> List.find P l = Some x.
Proof.
  intros Hx HP Hu. destruct (List.find P l) as [y|] eqn:E.
  - apply find_some in E as [Hy Py]. apply list_elem_of_In in Hy. f_equal. by apply Hu.
  - apply list_elem_of_In in Hx. by rewrite (find_none _ _ E _ Hx) in HP.
Qed.
Context (Hdate : all_chars printable date = true) (Horder : forall l, read_order l ≡ₚ l).

Lemma ascii_chars s : all_chars printable s = true -> all_chars (fun c => within 0 127 (byte_of c)) s = true.
Proof.
  unfold all_chars. rewrite !forallb_forall. intros H c Hc. specialize (H c Hc). unfold printable, within in *.
  apply andb_true_iff in H. apply andb_true_iff. lia.
Qed.
Lemma info_text : utf8_valid (bytes_of (trashinfo_for date original)) = true /\
  List.find (String.prefix "Path=") (lines (trashinfo_for date original)) = Some ("Path=" +:+ percent_encode_path original).
Proof.
  assert (Henc : all_chars printable ("Path=" +:+ percent_encode_path original) = true).
  { rewrite all_chars_app. apply andb_true_iff. split; [done|apply encoded_printable]. }
  assert (Happ : trashinfo_for date original = "[Trash Info]" +:+ String newline (("Path=" +:+ percent_encode_path original) +:+
    String newline (("DeletionDate=" +:+ date) +:+ String newline ""))).
  { unfold trashinfo_for. by rewrite <- !append_assoc. }
  assert (Hd : all_chars printable ("DeletionDate=" +:+ date) = true) by (rewrite all_chars_app; by apply andb_true_iff).
  rewrite Happ. split.
  - assert (Hnl : forall a rest, all_chars printable a = true -> utf8_valid (bytes_of (a +:+ String newline rest)) = utf8_valid (bytes_of rest)).
    { intros b rest Hb. rewrite bytes_app, utf8_ascii by (by apply ascii_chars). done. }
    by rewrite !Hnl.
  - rewrite !lines_first by done. done.
Qed.
Lemma recorded_info fs n h : names fs !! info = Some (NFile n) -> inodes fs !! n = Some h -> f_bytes h = bytes_of (trashinfo_for date original) ->
  recorded_path replaced fs info = Some original.
Proof.
  intros Hn Hi Hb. unfold recorded_path, read_to_string. rewrite (read_file _ _ _ _ Hn Hi). cbn [mbind option_bind]. rewrite Hb.
  destruct info_text as [-> Hf]. rewrite text_of_bytes. cbn [mbind option_bind]. rewrite Hf. cbn [mbind option_bind]. f_equal.
  pose proof (substring_drop "Path=" (percent_encode_path original)) as E. change (String.length "Path=") with 5%nat in E. rewrite E.
  unfold percent_decode. rewrite decoded_encoded, (tr_utf8 R). apply text_of_bytes.
Qed.
Lemma dirs_outside_own : info_dir ∉ own /\ files_dir ∉ own /\ abs oc ∉ own.
Proof.
  destruct (tr_actual R) as (Pa & Ht & Hi), (tr_file R) as [Hf _], (tr_parent R) as (l & m & Hp).
  destruct (tr_dirs R) as [(li & mi & Hid) (lf & mf & Hfd)]. unfold own.
  split_and!; rewrite !not_elem_of_cons; (split_and!; [..|apply not_elem_of_nil]); congruence.
Qed.
Lemma paths_parents : path_parent info = Some info_dir /\ path_parent target = Some files_dir /\ path_parent original = Some (abs oc).
Proof.
  destruct (tr_oc R) as [Ho Po], (tr_rc R) as [Hr Pr], (tr_name R) as [Pn _], (tr_actual R) as (Pa & _), plains_info as [PI PF].
  split_and!; apply path_parent_abs; try done; [by destruct rc|apply plain_info|by destruct rc].
Qed.
(** The other information files read as before. *)
Lemma recorded_other fs p : frame fs -> path_parent p = Some info_dir -> p <> info -> recorded_path replaced fs p <> Some original.
Proof.
  intros Fr Hp Hne. destruct (tr_oc R) as [Ho Po], (tr_rc R) as [Hr Pr], plains_info as [PI PF], paths_parents as (Pi & Pt & Por).
  assert (Hown : p ∉ own).
  { unfold own. rewrite !not_elem_of_cons. split_and!; [intros ->|intros ->|done|apply not_elem_of_nil].
    - assert (E : abs oc = info_dir) by congruence. apply abs_inj in E; [by destruct (tr_outside R)|done|by destruct rc|done|done].
    - assert (E : files_dir = info_dir) by congruence. apply abs_inj in E; [by apply app_inj_2 in E as [_ ?]|by destruct rc|by destruct rc|done|done]. }
  replace (recorded_path replaced fs p) with (recorded_path replaced fs0 p); [by apply (tr_new R)|].
  unfold recorded_path, read_to_string. f_equal. f_equal. unfold read. pose proof (fm_names _ Fr p Hown) as Hn.
  rewrite !resolve_plain by (intros to l m; rewrite ?Hn; by apply (tr_links R)). cbn [mbind option_bind]. rewrite Hn.
  destruct (names fs0 !! p) as [[k| |]|] eqn:E; try done. cbn [mbind option_bind]. destruct (proj1 (tr_wf R) _ _ E) as [g Hg].
  by rewrite Hg, (fm_inodes _ Fr _ _ Hg).
Qed.
Lemma entry_found st2 : trashed_state st2 -> find_trash_entry_in read_order replaced (st_fs st2) original [root] = Some (actual, info).
Proof.
  intros (_ & Fr & (k & g & Nk & Ik & _) & _ & n & h & Nn & In & Bn). set (fs := st_fs st2) in *.
  destruct (tr_rc R) as [Hr Pr], (tr_actual R) as (Pa & _), plains_info as [PI PF], paths_parents as (Pi & _), dirs_outside_own as (Oi & _).
  destruct (tr_dirs R) as [(li & mi & Hid) _]. assert (Hrec := recorded_info fs n h Nn In Bn).
  assert (He : scan_entry replaced fs files_dir info = Some (mkEntry original actual info target)).
  { unfold scan_entry. rewrite file_name_abs; [|done|apply plain_info|]. 2: { intros E. apply (f_equal String.length) in E. rewrite length_append in E. cbn in E. lia. }
    cbn [mbind option_bind]. rewrite strip_suffix_app. cbn [mbind option_bind]. rewrite Hrec. cbn [mbind option_bind].
    rewrite path_join_abs by (by destruct rc). by rewrite (proj2 (is_file_file _ _ _ _ Nk Ik)). }
  unfold find_trash_entry_in, scan_trash_entries. rewrite bind_cons. cbn [mbind list_bind]. rewrite app_nil_r. unfold scan_root, read_dir.
  rewrite !path_join_abs by done. rewrite (is_dir_dir _ _ li mi) by (by rewrite (fm_names _ Fr)).
  rewrite (find_unique _ _ (mkEntry original actual info target)); [done| |by apply bool_decide_eq_true|].
  - apply list_elem_of_omap. exists info. split; [|done]. rewrite Horder. apply list_elem_of_filter. split; [done|].
    apply list_elem_of_fmap. exists (info, NFile n). split; [done|]. by apply elem_of_map_to_list.
  - intros e (p & Hp & Hs)%list_elem_of_omap Ho%bool_decide_eq_true. rewrite Horder in Hp. apply list_elem_of_filter in Hp as [Hp _].
    destruct (decide (p = info)) as [->|Hne]; [congruence|]. exfalso. apply (recorded_other fs p Fr Hp Hne).
    unfold scan_entry in Hs. destruct (Media.file_name p) as [x|]; cbn [mbind option_bind] in Hs; [|discriminate].
    destruct (strip_suffix _ x); cbn [mbind option_bind] in Hs; [|discriminate].
    destruct (recorded_path replaced fs p); cbn [mbind option_bind] in Hs; [|discriminate].
    destruct (path_exists _ _); [|discriminate]. injection Hs as <-. cbn in Ho. by rewrite Ho.
Qed.

Lemma held_read fs p : held fs p -> read fs p = Some (f_bytes f).
Proof. intros (k & g & Nk & Ik & <-). by eapply read_file. Qed.
Lemma files_dir_info : files_dir_for info = files_dir.
Proof.
  destruct (tr_rc R) as [Hr Pr], paths_parents as (Pi & _). unfold files_dir_for. rewrite Pi. cbn [mbind option_bind].
  rewrite path_parent_abs by done. by apply path_join_abs.
Qed.

(** The entry leads to the photo. *)
Lemma trashed_file_found st2 : trashed_state st2 ->
  trashed_file_in_roots read_order replaced (st_fs st2) original [root] = Ok target /\ read (st_fs st2) target = Some (f_bytes f).
Proof.
  intros Ht. split; [|by apply held_read, Ht]. unfold trashed_file_in_roots, resolve_trash_entry_in_roots. rewrite entry_found by done. cbn.
  rewrite files_dir_info, path_join_abs; [done|by destruct rc|apply plains_info|apply (tr_actual R)].
Qed.


(** gio's move refuses an occupied destination and otherwise renames. *)
Context (gio_move : string -> string -> Fs -> result Fs).
Context (Hgio : forall a b fs, gio_move a b fs = match names fs !! b with Some _ => Err ALREADY_EXISTS | None => rename a b fs end).

Definition restored_state (st3 : St) : Prop :=
  same_db st3 /\ held (st_fs st3) original /\ (forall p, p <> original -> names (st_fs st3) !! p = names fs0 !! p) /\
  forall k g, inodes fs0 !! k = Some g -> inodes (st_fs st3) !! k = Some g.
Lemma restore_from_root_ok st2 : trashed_state st2 ->
  wpc false (fun _ => True) (restore_from_trash_in_roots read_order replaced gio_move original [root]) (fun r st3 => r = Ok tt /\ restored_state st3) st2.
Proof.
  intros Ht. pose proof (entry_found _ Ht) as Hfound. destruct Ht as (Hdb & Fr & (k & g & Nk & Ik & Bk) & No & n & h & Nn & In & Bn).
  destruct (tr_oc R) as [Ho Po], (tr_rc R) as [Hr Pr], (tr_actual R) as (Pa & Ht & Hi), plains_info as [PI PF], paths_parents as (Pi & Pt & Por).
  destruct distinct_paths as (D1 & D2 & D3), dirs_outside_own as (_ & _ & Ooc), (tr_parent R) as (l & m & Hpar).
  unfold restore_from_trash_in_roots, prepare_restore_in_roots, resolve_trash_entry_in_roots, commit_restore.
  apply wpc_bind. wp. wp. rewrite Hfound. wp. wp. rewrite Por. wp.
  eapply create_known; [by apply dirs_from_abs|by rewrite (fm_names _ Fr)|]. cbn beta iota. cbn [fst snd]. rewrite files_dir_info.
  rewrite path_join_abs by (done || by destruct rc). wp. apply wpc_file_op; [done|]. rewrite Hgio, No. unfold rename. rewrite Nk, No. cbn beta iota.
  split; [done|]. wp. cbn [pr_info]. wp. apply wpc_attempt, wpc_file_op; [done|]. unfold remove_file. cbn [st_fs set_fs names set_names].
  rewrite lookup_insert_ne, lookup_delete_ne, Nn by done. split; [done|]. wp. split; [done|]. split_and!; [done|..].
  - exists k, g. cbn. rewrite lookup_delete_ne, lookup_insert_eq by done. done.
  - intros p Hp. cbn. destruct (decide (p = info)) as [->|]; [by rewrite lookup_delete_eq|]. rewrite lookup_delete_ne, lookup_insert_ne by done.
    destruct (decide (p = target)) as [->|]; [by rewrite lookup_delete_eq|]. rewrite lookup_delete_ne by done.
    apply (fm_names _ Fr). unfold own. rewrite !not_elem_of_cons. split_and!; try done. apply not_elem_of_nil.
  - apply (fm_inodes _ Fr).
Qed.
End AppTrash.

(** ** Witnesses *)
Module Sample.
Definition fs : Fs := mkFs
  {["/photos" := NDir 0 0; "/photos/a.jpg" := NFile 1; "/trash" := NDir 0 0; "/trash/info" := NDir 0 0; "/trash/files" := NDir 0 0;
    "/trash/files/a.jpg" := NFile 2; "/trash/info/a.jpg.trashinfo" := NFile 3]}
  {[1 := mkFile [1; 2; 3] 5; 2 := mkFile [9] 5; 3 := mkFile (bytes_of (trashinfo_for "2024-01-01T00:00:00" "/photos/old/a.jpg")) 5]} 4.
Definition st : St := mkSt SyncDb.Sample.db fs.
Definition gio_move (a b : string) (fs : Fs) : result Fs :=
  match names fs !! b with Some _ => Err ALREADY_EXISTS | None => rename a b fs end.
Definition replaced (_ : list Z) : string := "".
Definition date : string := "2024-05-06T07:08:09".
Definition info_ok (p : string) (n : Node) : bool :=
  negb (bool_decide (path_parent p = Some "/trash/info")) ||
  match n with NLink _ _ _ => false | _ => negb (bool_decide (recorded_path replaced fs p = Some "/photos/a.jpg")) end.
End Sample.
Lemma recorded_known fs p x : recorded_path Sample.replaced fs p = Some x -> is_Some (names fs !! p).
Proof.
  unfold recorded_path, read_to_string, read. intros H. destruct (names fs !! p) eqn:E; [by eexists|].
  rewrite resolve_plain in H by (intros; congruence). cbn [mbind option_bind] in H. by rewrite E in H.
Qed.
(** A check of every entry of a finite map. *)
Lemma map_check {K A} `{Countable K} (P : K -> A -> bool) (t : gmap K A) :
  forallb (fun r : K * A => P r.1 r.2) (map_to_list t) = true -> forall k x, t !! k = Some x -> P k x = true.
Proof.
  rewrite forallb_forall. intros Hall k x Hk. apply elem_of_map_to_list, list_elem_of_In in Hk. exact (Hall _ Hk).
Qed.
Lemma sample_infos : forall p n, names Sample.fs !! p = Some n -> Sample.info_ok p n = true.
Proof. apply map_check. vm_compute. reflexivity. Qed.
Lemma sample_trash_wf : wf Sample.fs.
Proof.
  split.
  - intros p k Hp. apply (map_check (fun _ n => match n with NFile i => bool_decide (is_Some (inodes Sample.fs !! i)) | _ => true end)) in Hp.
    + by apply bool_decide_eq_true in Hp.
    + vm_compute. reflexivity.
  - intros k g Hk. apply (map_check (fun k _ => k <? next_ino Sample.fs)) in Hk; [by apply Z.ltb_lt in Hk|]. vm_compute. reflexivity.
Qed.
Lemma sample_trash_ready : trash_ready Sample.replaced 0 Sample.st ["photos"] ["trash"] "a.jpg" 1 (mkFile [1; 2; 3] 5).
Proof.
  assert (Hinfo : forall p, path_parent p = Some (abs ["trash"; "info"]) -> forall n, names Sample.fs !! p = Some n ->
    match n with NLink _ _ _ => False | _ => recorded_path Sample.replaced Sample.fs p <> Some "/photos/a.jpg" end).
  { intros p Hp n Hn. pose proof (sample_infos p n Hn) as H. unfold Sample.info_ok in H. change (abs ["trash"; "info"]) with "/trash/info" in Hp.
    rewrite Hp, bool_decide_true in H by done. destruct n; try done; by apply negb_true_iff, bool_decide_eq_false in H. }
  split.
  - exact sample_trash_wf.
  - by repeat constructor.
  - by repeat constructor.
  - done.
  - split_and!; vm_compute; reflexivity.
  - split; vm_compute; reflexivity.
  - exists 0, 0. vm_compute. reflexivity.
  - split; exists 0, 0; vm_compute; reflexivity.
  - done.
  - vm_compute. reflexivity.
  - intros p to l m Hp Hn. exact (Hinfo p Hp _ Hn).
  - intros p Hp Hr. destruct (recorded_known _ _ _ Hr) as [n Hn]. pose proof (Hinfo p Hp n Hn) as H. by destruct n.
Qed.
End Trash.
