(* ===== verification/LibraryDb.v ===== *)
(** Writing the library: the commands of [core/db.rs] on media rows.

    A command that reflects a change of the user's files also records the change
    for synchronization, in the same transaction ([note_sync_change_in]). A row
    whose file is gone leaves the library at once unless the cloud still has the
    original and a synchronization job claims the deletion; then it stays,
    cloud-only, until the deletion is confirmed. *)
From Stdlib Require Import Ascii String.
From S2P Require Import Prelude.
From S2P Require Import Media.
From S2P Require Import SyncDb.
From S2P Require Import SyncReset.
From S2P Require Import SyncDirty.
From S2P Require Import SyncRuntime.
From S2P Require Import SyncReceive.
From S2P Require Import SyncProjection.
From S2P Require Import SyncPlacement.
From S2P Require Import MediaQueries.
From S2P Require Import Files.
From S2P Require Import TrashFiles.
Local Open Scope Z_scope.

Module Library.
Import Receive Projection Placement Queries Files.

(** ** Edit events *)
Definition DEVICE_ID_KEY : string := "sync_device_id".
(** What a command draws from outside: the wall clock and two fresh identifiers. *)
Record Fresh := mkFresh { fr_now_ms : Z; fr_minted : string; fr_event : string }.
Definition device_id_in (minted : string) : Tx Db string :=
  _ ← modify (fun db => match db_settings db !! DEVICE_ID_KEY with
                        | Some _ => db | None => set_db_settings (<[DEVICE_ID_KEY := minted]> (db_settings db)) db end);
  value ← gets (fun db => db_settings db !! DEVICE_ID_KEY);
  need value NoRows.
Definition note_sync_change_in (fresh : Fresh) (id : Z) (category : Dirty.ChangeCategory) : Tx Db (option (Z * Z)) :=
  source ← device_id_in (fr_minted fresh);
  Dirty.note id category (mkEvent (fr_now_ms fresh) source (fr_event fresh)).

Definition update_row (id : Z) (f : Db -> Media -> Media) : Tx Db unit :=
  modify (fun db => set_db_media (alter (f db) id (db_media db)) db).

(** ** Trash marks *)
Definition mark_trashed (id : Z) : Tx Db unit := update_row id (fun db => set_m_trashed_at (Some (db_now db))).
Definition unmark_trashed (id : Z) : Tx Db unit := update_row id (fun _ => set_m_trashed_at None).
Definition noted (category : Dirty.ChangeCategory) (x : Z * Fresh) : Tx Db unit :=
  _ ← note_sync_change_in x.2 x.1 category; mret tt.
Definition commit_trash_metadata (ids : list (Z * Fresh)) : Tx Db unit := for_each ids (noted Dirty.Metadata).
Definition restore_trashed_metadata (ids : list (Z * Fresh)) : Tx Db unit :=
  for_each ids (fun x => _ ← unmark_trashed x.1; noted Dirty.Metadata x).
Definition delete_trashed (x : Z * Fresh) : Tx Db unit :=
  trashed ← gets (fun db => match db_media db !! x.1 with Some m => trashed_only x.1 m | None => false end);
  if (trashed : bool) then
    _ ← noted Dirty.Deletion x;
    modify (delete_media (fun id m => (id =? x.1) && trashed_only id m))
  else mret tt.
Definition commit_permanent_deletions (ids : list (Z * Fresh)) : Tx Db unit := for_each ids delete_trashed.

(** ** Files that vanished *)
Inductive DeletionEvidence := ParentMustSurvive | PruneVerified.
#[export] Instance DeletionEvidence_eq_dec : EqDecision DeletionEvidence.
Proof. solve_decision. Defined.
(** The path is gone, and with watcher evidence its directory is still there. *)
Definition vanished (evidence : DeletionEvidence) (fs : Fs) (path : string) : bool :=
  negb (bool_decide (evidence = ParentMustSurvive)
        && negb (match path_parent path with Some parent => is_dir fs parent | None => false end))
  && bool_decide (symlink_metadata fs path = None).
Definition remove_or_trash_live_row_in (fresh : Fresh) (id : Z) (in_trash : bool) : Tx Db unit :=
  if in_trash then
    _ ← mark_trashed id;
    noted Dirty.Metadata (id, fresh)
  else
    outcome ← note_sync_change_in fresh id Dirty.Deletion;
    both ← gets (fun db => holds (fun m => m_location m =? 3) (db_media db !! id));
    if bool_decide (is_Some outcome) && (both : bool)
    then update_row id (fun _ => set_m_location 2)
    else modify (delete_media (fun k _ => k =? id)).
Definition live_local : Where := fun _ m => bool_decide (m_trashed_at m = None) && negb (m_location m =? 2).
Definition live_row (path uri : string) (db : Db) : option (Z * Media) :=
  find_row (fun id m => (bool_decide (m_path m = path) || bool_decide (m_uri m = uri)) && live_local id m) (db_media db).
(** One vanished path of [delete_live_media_by_paths]: its URI when a row went. *)
Definition delete_live_path (fresh : Fresh) (path uri : string) (in_trash : bool) : Tx Db (option string) :=
  found ← gets (live_row path uri);
  match found with
  | Some (id, _) => _ ← remove_or_trash_live_row_in fresh id in_trash; mret (Some uri)
  | None => mret None
  end.
Fixpoint collect {A B} (f : A -> Tx Db (option B)) (l : list A) : Tx Db (list B) :=
  match l with
  | [] => mret []
  | x :: l => r ← f x; rs ← collect f l; mret (match r with Some y => y :: rs | None => rs end)
  end.
(** [rtrim] of every trailing slash, then one slash. *)
Definition under_folder (folder : string) : Where := fun id m =>
  (bool_decide (m_path m = folder) || bool_decide (m_folder m = folder)
   || String.prefix (rtrim_slash folder +:+ "/")%string (m_folder m)) && live_local id m.
Definition live_rows_under_folder_in (folder : string) : Tx Db (list (Z * string)) :=
  gets (fun db => (fun r => (r.1, m_uri r.2)) <$> base.filter (fun r : Z * Media => under_folder folder r.1 r.2 = true) (rows_by_id (db_media db))).

(** [file_uri]: gio's URI of a path; [in_trash]: the system trash has an entry
    for the path ([trashed_file_uri] finds one). *)
Section Files.
Context (file_uri : string -> string) (in_trash : Fs -> string -> bool).
Definition delete_live_media_by_paths (fs : Fs) (evidence : DeletionEvidence) (paths : list (string * Fresh)) : Tx Db (list string) :=
  collect (fun p => delete_live_path p.2 p.1 (file_uri p.1) (in_trash fs p.1))
    (base.filter (fun p : string * Fresh => vanished evidence fs p.1 = true) paths).
Definition delete_media_by_path (fs : Fs) (path : string) (fresh : Fresh) : Tx Db Z :=
  uris ← delete_live_media_by_paths fs ParentMustSurvive [(path, fresh)]; mret (Z.of_nat (length uris)).
Definition delete_live_media_under_folders (fs : Fs) (evidence : DeletionEvidence) (fresh : Z -> Fresh) (folders : list string) : Tx Db (list string) :=
  uris ← collect (fun folder =>
      rows ← live_rows_under_folder_in folder;
      _ ← for_each rows (fun r => remove_or_trash_live_row_in (fresh r.1) r.1 (in_trash fs folder));
      mret (Some (snd <$> rows)))
    (base.filter (fun folder => vanished evidence fs folder = true) folders);
  mret (concat uris).
(** The rows are read first; the deletion is a transaction of its own. *)
Definition delete_media_by_ids_returning (fs : Fs) (evidence : DeletionEvidence) (ids : list (Z * Fresh)) : Tx Db (list Z) :=
  rows ← gets (fun db => omap (fun x => m ← db_media db !! x.1; if live x.1 m then Some (x, m) else None) ids);
  removed ← delete_live_media_by_paths fs evidence ((fun r => (m_path r.2, r.1.2)) <$> rows);
  mret (omap (fun r => if bool_decide (m_uri r.2 ∈ removed) then Some r.1.1 else None) rows).
End Files.
Definition delete_media_item (id : Z) : Tx Db unit := modify (delete_media (fun k _ => k =? id)).
Definition delete_live_media_by_folder (folder : string) : Tx Db Z :=
  count ← gets (fun db => count_where (fun id m => in_folder folder id m && live id m) (db_media db));
  _ ← modify (delete_media (fun id m => in_folder folder id m && live id m));
  mret (Z.of_nat count).
(** [delete_media_by_ids]: a statement for each block of five hundred ids. *)
Definition CHUNK : nat := 500.
Fixpoint chunks_of {A} (fuel size : nat) (l : list A) : list (list A) :=
  match fuel, l with
  | S fuel, _ :: _ => take size l :: chunks_of fuel size (drop size l)
  | _, _ => []
  end.
Definition chunks {A} (size : nat) (l : list A) : list (list A) := chunks_of (length l) size l.
Definition delete_media_by_ids (ids : list Z) : Tx Db unit :=
  for_each (chunks CHUNK ids) (fun chunk => modify (delete_media (fun id m => bool_decide (id ∈ chunk) && live id m))).

(** ** Edits of a row *)
Definition set_media_favorite (id : Z) (favorite : bool) : Tx Db unit :=
  known ← gets (fun db => bool_decide (is_Some (db_media db !! id)));
  _ ← ensure known (Backend "failed to update favorite flag: media item not found");
  update_row id (fun _ => set_m_favorite favorite).
Definition is_media_favorite (db : Db) (id : Z) : result bool :=
  m ← ok_or_err (db_media db !! id) (Backend "media item not found"); Ok (m_favorite m).
(** The state of a chunk: how many rows there are, whether one is a favorite and
    whether one is not. *)
Definition chunk_state (db : Db) (chunk : list Z) : Z * bool * bool :=
  let rows := base.filter (fun r : Z * Media => r.1 ∈ chunk) (map_to_list (db_media db)) in
  (Z.of_nat (length rows), existsb (fun r => m_favorite r.2) rows, existsb (fun r => negb (m_favorite r.2)) rows).
Fixpoint favorite_chunks (db : Db) (chunks : list (list Z)) (has_favorite has_unfavorite : bool) : bool * bool :=
  match chunks with
  | [] => (has_favorite, has_unfavorite)
  | chunk :: rest =>
      let '(rows, favored, unfavored) := chunk_state db chunk in
      let has_favorite := has_favorite || favored in
      let has_unfavorite := has_unfavorite || (unfavored || (rows <? Z.of_nat (length chunk))) in
      if has_favorite && has_unfavorite then (has_favorite, has_unfavorite)
      else favorite_chunks db rest has_favorite has_unfavorite
  end.
Definition favorite_state_for_ids (db : Db) (ids : list Z) : bool * bool := favorite_chunks db (chunks CHUNK ids) false false.

(** [update_media_location]: the row, then the paths of its entries. *)
Definition entry_moved (new_path : string) (entry : Z * string) : Tx Db unit :=
  match relative_to entry.2 new_path with
  | None => mret tt
  | Some relative =>
      row ← gets (fun db => db_entries db !! entry.1);
      e ← need row NoRows;
      free ← gets (fun db => path_free db entry.1 (e_job e) relative);
      _ ← ensure free (Constraint "sync_entries.job_id, sync_entries.relative_path");
      modify (update_entry entry.1 (set_e_path relative))
  end.
Definition update_media_location (fresh : Fresh) (device : string) (id : Z) (new_path new_folder uri : string) (mtime : Z) : Tx Db unit :=
  free ← gets (fun db => negb (bool_decide (is_Some (db_media db !! id))) || uri_free db id uri);
  _ ← ensure free (Constraint "media_items.uri");
  _ ← update_row id (fun _ m => set_m_mtime_ns (ts_ns mtime) (set_m_mtime (ts mtime) (set_m_uri uri (set_m_folder new_folder (set_m_path new_path m)))));
  entries ← gets (fun db => omap (fun ke => if bool_decide (e_media ke.2 = Some id)
                                            then (fun j => (ke.1, j_root j)) <$> db_jobs db !! e_job ke.2 else None) (rows_by_id (db_entries db)));
  _ ← for_each entries (entry_moved new_path);
  _ ← Dirty.note id Dirty.Metadata (mkEvent (fr_now_ms fresh) device (fr_event fresh));
  mret tt.
Definition edited_media (item : NewMediaItem) (m : Media) : Media :=
  set_m_duration None (set_m_flags (n_flags item) (set_m_attributes (n_attributes item) (set_m_subkind (n_subkind item)
    (set_m_height (n_height item) (set_m_width (n_width item) (set_m_thumb_ready false (set_m_generated_at None
    (set_m_mtime_ns (ts_ns (n_mtime_ns item)) (set_m_hash (n_hash item) (set_m_size (as_i64_cast (n_size item))
    (set_m_mtime (ts (n_mtime_ns item)) m))))))))))).
Definition update_media_edit_metadata (fresh : Fresh) (device : string) (id : Z) (item : NewMediaItem) : Tx Db unit :=
  _ ← update_row id (fun _ => edited_media item);
  _ ← Dirty.note id Dirty.Content (mkEvent (fr_now_ms fresh) device (fr_event fresh));
  mret tt.

(** ** Thumbnails *)
Definition invalidate_thumbnail_marks (ids : list Z) : Tx Db unit :=
  for_each ids (fun id => update_row id (fun _ m => set_m_thumb_ready false (set_m_generated_at None m))).
Definition mark_thumbnails_generated (ids : list Z) : Tx Db unit :=
  for_each ids (fun id => update_row id (fun db m => set_m_thumb_ready true (set_m_generated_at (Some (db_now db)) m))).
(** The row still describes the file the cache was probed for. *)
Definition same_source (item : Media.MediaItem) (m : Media) : bool :=
  bool_decide (m_uri m = Media.uri item) && (m_size m =? as_i64_cast (Media.file_size item)) && negb (m_location m =? 2)
  && ((m_mtime_ns m =? ts_ns (Media.file_mtime item)) || (m_mtime_ns m =? 0) && (m_mtime m =? ts (Media.file_mtime item))).
Definition mark_differs (ready : bool) (m : Media) : bool :=
  negb (Bool.eqb (m_thumb_ready m) ready)
  || (if ready then bool_decide (m_generated_at m = None) else negb (bool_decide (m_generated_at m = None))).
Definition reconcile_thumbnail_marks (ready : bool) (items : list Media.MediaItem) : Tx Db unit :=
  for_each items (fun item => update_row (Media.id item) (fun db m =>
    if same_source item m && mark_differs ready m
    then set_m_generated_at (if ready then Some (db_now db) else None) (set_m_thumb_ready ready m) else m)).
Definition count_thumbnail_generated (db : Db) : Z := count_of (both live (fun _ m => m_thumb_ready m)) (db_media db).
Definition needs_thumbnail : Where := fun id m =>
  live_local id m && (negb (m_thumb_ready m) || match m_generated_at m with None => true | Some t => t <? m_mtime m end).
Definition list_media_needing_thumbnail (timestamp_ok : Z -> bool) (db : Db) (offset limit : Z) : result (list Media.MediaItem) :=
  to_items timestamp_ok (page_of offset limit (ordered newest needs_thumbnail (db_media db))).
Definition list_media_needing_thumbnail_from_live_offset (timestamp_ok : Z -> bool) (db : Db) (live_offset limit : Z) : result (list Media.MediaItem) :=
  match ordered newest live (db_media db) !! Z.to_nat live_offset with
  | None => Ok []
  | Some (anchor_id, anchor) =>
      let from := fun id m => (sort_time m <? sort_time anchor) || (sort_time m =? sort_time anchor) && (id <=? anchor_id) in
      to_items timestamp_ok (page_of 0 limit (ordered newest (both needs_thumbnail from) (db_media db)))
  end.

(** [load_unchanged_index]: what the scan compares files with. *)
Definition load_unchanged_index (db : Db) : gmap string (Z * Z) :=
  list_to_map ((fun r : Z * Media => (m_uri r.2, (m_mtime_ns r.2, m_size r.2)))
    <$> base.filter (fun r : Z * Media => live_local r.1 r.2 = true) (rows_by_id (db_media db))).

(** ** Recording a deletion *)
(** Drawing the device id changes at most the settings. *)
Definition same_tables (db db1 : Db) : Prop := db1 = db \/ exists minted, db1 = set_db_settings (<[DEVICE_ID_KEY := minted]> (db_settings db)) db.
Lemma device_id_run minted db : exists source db1, device_id_in minted db = Ok (source, db1) /\ same_tables db db1.
Proof.
  unfold device_id_in. destruct (db_settings db !! DEVICE_ID_KEY) as [v|] eqn:E.
  - exists v, db. split; [|by left]. rewrite (bind_run _ _ _ _ _ eq_refl). rewrite (bind_run _ _ _ _ _ eq_refl). rewrite E. cbn beta iota. by rewrite E.
  - exists minted, (set_db_settings (<[DEVICE_ID_KEY := minted]> (db_settings db)) db). split; [|right; by exists minted].
    rewrite (bind_run _ _ _ _ _ eq_refl). rewrite (bind_run _ _ _ _ _ eq_refl). rewrite E. cbn [db_settings set_db_settings]. by rewrite lookup_insert_eq.
Qed.
Lemma same_tables_facts db db1 : same_tables db db1 -> db_media db1 = db_media db /\ db_entries db1 = db_entries db /\ db_jobs db1 = db_jobs db /\
  db_now db1 = db_now db /\ (forall j, job_enabled db1 j = job_enabled db j) /\ (forall id, Dirty.covering_jobs db1 id = Dirty.covering_jobs db id) /\
  Dirty.recording db1 = Dirty.recording db /\ db_next_entry db1 = db_next_entry db.
Proof.
  intros [->|[minted ->]]; [by split_and!|]. split_and!; try done. unfold Dirty.recording, Reset.local_changes_enabled. cbn [db_settings set_db_settings].
  by rewrite lookup_insert_ne.
Qed.
(** A deletion is claimed by the covering jobs that have an entry. *)
Lemma deletion_claimed media stamp claims db rs db' : Dirty.note_all media Dirty.Deletion stamp claims db = Ok (rs, db') ->
  is_Some (head rs) <-> exists job id, (job, Some id) ∈ claims.
Proof.
  revert db rs. induction claims as [|[job entry] claims IH]; intros db rs; cbn [Dirty.note_all].
  - intros [= <- <-]. split; [by intros []|]. by intros (? & ? & ?%elem_of_nil).
  - intros H. destruct (Dirty.note_one media Dirty.Deletion stamp (job, entry) db) as [[r db1]|e] eqn:E1; [|by rewrite (bind_Err _ _ _ _ E1) in H].
    rewrite (bind_run _ _ _ _ _ E1) in H.
    destruct (Dirty.note_all media Dirty.Deletion stamp claims db1) as [[rs1 db2]|e] eqn:E2; [|by rewrite (bind_Err _ _ _ _ E2) in H].
    rewrite (bind_run _ _ _ _ _ E2) in H. injection H as <- <-. specialize (IH _ _ E2). destruct entry as [id|].
    + unfold Dirty.note_one in E1. tx_inv E1. rewrite bool_decide_true, andb_false_r in * by done. tx_inv E1.
      split; [|by eexists]. intros _. exists job, id. by left.
    + cbn in E1. injection E1 as <- <-. rewrite IH. split; intros (j & k & Hin); exists j, k; [by right|]. by apply elem_of_cons in Hin as [?|].
Qed.

(** What recording a change leaves: the rows of the library are untouched, and
    while recording is on exactly the claimed entries carry the change. *)
Record change_noted (db db' : Db) (id : Z) (category : Dirty.ChangeCategory) (stamp : EditEvent) (outcome : option (Z * Z)) : Prop := {
  cn_media : db_media db' = db_media db;
  cn_now : db_now db' = db_now db;
  cn_enabled : forall j, job_enabled db' j = job_enabled db j;
  cn_old : forall k e, db_entries db !! k = Some e ->
    db_entries db' !! k = Some (if Dirty.recording db && Dirty.claimed (Dirty.covering_jobs db id) category k e
                                then Dirty.mark_entry category stamp e else e);
  cn_new : category = Dirty.Deletion -> forall k, db_entries db !! k = None -> db_entries db' !! k = None;
  cn_outcome : category = Dirty.Deletion ->
    is_Some outcome <-> Dirty.recording db = true /\ exists job k, (job, Some k) ∈ Dirty.covering_jobs db id
}.
Lemma note_change_run fresh id category db m : entry_ids_ok db -> db_media db !! id = Some m ->
  (Dirty.recording db = true -> Forall (Dirty.can_enrol db m category) (Dirty.covering_jobs db id)) ->
  exists outcome source db', note_sync_change_in fresh id category db = Ok (outcome, db') /\
    change_noted db db' id category (mkEvent (fr_now_ms fresh) source (fr_event fresh)) outcome.
Proof.
  intros Hids Hm Hcan. destruct (device_id_run (fr_minted fresh) db) as (source & db1 & Hrun & Hsame).
  destruct (same_tables_facts _ _ Hsame) as (Em & Ee & Ej & En & Ejob & Ecov & Erec & Enext).
  unfold note_sync_change_in. rewrite (bind_run _ _ _ _ _ Hrun).
  destruct (Dirty.recording db) eqn:Hrec.
  - assert (Hids1 : entry_ids_ok db1) by (unfold entry_ids_ok in *; by rewrite Enext, Ee).
    assert (Hcan1 : Forall (Dirty.can_enrol db1 m category) (Dirty.covering_jobs db1 id)).
    { rewrite Ecov. eapply Forall_impl; [by apply Hcan|]. unfold Dirty.can_enrol, path_taken. intros c Hc. by rewrite Ej, Ee. }
    rewrite <- Em in Hm. pose proof (Dirty.covering_claims_ok db1 id m Hm) as Hok.
    rewrite Dirty.note_recording by congruence.
    destruct (Dirty.note_all_run id m category (mkEvent (fr_now_ms fresh) source (fr_event fresh)) _ db1 Hok Hids1 Hcan1)
      as (rs & db' & Hall & [(es & n & ->) Hold Hnew _ _]).
    rewrite Hall. eexists _, source, _. split; [reflexivity|]. rewrite Ecov, Ee in *. constructor; try done.
    + intros k e Hk. rewrite Hrec. by apply Hold.
    + intros -> k Hk. cbn [db_entries set_db_entries] in *. destruct (es !! k) as [e'|] eqn:Ek; [|done]. by destruct (Hnew k e' Ek Hk).
    + intros ->. rewrite (deletion_claimed _ _ _ _ _ _ Hall). naive_solver.
  - rewrite Dirty.note_silent_when_off by congruence. eexists _, source, db1. split; [reflexivity|]. constructor; try done.
    + intros k e Hk. by rewrite Hrec, Ee.
    + intros _ k. by rewrite Ee.
    + intros _. split; [by intros []|]. intros [? _]. congruence.
Qed.

(** Recording a change touches no row, no publication and not the clock. *)
Definition same_media (db db' : Db) : Prop :=
  db_media db' = db_media db /\ db_next_media db' = db_next_media db /\ db_publications db' = db_publications db /\ db_now db' = db_now db.
#[export] Instance same_media_preorder : PreOrder same_media.
Proof. unfold same_media. split; [by intros ?|]. intros ? ? ? (? & ? & ? & ?) (? & ? & ? & ?). split_and!; congruence. Qed.
Lemma note_same_media id category event : respects same_media (Dirty.note id category event).
Proof.
  assert (Hmark : forall k, respects same_media (Dirty.mark k category event)).
  { intros k. unfold Dirty.mark. respect. all: apply respects_modify; by intros db. }
  assert (Hone : forall c, respects same_media (Dirty.note_one id category event c)).
  { intros [job [k|]]; unfold Dirty.note_one; respect; try (apply Hmark); unfold Dirty.media_path, Dirty.relative_under, insert_entry; respect.
    all: apply respects_modify; by intros db. }
  assert (Hall : forall claims, respects same_media (Dirty.note_all id category event claims)).
  { intros claims. induction claims as [|c claims IH]; cbn [Dirty.note_all]; respect; auto. }
  unfold Dirty.note. respect; auto.
Qed.
Lemma noted_same_media category x : respects same_media (noted category x).
Proof.
  unfold noted, note_sync_change_in, device_id_in. respect; try (apply note_same_media). apply respects_modify. intros db. by destruct (_ !! _).
Qed.
#[export] Hint Resolve noted_same_media : respects.

(** ** A file that vanished *)
(** The entries of an enabled job that are linked to the row are at its path. *)
Definition linked_covered (db : Db) (id : Z) : Prop := forall k e, db_entries db !! k = Some e -> e_media e = Some id ->
  job_enabled db (e_job e) = true -> (e_job e, Some k) ∈ Dirty.covering_jobs db id.
Lemma covered_claimed db id job k e : (job, Some k) ∈ Dirty.covering_jobs db id -> Dirty.claimed (Dirty.covering_jobs db id) Dirty.Deletion k e = true.
Proof.
  intros Hin. unfold Dirty.claimed, Dirty.skipped. rewrite bool_decide_true, andb_false_r by done. cbn [negb]. rewrite andb_true_r.
  apply existsb_exists. exists (job, Some k). split; [by apply list_elem_of_In|]. by apply bool_decide_eq_true.
Qed.
(** Once its deletion is recorded a linked entry offers the photo no longer. *)
Lemma deletion_withdraws db db' id stamp outcome : linked_covered db id -> Dirty.recording db = true ->
  change_noted db db' id Dirty.Deletion stamp outcome -> offered db' id = false.
Proof.
  intros Hlink Hrec [Em _ En Hold Hnew _]. unfold offered. apply exists_where_false. intros k e' Hk.
  destruct (db_entries db !! k) as [e|] eqn:He; [|by rewrite (Hnew eq_refl k He) in Hk].
  rewrite (Hold k e He), Hrec in Hk. injection Hk as <-.
  destruct (bool_decide (e_media e = Some id) && job_enabled db (e_job e)) eqn:E.
  - apply andb_prop in E as [Hmed%bool_decide_eq_true Hjob]. rewrite (covered_claimed db id (e_job e) k) by (by apply Hlink).
    unfold Dirty.mark_entry, Dirty.mark_dirty. cbn. by rewrite andb_false_r.
  - destruct (Dirty.claimed _ _ _ _); [|by rewrite En, E].
    unfold Dirty.mark_entry, Dirty.mark_dirty. cbn. by rewrite andb_false_r.
Qed.

(** What the command does to the row of a photo whose file is gone. *)
Record photo_left (db db' : Db) (id : Z) (m : Media) (trashed : bool) : Prop := {
  pl_others : forall k, k <> id -> db_media db' !! k = db_media db !! k;
  pl_entries : forall k, is_Some (db_entries db !! k) -> is_Some (db_entries db' !! k);
  pl_trashed : trashed = true -> db_media db' !! id = Some (set_m_trashed_at (Some (db_now db)) m);
  pl_hidden : trashed = false -> visible_media db' !! id = None;
  pl_kept : trashed = false -> is_Some (db_media db' !! id) <->
    m_location m = 3 /\ Dirty.recording db = true /\ exists job k, (job, Some k) ∈ Dirty.covering_jobs db id;
  pl_claimed : trashed = false -> Dirty.recording db = true -> forall job k, (job, Some k) ∈ Dirty.covering_jobs db id ->
    exists e', db_entries db' !! k = Some e' /\ e_dirty e' = Dirty.DELETE
}.
Lemma update_row_run id f db : update_row id f db = Ok (tt, set_db_media (alter (f db) id (db_media db)) db).
Proof. done. Qed.
Lemma hidden_row db id m : db_media db !! id = Some m -> visible db id m = false -> visible_media db !! id = None.
Proof. intros Hm Hv. unfold visible_media. rewrite lookup_delete_where, Hm. cbn. by rewrite Hv. Qed.
Lemma trashed_row_run fresh db id m : entry_ids_ok db -> db_media db !! id = Some m ->
  (Dirty.recording db = true -> Forall (Dirty.can_enrol db m Dirty.Metadata) (Dirty.covering_jobs db id)) ->
  exists db', remove_or_trash_live_row_in fresh id true db = Ok (tt, db') /\ photo_left db db' id m true.
Proof.
  intros Hids Hm Hcan. unfold remove_or_trash_live_row_in, mark_trashed. rewrite (bind_run _ _ _ _ _ (update_row_run _ _ _)).
  set (db1 := set_db_media _ db). set (m1 := set_m_trashed_at (Some (db_now db)) m).
  assert (Hm1 : db_media db1 !! id = Some m1) by (cbn; by rewrite lookup_alter_eq, Hm).
  assert (Hcov : Dirty.covering_jobs db1 id = Dirty.covering_jobs db id).
  { unfold Dirty.covering_jobs. by rewrite Hm, Hm1. }
  destruct (note_change_run fresh id Dirty.Metadata db1 m1) as (outcome & source & db' & Hrun & [Em En Ejob Hold _ _]); [done|done|by rewrite Hcov|].
  exists db'. unfold noted. rewrite (bind_run _ _ _ _ _ Hrun). split; [done|]. constructor; try done.
  - intros k Hk. rewrite Em. cbn. by rewrite lookup_alter_ne.
  - intros k [e He]. rewrite (Hold k e He). by eexists.
  - intros _. by rewrite Em.
Qed.
Lemma kept_row_left db db1 id m stamp outcome : linked_covered db id -> db_media db !! id = Some m -> is_Some outcome -> m_location m = 3 ->
  change_noted db db1 id Dirty.Deletion stamp outcome ->
  photo_left db (set_db_media (alter (set_m_location 2) id (db_media db1)) db1) id m false.
Proof.
  intros Hlink Hm Hsome Hloc Hcn. pose proof Hcn as [Em En Ejob Hold Hnew Hout].
  pose proof (proj1 (Hout eq_refl) Hsome) as [Hrec Hex]. constructor; try done; cbn [db_media db_entries set_db_media].
  - intros k Hk. by rewrite lookup_alter_ne, Em.
  - intros k [e He]. rewrite (Hold k e He). by eexists.
  - intros _. apply (hidden_row _ _ (set_m_location 2 m)); [cbn; by rewrite lookup_alter_eq, Em, Hm|].
    unfold visible. cbn [m_location set_m_location Z.eqb negb orb]. apply andb_false_intro2.
    apply (deletion_withdraws db db1 id stamp outcome Hlink Hrec Hcn).
  - intros _. rewrite lookup_alter_eq, Em, Hm. split; [done|]. by eexists.
  - intros _ _ job k Hin. destruct (proj2 (proj2 (Dirty.covering_claims_ok db id m Hm)) job (Some k) Hin) as (j & rel & _ & _ & e & He & _).
    eexists. rewrite (Hold k e He), Hrec, (covered_claimed db id job k e Hin). split; [reflexivity|]. done.
Qed.
Lemma removed_row_left db db1 id m stamp outcome : linked_covered db id -> db_media db !! id = Some m -> outcome = None \/ m_location m <> 3 ->
  change_noted db db1 id Dirty.Deletion stamp outcome ->
  photo_left db (delete_media (fun k _ => k =? id) db1) id m false.
Proof.
  intros Hlink Hm Hgone Hcn. pose proof Hcn as [Em En Ejob Hold Hnew Hout].
  assert (Hnone : db_media (delete_media (fun k _ => k =? id) db1) !! id = None).
  { cbn. rewrite lookup_delete_where, Em, Hm. cbn. by rewrite Z.eqb_refl. }
  assert (Hent : forall k e, db_entries db !! k = Some e -> exists e', db_entries (delete_media (fun k _ => k =? id) db1) !! k = Some e' /\
     e_dirty e' = e_dirty (if Dirty.recording db && Dirty.claimed (Dirty.covering_jobs db id) Dirty.Deletion k e
                           then Dirty.mark_entry Dirty.Deletion stamp e else e)).
  { intros k e He. cbn. rewrite lookup_update_where, (Hold k e He). cbn. eexists. split; [reflexivity|]. by destruct (match e_media _ with Some _ => _ | None => _ end). }
  constructor; try done.
  - intros k Hk. cbn. rewrite lookup_delete_where, Em. destruct (db_media db !! k) as [m'|]; [|done]. cbn. by rewrite (proj2 (Z.eqb_neq k id) Hk).
  - intros k [e He]. destruct (Hent k e He) as (e' & He' & _). by eexists.
  - intros _. unfold visible_media. by rewrite lookup_delete_where, Hnone.
  - intros _. rewrite Hnone. split; [by intros []|]. intros (Hl & Hrest). destruct Hgone as [->|?]; [|done].
    by destruct (proj2 (Hout eq_refl) Hrest).
  - intros _ Hrec job k Hin. destruct (proj2 (proj2 (Dirty.covering_claims_ok db id m Hm)) job (Some k) Hin) as (j & rel & _ & _ & e & He & _).
    destruct (Hent k e He) as (e' & He' & Hd). exists e'. rewrite Hd, Hrec, (covered_claimed db id job k e Hin). by split.
Qed.
Lemma removed_row_run fresh db id m : entry_ids_ok db -> db_media db !! id = Some m -> linked_covered db id ->
  exists db', remove_or_trash_live_row_in fresh id false db = Ok (tt, db') /\ photo_left db db' id m false.
Proof.
  intros Hids Hm Hlink. destruct (note_change_run fresh id Dirty.Deletion db m Hids Hm) as (outcome & source & db1 & Hrun & Hcn).
  { intros _. apply Forall_true. intros c. by intros _ ?. }
  unfold remove_or_trash_live_row_in. rewrite (bind_run _ _ _ _ _ Hrun), (bind_run _ _ _ _ _ eq_refl).
  rewrite (cn_media _ _ _ _ _ _ Hcn), Hm. cbn [holds].
  destruct (bool_decide (is_Some outcome)) eqn:Eo; [apply bool_decide_eq_true in Eo|apply bool_decide_eq_false in Eo];
    (destruct (m_location m =? 3) eqn:El; zbool); cbn [andb];
    (eexists; split; [reflexivity|]); try (by eapply kept_row_left); eapply removed_row_left; try done; eauto; left; destruct outcome; [|done].
  by destruct Eo; eexists.
Qed.

Lemma live_row_Some path uri db id m : live_row path uri db = Some (id, m) -> db_media db !! id = Some m.
Proof. intros H. by apply find_row_Some in H as [? _]. Qed.

(** A photo whose file vanished leaves the library, and only that photo. The
    watcher's command changes nothing while the file is there, while its
    directory is gone too (an unmounted disk is not a deletion) or when no live
    local row has the path. Otherwise it succeeds for the row it finds: when the
    system trash holds the file the row is marked as trashed now; when it does
    not, the row is not in the visible library any more, it survives exactly when
    the original is also in the cloud and a recording job has an entry for it, and
    every such entry carries the deletion. No other row changes and no entry is
    lost. *)
Theorem vanished_photo_leaves_library file_uri in_trash fs path fresh db :
  entry_ids_ok db ->
  (forall id m, live_row path (file_uri path) db = Some (id, m) -> linked_covered db id /\
     (Dirty.recording db = true -> Forall (Dirty.can_enrol db m Dirty.Metadata) (Dirty.covering_jobs db id))) ->
  match (if vanished ParentMustSurvive fs path then live_row path (file_uri path) db else None) with
  | None => delete_media_by_path file_uri in_trash fs path fresh db = Ok (0, db)
  | Some (id, m) => exists db', delete_media_by_path file_uri in_trash fs path fresh db = Ok (1, db') /\
      photo_left db db' id m (in_trash fs path)
  end.
Proof.
  intros Hids Hrow. unfold delete_media_by_path, delete_live_media_by_paths. rewrite filter_cons, filter_nil. cbn [fst snd].
  destruct (vanished ParentMustSurvive fs path) eqn:Hv; [rewrite decide_True by done|by rewrite decide_False by done].
  cbn [collect]. unfold delete_live_path. cbn [fst snd].
  destruct (live_row path (file_uri path) db) as [[id m]|] eqn:Hf.
  - destruct (Hrow id m eq_refl) as [Hlink Hcan]. apply live_row_Some in Hf as Hm.
    assert (Hrun : exists db', remove_or_trash_live_row_in fresh id (in_trash fs path) db = Ok (tt, db') /\ photo_left db db' id m (in_trash fs path)).
    { destruct (in_trash fs path); [by apply trashed_row_run|by apply removed_row_run]. }
    destruct Hrun as (db' & Hrun & Hleft). exists db'. split; [|done]. unfold mbind, Tx_bind, gets. rewrite Hf. by rewrite Hrun.
  - unfold mbind, Tx_bind, gets. by rewrite Hf.
Qed.

(** A photo kept in two places, with an entry; its file is gone, its folder is not. *)
Definition sample_uri (path : string) : string := ("file://" +:+ path)%string.
Definition sample_library : Db := set_db_media {[1 := set_m_location 3 SyncDb.Sample.photo]} SyncDb.Sample.db.
Definition sample_disk : Fs := mkFs {["/photos"%string := NDir 0 0]} ∅ 1.
Definition sample_fresh : Fresh := mkFresh 9 "device-1" "e9".
Lemma sample_library_entry_ids : entry_ids_ok sample_library.
Proof. split; [cbn; lia|]. intros id e [-> ->]%SyncDb.Sample.entries_are. cbn. lia. Qed.
Lemma vanished_photo_leaves_library_witness :
  exists db', delete_media_by_path sample_uri (fun _ _ => false) sample_disk "/photos/a.jpg" sample_fresh sample_library = Ok (1, db') /\
    visible_media db' !! 1 = None /\ is_Some (db_media db' !! 1).
Proof.
  pose proof (vanished_photo_leaves_library sample_uri (fun _ _ => false) sample_disk "/photos/a.jpg" sample_fresh sample_library) as H.
  assert (Hrow : live_row "/photos/a.jpg" (sample_uri "/photos/a.jpg") sample_library = Some (1, set_m_location 3 SyncDb.Sample.photo)) by (vm_compute; reflexivity).
  assert (Hv : vanished ParentMustSurvive sample_disk "/photos/a.jpg" = true) by (vm_compute; reflexivity).
  assert (Hcov : Dirty.covering_jobs sample_library 1 = [(1, Some 1)]) by (vm_compute; reflexivity).
  rewrite Hv, Hrow in H. destruct H as (db' & Hrun & [_ _ _ Hh Hk _]).
  - apply sample_library_entry_ids.
  - intros id m [= <- <-]. rewrite Hcov. split; [intros k e [-> ->]%SyncDb.Sample.entries_are _ _; rewrite Hcov; left|]. intros _. by repeat constructor.
  - exists db'. split_and!; [exact Hrun|by apply Hh|]. apply Hk; [done|]. split_and!; [done|vm_compute; reflexivity|].
    exists 1, 1. rewrite Hcov. left.
Defined.

(** ** Favorites of a selection *)
Definition favorite_row (db : Db) (id : Z) : bool := holds m_favorite (db_media db !! id).
Lemma chunks_of_concat {A} size (Hsize : (0 < size)%nat) fuel (l : list A) : (length l <= fuel)%nat -> concat (chunks_of fuel size l) = l.
Proof.
  revert l. induction fuel as [|fuel IH]; intros l Hl; [by destruct l; [|cbn in Hl; lia]|]. destruct l as [|x l]; [done|].
  cbn [chunks_of concat]. rewrite IH; [by rewrite take_drop|]. rewrite length_drop. cbn [length] in *. lia.
Qed.
Lemma chunk_rows db (chunk : list Z) k m : (k, m) ∈ base.filter (fun r : Z * Media => r.1 ∈ chunk) (map_to_list (db_media db)) <-> k ∈ chunk /\ db_media db !! k = Some m.
Proof. by rewrite list_elem_of_filter, elem_of_map_to_list. Qed.
Lemma NoDup_fst_filter {A} (P : Z * A -> Prop) `{forall x, base.Decision (P x)} (l : list (Z * A)) : NoDup l.*1 -> NoDup (base.filter P l).*1.
Proof.
  induction l as [|x l IH]; [done|]. cbn [fmap list_fmap]. intros [Hx Hl]%NoDup_cons. rewrite filter_cons. destruct (decide (P x)); [|by apply IH].
  cbn [fmap list_fmap]. apply NoDup_cons. split; [|by apply IH]. intros (y & E & Hin%list_elem_of_filter)%list_elem_of_fmap. apply Hx. rewrite E. apply list_elem_of_fmap_2, Hin.
Qed.
(** A chunk without repetition has fewer rows than ids exactly when an id has no row. *)
Lemma chunk_complete db (chunk : list Z) : NoDup chunk ->
  (length (base.filter (fun r : Z * Media => r.1 ∈ chunk) (map_to_list (db_media db))) < length chunk)%nat <-> exists id, id ∈ chunk /\ db_media db !! id = None.
Proof.
  intros Hnd. set (rows := base.filter _ _).
  assert (Hrows : NoDup rows.*1) by (apply NoDup_fst_filter, NoDup_fst_map_to_list).
  assert (Hsub : rows.*1 ⊆+ chunk).
  { apply NoDup_submseteq; [done|]. intros k ([k' m] & -> & Hin)%list_elem_of_fmap. by apply chunk_rows in Hin as []. }
  rewrite <- (length_fmap fst rows). split.
  - intros Hlt. destruct (decide (Exists (fun id => db_media db !! id = None) chunk)) as [Hex|Hall]; [by apply Exists_exists in Hex|].
    exfalso. assert (Hsub' : chunk ⊆+ rows.*1); [|apply submseteq_length in Hsub'; lia].
    apply NoDup_submseteq; [done|]. intros k Hk. destruct (db_media db !! k) as [m|] eqn:Em; [|destruct Hall; apply Exists_exists; by exists k].
    apply list_elem_of_fmap. exists (k, m). split; [done|]. by apply chunk_rows.
  - intros (id & Hin & Hnone). destruct (decide (length chunk <= length rows.*1)%nat) as [Hle|]; [|lia]. exfalso.
    pose proof (submseteq_length_Permutation _ _ Hsub Hle) as Hperm. rewrite <- Hperm in Hin.
    apply list_elem_of_fmap in Hin as ([k m] & -> & Hin). apply chunk_rows in Hin as []. cbn in Hnone. congruence.
Qed.
Lemma chunk_state_spec db chunk : NoDup chunk -> exists rows unfavored,
  chunk_state db chunk = (rows, existsb (favorite_row db) chunk, unfavored) /\
  unfavored || (rows <? Z.of_nat (length chunk)) = existsb (fun id => negb (favorite_row db id)) chunk.
Proof.
  intros Hnd. pose proof (chunk_complete db chunk Hnd) as Hlen. unfold chunk_state. eexists _, _. split; [f_equal; f_equal|].
  - apply eq_true_iff_eq. rewrite !existsb_exists. split.
    + intros ([k m] & Hin%list_elem_of_In & Hf). apply chunk_rows in Hin as [Hk Hm]. exists k. split; [by apply list_elem_of_In|]. unfold favorite_row. by rewrite Hm.
    + intros (k & Hk%list_elem_of_In & Hf). unfold favorite_row in Hf. destruct (db_media db !! k) as [m|] eqn:Em; [|done].
      exists (k, m). split; [|done]. by apply list_elem_of_In, chunk_rows.
  - apply eq_true_iff_eq. rewrite orb_true_iff, Z.ltb_lt, !existsb_exists, <- Nat2Z.inj_lt, Hlen. split.
    + intros [([k m] & Hin%list_elem_of_In & Hf)|(k & Hk & Hnone)].
      * apply chunk_rows in Hin as [Hk Hm]. exists k. split; [by apply list_elem_of_In|]. unfold favorite_row. by rewrite Hm.
      * exists k. split; [by apply list_elem_of_In|]. unfold favorite_row. by rewrite Hnone.
    + intros (k & Hk%list_elem_of_In & Hf). unfold favorite_row in Hf. destruct (db_media db !! k) as [m|] eqn:Em; [left|right; by exists k].
      exists (k, m). split; [|done]. by apply list_elem_of_In, chunk_rows.
Qed.
(** Stopping when both states were seen does not change the answer. *)
Lemma favorite_chunks_spec db cs f u : NoDup (concat cs) ->
  favorite_chunks db cs f u = (f || existsb (favorite_row db) (concat cs), u || existsb (fun id => negb (favorite_row db id)) (concat cs)).
Proof.
  revert f u. induction cs as [|c cs IH]; intros f u Hnd; cbn [favorite_chunks concat existsb]; [by rewrite !orb_false_r|].
  cbn [concat] in Hnd. apply NoDup_app in Hnd as (Hc & _ & Hcs). destruct (chunk_state_spec db c Hc) as (rows & un & -> & Hun). rewrite Hun, !existsb_app, !orb_assoc.
  destruct (_ && _) eqn:E; [|by apply IH]. apply andb_prop in E as [-> ->]. done.
Qed.

(** The favorite state of a selection. For a selection without repetition the
    chunked query, which stops at the first chunk that settles both questions,
    answers exactly whether some selected photo is a favorite and whether some
    selected photo is not one, an id without a row counting as not a favorite. *)
Theorem favorite_state_correct db ids : NoDup ids ->
  favorite_state_for_ids db ids = (existsb (favorite_row db) ids, existsb (fun id => negb (favorite_row db id)) ids).
Proof.
  intros Hnd. unfold favorite_state_for_ids, chunks. pose proof (chunks_of_concat CHUNK ltac:(unfold CHUNK; lia) (length ids) ids (le_n _)) as Hc.
  rewrite favorite_chunks_spec by (by rewrite Hc). by rewrite Hc.
Qed.
Lemma favorite_state_correct_witness : favorite_state_for_ids sample_library [1; 2] = (false, true).
Proof. rewrite (favorite_state_correct sample_library [1; 2]); [vm_compute; reflexivity|]. apply (bool_decide_unpack (NoDup [1; 2])). vm_compute. exact I. Defined.
(** A repeated id makes a favorite look like a mixed selection. *)
Lemma repeated_id_counts_as_missing : let db := set_db_media {[1 := set_m_favorite true SyncDb.Sample.photo]} SyncDb.Sample.db in
  favorite_state_for_ids db [1; 1] = (true, true) /\ favorite_state_for_ids db [1] = (true, false).
Proof. split; vm_compute; reflexivity. Qed.

(** ** Thumbnails from the visible position on *)
Lemma StronglySorted_filtered {A} (R : relation A) (P : A -> Prop) `{!forall x, base.Decision (P x)} (l : list A) :
  StronglySorted R l -> StronglySorted R (base.filter P l).
Proof.
  induction 1 as [|x l Hl IH Hx]; [constructor|]. rewrite filter_cons. destruct (decide (P x)); [|done]. constructor; [done|].
  rewrite Forall_forall in Hx |- *. intros y [_ Hy]%list_elem_of_filter. by apply Hx.
Qed.
(** A row is at or after the anchor exactly when it does not come before it. *)
Lemma from_anchor (anchor r : Z * Media) :
  (sort_time r.2 <? sort_time anchor.2) || (sort_time r.2 =? sort_time anchor.2) && (r.1 <=? anchor.1) = negb (before newest r anchor).
Proof.
  unfold before, newest, media_sort_expr, key_lt. apply eq_true_iff_eq.
  rewrite negb_true_iff, orb_false_iff, andb_false_iff, bool_decide_eq_false, orb_true_iff, andb_true_iff, !Z.ltb_lt, !Z.ltb_ge, Z.eqb_eq, Z.leb_le.
  split; [intros [|[]]; split; [lia|left; intros [=]; lia|lia|right; lia]|]. intros [H1 [H2|H2]]; [|lia].
  assert (sort_time r.2 <> sort_time anchor.2) by congruence. lia.
Qed.
Lemma needs_live : forall id m, needs_thumbnail id m = true -> live id m = true.
Proof. intros id m. unfold needs_thumbnail, live_local, live. by intros [[]%andb_prop _]%andb_prop. Qed.

(** Thumbnails are prepared from where the user is. The two statements, the
    seek for the anchor at the offset and the keyset scan from it, return what
    skipping the offset in the newest-first list of photos outside the trash,
    keeping the local ones without a fresh thumbnail and taking the limit would
    return; past the end they return nothing. *)
Theorem prewarm_starts_at_offset timestamp_ok db live_offset limit :
  list_media_needing_thumbnail_from_live_offset timestamp_ok db live_offset limit
  = to_items timestamp_ok (take (Z.to_nat limit) (base.filter (fun r : Z * Media => needs_thumbnail r.1 r.2 = true)
      (drop (Z.to_nat live_offset) (ordered newest live (db_media db))))).
Proof.
  unfold list_media_needing_thumbnail_from_live_offset. pose proof (ordered_sorted newest live (db_media db)) as Hs.
  set (L := ordered newest live (db_media db)) in *. destruct (L !! Z.to_nat live_offset) as [[aid a]|] eqn:Ha.
  - f_equal. unfold page_of. cbn [Z.to_nat drop]. f_equal. destruct (sorted_split _ _ _ _ Hs Ha) as [Hb Haf].
    pose proof (from_anchor (aid, a)) as Hfrom. cbn [fst snd] in Hfrom. apply ordered_unique.
    + apply StronglySorted_filtered. rewrite <- (take_drop (Z.to_nat live_offset) L) in Hs. by apply StronglySorted_app_1_r in Hs.
    + set (from := fun id m => _). transitivity (base.filter (fun r => both needs_thumbnail from r.1 r.2 = true) L).
      { subst L. rewrite <- (rows_both_perm newest live (both needs_thumbnail from)). apply reflexive_eq. unfold rows_where. apply list_filter_iff. intros [id m]. unfold both. cbn.
        rewrite !andb_true_iff. pose proof (needs_live id m). tauto. }
      rewrite <- (take_drop (Z.to_nat live_offset) L) at 1. rewrite filter_app, filter_none; [|].
      * apply reflexive_eq, filter_ext_in. intros r Hr. unfold both, from. rewrite Hfrom, andb_true_iff, negb_true_iff.
        assert (before newest r (aid, a) = false); [|tauto]. rewrite (drop_S _ _ _ Ha) in Hr. apply elem_of_cons in Hr as [->|Hr].
        -- destruct (before newest (aid, a) (aid, a)) eqn:E; [|done]. pose proof (before_asym newest _ _ E). congruence.
        -- rewrite Forall_forall in Haf. apply before_asym. by apply Haf.
      * eapply Forall_impl; [exact Hb|]. intros r Hr. unfold both, from. by rewrite Hfrom, Hr, andb_false_r.
  - apply lookup_ge_None_1 in Ha. by rewrite drop_ge, filter_nil, take_nil.
Qed.
End Library.
