(* ===== verification/TrashFlows.v ===== *)
(** The trash from the user's side: files and rows together.

    Moving a photo to the trash, restoring it, deleting it for good and renaming
    it change the file system and the database in turn ([core/trash.rs] and
    [core/repository.rs]). Each of them can stop or fail between any two steps, and
    the file watcher looks at the states in between. *)
From Stdlib Require Import Ascii String.
From stdpp Require Import pretty.
From S2P Require Import Prelude.
From S2P Require Import Media.
From S2P Require Import SearchText.
From S2P Require Import SyncDb.
From S2P Require Import SyncReset.
From S2P Require Import SyncDirty.
From S2P Require Import SyncRuntime.
From S2P Require Import SyncReceive.
From S2P Require Import SyncProjection.
From S2P Require Import SyncPlacement.
From S2P Require Import MediaQueries.
From S2P Require Import Files.
From S2P Require Import TrashFiles.
From S2P Require Import LibraryDb.
Local Open Scope string_scope.
Local Open Scope Z_scope.

Module Flows.
Import Receive Projection Placement Queries Files Trash Library.

Inductive TrashBackend := System | App.
#[export] Instance TrashBackend_eq_dec : EqDecision TrashBackend.
Proof. solve_decision. Defined.
Definition startup_backend_after_probe (configured : TrashBackend) (system_probe : result unit) : TrashBackend :=
  match configured, system_probe with System, Err _ => App | backend, _ => backend end.

(** What a batch reports: the changes, and the photos that failed with a message. *)
Record MediaMutation := mkMutation { changed_ids : list Z; changed_items : list Media.MediaItem; removed_uris : list string }.
Record MediaBatchResult := mkBatch { mutation : MediaMutation; failures : list (Z * string) }.
Definition no_mutation : MediaMutation := mkMutation [] [] [].
Definition newline_text : string := String newline "".
Definition error_message (r : MediaBatchResult) : option string :=
  match failures r with [] => None | fs => Some (String.concat newline_text (snd <$> take 20 fs)) end.
Definition into_result (r : MediaBatchResult) : result MediaMutation :=
  match error_message r with Some error => Err (Backend error) | None => Ok (mutation r) end.

Definition restored_item (x : Media.MediaItem) : Media.MediaItem :=
  Media.mkMediaItem (Media.id x) (Media.uri x) (Media.path x) (Media.folder_path x) (Media.mime_type x) (Media.media_subkind x)
    (Media.media_attributes x) (Media.width x) (Media.height x) (Media.video_duration_secs x) (Media.taken_at x) (Media.file_mtime x)
    (Media.file_size x) (Media.blake3_hash x) (Media.is_favorite x) None (Media.storage_location x) (Media.thumbnail_ready x).

(** ** Renaming *)
(** [Path::file_stem]. *)
Definition path_stem (p : string) : option string := file_stem <$> Media.file_name p.
Definition forbidden_char (c : ascii) : bool := Ascii.eqb c "/" || Ascii.eqb c "\" || Ascii.eqb c Ascii.zero.
Definition trimmed (s : string) : string := String.concat "" (Text.trim (Text.chars s)).
Definition rename_target_path (current requested : string) : result string :=
  let requested := trimmed requested in
  if bool_decide (requested = "") then Err (Backend "file name cannot be empty")
  else if existsb forbidden_char (String.list_ascii_of_string requested) then Err (Backend "file name cannot contain path separators")
  else
    stem ← ok_or_err (path_stem requested) (Backend "file name cannot be empty");
    let stem := trimmed stem in
    if bool_decide (stem = "") then Err (Backend "file name cannot be empty")
    else
      parent ← ok_or_err (path_parent current) (Backend "current file has no parent folder");
      Ok (path_join parent (match Media.extension current with Some ext => stem +:+ "." +:+ ext | None => stem end)).

(** [to_path]: gio's path of a file URI; [roots_for]: the trash directories that
    can hold a path, which depend on the mounted file systems; [error_text]: the
    message of an error; [gio_trash]: gio's own trash operation. *)
Section Flows.
Context (read_order : list string -> list string) (replaced : list Z -> string).
Context (cross_device : string -> string -> bool) (now : Z) (date : string) (stamp : Z).
Context (gio_move : string -> string -> Fs -> result Fs) (gio_trash : string -> Fs -> result Fs).
Context (file_uri : string -> string) (to_path : string -> result string) (roots_for : string -> list string) (app_trash_root : string).
Context (timestamp_ok : Z -> bool) (error_text : AppError -> string).

(** ** Into the trash *)
Definition move_to_backend (backend : TrashBackend) (uri : string) : IO unit :=
  match backend with
  | System => file_op (gio_trash uri)
  | App => path ← checked (to_path uri); move_path_to_trash_root cross_device now date stamp path app_trash_root
  end.
(** The row is marked before the file moves; a failed move takes the mark back. *)
Definition move_to_trash_marked (backend : TrashBackend) (fresh : Fresh) (id : Z) (uri : string) : IO unit :=
  _ ← command (mark_trashed id);
  moved ← attempt (move_to_backend backend uri);
  match moved with
  | Ok _ => command (commit_trash_metadata [(id, fresh)])
  | Err e => _ ← attempt (command (unmark_trashed id)); fail e
  end.
Fixpoint move_to_trash (backend : TrashBackend) (ids : list (Z * Fresh)) : IO MediaMutation :=
  match ids with
  | [] => mret no_mutation
  | (id, fresh) :: rest =>
      item ← query (fun db => get_media_item timestamp_ok db id);
      _ ← move_to_trash_marked backend fresh (Media.id item) (Media.uri item);
      m ← move_to_trash backend rest;
      mret (mkMutation (id :: changed_ids m) (changed_items m) (Media.uri item :: removed_uris m))
  end.

(** ** Out of the trash *)
Definition restore_photo (fresh : Fresh) (id : Z) (uri : string) : IO unit :=
  original ← checked (to_path uri);
  prepared ← prepare_restore_in_roots read_order replaced gio_move original (roots_for original);
  committed ← attempt (command (restore_trashed_metadata [(id, fresh)]));
  match committed with
  | Ok _ => commit_restore prepared
  | Err e => _ ← drop_restore gio_move prepared; fail e
  end.
Definition delete_photo (fresh : Fresh) (id : Z) (uri : string) : IO unit :=
  original ← checked (to_path uri);
  prepared ← prepare_permanent_delete_in_roots read_order replaced stamp original (roots_for original);
  _ ← commit_permanent_delete prepared;
  command (commit_permanent_deletions [(id, fresh)]).
Definition trash_one (restore : bool) (fresh : Fresh) (id : Z) : IO Media.MediaItem :=
  item ← query (fun db => get_media_item timestamp_ok db id);
  _ ← require (bool_decide (is_Some (Media.trashed_at item))) (Backend (Media.path item +:+ " is not in Trash"));
  done ← attempt (if restore then restore_photo fresh id (Media.uri item) else delete_photo fresh id (Media.uri item));
  match done with
  | Ok _ => mret (if restore then restored_item item else item)
  | Err e => fail (Backend (Media.path item +:+ ": " +:+ error_text e))
  end.
(** [restore_batch] and [delete_batch]: a photo that fails does not stop the others. *)
Fixpoint trash_batch (restore : bool) (ids : list (Z * Fresh)) : IO MediaBatchResult :=
  match ids with
  | [] => mret (mkBatch no_mutation [])
  | (id, fresh) :: rest =>
      outcome ← attempt (trash_one restore fresh id);
      r ← trash_batch restore rest;
      let m := mutation r in
      mret match outcome with
           | Ok item => mkBatch (if restore then mkMutation (id :: changed_ids m) (item :: changed_items m) (removed_uris m)
                                 else mkMutation (id :: changed_ids m) (changed_items m) (Media.uri item :: removed_uris m)) (failures r)
           | Err e => mkBatch m ((id, error_text e) :: failures r)
           end
  end.

(** ** Renaming *)
(** [device_id]: the stored identifier, or one for this run when the database
    cannot be reached. *)
Definition device_id (minted fallback : string) : IO string :=
  found ← attempt (command (device_id_in minted)); mret match found with Ok device => device | Err _ => fallback end.
Definition relocate (fresh : Fresh) (fallback : string) (id : Z) (target parent : string) : IO Media.MediaItem :=
  device ← device_id (fr_minted fresh) fallback;
  mtime ← look (fun st => match metadata (st_fs st) target with Some m => modified m | None => now end);
  _ ← command (update_media_location fresh device id target parent (file_uri target) mtime);
  query (fun db => get_media_item timestamp_ok db id).
Definition rename_media_file_inner (fresh : Fresh) (fallback : string) (id : Z) (requested : string) : IO MediaMutation :=
  item ← query (fun db => get_media_item timestamp_ok db id);
  target ← checked (rename_target_path (Media.path item) requested);
  if bool_decide (target = Media.path item) then mret (mkMutation [id] [item] [])
  else
    taken ← look (fun st => path_exists (st_fs st) target);
    _ ← require (negb taken) (Backend ("target file already exists: " +:+ target));
    _ ← file_op (rename (Media.path item) target);
    parent ← some (path_parent target) (Backend "renamed file has no parent folder");
    changed ← attempt (relocate fresh fallback id target parent);
    match changed with
    | Ok changed =>
        if bool_decide (Media.path changed = target) then mret (mkMutation [id] [changed] [])
        else _ ← attempt (file_op (rename target (Media.path item)));
             fail (Backend "renamed media row did not persist target path")
    | Err e => _ ← attempt (file_op (rename target (Media.path item))); fail e
    end.

(** ** Changing the trash directory *)
Record MigratedTrashEntry := mkMigrated { old_file : string; old_info : string; old_info_content : string; new_file : string; new_info : string }.
Definition move_trash_entry_to_root (original : string) (source_roots : list string) (target_root : string) : IO MigratedTrashEntry :=
  found ← look (fun st => find_trash_entry_in read_order replaced (st_fs st) original source_roots);
  found ← some found (Backend ("no trash entry for " +:+ original +:+ " in source backend"));
  let old_file := path_join (files_dir_for found.2) found.1 in
  content ← look (fun st => read_to_string (st_fs st) found.2);
  content ← some content NOT_FOUND;
  let info_dir := path_join target_root "info" in
  let files_dir := path_join target_root "files" in
  _ ← create_dir_all info_dir;
  _ ← create_dir_all files_dir;
  actual ← look (fun st => unique_trash_name stamp (st_fs st) files_dir info_dir found.1);
  let new_file := path_join files_dir actual in
  let new_info := path_join info_dir (actual +:+ ".trashinfo") in
  _ ← move_file cross_device now old_file new_file;
  written ← attempt (write_bytes now new_info (bytes_of content));
  match written with
  | Ok _ => _ ← attempt (file_op (remove_file found.2)); mret (mkMigrated old_file found.2 content new_file new_info)
  | Err e => _ ← attempt (move_file cross_device now new_file old_file); fail e
  end.
Definition parent_made (p : string) : IO unit :=
  match path_parent p with Some parent => _ ← attempt (create_dir_all parent); mret tt | None => mret tt end.
Definition rollback_migrated_entry (e : MigratedTrashEntry) : IO unit :=
  _ ← parent_made (old_file e);
  _ ← parent_made (old_info e);
  there ← look (fun st => path_exists (st_fs st) (new_file e));
  _ ← (if (there : bool) then _ ← attempt (move_file cross_device now (new_file e) (old_file e)); mret tt else mret tt);
  _ ← attempt (write_bytes now (old_info e) (bytes_of (old_info_content e)));
  _ ← attempt (file_op (remove_file (new_info e)));
  mret tt.
Fixpoint rollback_all (migrated : list MigratedTrashEntry) : IO unit :=
  match migrated with [] => mret tt | e :: rest => _ ← rollback_migrated_entry e; rollback_all rest end.
Record TrashMigrationStats := mkStats { moved : Z; skipped : Z }.
(** The rows in turn; [migrated] is newest first, the order of a rollback. *)
Fixpoint migrate_rows (source_roots : list string) (target_root : string) (excluded : list Z) (rows : list Media.MediaItem)
    (migrated : list MigratedTrashEntry) (stats : TrashMigrationStats) : IO TrashMigrationStats :=
  match rows with
  | [] => mret stats
  | row :: rest =>
      let original := Media.path row in
      known ← look (fun st => bool_decide (is_Some (find_trash_entry_in read_order replaced (st_fs st) original [target_root])));
      source ← look (fun st => bool_decide (is_Some (find_trash_entry_in read_order replaced (st_fs st) original source_roots)));
      if bool_decide (Media.id row ∈ excluded) || known || negb source
      then migrate_rows source_roots target_root excluded rest migrated (mkStats (moved stats) (skipped stats + 1))
      else
        done ← attempt (move_trash_entry_to_root original source_roots target_root);
        match done with
        | Ok e => migrate_rows source_roots target_root excluded rest (e :: migrated) (mkStats (moved stats + 1) (skipped stats))
        | Err e => _ ← rollback_all migrated; fail e
        end
  end.
Definition migrate_trash_entries_between_roots (source_roots : list string) (target_root : string) (excluded : list Z) : IO TrashMigrationStats :=
  rows ← query (list_trashed_media timestamp_ok);
  migrate_rows source_roots target_root excluded rows [] (mkStats 0 0).
End Flows.

(** ** Trashing a photo while the watcher looks on *)
Section TrashPhoto.
Context (read_order : list string -> list string) (replaced : list Z -> string).
Context (cross_device : string -> string -> bool) (now : Z) (date : string) (stamp : Z).
Context (gio_trash : string -> Fs -> result Fs) (file_uri : string -> string) (to_path : string -> result string).
Context (st : St) (oc rc : list string) (name : string) (i : Z) (f : File) (id : Z) (m : Media) (fresh : Fresh).
Notation original := (abs (oc ++ [name])).
Notation root := (abs rc).
Notation actual := (unique_trash_name stamp (st_fs st) (abs (rc ++ ["files"])) (abs (rc ++ ["info"])) name).
Notation target := (abs ((rc ++ ["files"]) ++ [actual])).
Notation trash_photo := (move_to_trash_marked cross_device now date stamp gio_trash to_path root App fresh id (file_uri original)).

(** The photo's row: live, at the photo's path, and the only one there. *)
Record photo_row : Prop := {
  ph_row : db_media (st_db st) !! id = Some m;
  ph_live : m_trashed_at m = None;
  ph_path : m_path m = original;
  ph_uri : to_path (file_uri original) = Ok original;
  ph_only : forall k m', db_media (st_db st) !! k = Some m' -> m_path m' = original \/ m_uri m' = file_uri original -> k = id
}.
Context (R : trash_ready replaced stamp st oc rc name i f) (P : photo_row).

Definition marked : gmap Z Media := alter (set_m_trashed_at (Some (db_now (st_db st)))) id (db_media (st_db st)).
Notation held := (held f).
(** Before the mark the photo is at its path; after it, there or in the trash. *)
Definition phase (faulty : bool) (st' : St) : Prop :=
  frame stamp st oc rc name (st_fs st') /\ (held (st_fs st') original \/ held (st_fs st') target) /\
  (db_media (st_db st') = marked \/ db_media (st_db st') = db_media (st_db st) /\ (held (st_fs st') original \/ faulty = true)).

Lemma ready_db db : trash_ready replaced stamp (mkSt db (st_fs st)) oc rc name i f.
Proof. by destruct R; constructor. Qed.
Lemma frame_db db fs : frame stamp (mkSt db (st_fs st)) oc rc name fs -> frame stamp st oc rc name fs.
Proof. by intros []; constructor. Qed.
Lemma unmarked_rows : alter (set_m_trashed_at None) id marked = db_media (st_db st).
Proof.
  unfold marked. apply map_eq. intros k. destruct (decide (k = id)) as [->|]; [|by rewrite !lookup_alter_ne].
  rewrite !lookup_alter_eq, (ph_row P). cbn. f_equal. pose proof (ph_live P) as H. destruct m. cbn in *. by subst.
Qed.
Lemma trash_photo_ok faulty : wpc faulty (phase faulty) trash_photo (fun r st2 => phase faulty st2 /\
    match r with
    | Ok _ => db_media (st_db st2) = marked /\ trashed_state date stamp (mkSt (st_db st2) (st_fs st)) oc rc name f st2
    | Err _ => True end) st.
Proof.
  assert (Hstart : forall db fs, db_media db = db_media (st_db st) \/ db_media db = marked -> fs = st_fs st -> phase faulty (mkSt db fs)).
  { intros db fs Hdb ->. split_and!; [by apply (trash_frame_start replaced stamp st oc rc name i f)|left; by apply (held_start replaced stamp st oc rc name i f)|].
    cbn. destruct Hdb as [->| ->]; [right; split; [done|left; by apply (held_start replaced stamp st oc rc name i f)]|by left]. }
  unfold move_to_trash_marked. wp. apply wpc_command. { intros Hf. split; [|done]. destruct st. apply Hstart; [by left|done]. }
  cbn [mark_trashed update_row modify]. set (db1 := set_db_media _ _). cbn beta iota. split; [by apply Hstart; [right|]|].
  wp. apply wpc_attempt. unfold move_to_backend. wp. wp. rewrite (ph_uri P). cbn beta iota.
  pose proof (move_to_root_ok read_order replaced cross_device now date stamp (mkSt db1 (st_fs st)) oc rc name i f (ready_db db1) faulty) as Hmove.
  assert (Hphase : forall st', safe stamp (mkSt db1 (st_fs st)) oc rc name f st' -> phase faulty st').
  { intros st' (Hdb & Fr & Hh). split_and!; [by eapply frame_db|done|]. left. by rewrite Hdb. }
  apply (wpc_weaken _ _ (phase faulty)) in Hmove; [|done]. eapply wpc_mono; [exact Hmove|].
  intros [[]|e] st2; cbn beta iota.
  - intros Htr. pose proof Htr as (Hdb & Fr & Hh & Hno & Hinfo). unfold commit_trash_metadata. cbn [for_each].
    assert (Hp2 : forall db, db_media db = marked -> phase faulty (mkSt db (st_fs st2))).
    { intros db Hm. split_and!; [by eapply frame_db|by right|by left]. }
    assert (Hm2 : db_media (st_db st2) = marked) by (by rewrite Hdb).
    eapply (wpc_command_respects _ _ same_media); [respect| |].
    + intros e _. split; [|done]. destruct st2. by apply Hp2.
    + intros a db _ [Hsame _]. rewrite Hm2 in Hsame. split; [by apply Hp2|]. split; [by apply Hp2|]. split; [done|].
      split_and!; [done| |done|done|done]. by destruct Fr; constructor.
  - intros [Hf Hs]. pose proof Hs as (Hdb & Fr & Hh). wp. apply wpc_attempt, wpc_command.
    { intros _. wp. split; [|done]. by apply Hphase. }
    cbn [unmark_trashed update_row modify]. set (db2 := set_db_media _ _). cbn beta iota.
    assert (Hp2 : phase faulty (mkSt db2 (st_fs st2))).
    { split_and!; [by eapply frame_db|done|]. right. split; [|by right]. cbn. rewrite Hdb. apply unmarked_rows. }
    split; [done|]. wp. by split.
Qed.
Lemma watcher_quiet in_trash st' fresh' : phase false st' -> delete_media_by_path file_uri in_trash (st_fs st') original fresh' (st_db st') = Ok (0, st_db st').
Proof.
  intros (Fr & _ & Hrow).
  assert (H : vanished ParentMustSurvive (st_fs st') original = false \/ live_row original (file_uri original) (st_db st') = None).
  { destruct Hrow as [Hm|[_ [(k & g & Nk & Ik & _)|?]]]; [right|left|done].
    - unfold live_row. apply find_row_None. intros k m' Hk. rewrite Hm in Hk. unfold marked in Hk. unfold live_local.
      destruct (decide (k = id)) as [->|Hne].
      + rewrite lookup_alter_eq, (ph_row P) in Hk. injection Hk as <-. cbn. by rewrite andb_false_r.
      + rewrite lookup_alter_ne in Hk by done. destruct (bool_decide (m_path m' = original) || bool_decide (m_uri m' = file_uri original)) eqn:E; [|done].
        exfalso. apply Hne, (ph_only P k m' Hk). apply orb_true_iff in E as [E|E]; apply bool_decide_eq_true in E; auto.
    - unfold vanished. apply andb_false_intro2, bool_decide_eq_false. by rewrite (symlink_metadata_file _ _ _ _ Nk Ik). }
  unfold delete_media_by_path, delete_live_media_by_paths. rewrite filter_cons, filter_nil. cbn [fst snd].
  destruct (vanished ParentMustSurvive (st_fs st') original) eqn:Hv; [rewrite decide_True by done|by rewrite decide_False by done].
  destruct H as [|Hl]; [done|]. cbn [collect]. unfold delete_live_path, mbind, Tx_bind, gets. cbn [fst snd]. by rewrite Hl.
Qed.

Context (Hdate : all_chars printable date = true) (Horder : forall l, read_order l ≡ₚ l).
(** C13: Trashing marks before it moves. In every state a run of the trash command
    passes through, whatever fails and wherever it stops, the photo is at its
    path or in the trash. While nothing fails, the watcher's command for the
    photo's path, run in any of those states, changes nothing: the file is there
    or the row is already marked, so the watcher never deletes the row of a photo
    that is on its way to the trash. A run that succeeds leaves the row marked and
    a verified trash entry that leads to the photo. *)
Theorem watcher_ignores_trashing in_trash fresh' fl st' :
  st' ∈ stops trash_photo fl st ->
  let o := trash_photo fl st in
  (read (st_fs st') original = Some (f_bytes f) \/ read (st_fs st') target = Some (f_bytes f)) /\
  (fl = [] -> delete_media_by_path file_uri in_trash (st_fs st') original fresh' (st_db st') = Ok (0, st_db st')) /\
  (o_result o = Ok tt -> holds (trashed_only id) (db_media (st_db (o_state o)) !! id) = true /\
     trashed_file_in_roots read_order replaced (st_fs (o_state o)) original [root] = Ok target /\
     read (st_fs (o_state o)) target = Some (f_bytes f)).
Proof.
  intros Hin o. assert (Hstart : forall faulty, phase faulty st).
  { intros faulty. split_and!; [by apply (trash_frame_start replaced stamp st oc rc name i f)|left|right; split; [done|left]];
      by apply (held_start replaced stamp st oc rc name i f). }
  split_and!.
  - destruct (wpc_stops _ _ _ true fl st st' (trash_photo_ok true)) as (_ & Hh & _); [by left|done|done|].
    destruct Hh; [left|right]; by apply held_read.
  - intros ->. apply watcher_quiet. eapply (wpc_stops _ _ _ false []); [apply trash_photo_ok|by right|done|done].
  - intros Hr. destruct (trash_photo_ok true fl) as (_ & _ & _ & Hok); [by left|]. fold o in Hok. rewrite Hr in Hok. destruct Hok as [Hm Htr].
    split; [|by apply (trashed_file_found read_order replaced cross_device date stamp (mkSt (st_db (o_state o)) (st_fs st)) oc rc name i f (ready_db _) Hdate Horder)].
    rewrite Hm. unfold marked. rewrite lookup_alter_eq, (ph_row P). done.
Qed.
End TrashPhoto.

(** ** Restoring and deleting a trashed photo *)
Section TrashedPhoto.
Context (read_order : list string -> list string) (replaced : list Z -> string) (stamp : Z).
Context (gio_move : string -> string -> Fs -> result Fs).
Context (Hgio : forall a b fs, gio_move a b fs = match names fs !! b with Some _ => Err ALREADY_EXISTS | None => rename a b fs end).
Context (to_path : string -> result string) (roots_for : string -> list string).
Context (st : St) (id : Z) (m : Media) (fresh : Fresh) (uri original actual info : string) (k : Z).
Notation trashed := (path_join (files_dir_for info) actual).
Notation staged := (with_extension trashed ("photo-viewer-delete-" +:+ pretty stamp)).

(** A trashed row whose entry is found and whose path is free. *)
Record trashed_photo : Prop := {
  tp_row : db_media (st_db st) !! id = Some m /\ m_trashed_at m <> None;
  tp_path : to_path uri = Ok original;
  tp_entry : find_trash_entry_in read_order replaced (st_fs st) original (roots_for original) = Some (actual, info);
  tp_names : names (st_fs st) !! trashed = Some (NFile k) /\ names (st_fs st) !! original = None /\ is_Some (names (st_fs st) !! info);
  tp_info : info <> trashed /\ (forall l n, names (st_fs st) !! info <> Some (NDir l n));
  tp_parent : exists parent up l n, path_parent original = Some parent /\ reverse (dirs_of parent) = parent :: up /\
    names (st_fs st) !! parent = Some (NDir l n);
  tp_staged : names (st_fs st) !! staged = None
}.
Context (T : trashed_photo).

Lemma distinct_places : trashed <> original /\ info <> original /\ staged <> trashed /\ staged <> info.
Proof. destruct (tp_names T) as (Ht & Ho & [n Hi]). pose proof (tp_staged T). split_and!; intros E; rewrite E in *; congruence. Qed.

(** *** Restoring *)
Notation restore := (restore_photo read_order replaced gio_move to_path roots_for fresh id uri).
Definition live_again : gmap Z Media := alter (set_m_trashed_at None) id (db_media (st_db st)).
Record restoring (st' : St) : Prop := {
  rs_inodes : inodes (st_fs st') = inodes (st_fs st);
  rs_others : forall p, p <> original -> p <> trashed -> p <> info -> names (st_fs st') !! p = names (st_fs st) !! p;
  rs_place : names (st_fs st') !! trashed = Some (NFile k) /\ names (st_fs st') !! original = None /\ db_media (st_db st') = db_media (st_db st)
          \/ names (st_fs st') !! original = Some (NFile k) /\ names (st_fs st') !! trashed = None /\
             (db_media (st_db st') = db_media (st_db st) \/ db_media (st_db st') = live_again)
}.
Lemma restore_metadata_rows : respects (fun db db' => db_media db' = alter (set_m_trashed_at None) id (db_media db)) (restore_trashed_metadata [(id, fresh)]).
Proof.
  intros db [] db' H. unfold restore_trashed_metadata in H. cbn [for_each] in H. apply bind_Ok in H as ([] & db2 & H & H2).
  apply mret_Ok in H2 as [_ ->]. unfold unmark_trashed in H. rewrite (bind_run _ _ _ _ _ (update_row_run _ _ _)) in H.
  by apply noted_same_media in H as [H _].
Qed.
Lemma restore_photo_ok faulty : wpc faulty restoring restore (fun r st2 => restoring st2 /\
  match r with
  | Ok _ => db_media (st_db st2) = live_again /\ names (st_fs st2) !! original = Some (NFile k)
  | Err _ => db_media (st_db st2) = db_media (st_db st)
  end) st.
Proof.
  destruct (tp_names T) as (Ht & Ho & Hi), distinct_places as (D1 & D2 & _), (tp_info T) as [D3 Hfile], (tp_parent T) as (parent & up & l & n & Hpar & Hup & Hdir).
  assert (Hst : restoring st) by (split; [done|done|by left]).
  unfold restore_photo, prepare_restore_in_roots, resolve_trash_entry_in_roots. wp. wp. rewrite (tp_path T). wp.
  wp. wp. rewrite (tp_entry T). wp. wp. rewrite Hpar. wp. eapply create_known; [by exists up|done|]. cbn beta iota. cbn [fst snd].
  wp. apply wpc_file_op. { intros _. by split. } rewrite Hgio, Ho. unfold rename. rewrite Ht, Ho. cbn beta iota.
  set (fs1 := set_names _ _).
  assert (Hmoved : forall db, db_media db = db_media (st_db st) \/ db_media db = live_again -> restoring (mkSt db fs1)).
  { intros db Hdb. split; [done| |right]; cbn.
    - intros p ? ? ?. by rewrite lookup_insert_ne, lookup_delete_ne.
    - by rewrite lookup_insert_eq, lookup_insert_ne, lookup_delete_eq by done. }
  split; [apply Hmoved; by left|]. wp. wp. apply wpc_attempt.
  assert (Hundo : forall e : AppError, wpc faulty restoring (_ ← drop_restore gio_move (mkRestore original trashed info); fail e : IO unit)
     (fun r st2 => restoring st2 /\ match r with Ok _ => db_media (st_db st2) = live_again /\ names (st_fs st2) !! original = Some (NFile k) | Err _ => db_media (st_db st2) = db_media (st_db st) end)
     (set_fs fs1 st)).
  { intros e. unfold drop_restore. cbn [pr_original pr_trashed]. wp. wp. apply wpc_attempt, wpc_file_op.
    { intros _. wp. wp. split; [apply Hmoved; by left|done]. }
    rewrite Hgio. cbn [st_fs set_fs fs1 names set_names]. rewrite lookup_insert_ne, lookup_delete_eq by done. unfold rename. cbn [fs1 names set_names].
    rewrite lookup_insert_eq, lookup_insert_ne, lookup_delete_eq by done. cbn beta iota.
    assert (Hback : restoring (set_fs (set_names (<[trashed:=NFile k]> (delete original (<[original:=NFile k]> (delete trashed (names (st_fs st)))))) fs1) st)).
    { split; [done| |left]; cbn.
      - intros p ? ? ?. by rewrite lookup_insert_ne, lookup_delete_ne, lookup_insert_ne, lookup_delete_ne.
      - rewrite lookup_insert_eq, lookup_insert_ne, lookup_delete_eq by done. done. }
    split; [done|]. wp. wp. by split. }
  eapply (wpc_command_respects _ _ _ _ _ _ restore_metadata_rows); [intros e _; cbn beta iota; apply Hundo|].
  intros [] db _ Hdb. cbn [st_db set_fs st_fs] in Hdb |- *. split; [apply Hmoved; by right|]. cbn beta iota. unfold commit_restore. cbn [pr_info].
  wp. apply wpc_attempt, wpc_file_op.
  { intros _. wp. split; [apply Hmoved; by right|]. split; [done|]. cbn. by rewrite lookup_insert_eq. }
  cbn [st_fs]. unfold remove_file. cbn [fs1 names set_names]. rewrite lookup_insert_ne, lookup_delete_ne by done. destruct Hi as [node Hi]. rewrite Hi.
  assert (Hend : restoring (set_fs (set_names (delete info (<[original:=NFile k]> (delete trashed (names (st_fs st))))) fs1) (mkSt db fs1))).
  { split; [done| |right]; cbn.
    - intros p ? ? ?. by rewrite lookup_delete_ne, lookup_insert_ne, lookup_delete_ne.
    - rewrite lookup_delete_ne, lookup_insert_eq, lookup_delete_ne, lookup_insert_ne, lookup_delete_eq by done. auto. }
  destruct node as [j|to l' n'|l' n']; [| |by destruct (Hfile l' n')].
  all: split; [done|]; wp; split; [done|]; split; [done|]; cbn; by rewrite lookup_delete_ne, lookup_insert_eq.
Qed.

(** C25: Restoring never loses a photo and never shows one whose file is not back.
    Whatever fails and wherever the run stops, the photo's file is at its original
    path or in the trash, unchanged, no other file but the trash's record of it
    changes, and the row is live only when the file is at the path. A reported
    success means the row is live and the file is back; a reported error means the
    row is still in the trash. *)
Theorem restore_never_loses_photo fl st' :
  st' ∈ stops restore fl st ->
  let o := restore fl st in
  (names (st_fs st') !! original = Some (NFile k) \/ names (st_fs st') !! trashed = Some (NFile k)) /\
  inodes (st_fs st') = inodes (st_fs st) /\
  (forall p, p <> original -> p <> trashed -> p <> info -> names (st_fs st') !! p = names (st_fs st) !! p) /\
  (holds (live id) (db_media (st_db st') !! id) = true -> names (st_fs st') !! original = Some (NFile k)) /\
  (holds (live id) (db_media (st_db (o_state o)) !! id) = true <-> o_result o = Ok tt).
Proof.
  intros Hin o. destruct (tp_row T) as [Hrow Htr]. assert (Hst : restoring st) by (destruct (tp_names T) as (? & ? & _); split; [done|done|by left]).
  destruct (wpc_stops _ _ _ true fl st st' (restore_photo_ok true)) as [Hin' Hoth Hplace]; [by left|done|done|].
  assert (Hnot : forall db, db_media db = db_media (st_db st) -> holds (live id) (db_media db !! id) = false).
  { intros db ->. rewrite Hrow. unfold live. cbn. by apply bool_decide_eq_false. }
  split_and!; [destruct Hplace as [(? & _)|(? & _)]; auto|done|done| |].
  - destruct Hplace as [(_ & _ & Hdb)|(? & _)]; [|done]. by rewrite Hnot.
  - destruct (restore_photo_ok true fl) as (_ & _ & _ & HQ); [by left|]. fold o in HQ. destruct (o_result o) as [[]|e].
    + destruct HQ as [-> _]. unfold live_again. by rewrite lookup_alter_eq, Hrow.
    + by rewrite Hnot.
Qed.

(** *** Deleting for good *)
Notation delete_it := (delete_photo read_order replaced stamp to_path roots_for fresh id uri).
Definition row_gone : gmap Z Media := delete_where (fun j row => (j =? id) && trashed_only j row) (db_media (st_db st)).
Record deleting (st' : St) : Prop := {
  dl_inodes : inodes (st_fs st') = inodes (st_fs st);
  dl_others : forall p, p <> trashed -> p <> staged -> p <> info -> names (st_fs st') !! p = names (st_fs st) !! p;
  dl_rows : db_media (st_db st') = db_media (st_db st) \/
    db_media (st_db st') = row_gone /\ names (st_fs st') !! trashed = None /\ names (st_fs st') !! staged = None
}.
Lemma delete_trashed_rows db : db_media db = db_media (st_db st) -> forall db', commit_permanent_deletions [(id, fresh)] db = Ok (tt, db') -> db_media db' = row_gone.
Proof.
  intros Hdb db' H. destruct (tp_row T) as [Hrow Htr]. unfold commit_permanent_deletions in H. cbn [for_each] in H.
  apply bind_Ok in H as ([] & db2 & H & H2). apply mret_Ok in H2 as [_ ->]. unfold delete_trashed in H. rewrite (bind_run _ _ _ _ _ eq_refl) in H. cbn [fst] in H.
  rewrite Hdb, Hrow in H. unfold trashed_only in H at 1. rewrite bool_decide_false in H by done. cbn [negb] in H.
  apply bind_Ok in H as ([] & db3 & H & H3). apply noted_same_media in H as [H _]. apply modify_Ok in H3 as ->. cbn. by rewrite H, Hdb.
Qed.
Lemma delete_photo_ok faulty : wpc faulty deleting delete_it (fun r st2 => deleting st2 /\
  match r with
  | Ok _ => db_media (st_db st2) = row_gone
  | Err _ => db_media (st_db st2) = db_media (st_db st)
  end) st.
Proof.
  destruct (tp_names T) as (Ht & Ho & Hi), distinct_places as (D1 & D2 & D4 & D5), (tp_info T) as [D3 Hfile]. pose proof (tp_staged T) as Hs.
  assert (Hst : forall fs, (forall p, p <> trashed -> p <> staged -> p <> info -> names fs !! p = names (st_fs st) !! p) -> inodes fs = inodes (st_fs st) ->
    deleting (set_fs fs st)). { intros fs Ho' Hin. split; [done|done|by left]. }
  unfold delete_photo, prepare_permanent_delete_in_roots, resolve_trash_entry_in_roots. wp. wp. rewrite (tp_path T). wp.
  wp. wp. rewrite (tp_entry T). wp. wp. cbn [fst snd]. wp. apply wpc_file_op. { intros _. split; [by split; [..|left]|done]. }
  unfold rename. rewrite Ht, Hs. cbn beta iota. set (fs1 := set_names _ _).
  assert (H1 : deleting (set_fs fs1 st)). { apply Hst; [|done]. intros p ? ? ?. cbn. by rewrite lookup_insert_ne, lookup_delete_ne. }
  split; [done|]. wp. wp. unfold commit_permanent_delete. cbn [pd_staged pd_info]. wp. apply wpc_attempt.
  assert (Hundo : forall e : AppError, wpc faulty deleting (_ ← drop_permanent_delete (mkDelete trashed staged info); fail e : IO unit)
    (fun r st2 => match r with Ok _ => False | Err _ => deleting st2 /\ db_media (st_db st2) = db_media (st_db st) end) (set_fs fs1 st)).
  { intros e. unfold drop_permanent_delete. cbn [pd_staged pd_original]. wp. wp. apply wpc_attempt, wpc_file_op. { intros _. wp. wp. by split. }
    unfold rename. cbn [st_fs set_fs fs1 names set_names]. rewrite lookup_insert_eq, lookup_insert_ne, lookup_delete_eq by done. cbn beta iota.
    set (fs2 := set_names _ _). assert (H2 : deleting (set_fs fs2 (set_fs fs1 st))).
    { apply (Hst fs2); [|done]. intros p ? ? ?. cbn. by rewrite lookup_insert_ne, lookup_delete_ne, lookup_insert_ne, lookup_delete_ne. }
    split; [done|]. wp. wp. by split. }
  apply wpc_file_op. { intros _. cbn beta iota. eapply wpc_mono; [apply Hundo|]. intros [[]|e] st2; [done|]. done. }
  unfold remove_file at 1. cbn [st_fs set_fs fs1 names set_names]. rewrite lookup_insert_eq. cbn beta iota. set (fs2 := set_names _ _).
  assert (Hgone : names fs2 !! trashed = None /\ names fs2 !! staged = None).
  { cbn. by rewrite lookup_delete_ne, lookup_insert_ne, lookup_delete_eq, lookup_delete_eq. }
  assert (Ho2 : forall p, p <> trashed -> p <> staged -> p <> info -> names fs2 !! p = names (st_fs st) !! p).
  { intros p ? ? ?. cbn. by rewrite lookup_delete_ne, lookup_insert_ne, lookup_delete_ne. }
  split; [by apply (Hst fs2)|]. wp. apply wpc_attempt.
  assert (Hlast : forall fs, names fs !! trashed = None /\ names fs !! staged = None -> inodes fs = inodes (st_fs st) ->
    (forall p, p <> trashed -> p <> staged -> p <> info -> names fs !! p = names (st_fs st) !! p) ->
    wpc faulty deleting (command (commit_permanent_deletions [(id, fresh)])) (fun r st2 => deleting st2 /\
      match r with Ok _ => db_media (st_db st2) = row_gone | Err _ => db_media (st_db st2) = db_media (st_db st) end) (set_fs fs st)).
  { intros fs Hg Hin Hoth. apply wpc_command; [intros _; split; [by apply Hst|done]|].
    destruct (commit_permanent_deletions _ _) as [[[] db]|e] eqn:E; [|split; [by apply Hst|done]].
    pose proof (delete_trashed_rows (st_db (set_fs fs st)) eq_refl db E) as Hdb. assert (deleting (mkSt db (st_fs (set_fs fs st)))) by (split; [done|done|by right]).
    by split. }
  apply wpc_file_op. { intros _. wp. by apply (Hlast fs2). }
  destruct (remove_file info (st_fs (set_fs fs2 (set_fs fs1 st)))) as [fs3|e] eqn:Er; [|wp; by apply (Hlast fs2)].
  assert (H3 : names fs3 = delete info (names fs2) /\ inodes fs3 = inodes fs2).
  { unfold remove_file in Er. cbn [st_fs set_fs] in Er. destruct (names fs2 !! info) as [[]|]; try discriminate; by injection Er as <-. }
  destruct H3 as [Hn3 Hi3]. assert (Hg3 : names fs3 !! trashed = None /\ names fs3 !! staged = None).
  { rewrite Hn3, !lookup_delete_ne by done. done. }
  assert (Ho3 : forall p, p <> trashed -> p <> staged -> p <> info -> names fs3 !! p = names (st_fs st) !! p).
  { intros p ? ? ?. rewrite Hn3, lookup_delete_ne by done. by apply Ho2. }
  split; [by apply (Hst fs3)|]. wp. by apply (Hlast fs3).
Qed.

(** A row outlives its file. Deleting a trashed photo for good, whatever fails
    and wherever the run stops, removes the row only when the file is gone from
    the trash, touches no other row and no file but the entry's own; success is
    reported exactly when the row is gone. *)
Theorem delete_commits_after_unlink fl st' :
  st' ∈ stops delete_it fl st ->
  let o := delete_it fl st in
  (db_media (st_db st') !! id = None -> names (st_fs st') !! trashed = None /\ names (st_fs st') !! staged = None) /\
  (forall j, j <> id -> db_media (st_db st') !! j = db_media (st_db st) !! j) /\
  (forall p, p <> trashed -> p <> staged -> p <> info -> names (st_fs st') !! p = names (st_fs st) !! p) /\
  inodes (st_fs st') = inodes (st_fs st) /\
  (db_media (st_db (o_state o)) !! id = None <-> o_result o = Ok tt).
Proof.
  intros Hin o. destruct (tp_row T) as [Hrow Htr]. assert (Hst : deleting st) by (split; [done|done|by left]).
  destruct (wpc_stops _ _ _ true fl st st' (delete_photo_ok true)) as [Hi Ho Hr]; [by left|done|done|].
  split_and!; [| |done|done|].
  - destruct Hr as [->|(_ & ? & ?)]; [congruence|done].
  - intros j Hj. destruct Hr as [->|[-> _]]; [done|]. unfold row_gone. rewrite lookup_delete_where. destruct (db_media (st_db st) !! j); [|done].
    cbn. by rewrite (proj2 (Z.eqb_neq j id) Hj).
  - destruct (delete_photo_ok true fl) as (_ & _ & _ & HQ); [by left|]. fold o in HQ. destruct (o_result o) as [[]|e]; rewrite HQ.
    + split; [done|]. intros _. unfold row_gone. rewrite lookup_delete_where, Hrow. cbn. rewrite Z.eqb_refl. unfold trashed_only. by rewrite bool_decide_false.
    + split; [congruence|done].
Qed.
End TrashedPhoto.

(** ** Witnesses *)
Module Sample.
Definition to_path (uri : string) : result string := ok_or_err (strip_prefix "file://" uri) (Backend "not a local file").
Definition fresh : Fresh := mkFresh 9 "device-1" "e9".
Definition no_gio (_ : string) (_ : Fs) : result Fs := Err (Io "no trash").
(** A photo in the trash. *)
Definition fs : Fs := mkFs
  {["/photos" := NDir 0 0; "/trash" := NDir 0 0; "/trash/info" := NDir 0 0; "/trash/files" := NDir 0 0;
    "/trash/files/a.jpg" := NFile 2; "/trash/info/a.jpg.trashinfo" := NFile 3]}
  {[2 := mkFile [9] 5; 3 := mkFile (bytes_of (trashinfo_for "2024-01-01T00:00:00" "/photos/a.jpg")) 5]} 4.
Definition row : Media := set_m_trashed_at (Some 3) SyncDb.Sample.photo.
Definition st : St := mkSt (set_db_media {[1 := row]} SyncDb.Sample.db) fs.
End Sample.
Lemma sample_photo_row : photo_row sample_uri Sample.to_path Trash.Sample.st ["photos"] "a.jpg" 1 SyncDb.Sample.photo.
Proof.
  constructor; [reflexivity..|vm_compute; reflexivity|]. intros k m' Hk _. cbn in Hk. by apply lookup_singleton_Some in Hk as [<- _].
Qed.
Lemma watcher_ignores_trashing_witness :
  let o := move_to_trash_marked (fun _ _ => false) 7 Trash.Sample.date 0 Sample.no_gio Sample.to_path "/trash" App Sample.fresh 1 "file:///photos/a.jpg" [] Trash.Sample.st in
  o_result o = Ok tt /\ read (st_fs (o_state o)) "/trash/files/a.0.jpg" = Some [1; 2; 3].
Proof.
  assert (Hok : o_result (move_to_trash_marked (fun _ _ => false) 7 Trash.Sample.date 0 Sample.no_gio Sample.to_path "/trash" App Sample.fresh 1 "file:///photos/a.jpg" [] Trash.Sample.st) = Ok tt)
    by (vm_compute; reflexivity).
  split; [exact Hok|].
  apply (watcher_ignores_trashing (fun l => l) Trash.Sample.replaced (fun _ _ => false) 7 Trash.Sample.date 0 Sample.no_gio sample_uri Sample.to_path Trash.Sample.st
    ["photos"] ["trash"] "a.jpg" 1 (mkFile [1; 2; 3] 5) 1 SyncDb.Sample.photo Sample.fresh sample_trash_ready sample_photo_row eq_refl (fun _ => Permutation_refl _)
    (fun _ _ => false) Sample.fresh [] Trash.Sample.st (list_elem_of_here _ _)).
  exact Hok.
Defined.
Lemma sample_trashed_photo : trashed_photo (fun l => l) Trash.Sample.replaced 5 Sample.to_path (fun _ => ["/trash"]) Sample.st 1 Sample.row "file:///photos/a.jpg"
  "/photos/a.jpg" "a.jpg" "/trash/info/a.jpg.trashinfo" 2.
Proof.
  constructor.
  - by split.
  - vm_compute. reflexivity.
  - vm_compute. reflexivity.
  - split_and!; [vm_compute; reflexivity..|]. by eexists; vm_compute; reflexivity.
  - split; [vm_compute; discriminate|]. intros l n. vm_compute. discriminate.
  - exists "/photos", [], 0, 0. split_and!; vm_compute; reflexivity.
  - vm_compute. reflexivity.
Qed.
Lemma restore_never_loses_photo_witness :
  let o := restore_photo (fun l => l) Trash.Sample.replaced Trash.Sample.gio_move Sample.to_path (fun _ => ["/trash"]) Sample.fresh 1 "file:///photos/a.jpg" [] Sample.st in
  holds (live 1) (db_media (st_db (o_state o)) !! 1) = true.
Proof.
  assert (Hok : o_result (restore_photo (fun l => l) Trash.Sample.replaced Trash.Sample.gio_move Sample.to_path (fun _ => ["/trash"]) Sample.fresh 1 "file:///photos/a.jpg" [] Sample.st) = Ok tt)
    by (vm_compute; reflexivity).
  apply (restore_never_loses_photo (fun l => l) Trash.Sample.replaced 5 Trash.Sample.gio_move (fun _ _ _ => eq_refl) Sample.to_path (fun _ => ["/trash"]) Sample.st 1 Sample.row
    Sample.fresh "file:///photos/a.jpg" "/photos/a.jpg" "a.jpg" "/trash/info/a.jpg.trashinfo" 2 sample_trashed_photo [] Sample.st (list_elem_of_here _ _)).
  exact Hok.
Defined.
Lemma delete_commits_after_unlink_witness :
  let o := delete_photo (fun l => l) Trash.Sample.replaced 5 Sample.to_path (fun _ => ["/trash"]) Sample.fresh 1 "file:///photos/a.jpg" [] Sample.st in
  db_media (st_db (o_state o)) !! 1 = None.
Proof.
  assert (Hok : o_result (delete_photo (fun l => l) Trash.Sample.replaced 5 Sample.to_path (fun _ => ["/trash"]) Sample.fresh 1 "file:///photos/a.jpg" [] Sample.st) = Ok tt)
    by (vm_compute; reflexivity).
  apply (delete_commits_after_unlink (fun l => l) Trash.Sample.replaced 5 Sample.to_path (fun _ => ["/trash"]) Sample.st 1 Sample.row
    Sample.fresh "file:///photos/a.jpg" "/photos/a.jpg" "a.jpg" "/trash/info/a.jpg.trashinfo" 2 sample_trashed_photo [] Sample.st (list_elem_of_here _ _)).
  exact Hok.
Defined.
End Flows.
