(* ===== verification/LibraryScan.v ===== *)
(** Scanning the library: [LocalBackend] of [core/backend/local.rs].

    A scan walks a folder, skips the files whose row already has their time and
    size, describes the rest and writes them in batches; the batches depend on
    how fast files are read. Afterwards the rows whose files are gone are removed.
    Together the two make the library show what is on the disk. *)
From Stdlib Require Import Ascii String.
From S2P Require Import Prelude.
From S2P Require Import Media.
From S2P Require Import SyncDb.
From S2P Require Import SyncReset.
From S2P Require Import SyncDirty.
From S2P Require Import SyncRuntime.
From S2P Require Import SyncReceive.
From S2P Require Import SyncProjection.
From S2P Require Import SyncPlacement.
From S2P Require Import MediaQueries.
From S2P Require Import Files.
From S2P Require Import TrashFiles.
From S2P Require Import LibraryDb.
From S2P Require Import TrashFlows.
Local Open Scope string_scope.
Local Open Scope Z_scope.

Module Scan.
Import Receive Projection Placement Queries Files Library Flows.

(** ** Paths *)
#[export] Instance Component_eq_dec : EqDecision Component.
Proof. solve_decision. Defined.
Fixpoint prefix_of (a b : list Component) : bool :=
  match a, b with
  | [], _ => true
  | x :: a, y :: b => bool_decide (x = y) && prefix_of a b
  | _ :: _, [] => false
  end.
(** [Path::starts_with]: whole components. *)
Definition starts_with (path base : string) : bool := prefix_of (path_components base) (path_components path).
Definition is_excluded_path (path : string) (excluded_roots : list string) : bool := existsb (starts_with path) excluded_roots.

(** What the decoders read from a file: [metadata::extract] and the motion photo
    of its end, with whether that has a gain map. *)
Record Description := mkDescription {
  de_mime : string; de_width : option Z; de_height : option Z; de_taken_at : option Z; de_duration : option Z; de_motion : option bool }.

(** [describe]: the decoders on a name and its bytes; [attributes_json]: the JSON
    text of the attributes (a motion photo or none, animated, HDR);
    [json_bool]: a boolean member of such a text; [blake3]: the hash of the bytes;
    [walk_order]: the order of a directory walk. *)
Section Scan.
Context (describe : string -> list Z -> result Description) (attributes_json : option bool -> bool -> bool -> string).
Context (json_bool : string -> string -> option bool) (blake3 : list Z -> string) (file_uri : string -> string).
Context (walk_order : list string -> list string).

(** ** Describing a file *)
Definition described (uri path folder : string) (d : Description) (meta : Metadata) (hash : string) : NewMediaItem :=
  let motion := if bool_decide (de_mime d = "image/jpeg") then de_motion d else None in
  let animated := bool_decide (de_mime d = "image/gif") in
  let hdr := default false motion in
  let attributes := attributes_json motion animated hdr in
  let subkind := if bool_decide (is_Some motion) then Media.MEDIA_SUBKIND_MOTION_PHOTO else Media.MEDIA_SUBKIND_STANDARD in
  mkNewItem uri path folder (de_mime d) (de_width d) (de_height d) (de_taken_at d) (modified meta) (len meta) subkind attributes
    (Media.media_type_flags json_bool subkind attributes) (de_duration d) hash.
Definition process_file_static (fs : Fs) (path : string) (meta : Metadata) : result (option NewMediaItem) :=
  bytes ← ok_or_err (read fs path) NOT_FOUND;
  d ← describe path bytes;
  Ok (Some (described (file_uri path) path (default "/" (path_parent path)) d meta "")).
Definition process_file_at (fs : Fs) (source uri path folder : string) : result NewMediaItem :=
  bytes ← ok_or_err (read fs source) NOT_FOUND;
  d ← describe source bytes;
  meta ← ok_or_err (metadata fs source) NOT_FOUND;
  Ok (described uri path folder d meta (blake3 bytes)).
Definition new_item_from_path (fs : Fs) (path : string) : result (option NewMediaItem) :=
  match metadata fs path with
  | Some m => if bool_decide (file_type m = IsFile) then process_file_static fs path m else Ok None
  | None => Ok None
  end.

(** ** Walking *)
(** The names under a root, the excluded folders left out. *)
Definition walk (fs : Fs) (root : string) (excluded : list string) : list string :=
  if bool_decide (is_Some (names fs !! root))
  then walk_order (base.filter (fun p => starts_with p root && negb (is_excluded_path p excluded) = true) ((map_to_list (names fs)).*1))
  else [].
Inductive WorkOutcome := Item (item : NewMediaItem) | NoneMime | Error.
(** The time the index compares: nanoseconds that fit, from the epoch on. *)
Definition index_time (m : Metadata) : option Z := if (0 <=? modified m) && (modified m <=? I64_MAX) then Some (modified m) else None.
Definition unchanged (index : gmap string (Z * Z)) (path : string) (m : Metadata) : bool :=
  match index_time m with
  | Some t => bool_decide (index !! file_uri path = Some (t, as_i64_cast (len m)))
  | None => false
  end.
(** What the producer sends for a path of the walk, if anything. *)
Definition produced (fs : Fs) (index : gmap string (Z * Z)) (path : string) : option WorkOutcome :=
  match metadata fs path with
  | None => Some Error
  | Some m =>
      if negb (bool_decide (file_type m = IsFile)) then None
      else if negb (Media.is_supported_media_path path) then None
      else if unchanged index path m then None
      else match process_file_static fs path m with
           | Ok (Some item) => Some (Item item)
           | Ok None => Some NoneMime
           | Err _ => Some Error
           end
  end.
Definition item_of (w : WorkOutcome) : option NewMediaItem := match w with Item i => Some i | _ => None end.
Definition to_index (fs : Fs) (db : Db) (root : string) (excluded : list string) : list NewMediaItem :=
  omap item_of (omap (produced fs (load_unchanged_index db)) (walk fs root excluded)).
(** [scan_dir_with_exclusions]: every supported file, none skipped. *)
Definition scan_dir_with_exclusions (fs : Fs) (root : string) (excluded : list string) : list NewMediaItem :=
  omap (fun path =>
    match metadata fs path with
    | Some m => if bool_decide (file_type m = IsFile) && Media.is_supported_media_path path
                then match process_file_static fs path m with Ok item => item | Err _ => None end else None
    | None => None
    end) (walk fs root excluded).

(** ** Writing *)
(** [upsert_media_items_batch] of one batch, each item with the event a changed
    file would be recorded under. *)
Definition upsert_media_items_batch (event : NewMediaItem -> EditEvent) (items : list NewMediaItem) : Tx Db (list Z) :=
  upsert_media_items_in None ((fun i => (i, event i)) <$> items).
(** The consumer: each batch is a transaction of its own, and a batch that fails is
    reported at the end. *)
Fixpoint commit_batches (event : NewMediaItem -> EditEvent) (batches : list (list NewMediaItem)) (db : Db) : Db * Z * list AppError :=
  match batches with
  | [] => (db, 0, [])
  | batch :: rest =>
      match upsert_media_items_batch event batch db with
      | Ok (ids, db') => let '(db'', indexed, errors) := commit_batches event rest db' in (db'', Z.of_nat (length ids) + indexed, errors)
      | Err e => let '(db'', indexed, errors) := commit_batches event rest db in (db'', indexed, e :: errors)
      end
  end.
Definition scan_result (r : Db * Z * list AppError) : Db * result Z :=
  match r with (db, indexed, []) => (db, Ok indexed) | (db, _, _) => (db, Err (Backend "scan database commit failed")) end.
(** [split]: how the items fell into batches. *)
Definition scan_and_upsert_dir_with (event : NewMediaItem -> EditEvent) (split : list NewMediaItem -> list (list NewMediaItem))
    (fs : Fs) (root : string) (excluded : list string) (db : Db) : Db * result Z :=
  scan_result (commit_batches event (split (to_index fs db root excluded)) db).

(** ** Removing the rows of missing files *)
Definition scan_root_is_available (fs : Fs) (root : string) : bool := is_dir fs root.
Definition list_live_media_locations (db : Db) : list (Z * Media) :=
  base.filter (fun r : Z * Media => live_local r.1 r.2 = true) (map_to_list (db_media db)).
(** A row is missing when its folder is gone, or when the folder can be read and
    has no such file. *)
Definition is_missing (fs : Fs) (m : Media) : bool :=
  if negb (path_exists fs (m_folder m)) then true
  else if negb (is_dir fs (m_folder m)) then false
  else negb (path_exists fs (m_path m)).
Definition collect_missing_live_media_under_roots (fs : Fs) (roots excluded : list string) (db : Db) : list (Z * Media) :=
  let available := base.filter (fun r => scan_root_is_available fs r = true) roots in
  match available with
  | [] => []
  | _ => base.filter (fun r : Z * Media => is_missing fs r.2 = true)
           (base.filter (fun r : Z * Media => existsb (starts_with (m_path r.2)) available && negb (is_excluded_path (m_path r.2) excluded) = true)
             (list_live_media_locations db))
  end.
Definition prune_missing_live_media_under_roots (in_trash : Fs -> string -> bool) (fresh : Z -> Fresh) (fs : Fs) (roots excluded : list string)
    : Tx Db (list string) :=
  missing ← gets (collect_missing_live_media_under_roots fs roots excluded);
  removed ← delete_media_by_ids_returning file_uri in_trash fs PruneVerified ((fun r => (r.1, fresh r.1)) <$> missing);
  mret (omap (fun r : Z * Media => if bool_decide (r.1 ∈ removed) then Some (m_uri r.2) else None) missing).
End Scan.

(** ** The rows of an upsert *)
(** Rows have distinct URIs and known ids, and no placement is under way. *)
Record library_ok (db : Db) : Prop := {
  lo_uris : forall i j m m', db_media db !! i = Some m -> db_media db !! j = Some m' -> m_uri m = m_uri m' -> i = j;
  lo_ids : forall i m, db_media db !! i = Some m -> i < db_next_media db;
  lo_quiet : forall k p, db_publications db !! k = Some p -> p_state p <> PPublishing
}.
(** A row shows an item. *)
Record shows (item : NewMediaItem) (m : Media) : Prop := {
  sh_uri : m_uri m = n_uri item;
  sh_path : m_path m = n_path item;
  sh_live : m_trashed_at m = None;
  sh_local : m_location m <> 2;
  sh_time : m_mtime_ns m = ts_ns (n_mtime_ns item);
  sh_size : m_size m = as_i64_cast (n_size item)
}.
Lemma shows_live item m id : shows item m -> live_local id m = true.
Proof. intros [_ _ Hl Hloc _ _]. unfold live_local. rewrite bool_decide_true by done. by rewrite (proj2 (Z.eqb_neq _ _) Hloc). Qed.
Lemma indexed_shows item m : m_uri m = n_uri item -> shows item (indexed_media item m).
Proof. intros Hu. constructor; try done. cbn. destruct (m_location m =? 2) eqn:E; [lia|]. zbool. done. Qed.
Lemma new_shows item : shows item (new_media item).
Proof. by constructor. Qed.

Lemma library_ok_insert db db' id m : library_ok db -> db_media db' = <[id := m]> (db_media db) -> db_publications db' = db_publications db ->
  db_next_media db <= db_next_media db' -> id < db_next_media db' -> (forall j m', db_media db !! j = Some m' -> m_uri m' = m_uri m -> j = id) -> library_ok db'.
Proof.
  intros [Hu Hi Hq] Hm Hp Hn Hid Honly. constructor; rewrite ?Hm, ?Hp; [| |done].
  - intros i j a b. rewrite !lookup_insert_Some. intros [[<- <-]|[? Ha]] [[<- <-]|[? Hb]] E; auto; [symmetry; by eapply Honly|by eapply Honly|by eapply Hu].
  - intros i a. rewrite lookup_insert_Some. intros [[<- _]|[_ Ha%Hi]]; lia.
Qed.
Lemma upsert_one_rows event item db r db' : library_ok db -> upsert_one None event item db = Ok (r, db') ->
  library_ok db' /\ exists id m, r = Some id /\ db_media db' = <[id := m]> (db_media db) /\ shows item m /\
    (forall m0, db_media db !! id = Some m0 -> m_uri m0 = n_uri item).
Proof.
  intros Hok Hrun. unfold upsert_one in Hrun. rewrite (bind_run _ _ _ _ _ eq_refl) in Hrun.
  replace (blocked db None item) with false in Hrun.
  2: { symmetry. apply exists_where_false. intros k p Hp. rewrite bool_decide_false by (by apply (lo_quiet _ Hok k)). done. }
  cbn beta iota in Hrun. rewrite (bind_run _ _ _ _ _ eq_refl) in Hrun.
  destruct (media_by_uri db (n_uri item)) as [[id m]|] eqn:Hf.
  - apply find_row_Some in Hf as [Hm Hu%bool_decide_eq_true]. apply bind_Ok in Hrun as (id' & db1' & Hid & Hrun). apply bind_Ok in Hid as ([] & db0 & ->%modify_Ok & [-> ->]%mret_Ok).
    apply bind_Ok in Hrun as ([] & db2 & Hnote & Hret). apply mret_Ok in Hret as [-> ->].
    set (db1 := set_db_media _ _) in Hnote. assert (Hsame : same_media db1 db2).
    { destruct (content_changed None item m); [|by apply mret_Ok in Hnote as [_ ->]].
      apply bind_Ok in Hnote as (o & db3 & Hnote & Hret). apply mret_Ok in Hret as [_ ->]. by apply note_same_media in Hnote. }
    destruct Hsame as (Hsm & Hsn & Hsp & _).
    assert (Hins : db_media db2 = <[id := indexed_media item m]> (db_media db)).
    { rewrite Hsm. cbn. apply map_eq. intros k. destruct (decide (k = id)) as [->|]; [by rewrite lookup_alter_eq, lookup_insert_eq, Hm|by rewrite lookup_alter_ne, lookup_insert_ne]. }
    split; [|exists id, (indexed_media item m); split_and!; [done|done|by apply indexed_shows|intros; congruence]].
    apply (library_ok_insert db db2 id (indexed_media item m)); try done; [rewrite Hsn; cbn; lia|rewrite Hsn; by apply (lo_ids _ Hok id m)|].
    intros j m' Hj E. cbn in E. by apply (lo_uris _ Hok j id m' m).
  - apply bind_Ok in Hrun as (id' & db1' & Hid & Hrun). apply bind_Ok in Hid as (i0 & db0 & [-> ->]%gets_Ok & Hid).
    apply bind_Ok in Hid as ([] & db0 & ->%modify_Ok & [-> ->]%mret_Ok). rewrite (bind_run _ _ _ _ _ eq_refl) in Hrun. apply mret_Ok in Hrun as [-> ->].
    assert (Hnone : db_media db !! db_next_media db = None).
    { destruct (db_media db !! db_next_media db) eqn:E; [|done]. apply (lo_ids _ Hok) in E. lia. }
    assert (Hno : forall j m', db_media db !! j = Some m' -> m_uri m' <> n_uri item).
    { intros j m' Hj E. unfold media_by_uri in Hf. rewrite find_row_None in Hf. specialize (Hf j m' Hj). by apply bool_decide_eq_false in Hf. }
    split; [|exists (db_next_media db), (new_media item); split_and!; [done|done|apply new_shows|intros; congruence]].
    apply (library_ok_insert db _ (db_next_media db) (new_media item)); try done; [cbn; lia|cbn; lia|]. intros j m' Hj E. by destruct (Hno j m' Hj).
Qed.

(** What writing items leaves: a row for each, and every other row as it was. *)
Record wrote (db db' : Db) (items : list NewMediaItem) : Prop := {
  wr_ok : library_ok db';
  wr_items : forall item, item ∈ items -> exists id m, db_media db' !! id = Some m /\ shows item m;
  wr_others : forall id m, m_uri m ∉ n_uri <$> items -> db_media db' !! id = Some m <-> db_media db !! id = Some m
}.
Lemma wrote_cons db db1 db2 item items id m : db_media db1 = <[id := m]> (db_media db) -> shows item m ->
  (forall m0, db_media db !! id = Some m0 -> m_uri m0 = n_uri item) -> n_uri item ∉ n_uri <$> items -> wrote db1 db2 items -> wrote db db2 (item :: items).
Proof.
  intros Hm Hsh Hold Hnew [Hok Hit Hoth]. constructor; [done| |].
  - intros x [->|Hx]%elem_of_cons; [|by apply Hit]. exists id, m. split; [|done]. apply Hoth; [by rewrite (sh_uri _ _ Hsh)|]. by rewrite Hm, lookup_insert_eq.
  - intros j a Ha. rewrite fmap_cons in Ha. apply not_elem_of_cons in Ha as [Ha1 Ha]. rewrite Hoth by done. rewrite Hm, lookup_insert_Some.
    split; [intros [[<- <-]|[_ ?]]; [by rewrite (sh_uri _ _ Hsh) in Ha1|done]|]. intros Hj. right. split; [|done]. intros ->. by apply Ha1, Hold.
Qed.
Lemma wrote_app db db1 db2 (l1 l2 : list NewMediaItem) : NoDup (n_uri <$> (l1 ++ l2)%list) -> wrote db db1 l1 -> wrote db1 db2 l2 -> wrote db db2 (l1 ++ l2)%list.
Proof.
  rewrite fmap_app. intros (_ & Hd & _)%NoDup_app [_ Hi1 Ho1] [Hok2 Hi2 Ho2]. constructor; [done| |].
  - intros x [Hx|Hx]%elem_of_app; [|by apply Hi2]. destruct (Hi1 x Hx) as (id & m & Hm & Hs). exists id, m. split; [|done].
    apply Ho2; [|done]. rewrite (sh_uri _ _ Hs). apply Hd. by apply list_elem_of_fmap_2.
  - intros id m Hm. rewrite fmap_app in Hm. rewrite not_elem_of_app in Hm. rewrite Ho2 by tauto. apply Ho1; tauto.
Qed.
Lemma upsert_batch_rows event items db ids db' : library_ok db -> NoDup (n_uri <$> items) -> upsert_media_items_batch event items db = Ok (ids, db') ->
  wrote db db' items /\ length ids = length items.
Proof.
  unfold upsert_media_items_batch. revert db ids. induction items as [|item items IH]; intros db ids Hok Hnd; cbn [fmap list_fmap upsert_media_items_in].
  - intros [-> ->]%mret_Ok. split; [|done]. by constructor; [|intros x ?%elem_of_nil|].
  - rewrite fmap_cons in Hnd. apply NoDup_cons in Hnd as [Hnew Hnd]. intros (r & db1 & H1 & Hrun)%bind_Ok. apply bind_Ok in Hrun as (ids' & db2 & H2 & Hrun).
    apply mret_Ok in Hrun as [-> ->]. destruct (upsert_one_rows _ _ _ _ _ Hok H1) as (Hok1 & id & m & -> & Hm & Hsh & Hold).
    destruct (IH db1 ids' Hok1 Hnd H2) as [Hw Hl]. split; [by eapply wrote_cons|cbn; by rewrite Hl].
Qed.
Lemma commit_batches_rows event batches db db' n : library_ok db -> NoDup (n_uri <$> concat batches) -> commit_batches event batches db = (db', n, []) ->
  wrote db db' (concat batches) /\ n = Z.of_nat (length (concat batches)).
Proof.
  revert db n. induction batches as [|b bs IH]; intros db n Hok Hnd; cbn [commit_batches concat].
  - intros [= <- <-]. split; [|done]. by constructor; [|intros x ?%elem_of_nil|].
  - destruct (upsert_media_items_batch event b db) as [[ids db1]|e] eqn:Hb; destruct (commit_batches event bs _) as [[db2 k] errs] eqn:Hrest; [|done].
    intros [= <- <- ->]. cbn [concat] in Hnd. pose proof Hnd as Hnd'. rewrite fmap_app in Hnd'. apply NoDup_app in Hnd' as (Hn1 & _ & Hn2).
    destruct (upsert_batch_rows _ _ _ _ _ Hok Hn1 Hb) as [Hw Hl]. destruct (IH db1 k (wr_ok _ _ _ Hw) Hn2 Hrest) as [Hw2 ->].
    split; [by eapply wrote_app|]. rewrite length_app, Hl. lia.
Qed.

(** ** A scan against the disk *)
Section Disk.
Context (describe : string -> list Z -> result Description) (attributes_json : option bool -> bool -> bool -> string).
Context (json_bool : string -> string -> option bool) (file_uri : string -> string) (walk_order : list string -> list string).
Context (event : NewMediaItem -> EditEvent) (split : list NewMediaItem -> list (list NewMediaItem)).
Context (in_trash : Fs -> string -> bool) (fresh : Z -> Fresh).
Context (file_uri_inj : Inj eq eq file_uri) (walk_perm : forall l, walk_order l ≡ₚ l) (split_concat : forall l, concat (split l) = l).
Notation process := (process_file_static describe attributes_json json_bool file_uri).
Notation produced := (produced describe attributes_json json_bool file_uri).
Notation walk := (walk walk_order).
Notation to_index := (to_index describe attributes_json json_bool file_uri walk_order).
Notation scan := (scan_and_upsert_dir_with describe attributes_json json_bool file_uri walk_order event split).

(** A supported file the decoders can describe. *)
Record indexable (fs : Fs) (p : string) (meta : Metadata) : Prop := {
  ix_meta : metadata fs p = Some meta;
  ix_file : file_type meta = IsFile;
  ix_supported : Media.is_supported_media_path p = true;
  ix_read : exists item, process fs p meta = Ok item;
  ix_time : 0 <= modified meta <= I64_MAX
}.
(** The row of a live local photo is named after its path. *)
Definition rows_named (db : Db) : Prop := forall id m, db_media db !! id = Some m -> live_local id m = true -> m_uri m = file_uri (m_path m).
(** A live local row that shows the file at a path as it is. *)
Record mirrors (db : Db) (p : string) (meta : Metadata) (id : Z) (m : Media) : Prop := {
  mr_row : db_media db !! id = Some m;
  mr_live : live_local id m = true;
  mr_path : m_path m = p;
  mr_size : m_size m = as_i64_cast (len meta);
  mr_time : m_mtime_ns m = modified meta
}.

Lemma NoDup_walk fs root excluded : NoDup (walk fs root excluded).
Proof.
  unfold Scan.walk. destruct (bool_decide _); [|constructor]. rewrite walk_perm. apply NoDup_filter, NoDup_fst_map_to_list.
Qed.
Lemma process_item fs p meta item : process fs p meta = Ok (Some item) ->
  n_uri item = file_uri p /\ n_path item = p /\ n_mtime_ns item = modified meta /\ n_size item = len meta.
Proof.
  unfold process_file_static. destruct (read fs p) as [bytes|]; [|done]. cbn. destruct (describe p bytes) as [d|]; [|done]. cbn. by intros [= <-].
Qed.
Lemma produced_item fs index p item : produced fs index p = Some (Item item) -> exists meta, metadata fs p = Some meta /\
  n_uri item = file_uri p /\ n_path item = p /\ n_mtime_ns item = modified meta /\ n_size item = len meta.
Proof.
  unfold Scan.produced. destruct (metadata fs p) as [meta|]; [|done]. repeat (destruct (negb _); [done|]). destruct (unchanged _ _ _ _); [done|].
  destruct (process fs p meta) as [[i|]|] eqn:E; try done. intros [= ->]. exists meta. split; [done|]. by apply process_item in E.
Qed.
Lemma elem_of_to_index fs db root excluded item : item ∈ to_index fs db root excluded -> exists p meta, p ∈ walk fs root excluded /\
  metadata fs p = Some meta /\ n_uri item = file_uri p /\ n_path item = p /\ n_mtime_ns item = modified meta /\ n_size item = len meta.
Proof.
  unfold Scan.to_index. intros (w & Hw & Hi)%list_elem_of_omap. apply list_elem_of_omap in Hw as (p & Hp & Hprod). destruct w as [i| |]; try done.
  injection Hi as ->. apply produced_item in Hprod as (meta & Hmeta & ?). by exists p, meta.
Qed.
Lemma NoDup_to_index fs db root excluded : NoDup (n_uri <$> to_index fs db root excluded).
Proof.
  unfold Scan.to_index. pose proof (NoDup_walk fs root excluded) as Hnd. set (index := load_unchanged_index db). induction (walk fs root excluded) as [|p l IH]; [constructor|].
  apply NoDup_cons in Hnd as [Hp Hnd]. cbn [omap list_omap]. destruct (produced fs index p) as [[item| |]|] eqn:E; cbn [omap list_omap item_of]; try (by apply IH).
  rewrite fmap_cons. apply NoDup_cons. split; [|by apply IH]. apply produced_item in E as (_ & _ & Hu & _). rewrite Hu.
  intros (x & Hx & Hin)%list_elem_of_fmap. apply list_elem_of_omap in Hin as (w & Hw & Hi). apply list_elem_of_omap in Hw as (q & Hq & Hprod).
  destruct w as [i| |]; try done. injection Hi as ->. apply produced_item in Hprod as (_ & _ & Hxu & _). apply Hp. rewrite Hxu in Hx. apply file_uri_inj in Hx. by subst q.
Qed.
Lemma scan_wrote fs root excluded db db' n : library_ok db -> scan fs root excluded db = (db', Ok n) ->
  wrote db db' (to_index fs db root excluded) /\ n = Z.of_nat (length (to_index fs db root excluded)).
Proof.
  intros Hok. unfold scan_and_upsert_dir_with, scan_result. destruct (commit_batches _ _ db) as [[db1 k] [|e errs]] eqn:E; [|done]. intros [= <- <-].
  apply commit_batches_rows in E; rewrite ?split_concat in *; [done|done|apply NoDup_to_index].
Qed.
(** An index hit is a live local row with the file's time and size. *)
Lemma unchanged_row db p meta : unchanged file_uri (load_unchanged_index db) p meta = true -> exists id m, db_media db !! id = Some m /\
  live_local id m = true /\ m_uri m = file_uri p /\ m_size m = as_i64_cast (len meta) /\ m_mtime_ns m = modified meta.
Proof.
  unfold unchanged, index_time. destruct (_ && _); [|done]. intros Hi%bool_decide_eq_true. unfold load_unchanged_index in Hi.
  apply elem_of_list_to_map_2 in Hi. apply list_elem_of_fmap in Hi as ([id m] & E & Hin). apply list_elem_of_filter in Hin as [Hl Hin%elem_of_rows_by_id].
  cbn in E. injection E as Hu Ht Hs. by exists id, m.
Qed.
Lemma ts_ns_id t : 0 <= t <= I64_MAX -> ts_ns t = t.
Proof. intros [H1 H2]. unfold ts_ns. rewrite (proj2 (Z.leb_le I64_MIN t)), (proj2 (Z.leb_le t I64_MAX)); [done|lia|unfold I64_MIN; lia]. Qed.
Lemma scanned_file fs root excluded db db' p meta : rows_named db -> wrote db db' (to_index fs db root excluded) ->
  p ∈ walk fs root excluded -> indexable fs p meta -> exists id m, mirrors db' p meta id m.
Proof.
  intros Hnamed [_ Hit Hoth] Hp [Hmeta Hfile Hsup [item Hitem] Htime]. destruct (unchanged file_uri (load_unchanged_index db) p meta) eqn:Hun.
  - destruct (unchanged_row _ _ _ Hun) as (id & m & Hm & Hl & Hu & Hs & Ht). pose proof (Hnamed id m Hm Hl) as Hn. rewrite Hu in Hn. apply file_uri_inj in Hn.
    exists id, m. constructor; try done. apply Hoth; [|done]. intros (x & Hx & Hin)%list_elem_of_fmap.
    unfold Scan.to_index in Hin. apply list_elem_of_omap in Hin as (w & Hw & Hi). apply list_elem_of_omap in Hw as (q & Hq & Hprod). destruct w as [i| |]; try done.
    injection Hi as ->. pose proof Hprod as Hprod'. apply produced_item in Hprod' as (_ & _ & Hxu & _). rewrite Hu, Hxu in Hx. apply file_uri_inj in Hx. subst q.
    unfold Scan.produced in Hprod. rewrite Hmeta, Hfile, Hsup, Hun in Hprod. done.
  - assert (exists i, item = Some i) as [i ->].
    { unfold process_file_static in Hitem. destruct (read fs p); [|done]. cbn in Hitem. destruct (describe p l); [|done]. cbn in Hitem. injection Hitem as <-. by eexists. }
    destruct (Hit i) as (id & m & Hm & Hsh).
    { unfold Scan.to_index. apply list_elem_of_omap. exists (Item i). split; [|done]. apply list_elem_of_omap. exists p. split; [done|].
      unfold Scan.produced. rewrite Hmeta, Hfile, Hsup, Hun, Hitem. done. }
    destruct (process_item _ _ _ _ Hitem) as (Hu & Hpath & Ht & Hs). exists id, m. pose proof (shows_live _ _ id Hsh). destruct Hsh. constructor; try congruence.
    rewrite sh_time0, Ht. by apply ts_ns_id.
Qed.
Lemma wrote_named fs root excluded db db' : rows_named db -> wrote db db' (to_index fs db root excluded) -> rows_named db'.
Proof.
  intros Hnamed [Hok Hit Hoth] id m Hm Hl. destruct (decide (m_uri m ∈ n_uri <$> to_index fs db root excluded)) as [Hin|Hout].
  - apply list_elem_of_fmap in Hin as (item & Hu & Hin). destruct (Hit item Hin) as (id' & m' & Hm' & Hsh).
    assert (id' = id) as -> by (eapply (lo_uris _ Hok); [done|done|]; rewrite (sh_uri _ _ Hsh); done). simplify_eq.
    apply elem_of_to_index in Hin as (p & meta & _ & _ & Hiu & Hip & _). rewrite (sh_path _ _ Hsh), Hip. congruence.
  - apply Hnamed with id; [by apply Hoth|done].
Qed.

(** *** Removing rows *)
(** Only the rows of [gone] differ, and they are no live local rows any more. *)
Record removed (db db' : Db) (gone : Z -> Prop) : Prop := {
  rm_kept : forall id, ~ gone id -> db_media db' !! id = db_media db !! id;
  rm_gone : forall id m, gone id -> db_media db' !! id = Some m -> live_local id m = false
}.
Lemma remove_row_rows f id trashed db u db' : remove_or_trash_live_row_in f id trashed db = Ok (u, db') -> removed db db' (eq id).
Proof.
  unfold remove_or_trash_live_row_in. destruct trashed.
  - unfold mark_trashed. intros H. rewrite (bind_run _ _ _ _ _ (update_row_run _ _ _)) in H. apply noted_same_media in H as [Hm _]. cbn in Hm.
    constructor; rewrite Hm.
    + intros k Hk. by rewrite lookup_alter_ne.
    + intros k m <-. rewrite lookup_alter_eq. destruct (db_media db !! id); [|done]. by intros [= <-].
  - intros (outcome & db1 & H1 & H)%bind_Ok. assert (Hsame : same_media db db1).
    { revert H1. apply (respects_bind same_media); [unfold device_id_in; respect|intros; apply note_same_media].
      apply respects_modify. intros d. by destruct (_ !! _). }
    destruct Hsame as [Hm _]. rewrite (bind_run _ _ _ _ _ eq_refl) in H. destruct (_ && _).
    + apply (f_equal (fun r => match r with Ok (_, d) => Some (db_media d) | Err _ => None end)) in H. cbn in H. injection H as H. rewrite Hm in H. constructor; rewrite <- H.
      * intros k Hk. by rewrite lookup_alter_ne.
      * intros k m <-. rewrite lookup_alter_eq. destruct (db_media db !! id); [|done]. intros [= <-]. unfold live_local. cbn. by rewrite andb_false_r.
    + apply modify_Ok in H as ->. constructor; cbn [delete_media db_media set_db_media]; rewrite Hm.
      * intros k Hk. rewrite lookup_delete_where. destruct (db_media db !! k); [|done]. cbn. by rewrite (proj2 (Z.eqb_neq k id)) by congruence.
      * intros k m <-. rewrite lookup_delete_where. destruct (db_media db !! id); [|done]. cbn. by rewrite Z.eqb_refl.
Qed.
Definition live_unique (db : Db) : Prop := forall i j m m', db_media db !! i = Some m -> db_media db !! j = Some m' ->
  live_local i m = true -> live_local j m' = true -> m_uri m = m_uri m' -> i = j.
(** The rows the statement for a path can find. *)
Definition found_by (db : Db) (p : string) (id : Z) : Prop := exists m, db_media db !! id = Some m /\ live_local id m = true /\ (m_path m = p \/ m_uri m = file_uri p).
Lemma found_uri db p id : rows_named db -> found_by db p id -> exists m, db_media db !! id = Some m /\ live_local id m = true /\ m_uri m = file_uri p.
Proof. intros Hn (m & Hm & Hl & H). exists m. split_and!; [done|done|]. destruct H as [<-|?]; [by apply (Hn id)|done]. Qed.
Lemma found_once db p i j : rows_named db -> live_unique db -> found_by db p i -> found_by db p j -> i = j.
Proof.
  intros Hn Hu Hi Hj. destruct (found_uri _ _ _ Hn Hi) as (m & Hm & Hl & E), (found_uri _ _ _ Hn Hj) as (m' & Hm' & Hl' & E'). eapply Hu; eauto. congruence.
Qed.
Lemma delete_path_rows f p trashed db r db' : rows_named db -> live_unique db -> delete_live_path f p (file_uri p) trashed db = Ok (r, db') -> removed db db' (found_by db p).
Proof.
  intros Hn Hu H. unfold delete_live_path in H. rewrite (bind_run _ _ _ _ _ eq_refl) in H. destruct (live_row p (file_uri p) db) as [[id m]|] eqn:Hf.
  - unfold live_row in Hf. apply find_row_Some in Hf as [Hm [Hmatch Hl]%andb_prop].
    assert (Hid : found_by db p id). { exists m. split_and!; [done|done|]. apply orb_true_iff in Hmatch as [E|E]; apply bool_decide_eq_true in E; auto. }
    apply bind_Ok in H as (u & db1 & H & Hret). apply mret_Ok in Hret as [_ ->]. apply remove_row_rows in H as [Hk Hg]. constructor.
    + intros j Hj. apply Hk. by intros ->.
    + intros j m' Hj. by rewrite (found_once db p j id Hn Hu Hj Hid); apply Hg.
  - apply mret_Ok in H as [_ ->]. constructor; [done|]. intros j m Hj Hm. exfalso. unfold live_row in Hf. rewrite find_row_None in Hf.
    destruct Hj as (m' & Hm' & Hl & Hor). specialize (Hf j m' Hm'). rewrite Hl, andb_true_r in Hf. apply orb_false_iff in Hf as [E1 E2].
    apply bool_decide_eq_false in E1, E2. tauto.
Qed.
Lemma removed_still db db' (G : Z -> Prop) : removed db db' G ->
  forall id m, db_media db' !! id = Some m -> live_local id m = true -> db_media db !! id = Some m.
Proof. intros [Hk Hg] id m Hm Hl. rewrite <- Hk; [done|]. intros HG. by rewrite (Hg id m HG Hm) in Hl. Qed.
Lemma delete_paths_rows fs (paths : list (string * Fresh)) db uris db' : rows_named db -> live_unique db ->
  collect (fun p => delete_live_path p.2 p.1 (file_uri p.1) (in_trash fs p.1)) paths db = Ok (uris, db') ->
  removed db db' (fun id => exists p, p ∈ paths.*1 /\ found_by db p id).
Proof.
  revert db uris. induction paths as [|[p f] paths IH]; intros db uris Hn Hu; cbn [collect].
  - intros [_ ->]%mret_Ok. constructor; [done|]. by intros id m (p & ?%elem_of_nil & _).
  - intros (r & db1 & H1 & H)%bind_Ok. apply bind_Ok in H as (rs & db2 & H2 & H). apply mret_Ok in H as [_ ->]. cbn [fst snd] in H1.
    pose proof (delete_path_rows _ _ _ _ _ _ Hn Hu H1) as Hr1. pose proof Hr1 as [Hk1 Hg1].
    assert (Hback : forall id m, db_media db1 !! id = Some m -> live_local id m = true -> db_media db !! id = Some m).
    { by eapply removed_still. }
    destruct (IH db1 rs) as [Hk2 Hg2]; [intros id m Hm Hl; by apply (Hn id), Hl; apply Hback|intros i j a b Ha Hb La Lb; apply Hu; auto|done|].
    assert (Hfound : forall q id, found_by db q id -> ~ found_by db p id -> found_by db1 q id).
    { intros q id (m & Hm & Hl & Hor) Hnot. exists m. split_and!; [by rewrite Hk1|done|done]. }
    assert (Hfound' : forall q id, found_by db1 q id -> found_by db q id). { intros q id (m & Hm & Hl & Hor). exists m. split_and!; auto. }
    cbn [fmap list_fmap fst]. constructor.
    + intros id Hno. rewrite Hk2, Hk1; [done| |].
      * intros Hf. apply Hno. exists p. split; [left|done].
      * intros (q & Hq & Hf). apply Hno. exists q. split; [by right|by apply Hfound'].
    + intros id m (q & [->|Hq]%elem_of_cons & Hf) Hm.
      * destruct (live_local id m) eqn:El; [|done]. exfalso. destruct (db_media db1 !! id) as [m1|] eqn:E1.
        -- assert (Hnot1 : ~ (exists q, q ∈ paths.*1 /\ found_by db1 q id)).
           { intros (q & Hq & (a & Ha & La & _)). rewrite E1 in Ha. injection Ha as ->. by rewrite (Hg1 id a Hf E1) in La. }
           rewrite (Hk2 id Hnot1), E1 in Hm. injection Hm as ->. by rewrite (Hg1 id m Hf E1) in El.
        -- rewrite Hk2, E1 in Hm; [done|]. intros (q & Hq & (a & Ha & _)). congruence.
      * destruct (live_local id m) eqn:El; [|done]. exfalso.
        assert (Hnot1 : ~ (exists q, q ∈ paths.*1 /\ found_by db1 q id)) by (intros HG; by rewrite (Hg2 id m HG Hm) in El).
        rewrite (Hk2 id Hnot1) in Hm. apply Hnot1. exists q. split; [done|]. apply Hfound; [done|]. intros Hp. by rewrite (Hg1 id m Hp Hm) in El.
Qed.
(** The rows a prune is for. *)
Definition prunable (fs : Fs) (roots excluded : list string) (db : Db) (id : Z) (m : Media) : Prop :=
  db_media db !! id = Some m /\ live_local id m = true /\ (exists root, root ∈ roots /\ is_dir fs root = true /\ starts_with (m_path m) root = true) /\
  is_excluded_path (m_path m) excluded = false /\ is_missing fs m = true.
Lemma elem_of_missing fs roots excluded db id m : (id, m) ∈ collect_missing_live_media_under_roots fs roots excluded db <-> prunable fs roots excluded db id m.
Proof.
  unfold collect_missing_live_media_under_roots, prunable, scan_root_is_available. set (available := base.filter _ roots).
  assert (Hav : existsb (starts_with (m_path m)) available = true <-> exists root, root ∈ roots /\ is_dir fs root = true /\ starts_with (m_path m) root = true).
  { rewrite existsb_exists. split.
    - intros (root & Hin%list_elem_of_In & Hs). apply list_elem_of_filter in Hin as [? ?]. by exists root.
    - intros (root & ? & ? & Hs). exists root. split; [|done]. apply list_elem_of_In. by apply list_elem_of_filter. }
  assert (Hlist : (id, m) ∈ base.filter (fun r : Z * Media => is_missing fs r.2 = true)
      (base.filter (fun r : Z * Media => existsb (starts_with (m_path r.2)) available && negb (is_excluded_path (m_path r.2) excluded) = true) (list_live_media_locations db)) <->
    db_media db !! id = Some m /\ live_local id m = true /\ existsb (starts_with (m_path m)) available = true /\ is_excluded_path (m_path m) excluded = false /\ is_missing fs m = true).
  { unfold list_live_media_locations. rewrite !list_elem_of_filter, elem_of_map_to_list. cbn [fst snd]. rewrite andb_true_iff, negb_true_iff. tauto. }
  rewrite <- Hav. destruct available as [|a l] eqn:Ea; [|exact Hlist]. cbn [existsb]. split; [by intros ?%elem_of_nil|intros (_ & _ & ? & _); done].
Qed.
Lemma prune_rows fs roots excluded db uris db' : rows_named db -> live_unique db ->
  prune_missing_live_media_under_roots file_uri in_trash fresh fs roots excluded db = Ok (uris, db') ->
  removed db db' (fun id => exists m, prunable fs roots excluded db id m /\ symlink_metadata fs (m_path m) = None).
Proof.
  intros Hn Hu H. unfold prune_missing_live_media_under_roots in H. rewrite (bind_run _ _ _ _ _ eq_refl) in H. apply bind_Ok in H as (ids & db1 & H & Hret).
  apply mret_Ok in Hret as [_ ->]. unfold delete_media_by_ids_returning in H. rewrite (bind_run _ _ _ _ _ eq_refl) in H. set (rows := omap _ _) in H.
  apply bind_Ok in H as (gone & db2 & H & Hret). apply mret_Ok in Hret as [_ ->].
  assert (Hrows : forall p, p ∈ (base.filter (fun p : string * Fresh => vanished PruneVerified fs p.1 = true) ((fun r => (m_path r.2, r.1.2)) <$> rows)).*1 <->
    exists id m, prunable fs roots excluded db id m /\ symlink_metadata fs (m_path m) = None /\ p = m_path m).
  { intros p. rewrite list_elem_of_fmap. setoid_rewrite list_elem_of_filter. setoid_rewrite list_elem_of_fmap. unfold rows. setoid_rewrite list_elem_of_omap.
    setoid_rewrite list_elem_of_fmap. split.
    - intros (x & -> & Hv & (y & -> & (z & ([id m] & -> & Hmis%elem_of_missing) & Hz))). cbn in Hz. pose proof Hmis as (Hm & Hl & _). rewrite Hm in Hz. cbn in Hz.
      destruct (live id m); [|done]. injection Hz as <-. exists id, m. split_and!; [done| |done]. unfold vanished in Hv. cbn in Hv. by apply bool_decide_eq_true in Hv.
    - intros (id & m & Hpr & Hv & ->). pose proof Hpr as (Hm & Hl & _). exists (m_path m, fresh id). split; [done|]. split; [unfold vanished; cbn; by apply bool_decide_eq_true|].
      exists ((id, fresh id), m). split; [done|]. exists (id, fresh id). split; [exists (id, m); split; [done|by apply elem_of_missing]|]. cbn. rewrite Hm. cbn.
      replace (live id m) with true; [done|]. symmetry. unfold live_local in Hl. by apply andb_prop in Hl as [? _]. }
  apply (delete_paths_rows fs _ db gone db2 Hn Hu) in H as [Hk Hg].
  assert (Hiff : forall id, (exists p, p ∈ (base.filter (fun p : string * Fresh => vanished PruneVerified fs p.1 = true) ((fun r => (m_path r.2, r.1.2)) <$> rows)).*1 /\ found_by db p id) <->
    exists m, prunable fs roots excluded db id m /\ symlink_metadata fs (m_path m) = None).
  { intros id. split.
    - intros (p & Hp & Hf). apply Hrows in Hp as (j & m & Hpr & Hv & ->). assert (j = id) as ->; [|by exists m].
      apply (found_once db (m_path m) j id Hn Hu); [|done]. destruct Hpr as (Hm & Hl & _). exists m. auto.
    - intros (m & Hpr & Hv). exists (m_path m). split; [apply Hrows; by exists id, m|]. destruct Hpr as (Hm & Hl & _). exists m. auto. }
  constructor; [intros id Hno; apply Hk; by rewrite Hiff|intros id m HG; apply Hg; by apply Hiff].
Qed.

(** C12: After a scan and a prune the library shows the disk. When both report
    success, whatever order the walk takes and however the items fall into
    batches: every supported file under the root that the decoders can describe
    has exactly one live local row, with its path, size and time; every live local
    row under the root has a name on the disk, unless its folder is not a
    readable directory; a row under no scanned file's name and not under the root
    is untouched, so is every row of the root when the root is not available; and
    the scan reports the number of files it had to write. *)
Theorem scan_mirrors_disk fs root excluded db db1 n uris db2 :
  library_ok db -> rows_named db ->
  scan fs root excluded db = (db1, Ok n) ->
  prune_missing_live_media_under_roots file_uri in_trash fresh fs [root] excluded db1 = Ok (uris, db2) ->
  (forall p meta, p ∈ walk fs root excluded -> indexable fs p meta ->
     exists id m, mirrors db2 p meta id m /\ forall j m', db_media db2 !! j = Some m' -> live_local j m' = true -> m_path m' = p -> j = id) /\
  (forall id m, db_media db2 !! id = Some m -> live_local id m = true -> is_dir fs root = true -> starts_with (m_path m) root = true ->
     is_excluded_path (m_path m) excluded = false -> names fs !! m_path m = None -> path_exists fs (m_folder m) = true /\ is_dir fs (m_folder m) = false) /\
  (forall id m, db_media db !! id = Some m -> (forall p, p ∈ walk fs root excluded -> m_uri m <> file_uri p) ->
     (starts_with (m_path m) root = false \/ is_dir fs root = false) -> db_media db2 !! id = Some m) /\
  n = Z.of_nat (length (to_index fs db root excluded)).
Proof.
  intros Hok Hn Hscan Hprune. destruct (scan_wrote _ _ _ _ _ _ Hok Hscan) as [Hw Hcount]. pose proof (wrote_named _ _ _ _ _ Hn Hw) as Hn1. pose proof (wr_ok _ _ _ Hw) as Hok1.
  assert (Hu1 : live_unique db1) by (intros i j a b Ha Hb _ _; by apply (lo_uris _ Hok1)).
  pose proof (prune_rows _ _ _ _ _ _ Hn1 Hu1 Hprune) as Hrem. pose proof Hrem as [Hk Hg]. pose proof (removed_still _ _ _ Hrem) as Hback. split_and!; [| | |done].
  - intros p meta Hp Hix. destruct (scanned_file _ _ _ _ _ _ _ Hn Hw Hp Hix) as (id & m & [Hm Hl Hpath Hs Ht]). exists id, m. split.
    + constructor; try done. rewrite Hk; [done|]. intros (m' & (Hm' & _) & Hv). assert (m' = m) as -> by congruence. rewrite Hpath in Hv. pose proof (ix_meta _ _ _ Hix) as Hmeta.
      unfold symlink_metadata in Hv. destruct (names fs !! p) as [[i| |]|] eqn:En; cbn in Hv; try done.
      * unfold metadata in Hmeta. rewrite resolve_plain in Hmeta by (intros; congruence). cbn in Hmeta. unfold symlink_metadata in Hmeta. rewrite En in Hmeta. cbn in Hmeta. destruct (inodes fs !! i); done.
      * by rewrite metadata_absent in Hmeta.
    + intros j m' Hj Hlj Hpj. apply (Hu1 j id m' m); auto. rewrite (Hn1 j m'), (Hn1 id m); auto. congruence.
  - intros id m Hm Hl Hroot Hst Hex Hnone. pose proof (Hback id m Hm Hl) as Hm1. destruct (is_missing fs m) eqn:Emis.
    + exfalso. assert (HG : exists m, prunable fs [root] excluded db1 id m /\ symlink_metadata fs (m_path m) = None).
      { exists m. split; [|unfold symlink_metadata; by rewrite Hnone]. split_and!; try done. exists root. split; [by left|done]. }
      by rewrite (Hg id m HG Hm) in Hl.
    + unfold is_missing in Emis. destruct (path_exists fs (m_folder m)); [|done]. cbn in Emis. destruct (is_dir fs (m_folder m)); [|done].
      cbn in Emis. by rewrite path_exists_absent in Emis.
  - intros id m Hm Hno Hout. assert (Hm1 : db_media db1 !! id = Some m).
    { apply (wr_others _ _ _ Hw); [|done]. intros (item & Hu & Hin)%list_elem_of_fmap. apply elem_of_to_index in Hin as (p & meta & Hp & _ & Hiu & _). apply (Hno p Hp). congruence. }
    rewrite Hk; [done|]. intros (m' & (Hm' & _ & (r & Hr & Hdir & Hst) & _) & _). apply list_elem_of_singleton in Hr as ->. simplify_eq. destruct Hout; congruence.
Qed.
End Disk.

(** ** Witness: a known photo, a new one and one that is gone *)
Module Sample.
Definition row (name : string) : Media :=
  mkMedia ("file:///photos/" +:+ name) ("/photos/" +:+ name) "/photos" false None None 1 false 5 "image/jpeg" None None 3 0 "image" "standard" "{}" 0 None "" None.
Definition db : Db := set_db_next_media 3 (set_db_media {[1 := row "a.jpg"; 2 := row "gone.jpg"]} SyncDb.Sample.empty_db).
Definition fs : Fs := mkFs {["/photos" := NDir 0 0; "/photos/a.jpg" := NFile 1; "/photos/b.jpg" := NFile 2]}
  {[1 := mkFile [1; 2; 3] 5; 2 := mkFile [4; 5] 7]} 3.
Definition describe (_ : string) (_ : list Z) : result Description := Ok (mkDescription "image/jpeg" (Some 4) (Some 3) None None None).
Definition json (_ : option bool) (_ _ : bool) : string := "{}".
Definition event (_ : NewMediaItem) : EditEvent := mkEvent 9 "device-1" "e9".
Definition split (l : list NewMediaItem) : list (list NewMediaItem) := (fun i => [i]) <$> l.
Definition scanned : Db * result Z := scan_and_upsert_dir_with describe json (fun _ _ => None) sample_uri (fun l => l) event split fs "/photos" [] db.
Definition pruned : result (list string * Db) :=
  prune_missing_live_media_under_roots sample_uri (fun _ _ => false) (fun _ => sample_fresh) fs ["/photos"] [] scanned.1.
Definition meta : Metadata := mkMetadata IsFile 2 2 7.
End Sample.
#[export] Instance sample_uri_inj : Inj eq eq sample_uri.
Proof. intros a b H. apply (inj (String.append "file://")). exact H. Qed.
Lemma sample_rows id m : db_media Sample.db !! id = Some m -> (id = 1 /\ m = Sample.row "a.jpg") \/ (id = 2 /\ m = Sample.row "gone.jpg").
Proof.
  cbn [Sample.db db_media set_db_next_media set_db_media]. rewrite lookup_insert_Some. intros [[<- <-]|[_ H]]; [by left|].
  apply lookup_singleton_Some in H as [<- <-]. by right.
Qed.
Lemma sample_library_ok : library_ok Sample.db.
Proof.
  constructor.
  - intros i j a b [[-> ->]|[-> ->]]%sample_rows [[-> ->]|[-> ->]]%sample_rows; done.
  - intros i a [[-> _]|[-> _]]%sample_rows; done.
  - intros k p Hk. assert (E : db_publications Sample.db = ∅) by reflexivity. by rewrite E, lookup_empty in Hk.
Qed.
Lemma scan_mirrors_disk_witness : exists uris db2, Sample.pruned = Ok (uris, db2) /\ uris = ["file:///photos/gone.jpg"] /\
  exists id m, mirrors db2 "/photos/b.jpg" Sample.meta id m.
Proof.
  assert (Hscan : Sample.scanned = (Sample.scanned.1, Ok 1)) by (vm_compute; reflexivity).
  destruct Sample.pruned as [[uris db2]|e] eqn:Hprune; [|exfalso; revert Hprune; vm_compute; discriminate].
  exists uris, db2. split; [reflexivity|]. split.
  { assert (Hu : match Sample.pruned with Ok r => r.1 | Err _ => [] end = ["file:///photos/gone.jpg"]) by (vm_compute; reflexivity).
    rewrite Hprune in Hu. exact Hu. }
  assert (Hnamed : rows_named sample_uri Sample.db) by (intros i m [[-> ->]|[-> ->]]%sample_rows _; reflexivity).
  assert (Hsplit : forall l, concat (Sample.split l) = l) by (intros l; induction l as [|x l IH]; [reflexivity|exact (f_equal (cons x) IH)]).
  destruct (scan_mirrors_disk Sample.describe Sample.json (fun _ _ => None) sample_uri (fun l => l) Sample.event Sample.split (fun _ _ => false) (fun _ => sample_fresh)
    sample_uri_inj (fun l => Permutation_refl l) Hsplit Sample.fs "/photos" [] Sample.db _ _ _ _ sample_library_ok Hnamed Hscan Hprune) as (Hfile & _).
  destruct (Hfile "/photos/b.jpg" Sample.meta) as (id & m & Hm & _); [| |by exists id, m].
  - apply (bool_decide_unpack ("/photos/b.jpg" ∈ walk (fun l => l) Sample.fs "/photos" [])). vm_compute. exact I.
  - constructor; [vm_compute; reflexivity|reflexivity|vm_compute; reflexivity|by eexists; vm_compute; reflexivity|vm_compute; split; discriminate].
Defined.
End Scan.
