(* ===== verification/SyncTransfer.v ===== *)
(** Placing downloaded photos in the library and recovering an interrupted
    placement ([sync/service/transfer.rs] and [recover_collision] of
    [sync/service/receive/collisions.rs]).

    [publish_pair] copies the verified original beside its destination, records
    in the database how to undo the placement, swaps the file in keeping the
    previous one under a second name, and commits the photo; only then the
    previous file goes. [recover_publications] runs before every transfer and
    ends whatever was interrupted. *)
From Stdlib Require Import Ascii String.
From S2P Require Import Prelude.
From S2P Require Import Json.
From S2P Require Import Media.
From S2P Require Import Content.
From S2P Require Import SyncDb.
From S2P Require Import NativeRecords.
From S2P Require Import SyncPublication.
From S2P Require Import SyncRecovery.
From S2P Require Import SyncRuntime.
From S2P Require Import SyncReceive.
From S2P Require Import SyncProjection.
From S2P Require Import SyncPlacement.
From S2P Require Import Files.
Import Json.
Local Open Scope Z_scope.
Local Open Scope json_scope.

Module Transfer.
Import Receive Placement Files.

Definition error (message : string) : AppError := Backend message.

(** ** Paths and stamps *)
Definition is_symlink (fs : Fs) (p : string) : bool := bool_decide (file_type <$> symlink_metadata fs p = Some IsLink).
Fixpoint descend (fs : Fs) (path : string) (parts : list Component) : result string :=
  match parts with
  | [] => Ok path
  | Normal part :: rest =>
      let path := path_join path part in
      if is_symlink fs path then Err (error "photo path crosses a symlink") else descend fs path rest
  | _ => Err (error "photo path escapes its root")
  end.
Definition unsafe_char (c : ascii) : bool := Ascii.eqb c "\" || Ascii.eqb c zero.
Definition safe_destination (fs : Fs) (root relative : string) : result string :=
  if bool_decide (relative = ""%string) || existsb unsafe_char (String.list_ascii_of_string relative)
  then Err (error "unsafe relative photo path")
  else match symlink_metadata fs root with
       | None => Err NOT_FOUND
       | Some m => if bool_decide (file_type m = IsLink) then Err (error "publication root is a symlink")
                   else descend fs root (path_components relative)
       end.
(** [stamp]: times before the epoch read as zero. *)
Definition stamp (m : option Metadata) : option (Z * Z) := (fun m => (len m, Z.max (modified m) 0)) <$> m.
Definition stamp_value (s : option (Z * Z)) : Value :=
  match s with Some (l, t) => Arr [Int l; Int t] | None => Null end.
Definition str_value (o : option string) : Value := match o with Some s => Str s | None => Null end.

(** What [metadata::extract] reads from a media file. *)
Record Extracted := mkExtracted { x_mime : string; x_width : option Z; x_height : option Z; x_taken_at : option Z }.

Section Service.
Context (sha256 : list Z -> list Z).
Context (file_uri : string -> string).
(** [metadata::extract] of a name and its bytes, and whether the thumbnail cache
    accepts the thumbnail of a file with a uri and a modification time. *)
Context (extract : string -> list Z -> result Extracted) (import_thumbnails : string -> Z -> list Z -> bool).
(** The [file_mtime] column of a media row, and the seconds and milliseconds a
    calendar date can hold. *)
Context (timestamp_ok millis_ok : Z -> bool).
(** The device of the library. *)
Context (dev : Z).

(** ** Digests *)
Definition digest_file (fs : Fs) (path : string) : result Content.ContentDigest :=
  if is_file fs path then
    bytes ← ok_or_err (read fs path) NOT_FOUND;
    Ok (Content.digest_of sha256 bytes)
  else Err (error ("cannot digest a path that is not a readable file: " +:+ path)).
Definition verify_file (fs : Fs) (path : string) (size : Z) (hex : string) : result unit :=
  match symlink_metadata fs path with
  | None => Err NOT_FOUND
  | Some m =>
      if bool_decide (file_type m = IsLink) then Err (error "resource staging is a symlink")
      else
        actual ← digest_file fs path;
        if negb (Content.digest_size actual =? size) then Err (error "staged resource size mismatch")
        else if negb (bool_decide (Content.hex actual = hex)) then Err (error "staged resource checksum mismatch")
        else Ok tt
  end.
Definition verify_descriptor (fs : Fs) (path : string) (d : AssetDescriptor) : result unit :=
  hex ← ok_or_err (Content.hex_from_descriptor_base64 (file_checksum d)) (error "invalid resource checksum");
  verify_file fs path (a_size d) hex.
Definition is_ok {A} (r : result A) : bool := match r with Ok _ => true | Err _ => false end.
Definition matches_published (fs : Fs) (path : string) (details : Value) : result bool :=
  size ← ok_or_err (as_u64 details.["size"]) (error "missing recovery size");
  hex ← ok_or_err (as_str details.["sha256"]) (error "missing recovery digest");
  Ok (is_ok (verify_file fs path size hex)).

(** ** Placement *)
(** A renamed photo leaves its previous file behind; it goes when it is still
    the file that was there before. *)
Definition cleanup_renamed_source (details : Value) : IO unit :=
  match as_str details.["oldPath"] with
  | None => mret tt
  | Some old =>
      target ← some (as_str details.["target"]) (error "publication target is missing");
      if bool_decide (old = target) then mret tt
      else
        root ← some (as_str details.["root"]) (error "publication root is missing");
        relative ← some (relative_to root old) (error "renamed source escaped its job root");
        dest ← look (fun st => safe_destination (st_fs st) root relative);
        _ ← checked dest;
        present ← look (fun st => symlink_metadata (st_fs st) old);
        match present with
        | None => mret tt
        | Some m =>
            _ ← require (bool_decide (stamp_value (stamp (Some m)) = details.["oldLocalStamp"]))
                  (error "previous path was edited during remote rename; file retained");
            _ ← file_op (remove_file old);
            match path_parent old with Some parent => sync_dir parent | None => mret tt end
        end
  end.

(** The row of a photo's entry, with its media row. *)
Definition placement_row (job : Z) (photo : string) (db : Db) : result (bool * option (Z * Media)) :=
  ke ← ok_or_err (find_row (fun _ e => (e_job e =? job) && bool_decide (r_photo (e_remote e) = Some photo)) (db_entries db)) NoRows;
  Ok (bool_decide (is_Some (e_baseline ke.2)), (m ← e_media ke.2; r ← db_media db !! m; Some (m, r))).
(** The modification time a row remembers. *)
Definition expected_mtime (row : option (Z * Media)) : result (option Z) :=
  match row with
  | None => Ok None
  | Some (_, m) =>
      if negb (m_mtime_ns m =? 0) then Ok (Some (m_mtime_ns m))
      else if timestamp_ok (m_mtime m) then Ok (Some (m_mtime m * NANOS))
      else Err (error "invalid stored original modification time")
  end.
(** [media_item]. *)
Definition media_item (fs : Fs) (photo : RemotePhoto) (target source : string) : result NewMediaItem :=
  bytes ← ok_or_err (read fs source) NOT_FOUND;
  x ← extract source bytes;
  m ← ok_or_err (metadata fs source) NOT_FOUND;
  let dated := (ms ← asset_date_ms photo; if millis_ok ms then Some (seconds ms) else None) in
  Ok (mkNewItem (file_uri target) target (default "/"%string (path_parent target)) (x_mime x) (x_width x) (x_height x)
        (match dated with Some d => Some d | None => x_taken_at x end) (modified m) (a_size (original photo))
        Media.MEDIA_SUBKIND_STANDARD "{}" 0 None "").
Definition set_n_taken_at (t : option Z) (i : NewMediaItem) : NewMediaItem :=
  mkNewItem (n_uri i) (n_path i) (n_folder i) (n_mime i) (n_width i) (n_height i) t (n_mtime_ns i) (n_size i)
    (n_subkind i) (n_attributes i) (n_flags i) (n_duration i) (n_hash i).
Definition captured_item (capture : Value) (item : NewMediaItem) : NewMediaItem :=
  if preserves capture
  then set_n_taken_at (s ← as_i64 capture.["takenAt"]; if timestamp_ok s then Some s else None) item else item.
Definition publication_relative (capture : Value) (photo : RemotePhoto) : result string :=
  if preserves capture then ok_or_err (as_str capture.["localRelativePath"]) (error "missing local metadata path")
  else Ok (relative_path photo).

Definition next_name (uuid : string) (target : string) : string :=
  (".photoviewer-sync-" +:+ uuid +:+ ".new." +:+ default "bin" (Media.extension target))%string.
Definition backup_name (uuid : string) : string := (".photoviewer-sync-" +:+ uuid +:+ ".old")%string.
Definition placement_details (target next backup root : string) (old : option Metadata) (old_path : option string)
    (old_local : option Metadata) (photo : RemotePhoto) : Value :=
  obj [("target", Str target); ("new", Str next); ("backup", Str backup); ("root", Str root);
       ("hadOld", Bool (bool_decide (is_Some old))); ("oldStamp", stamp_value (stamp old)); ("oldPath", str_value old_path);
       ("oldLocalStamp", stamp_value (stamp old_local)); ("sha256", Str (thumbnail_source_sha256 photo));
       ("size", Int (a_size (original photo)))]%string.

(** [publication_io::write]: waits for the readers of the library. *)
Definition write_lock : IO unit := op (fun st => Ok (tt, st)).

(** Admission, and the way back when it is refused. *)
Definition admit_or_restore (id : string) (photo : RemotePhoto) (item : NewMediaItem) (event : EditEvent) (target backup parent : string)
    (had_old : bool) (details : Value) : IO unit :=
  admitted ← attempt (command (admit_publication id photo item event));
  match admitted with
  | Ok _ => mret tt
  | Err failure =>
      mine ← look (fun st => matches_published (st_fs st) target details);
      mine ← checked mine;
      _ ← require mine (error "local file changed before rollback; previous complete backup retained");
      kept ← look (fun st => is_file (st_fs st) backup);
      _ ← (if (kept : bool) then file_op (rename backup target)
           else if negb had_old then file_op (remove_file target) else mret tt);
      _ ← sync_dir parent;
      fail failure
  end.
(** The swap of the file and the commit, from the recorded intent on. *)
Definition place (id : string) (photo : RemotePhoto) (item : NewMediaItem) (event : EditEvent)
    (target next backup parent : string) (old : option Metadata) (details : Value) : IO unit :=
  _ ← command (publishing id details);
  _ ← write_lock;
  present ← look (fun st => symlink_metadata (st_fs st) target);
  _ ← require (bool_decide (stamp old = stamp present)) (error "local file changed during publication preparation");
  _ ← (if bool_decide (is_Some old) then _ ← file_op (hard_link target backup); sync_dir parent else mret tt);
  _ ← file_op (rename next target);
  _ ← sync_dir parent;
  _ ← admit_or_restore id photo item event target backup parent (bool_decide (is_Some old)) details;
  kept ← look (fun st => path_exists (st_fs st) backup);
  _ ← (if (kept : bool) then _ ← file_op (remove_file backup); sync_dir parent else mret tt);
  _ ← cleanup_renamed_source details;
  command (clean_publication id).

(** The rest of [publish_pair] once the copy is in place: who owns the target,
    the time and the row of the new file, and the placement. *)
Definition publish_copied (event : EditEvent) (photo : RemotePhoto) (root thumbnail_path : string) (job : Z) (id : string)
    (capture : Value) (target next backup parent : string) : IO unit :=
  old ← look (fun st => symlink_metadata (st_fs st) target);
  if bool_decide (is_Some old) && negb (bool_decide (file_type <$> old = Some IsFile))
  then _ ← attempt (file_op (remove_file next)); fail (error "publication target is not an owned regular file")
  else
  row ← query (placement_row job (photo_id photo));
  expected ← checked (expected_mtime row.2);
  _ ← match expected with Some t => file_op (set_modified next t) | None => mret tt end;
  _ ← sync_file next;
  let old_path := (fun r => m_path r.2) <$> row.2 in
  if bool_decide (is_Some old) && (negb row.1 || negb (bool_decide (old_path = Some target)))
  then _ ← attempt (file_op (remove_file next)); fail (error "an unowned local file occupies the remote path")
  else
  placed ← look (fun st => metadata (st_fs st) next);
  placed ← some placed NOT_FOUND;
  thumbnail_bytes ← look (fun st => read (st_fs st) thumbnail_path);
  thumbnail_bytes ← some thumbnail_bytes NOT_FOUND;
  _ ← require (import_thumbnails (file_uri target) (modified placed) thumbnail_bytes) (error "thumbnail cache preparation failed");
  item ← look (fun st => media_item (st_fs st) photo target next);
  item ← checked item;
  old_local ← look (fun st => p ← old_path; metadata (st_fs st) p);
  place id photo (captured_item capture item) event target next backup parent old
    (placement_details target next backup root old old_path old_local photo).
(** [publish_pair]. *)
Definition publish_pair (now : Z) (uuid_new uuid_old : string) (event : EditEvent) (photo : RemotePhoto)
    (root original_path thumbnail_path : string) (job : Z) (id : string) : IO unit :=
  _ ← require (negb (is_hidden photo)) (error "hidden media requires explicit conflict resolution");
  verified ← look (fun st => verify_descriptor (st_fs st) original_path (original photo));
  _ ← checked verified;
  verified ← look (fun st => verify_descriptor (st_fs st) thumbnail_path (thumbnail photo));
  _ ← checked verified;
  doc ← query (fun db => Ok (Recovery.capture db id));
  doc ← some doc MISSING_CAPTURE;
  let capture := Recovery.cap_scalars doc in
  relative ← checked (publication_relative capture photo);
  target ← look (fun st => safe_destination (st_fs st) root relative);
  target ← checked target;
  parent ← some (path_parent target) (error "publication has no parent");
  _ ← create_dir_all parent;
  let next := path_join parent (next_name uuid_new target) in
  let backup := path_join parent (backup_name uuid_old) in
  _ ← copy now original_path next;
  publish_copied event photo root thumbnail_path job id capture target next backup parent.

(** ** Recovery *)
(** The stamp of a collision: identity, length and time of a regular file. *)
Definition collision_stamp (fs : Fs) (path : string) : result Value :=
  m ← ok_or_err (symlink_metadata fs path) NOT_FOUND;
  if bool_decide (file_type m = IsFile)
  then Ok (Arr [Int dev; Int (ino m); Int (len m); Int (modified m / 1000000000); Int (modified m mod 1000000000)])
  else Err (error "a receive collision is not a regular file").
Definition owned_path (root path : string) : IO unit :=
  relative ← some (relative_to root path) (error "collision recovery escaped the root");
  dest ← look (fun st => safe_destination (st_fs st) root relative);
  dest ← checked dest;
  require (bool_decide (dest = path)) (error "collision recovery path mismatch").
Definition unchanged_since (path : string) (details : Value) (e : AppError) : IO unit :=
  s ← look (fun st => collision_stamp (st_fs st) path);
  s ← checked s;
  require (bool_decide (s = details.["stamp"])) e.
(** [recover_collision]: the original gets its name back. *)
Definition recover_collision (id : string) (details : Value) : IO unit :=
  source ← some (as_str details.["source"]) (error "collision recovery has no source");
  preserved ← some (as_str details.["preserved"]) (error "collision recovery has no preserved path");
  root ← some (as_str details.["root"]) (error "collision recovery has no root");
  _ ← owned_path root source;
  _ ← owned_path root preserved;
  _ ← require (bool_decide (path_parent source = path_parent preserved)) (error "collision recovery changed albums");
  moved ← look (fun st => bool_decide (is_Some (symlink_metadata (st_fs st) preserved)));
  _ ← (if (moved : bool) then
         _ ← unchanged_since preserved details (error "preserved collision changed after interruption");
         both ← look (fun st => bool_decide (is_Some (symlink_metadata (st_fs st) source)));
         _ ← (if (both : bool) then unchanged_since source details (error "collision source changed after interruption")
              else file_op (hard_link preserved source));
         file_op (remove_file preserved)
       else mret tt);
  parent ← some (path_parent source) (error "collision recovery has no parent");
  _ ← sync_dir parent;
  command (abort_collision id).

Definition remove_if (present : Fs -> string -> bool) (path : string) : IO unit :=
  there ← look (fun st => present (st_fs st) path);
  if (there : bool) then file_op (remove_file path) else mret tt.
(** A committed placement is finished. *)
Definition recover_complete (id target next backup : string) (details : Value) : IO unit :=
  _ ← cleanup_renamed_source details;
  _ ← remove_if is_file backup;
  _ ← remove_if is_file next;
  command (clean_publication id).
(** An uncommitted placement is undone, unless the file there is neither the
    previous one nor the one being placed. *)
Definition undo_swap (target backup : string) (details : Value) : IO unit :=
  kept ← look (fun st => is_file (st_fs st) backup);
  if (kept : bool) then
    unchanged ← look (fun st => bool_decide (stamp_value (stamp (metadata (st_fs st) target)) = details.["oldStamp"]));
    there ← look (fun st => is_file (st_fs st) target);
    _ ← (if there && negb unchanged then
           mine ← look (fun st => matches_published (st_fs st) target details);
           mine ← checked mine;
           require mine (error "interrupted publication has a newer local edit; backup retained")
         else mret tt);
    file_op (rename backup target)
  else
    there ← look (fun st => path_exists (st_fs st) target);
    if bool_decide (details.["hadOld"] = Bool false) && there then
      mine ← look (fun st => matches_published (st_fs st) target details);
      mine ← checked mine;
      _ ← require mine (error "unowned file at interrupted publication target");
      file_op (remove_file target)
    else mret tt.
Definition recover_publishing (id target next backup : string) (details : Value) : IO unit :=
  _ ← undo_swap target backup details;
  _ ← remove_if path_exists next;
  parent ← some (path_parent target) (error "publication recovery has no parent");
  _ ← sync_dir parent;
  command (rollback id).

Definition path_value (details : Value) (field : string) : IO string :=
  some (as_str details.[field]) (error "publication recovery path is missing").
Definition recover_row (row : string * PubState) : IO unit :=
  doc ← query (fun db => r ← Recovery.details db row.1 db; Ok r.1);
  details ← some doc (error "missing publication recovery details");
  if bool_decide (details.["collision"] = Bool true) then recover_collision row.1 details
  else
    target ← path_value details "target";
    backup ← path_value details "backup";
    next ← path_value details "new";
    root ← path_value details "root";
    relative ← some (relative_to root target) (error "publication recovery escaped its root");
    dest ← look (fun st => safe_destination (st_fs st) root relative);
    dest ← checked dest;
    _ ← require (bool_decide (dest = target) && bool_decide (path_parent backup = path_parent target)
                 && bool_decide (path_parent next = path_parent target)) (error "publication recovery path ownership mismatch");
    if bool_decide (row.2 = PComplete) then recover_complete row.1 target next backup details
    else recover_publishing row.1 target next backup details.
Fixpoint io_each {A} (l : list A) (f : A -> IO unit) : IO unit :=
  match l with [] => mret tt | x :: rest => _ ← f x; io_each rest f end.
(** Publications of a job whose files were being placed. *)
Definition interrupted (job : Z) (db : Db) : list (string * PubState) :=
  omap (fun kp : Z * Publication => if (p_job kp.2 =? job) && bool_decide (is_Some (p_details kp.2))
                    && (bool_decide (p_state kp.2 = PPublishing) || bool_decide (p_state kp.2 = PComplete))
                 then Some (p_id kp.2, p_state kp.2) else None) (rows_by_id (db_publications db)).
(** [recover_publications]. *)
Definition recover_publications (job : Z) : IO unit :=
  rows ← query (fun db => Ok (interrupted job db));
  _ ← write_lock;
  io_each rows recover_row.
End Service.
End Transfer.
