(* ===== verification/PublicationSafety.v ===== *)
(** A placement is atomic: whatever interrupts [publish_pair] or a later
    recovery, the next undisturbed recovery leaves the library and the database
    either as they were or with the whole photo published.

    The proof follows the phases of a placement ([phase]): nothing recorded, the
    intent recorded, the file swapped, the photo committed, everything cleaned.
    Every state in which a run can stop belongs to one of them, and recovery
    takes each to an end. *)
From Stdlib Require Import Ascii String.
From S2P Require Import Prelude.
From S2P Require Import Json.
From S2P Require Import Media.
From S2P Require Import Content.
From S2P Require Import SyncDb.
From S2P Require Import NativeRecords.
From S2P Require Import SyncPublication.
From S2P Require Import SyncRecovery.
From S2P Require Import SyncRuntime.
From S2P Require Import SyncReceive.
From S2P Require Import SyncProjection.
From S2P Require Import SyncPlacement.
From S2P Require Import Files.
From S2P Require Import SyncTransfer.
Import Json.
Local Open Scope Z_scope.
Local Open Scope json_scope.

Module Safety.
Import Receive Projection Placement Files Transfer.

(** ** Safe paths *)
Notation plains := (Forall (fun s => plain_name s = true)).
Lemma safe_relative rel : Records.is_safe_relative_path rel = true ->
  exists cs, cs <> [] /\ plains cs /\ ".."%string ∉ cs /\ Runtime.join_slash cs = rel.
Proof.
  unfold Records.is_safe_relative_path. destruct (_ || _); [done|]. intros Hall. exists (Media.split_slash rel).
  split; [apply split_slash_ne|]. rewrite join_split. pose proof (split_slash_plain_chars rel) as Hch.
  rewrite forallb_forall in Hall. rewrite Forall_forall in Hch.
  assert (Hseg : forall s, s ∈ Media.split_slash rel -> plain_name s = true /\ s <> ".."%string).
  { intros s Hs. specialize (Hch s Hs). specialize (Hall s (proj1 (list_elem_of_In _ _) Hs)).
    unfold Records.is_safe_segment in Hall. zbool. unfold plain_name, Runtime.skippable. rewrite Hch.
    repeat match goal with H : bool_decide _ = false |- _ => try rewrite H; apply bool_decide_eq_false in H end. done. }
  split_and!; [|by intros [_ ?]%Hseg|done]. apply Forall_forall. intros s Hs. by apply Hseg.
Qed.

(** [safe_destination] of a safe path joins it to the root. *)
Lemma descend_abs fs l cs d : l <> [] -> plains l -> plains cs -> descend fs (abs l) (Normal <$> cs) = Ok d -> d = abs (l ++ cs).
Proof.
  intros Hl Pl Pc. revert l Hl Pl. induction Pc as [|c cs Hc Pc IH]; intros l Hl Pl; cbn.
  { intros [= <-]. by rewrite app_nil_r. }
  rewrite path_join_abs by done. destruct (is_symlink _ _); [done|]. intros Hd.
  rewrite (cons_middle c l cs), app_assoc. apply IH; [by destruct l|by apply Forall_app; repeat constructor|done].
Qed.
Definition no_new_links (fs fs' : Fs) : Prop :=
  forall p to l m, names fs' !! p = Some (NLink to l m) -> names fs !! p = Some (NLink to l m).
Lemma is_symlink_spec fs p : is_symlink fs p = true <-> exists to l m, names fs !! p = Some (NLink to l m).
Proof.
  unfold is_symlink, symlink_metadata. rewrite bool_decide_eq_true. split.
  - destruct (names fs !! p) as [[i|to l m|l m]|] eqn:E; cbn; try done; [|by eauto]. by destruct (inodes fs !! i).
  - by intros (to & l & m & ->).
Qed.
Lemma descend_mono fs fs' path parts d : no_new_links fs fs' -> descend fs path parts = Ok d -> descend fs' path parts = Ok d.
Proof.
  intros Hn. revert path. induction parts as [|[| | |c] parts IH]; intros path; cbn; try done.
  destruct (is_symlink fs (path_join path c)) eqn:E; [done|]. destruct (is_symlink fs' (path_join path c)) eqn:E'; [|apply IH].
  apply is_symlink_spec in E' as (to & l & m & H%Hn). assert (is_symlink fs (path_join path c) = true) by (apply is_symlink_spec; eauto).
  congruence.
Qed.
Lemma safe_destination_mono fs fs' root rel d :
  no_new_links fs fs' -> symlink_metadata fs' root = symlink_metadata fs root ->
  safe_destination fs root rel = Ok d -> safe_destination fs' root rel = Ok d.
Proof.
  intros Hn Hr. unfold safe_destination. destruct (_ || _); [done|]. rewrite Hr. destruct (symlink_metadata fs root); [|done].
  case_bool_decide; [done|]. by apply descend_mono.
Qed.
Lemma safe_destination_abs fs rc cs d : rc <> [] -> plains rc -> cs <> [] -> plains cs -> ".."%string ∉ cs ->
  safe_destination fs (abs rc) (Runtime.join_slash cs) = Ok d -> d = abs (rc ++ cs).
Proof.
  intros Hr Pr Hc Pc Hup. unfold safe_destination. destruct (_ || _); [done|]. destruct (symlink_metadata fs (abs rc)); [|done].
  case_bool_decide; [done|]. rewrite path_components_plain by done. by apply descend_abs.
Qed.

(** ** What the database remembers of a placement *)
(** A document with the members of [placement_details]. *)
Record describes (d : Value) (target next backup root : string) (old : option Metadata) (old_path : option string)
    (old_local : option Metadata) (photo : RemotePhoto) : Prop := {
  d_collision : d.["collision"] = Null;
  d_target : d.["target"] = Str target;
  d_new : d.["new"] = Str next;
  d_backup : d.["backup"] = Str backup;
  d_root : d.["root"] = Str root;
  d_had_old : d.["hadOld"] = Bool (bool_decide (is_Some old));
  d_old_stamp : d.["oldStamp"] = stamp_value (stamp old);
  d_old_path : d.["oldPath"] = str_value old_path;
  d_old_local : d.["oldLocalStamp"] = stamp_value (stamp old_local);
  d_sha256 : d.["sha256"] = Str (thumbnail_source_sha256 photo);
  d_size : d.["size"] = Int (a_size (original photo))
}.
Lemma placement_described target next backup root old old_path old_local photo :
  describes (placement_details target next backup root old old_path old_local photo) target next backup root old old_path old_local photo.
Proof. constructor; vm_compute; reflexivity. Qed.

Lemma scalar_Int n x : Recovery.scalar (Int n) = Ok x -> x = SqlInteger n /\ n <= I64_MAX.
Proof.
  unfold Recovery.scalar, as_i64. destruct (_ && _) eqn:E; [|done]. intros [= <-]. zbool. done.
Qed.
Lemma write_scalars_Forall2 fields v xs :
  Recovery.write_scalars fields (Some v) = Ok xs ->
  Forall2 (fun y x => Recovery.scalar y = Ok x) (Recovery.at_column v <$> fields) xs.
Proof.
  revert xs. induction fields as [|c fields IH]; intros xs; cbn [Recovery.write_scalars]; [by intros [= <-]; constructor|].
  destruct (Recovery.scalar _) as [x|e] eqn:Hx; [|done]. cbn. destruct (Recovery.write_scalars fields (Some v)); [|done].
  intros [= <-]. constructor; [done|]. by apply IH.
Qed.
(** The columns of a placement, in the order of [DETAILS]. *)
Definition stamp_columns (m : option Metadata) : list Value :=
  match stamp m with Some (l, t) => [Int l; Int t] | None => [Null; Null] end.
Lemma details_columns target next backup root old old_path old_local photo :
  Recovery.at_column (placement_details target next backup root old old_path old_local photo) <$> Recovery.DETAILS
  = [Null; Null; Null; Str root; Str target; Str next; Str backup; str_value old_path; Str (thumbnail_source_sha256 photo);
     Int (a_size (original photo)); Bool (bool_decide (is_Some old)); Null; Null; Null; Null; Null]
    ++ stamp_columns old ++ stamp_columns old_local.
Proof. destruct old, old_local; vm_compute; reflexivity. Qed.
Ltac columns_inv H :=
  repeat match type of H with
  | Forall2 _ (_ :: _) _ =>
      let x := fresh "x" in let Hx := fresh "Hx" in
      apply Forall2_cons_inv_l in H; destruct H as (x & ? & Hx & H & ->);
      first [apply scalar_Int in Hx; destruct Hx as [-> ?]|injection Hx as <-]
  | Forall2 _ [] _ => apply Forall2_nil_inv_l in H; subst
  end.
(** The columns read back describe the placement. *)
Lemma details_survive target next backup root old old_path old_local photo xs :
  Recovery.write_scalars Recovery.DETAILS (Some (placement_details target next backup root old old_path old_local photo)) = Ok xs ->
  describes (Recovery.read_scalars Recovery.DETAILS xs) target next backup root old old_path old_local photo
  /\ a_size (original photo) <= I64_MAX.
Proof.
  intros H%write_scalars_Forall2. rewrite details_columns in H. unfold stamp_columns in H.
  destruct old_path; cbn [str_value] in H; (destruct old; cbn [stamp fmap option_fmap option_map] in H);
    (destruct old_local; cbn [stamp fmap option_fmap option_map] in H); cbn [app] in H; columns_inv H;
    (split; [constructor; vm_compute; reflexivity|done]).
Qed.

(** ** The publication's row *)
Lemma omap_lone {Row B} (f : Z * Row -> option B) (t : gmap Z Row) k r :
  t !! k = Some r -> (forall k' r', t !! k' = Some r' -> k' <> k -> f (k', r') = None) ->
  omap f (rows_by_id t) = option_list (f (k, r)).
Proof.
  intros Hk Hf. assert (Hp : omap f (rows_by_id t) ≡ₚ option_list (f (k, r))).
  { unfold rows_by_id. rewrite merge_sort_Permutation. rewrite <- (insert_delete_id t k r Hk).
    rewrite map_to_list_insert by apply lookup_delete_eq. cbn [omap list_omap].
    assert (Hn : omap f (map_to_list (delete k t)) = []).
    { assert (Hall : Forall (fun kr => f kr = None) (map_to_list (delete k t))).
      { apply Forall_forall. intros [k' r'] Hin%elem_of_map_to_list.
        apply lookup_delete_Some in Hin as [? ?]. by apply Hf. }
      induction Hall as [|x l Hx _ IH]; [done|]. cbn [omap list_omap]. by rewrite Hx. }
    rewrite Hn. by destruct (f (k, r)). }
  destruct (f (k, r)); cbn in *; [by apply Permutation_singleton_r in Hp|by apply Permutation_nil_r in Hp].
Qed.

(** The only publication with an id, waiting, in a job without interrupted ones. *)
Record lone (db : Db) (job : Z) (id : string) (k : Z) (p : Publication) : Prop := {
  l_row : db_publications db !! k = Some p;
  l_id : p_id p = id;
  l_job : p_job p = job;
  l_pending : p_state p = PPending;
  l_details : p_details p = None;
  l_snapshot : p_old_snapshot p = None;
  l_unique : forall k' p', db_publications db !! k' = Some p' -> p_id p' = id -> k' = k;
  l_others : forall k' p', db_publications db !! k' = Some p' -> p_job p' = job -> k' <> k -> p_details p' = None
}.
Lemma set_publications_id db : set_db_publications (db_publications db) db = db.
Proof. by destruct db. Qed.
Section Row.
Context (db : Db) (job : Z) (id : string) (k : Z) (p : Publication) (L : lone db job id k p).

(** The database with another content of that row. *)
Definition with_pub (p' : Publication) (db' : Db) : Prop :=
  db_publications db' = <[k := p']> (db_publications db) /\ p_id p' = id /\ p_job p' = job.
Lemma update_lone p' f db' : with_pub p' db' ->
  update_where (Publications.pub_by_id id) f (db_publications db') = <[k := f p']> (db_publications db).
Proof.
  intros (-> & Hid & _). apply map_eq. intros i. rewrite lookup_update_where. unfold Publications.pub_by_id.
  destruct (decide (i = k)) as [->|Hi].
  - rewrite !lookup_insert_eq. cbn. by rewrite bool_decide_true.
  - rewrite !lookup_insert_ne by done. destruct (db_publications db !! i) as [q|] eqn:Hq; [|done]. cbn.
    rewrite bool_decide_false; [done|]. intros Hqid. by destruct Hi, (l_unique _ _ _ _ _ L i q Hq Hqid).
Qed.
Lemma interrupted_lone p' db' : with_pub p' db' ->
  interrupted job db' = if bool_decide (is_Some (p_details p'))
                           && (bool_decide (p_state p' = PPublishing) || bool_decide (p_state p' = PComplete))
                        then [(id, p_state p')] else [].
Proof.
  intros (Hp & Hid & Hjob). unfold interrupted. erewrite (omap_lone _ _ k p').
  - cbn [snd]. rewrite Hjob, Z.eqb_refl, Hid. cbn [andb]. by destruct (_ && _).
  - by rewrite Hp, lookup_insert_eq.
  - intros k' q Hq Hne. rewrite Hp, lookup_insert_ne in Hq by done. cbn [snd].
    destruct (p_job q =? job) eqn:E; [|done]. zbool. by rewrite (l_others _ _ _ _ _ L k' q Hq E Hne).
Qed.
Lemma find_lone p' db' : with_pub p' db' -> Recovery.find_pub db' id = Some (k, p').
Proof.
  intros (Hp & Hid & _). unfold Recovery.find_pub. apply find_row_least. rewrite Hp, lookup_insert_eq.
  unfold Publications.pub_by_id. rewrite bool_decide_true by done. split_and!; [done|done|]. intros k' q Hq Hqid%bool_decide_eq_true.
  destruct (decide (k' = k)) as [->|Hne]; [done|]. rewrite lookup_insert_ne in Hq by done.
  by rewrite (l_unique _ _ _ _ _ L k' q Hq Hqid).
Qed.
Lemma with_pub_start : with_pub p db.
Proof. destruct L. split_and!; [|done..]. by rewrite insert_id. Qed.

Context (d : Value).
(** The row while its files are being placed, after the commit, and cleaned. *)
Definition marked (xs : list SqlValue) : Publication :=
  set_p_old_snapshot (if bool_decide (d.["hadOld"] = Bool true) then as_str d.["backup"] else None)
    (set_p_details (Some xs) (set_p_state PPublishing p)).
Definition committed (xs : list SqlValue) : Publication := set_p_state PComplete (marked xs).
Definition cleaned (q : Publication) : Publication := set_p_old_snapshot None (set_p_details None q).

Lemma publishing_Ok u db' : publishing id d db = Ok (u, db') ->
  exists xs, Recovery.write_scalars Recovery.DETAILS (Some d) = Ok xs /\
    db' = set_db_publications (<[k := marked xs]> (db_publications db)) db.
Proof.
  unfold publishing. intros H. tx_inv H.
  match goal with Hc : check_publication _ _ = Ok _ |- _ => destruct (check_publication_run _ _ _ _ Hc) as [-> _] end.
  unfold Recovery.set_details, Recovery.update_pub in H. tx_inv H.
  match goal with Hw : Recovery.write_scalars _ _ = Ok ?ys |- _ => exists ys; split; [done|] end.
  rewrite (update_lone p _ db) by exact with_pub_start.
  rewrite (update_lone (set_p_state PPublishing p)); [done|].
  pose proof with_pub_start as (_ & Hid & Hj). by split_and!.
Qed.
Lemma set_details_None q db' : with_pub q db' ->
  Recovery.set_details id None db' = Ok (tt, set_db_publications (<[k := cleaned q]> (db_publications db)) db').
Proof.
  intros Hq. unfold Recovery.set_details. erewrite bind_run by done. unfold Recovery.update_pub, modify.
  by rewrite (update_lone q _ db').
Qed.
Lemma rollback_restores xs :
  rollback id (set_db_publications (<[k := marked xs]> (db_publications db)) db) = Ok (tt, db).
Proof.
  set (db' := set_db_publications _ db). unfold rollback. erewrite bind_run by done.
  assert (Hm : with_pub (marked xs) db') by (pose proof with_pub_start as (_ & ? & ?); by split_and!).
  rewrite (update_lone (marked xs)) by exact Hm.
  assert (Hq : with_pub (set_p_state PPending (marked xs))
    (set_db_publications (<[k := set_p_state PPending (marked xs)]> (db_publications db)) db')) by (destruct Hm as (_ & ? & ?); by split_and!).
  etransitivity; [exact (set_details_None (set_p_state PPending (marked xs)) _ Hq)|]. do 2 f_equal.
  destruct L as [Hrow ? ? Hst Hd Hs _ _].
  assert (cleaned (set_p_state PPending (marked xs)) = p) as ->.
  { unfold cleaned, marked. clear - Hst Hd Hs. destruct p as [a1 a2 a3 a4 a5 a6 a7 st a9 a10 dt os]. cbn in Hst, Hd, Hs. subst st dt os. done. }
  rewrite insert_id by done. exact (set_publications_id db).
Qed.
End Row.

(** ** The files of a placement *)
Section Frame.
Context (fs0 : Fs) (target next backup : string) (q : option string).

(** The names a placement may touch; [q] is a previous path of the photo. *)
Definition own : list string := [target; next; backup] ++ option_list q.
(** All other names and all previous contents stay; directories may be added. *)
Record frame (fs : Fs) : Prop := {
  fr_wf : wf fs;
  fr_names : forall p, p ∉ own -> names fs !! p = names fs0 !! p \/
    names fs0 !! p = None /\ exists l m, names fs !! p = Some (NDir l m);
  fr_inodes : forall i f, inodes fs0 !! i = Some f -> inodes fs !! i = Some f
}.
Lemma frame_names fs m : frame fs -> (forall p, p ∉ own -> m !! p = names fs !! p) ->
  (forall p i, m !! p = Some (NFile i) -> is_Some (inodes fs !! i)) -> frame (set_names m fs).
Proof.
  intros [[Hwf Hi] Hn Hin] Hm Hw. split; [done| |done]. intros p Hp. cbn [names set_names]. rewrite Hm by done. by apply Hn.
Qed.
Lemma frame_delete fs x : frame fs -> x ∈ own -> frame (set_names (delete x (names fs)) fs).
Proof.
  intros Hf Hx. apply frame_names; [done| |].
  - intros p Hp. rewrite lookup_delete_ne; [done|]. by intros ->.
  - intros p i [_ H]%lookup_delete_Some. by apply (fr_wf _ Hf) in H.
Qed.
Lemma frame_insert fs x j : frame fs -> x ∈ own -> is_Some (inodes fs !! j) ->
  frame (set_names (<[x := NFile j]> (names fs)) fs).
Proof.
  intros Hf Hx Hj. apply frame_names; [done| |].
  - intros p Hp. rewrite lookup_insert_ne; [done|]. by intros ->.
  - intros p i [[_ [= ->]]|[_ H]]%lookup_insert_Some; [done|]. by apply (fr_wf _ Hf) in H.
Qed.
Lemma frame_move fs x y j : frame fs -> x ∈ own -> y ∈ own -> names fs !! x = Some (NFile j) ->
  frame (set_names (<[y := NFile j]> (delete x (names fs))) fs).
Proof.
  intros Hf Hx Hy Hj. pose proof (frame_insert _ y j (frame_delete _ x Hf Hx) Hy) as H. apply H. cbn [inodes set_names].
  by apply (fr_wf _ Hf) in Hj.
Qed.
(** A content that was not there before may change. *)
Lemma frame_write fs i f : frame fs -> inodes fs0 !! i = None -> is_Some (inodes fs !! i) ->
  frame (set_inodes (<[i := f]> (inodes fs)) fs).
Proof.
  intros [[Hwf Hi] Hn Hin] Hi0 [g Hg]. split; [|done|].
  - split; cbn.
    + intros p j Hp%Hwf. destruct (decide (j = i)) as [->|]; [by rewrite lookup_insert_eq|by rewrite lookup_insert_ne].
    + intros j g' [[-> _]|[_ H]]%lookup_insert_Some; eauto.
  - cbn. intros j g' Hj. rewrite lookup_insert_ne; [by apply Hin|]. by intros ->; congruence.
Qed.
Lemma frame_create fs x f : frame fs -> x ∈ own ->
  frame (mkFs (<[x := NFile (next_ino fs)]> (names fs)) (<[next_ino fs := f]> (inodes fs)) (next_ino fs + 1)).
Proof.
  intros [[Hwf Hi] Hn Hin] Hx.
  assert (Hfresh : forall i g, inodes fs !! i = Some g -> i <> next_ino fs) by (intros i g Hg%Hi; lia).
  split; [split|..]; cbn.
  - intros p i [[_ [= <-]]|[_ H%Hwf]]%lookup_insert_Some; [by rewrite lookup_insert_eq|].
    destruct H as [g Hg]. pose proof (Hfresh _ _ Hg). rewrite lookup_insert_ne by done. by eexists.
  - intros i g [[<- _]|[_ H%Hi]]%lookup_insert_Some; lia.
  - intros p Hp. rewrite lookup_insert_ne by (intros ->; done). by apply Hn.
  - intros i g Hg%Hin. pose proof (Hfresh _ _ Hg). by rewrite lookup_insert_ne.
Qed.
Lemma frame_fresh fs : frame fs -> inodes fs0 !! next_ino fs = None.
Proof.
  intros [[_ Hi] _ Hin]. destruct (inodes fs0 !! next_ino fs) as [f|] eqn:E; [|done]. apply Hin, Hi in E. lia.
Qed.
Lemma frame_mkdir fs d : frame fs -> names fs !! d = None -> d ∉ own ->
  frame (set_names (<[d := NDir 0 0]> (names fs)) fs).
Proof.
  intros [[Hwf Hi] Hn Hin] Hd Ho. split; [split|..]; cbn; [|done| |done].
  - intros p i [[_ ?]|[_ H%Hwf]]%lookup_insert_Some; [done|done].
  - intros p Hp. destruct (decide (p = d)) as [->|Hne]; [|rewrite lookup_insert_ne by done; by apply Hn].
    right. rewrite lookup_insert_eq. split; [|by eauto]. destruct (Hn d Hp) as [H|(? & ? & ? & ?)]; congruence.
Qed.
Lemma frame_start : wf fs0 -> frame fs0.
Proof. intros Hw. by split; [done|left|]. Qed.
Lemma frame_root fs r : frame fs -> r ∉ own -> is_Some (symlink_metadata fs0 r) ->
  symlink_metadata fs r = symlink_metadata fs0 r.
Proof.
  intros [_ Hn Hin] Hr [m Hm]. unfold symlink_metadata in *. destruct (Hn r Hr) as [->|[H _]]; [|by rewrite H in Hm].
  destruct (names fs0 !! r) as [[i|?|?]|]; cbn in *; try done. destruct (inodes fs0 !! i) as [f|] eqn:E; [|done]. by rewrite (Hin _ _ E).
Qed.
End Frame.
Lemma elem_of_own target next backup q x : x ∈ own target next backup q <-> x = target \/ x = next \/ x = backup \/ q = Some x.
Proof. unfold own. cbn [app]. destruct q; cbn; set_solver. Qed.
Arguments fr_wf {_ _ _ _ _ _}.
Arguments fr_names {_ _ _ _ _ _}.
Arguments fr_inodes {_ _ _ _ _ _}.


(** ** Phases of a placement *)
Section Phases.
Context (sha256 : list Z -> list Z) (event : EditEvent) (photo : RemotePhoto) (original_path : string).
Context (job : Z) (id : string) (k : Z) (p : Publication).
Context (db0 : Db) (fs0 : Fs) (L : lone db0 job id k p) (Hwf0 : wf fs0).
Context (root rel target next backup parent : string) (old_path q : option string).
Notation own := (own target next backup q).
Notation frame := (frame fs0 target next backup q).
(** What the paths of a placement satisfy. *)
Record placed_paths : Prop := {
  pp_distinct : NoDup own;
  pp_root : root ∉ own;
  pp_parent : parent ∉ own;
  pp_relative : relative_to root target = Some rel;
  pp_target_parent : path_parent target = Some parent;
  pp_next_parent : path_parent next = Some parent;
  pp_backup_parent : path_parent backup = Some parent;
  pp_q : q = (x ← old_path; if bool_decide (x = target) then None else Some x);
  (** the previous path is a file of the library, or gone *)
  pp_previous : forall x, q = Some x ->
    (names fs0 !! x = None \/ exists i, names fs0 !! x = Some (NFile i)) /\
    (exists relx dest, relative_to root x = Some relx /\ safe_destination fs0 root relx = Ok dest) /\
    exists px l m, path_parent x = Some px /\ px ∉ own /\ names fs0 !! px = Some (NDir l m)
}.
Context (PP : placed_paths) (Hnext0 : names fs0 !! next = None) (Hbackup0 : names fs0 !! backup = None).

Definition old_meta : option Metadata := symlink_metadata fs0 target.
Definition old_local : option Metadata := x ← old_path; symlink_metadata fs0 x.
Definition D : Value := placement_details target next backup root old_meta old_path old_local photo.
(** The content being placed. *)
Definition good (f : File) : Prop :=
  Z.of_nat (length (f_bytes f)) = a_size (original photo) /\
  Content.to_hex (sha256 (f_bytes f)) = thumbnail_source_sha256 photo /\ read fs0 original_path = Some (f_bytes f).
Definition is_old (fs : Fs) (x : string) : Prop :=
  exists i, names fs0 !! target = Some (NFile i) /\ names fs !! x = Some (NFile i).
Record before (fs : Fs) : Prop := {
  b_frame : frame fs;
  b_target : names fs !! target = names fs0 !! target;
  b_q : forall x, q = Some x -> names fs !! x = names fs0 !! x;
  b_backup : names fs !! backup = None \/ is_old fs backup;
  b_next : names fs !! next = None \/ exists j, names fs !! next = Some (NFile j) /\ inodes fs0 !! j = None
}.
Record after (fs : Fs) : Prop := {
  a_frame : frame fs;
  a_target : exists j f, names fs !! target = Some (NFile j) /\ inodes fs !! j = Some f /\ inodes fs0 !! j = None /\ good f;
  a_q : forall x, q = Some x -> names fs !! x = names fs0 !! x \/ names fs !! x = None;
  a_backup : names fs !! backup = None \/ is_old fs backup;
  a_next : names fs !! next = None
}.
Definition has_dir (fs : Fs) : Prop := exists l m, names fs !! parent = Some (NDir l m).
Definition Idle (st : St) : Prop := st_db st = db0 /\ before (st_fs st).
Definition Marked (st : St) : Prop := publishing id D db0 = Ok (tt, st_db st) /\ before (st_fs st) /\ has_dir (st_fs st).
Definition Placed (st : St) : Prop :=
  publishing id D db0 = Ok (tt, st_db st) /\ after (st_fs st) /\ has_dir (st_fs st) /\
  (forall x, q = Some x -> names (st_fs st) !! x = names fs0 !! x) /\
  (names fs0 !! target = None \/ is_old (st_fs st) backup).
Definition Committed (st : St) : Prop :=
  exists dbp item, publishing id D db0 = Ok (tt, dbp) /\ admit_publication id photo item event dbp = Ok (tt, st_db st) /\
    after (st_fs st) /\ has_dir (st_fs st).
Definition Cleaned (st : St) : Prop :=
  exists dbp item dba, publishing id D db0 = Ok (tt, dbp) /\ admit_publication id photo item event dbp = Ok (tt, dba) /\
    clean_publication id dba = Ok (tt, st_db st) /\ after (st_fs st) /\ names (st_fs st) !! backup = None /\
    forall x, q = Some x -> names (st_fs st) !! x = None.
(** What [publish_pair] checks of the destination before it records its intent. *)
Definition checked_target : Prop :=
  safe_destination fs0 root rel = Ok target /\ (names fs0 !! target = None \/ exists i, names fs0 !! target = Some (NFile i)).
Definition phase (st : St) : Prop := Idle st \/ checked_target /\ (Marked st \/ Placed st \/ Committed st \/ Cleaned st).
Definition settled (st : St) : Prop := Idle st \/ Cleaned st.

(** *** Names *)
Lemma own_in : target ∈ own /\ next ∈ own /\ backup ∈ own /\ forall x, q = Some x -> x ∈ own.
Proof. split_and!; [..|intros x Hx]; apply elem_of_own; auto. Qed.
Lemma own_distinct : target <> next /\ target <> backup /\ next <> backup /\
  forall x, q = Some x -> x <> target /\ x <> next /\ x <> backup.
Proof.
  pose proof (pp_distinct PP) as H. unfold Safety.own in H. cbn in H.
  apply NoDup_cons in H as [H1 [H2 [H3 _]%NoDup_cons]%NoDup_cons].
  rewrite !not_elem_of_cons in *. destruct H1 as (? & ? & Hq1), H2 as (? & Hq2). split_and!; [done..|].
  intros x ->. cbn in *. set_solver.
Qed.
Lemma outside_ne x : x ∉ own -> x <> target /\ x <> next /\ x <> backup /\ forall y, q = Some y -> x <> y.
Proof.
  intros Hx. destruct own_in as (Ht & Hn & Hb & Hq). split_and!; try (by intros ->).
  intros y Hy ->. by apply Hx, Hq.
Qed.
Lemma dir_kept fs m : has_dir fs -> (forall x, x ∉ own -> m !! x = names fs !! x) -> has_dir (set_names m fs).
Proof. intros (l & t & Hd) Hm. exists l, t. cbn. rewrite Hm; [done|]. apply (pp_parent PP). Qed.
Lemma is_dir_kept fs : has_dir fs -> is_dir fs parent = true.
Proof. intros (l & t & Hd). by eapply is_dir_dir. Qed.
Lemma old_known fs i : frame fs -> names fs0 !! target = Some (NFile i) ->
  exists f, inodes fs0 !! i = Some f /\ inodes fs !! i = Some f.
Proof. intros Hf Ht. destruct (proj1 Hwf0 _ _ Ht) as [f Hi]. exists f. split; [done|]. by apply (fr_inodes Hf). Qed.

(** *** Steps between the phases *)
Ltac at_names := cbn [names set_names];
  repeat first [rewrite lookup_insert_eq|rewrite lookup_delete_eq
               |rewrite lookup_insert_ne by congruence|rewrite lookup_delete_ne by congruence].
Ltac names_of := destruct own_in as (Ot & On & Ob & Oq); destruct own_distinct as (Etn & Etb & Enb & Eq).
Lemma before_unstage fs : before fs -> before (set_names (delete next (names fs)) fs).
Proof.
  names_of. intros [Hf Ht Hq Hb Hn]. split; unfold is_old; at_names; try done; [by apply frame_delete| |by left].
  intros x Hx. destruct (Eq x Hx) as (? & ? & ?). at_names. by apply Hq.
Qed.
Lemma before_link fs i : before fs -> names fs !! target = Some (NFile i) ->
  before (set_names (<[backup := NFile i]> (names fs)) fs).
Proof.
  names_of. intros [Hf Ht Hq Hb Hn] Hi. rewrite Ht in Hi.
  split; unfold is_old; at_names; try done; [| |right; by eexists].
  - apply frame_insert; [done|done|]. destruct (old_known _ _ Hf Hi) as (f & _ & ->). done.
  - intros x Hx. destruct (Eq x Hx) as (? & ? & ?). at_names. by apply Hq.
Qed.
Lemma swap_after fs j f : before fs -> names fs !! next = Some (NFile j) -> inodes fs !! j = Some f ->
  inodes fs0 !! j = None -> good f ->
  after (set_names (<[target := NFile j]> (delete next (names fs))) fs).
Proof.
  names_of. intros [Hf Ht Hq Hb _] Hn Hj Hj0 Hg. split; unfold is_old; at_names; try done.
  - by apply frame_move.
  - by exists j, f.
  - intros x Hx. left. destruct (Eq x Hx) as (? & ? & ?). at_names. by apply Hq.
Qed.
Lemma restore_before fs i : after fs -> (forall x, q = Some x -> names fs !! x = names fs0 !! x) ->
  names fs0 !! target = Some (NFile i) -> names fs !! backup = Some (NFile i) ->
  before (set_names (<[target := NFile i]> (delete backup (names fs))) fs).
Proof.
  names_of. intros [Hf _ _ _ Hn] Hq Ht Hb. split; unfold is_old; at_names; try done; [by apply frame_move| |by left|by left].
  intros x Hx. destruct (Eq x Hx) as (? & ? & ?). at_names. by apply Hq.
Qed.
Lemma unplace_before fs : after fs -> (forall x, q = Some x -> names fs !! x = names fs0 !! x) ->
  names fs0 !! target = None -> before (set_names (delete target (names fs)) fs).
Proof.
  names_of. intros [Hf _ _ Hb Hn] Hq Ht. split; unfold is_old in *; at_names; try done; [by apply frame_delete| |by left].
  intros x Hx. destruct (Eq x Hx) as (? & ? & ?). at_names. by apply Hq.
Qed.
Lemma after_drop fs x : after fs -> x = backup \/ q = Some x -> after (set_names (delete x (names fs)) fs).
Proof.
  names_of. intros [Hf (j & f & Ht & Hj & Hj0 & Hg) Hq Hb Hn] Hx.
  assert (Hown : x ∈ own) by (destruct Hx as [->|Hx]; [done|by apply Oq]).
  assert (x <> target /\ x <> next) as [? ?] by (destruct Hx as [->|Hx]; [done|by destruct (Eq x Hx) as (? & ? & ?)]).
  split; unfold is_old in *; at_names; [by apply frame_delete|by exists j, f| | |done].
  - intros y Hy. destruct (decide (y = x)) as [->|]; [right; by at_names|]. at_names. by apply Hq.
  - destruct (decide (backup = x)) as [->|]; [left; by at_names|]. by at_names.
Qed.
Lemma drop_kept fs x : x ∈ own -> forall y, y ∉ own -> delete x (names fs) !! y = names fs !! y.
Proof. intros Hx y Hy. rewrite lookup_delete_ne; [done|]. by intros ->. Qed.
Lemma move_kept fs x y n : x ∈ own -> y ∈ own -> forall z, z ∉ own -> <[y := n]> (delete x (names fs)) !! z = names fs !! z.
Proof. intros Hx Hy z Hz. rewrite lookup_insert_ne, lookup_delete_ne; [done|..]; by intros ->. Qed.

(** No step makes a link, and the root stays. *)
Lemma links_before fs : before fs -> no_new_links fs0 fs.
Proof.
  intros [Hf Ht Hq Hb Hn] x to l m Hx. destruct (decide (x ∈ own)) as [Ho|Ho].
  - apply elem_of_own in Ho as [->|[->|[->|Ho]]].
    + congruence.
    + destruct Hn as [Hn|(j & Hn & _)]; congruence.
    + destruct Hb as [Hb|(i & _ & Hb)]; congruence.
    + rewrite <- Hx. symmetry. by apply Hq.
  - destruct (fr_names Hf x Ho) as [H|(_ & ? & ? & H)]; congruence.
Qed.
Lemma links_after fs : after fs -> no_new_links fs0 fs.
Proof.
  intros [Hf (j & f & Ht & _) Hq Hb Hn] x to l m Hx. destruct (decide (x ∈ own)) as [Ho|Ho].
  - apply elem_of_own in Ho as [->|[->|[->|Ho]]]; try congruence.
    + destruct Hb as [Hb|(i & _ & Hb)]; congruence.
    + destruct (Hq x Ho); congruence.
  - destruct (fr_names Hf x Ho) as [H|(_ & ? & ? & H)]; congruence.
Qed.
Lemma root_known rel' d : safe_destination fs0 root rel' = Ok d -> is_Some (symlink_metadata fs0 root).
Proof. unfold safe_destination. destruct (_ || _); [done|]. by destruct (symlink_metadata fs0 root). Qed.
Lemma still_safe fs rel' d : frame fs -> no_new_links fs0 fs -> safe_destination fs0 root rel' = Ok d ->
  safe_destination fs root rel' = Ok d.
Proof.
  intros Hf Hl Hd. eapply safe_destination_mono; [done| |done]. apply (frame_root _ _ _ _ _ _ _ Hf); [apply (pp_root PP)|].
  by eapply root_known.
Qed.

(** *** Preparation *)
(** The new content waits beside the target. *)
Definition staged (fs : Fs) (f : File) : Prop :=
  exists j, names fs !! next = Some (NFile j) /\ inodes fs !! j = Some f /\ inodes fs0 !! j = None.
(** Only directories were added. *)
Definition Fresh (st : St) : Prop :=
  st_db st = db0 /\ frame (st_fs st) /\ (forall x, x ∈ own -> names (st_fs st) !! x = names fs0 !! x) /\
  (forall x n, names fs0 !! x = Some n -> names (st_fs st) !! x = Some n).
Lemma fresh_idle st : Fresh st -> Idle st.
Proof.
  intros (Hdb & Hf & Hown & _). destruct own_in as (Ot & On & Ob & Oq). split; [done|]. split; [done|by apply Hown| | |].
  - intros x Hx. by apply Hown, Oq.
  - left. by rewrite Hown.
  - left. by rewrite Hown.
Qed.
Lemma create_dirs_ok faulty l st : Forall (fun x => x ∉ own) l -> Fresh st ->
  wpc faulty phase (create_dirs l) (fun r st' => Fresh st' /\ (r = Ok tt -> forall x, head l = Some x -> is_dir (st_fs st') x = true)) st.
Proof.
  intros Hl. revert st. induction Hl as [|x l Hx Hl IH]; intros st Hst; cbn [create_dirs]; [by wp|]. wp. wp.
  destruct (is_dir (st_fs st) x) eqn:Hd; wp; [by split; [|intros _ y [= <-]]|].
  eapply wpc_mono; [by apply IH|]. intros r st1 (Hst1 & _). destruct r as [[]|e]; [|done].
  apply wpc_file_op; [done|]. unfold create_dir. destruct (names (st_fs st1) !! x) as [n|] eqn:Hn; [done|].
  destruct Hst1 as (Hdb & Hf & Hown & Hgrow). set (st2 := set_fs _ st1).
  assert (Hst2 : Fresh st2).
  { split_and!; [done|by apply frame_mkdir| |].
    - intros y Hy. cbn. rewrite lookup_insert_ne by (by intros ->). by apply Hown.
    - intros y n Hy%Hgrow. cbn. rewrite lookup_insert_ne; [done|]. congruence. }
  split; [by left; apply fresh_idle|]. split; [done|]. intros _ y [= <-]. eapply is_dir_dir. cbn. by rewrite lookup_insert_eq.
Qed.
Lemma follow_grow fs fuel x y n : (forall x n, names fs0 !! x = Some n -> names fs !! x = Some n) ->
  follow fuel fs0 x = Some y -> names fs0 !! y = Some n -> follow fuel fs x = Some y.
Proof.
  intros Hg. revert x. induction fuel as [|fuel IH]; intros x; cbn [follow];
    (destruct (names fs0 !! x) as [[i|to l m|l m]|] eqn:Hx; [| | |by intros [= <-] ?; congruence]); rewrite (Hg _ _ Hx); try done.
  apply IH.
Qed.
Lemma read_grow fs x bytes : (forall x n, names fs0 !! x = Some n -> names fs !! x = Some n) ->
  (forall i f, inodes fs0 !! i = Some f -> inodes fs !! i = Some f) -> read fs0 x = Some bytes -> read fs x = Some bytes.
Proof.
  intros Hg Hi. unfold read, resolve. destruct (follow MAX_LINKS fs0 x) as [y|] eqn:Hy; [|done]. cbn [mbind option_bind].
  destruct (names fs0 !! y) as [[i|?|?]|] eqn:Hn; try done. rewrite (follow_grow _ _ _ _ _ Hg Hy Hn).
  cbn [mbind option_bind]. rewrite (Hg _ _ Hn). cbn [mbind option_bind].
  destruct (inodes fs0 !! i) as [f|] eqn:Hf; [|done]. by rewrite (Hi _ _ Hf).
Qed.

(** The state between the copy and the record of the intent. *)
Definition Copied (st : St) (f : File) : Prop :=
  Idle st /\ names (st_fs st) !! backup = None /\ staged (st_fs st) f.
Lemma create_copied st f : Fresh st ->
  Copied (set_fs (mkFs (<[next := NFile (next_ino (st_fs st))]> (names (st_fs st))) (<[next_ino (st_fs st) := f]> (inodes (st_fs st)))
                    (next_ino (st_fs st) + 1)) st) f.
Proof.
  intros Hst. pose proof (fresh_idle _ Hst) as [Hdb [Hf Ht Hq Hb Hn]]. pose proof Hst as (_ & _ & Hown & _).
  destruct own_in as (Ot & On & Ob & Oq). destruct own_distinct as (Etn & Etb & Enb & Eq).
  assert (Hfresh : inodes fs0 !! next_ino (st_fs st) = None) by (by eapply frame_fresh).
  split_and!; cbn.
  - split; [done|]. split; unfold is_old; cbn; rewrite ?lookup_insert_ne by done.
    + by apply frame_create.
    + done.
    + intros x Hx. destruct (Eq x Hx) as (? & ? & ?). rewrite lookup_insert_ne by done. by apply Hq.
    + done.
    + right. eexists. by rewrite lookup_insert_eq.
  - rewrite lookup_insert_ne by done. by rewrite Hown.
  - exists (next_ino (st_fs st)). cbn. by rewrite !lookup_insert_eq.
Qed.
Lemma rewrite_copied st f g : Copied st f -> exists i, names (st_fs st) !! next = Some (NFile i) /\ inodes (st_fs st) !! i = Some f /\
  Copied (set_fs (set_inodes (<[i := g]> (inodes (st_fs st))) (st_fs st)) st) g.
Proof.
  intros ([Hdb [Hf Ht Hq Hb Hn]] & Hbk & i & Hi & Hfi & Hi0). exists i. split_and!; [done|done|]. split_and!; [|done|].
  - split; [done|]. split; [|done..]. apply frame_write; [done|done|by eexists].
  - exists i. cbn. by rewrite lookup_insert_eq.
Qed.
Lemma copy_ok faulty now st bytes : Fresh st -> read fs0 original_path = Some bytes -> has_dir (st_fs st) ->
  wpc faulty phase (copy now original_path next)
    (fun r st' => phase st' /\ (r = Ok tt -> Copied st' (mkFile bytes now) /\ has_dir (st_fs st'))) st.
Proof.
  intros Hst Hr (l & m & Hdir). pose proof Hst as (_ & Hf & Hown & Hgrow). unfold copy. do 4 wp.
  rewrite (read_grow _ _ _ Hgrow (fr_inodes Hf) Hr). cbn [ok_or_err].
  assert (Hph : phase st) by (by left; apply fresh_idle). destruct own_in as (_ & On & _). pose proof (pp_parent PP) as Hpar.
  wp. apply wpc_file_op; [done|].
  assert (Hn : names (st_fs st) !! next = None) by (by rewrite Hown).
  assert (Hw : write_file next (mkFile [] now) (st_fs st)
    = Ok (mkFs (<[next := NFile (next_ino (st_fs st))]> (names (st_fs st))) (<[next_ino (st_fs st) := mkFile [] now]> (inodes (st_fs st)))
            (next_ino (st_fs st) + 1))).
  { unfold write_file. rewrite resolve_plain by (intros; congruence). cbn. by rewrite Hn. }
  rewrite Hw. pose proof (create_copied st (mkFile [] now) Hst) as Hc. set (st1 := set_fs _ st) in *.
  assert (Hph1 : phase st1) by (left; by destruct Hc). split; [done|].
  apply wpc_file_op; [done|]. destruct (rewrite_copied _ _ (mkFile bytes now) Hc) as (i & Hi & _ & Hc2).
  assert (Hw2 : write_file next (mkFile bytes now) (st_fs st1) = Ok (set_inodes (<[i := mkFile bytes now]> (inodes (st_fs st1))) (st_fs st1))).
  { unfold write_file. rewrite resolve_plain by (intros; congruence). cbn [mbind result_bind ok_or_err]. by rewrite Hi. }
  rewrite Hw2. split; [left; by destruct Hc2|]. split; [left; by destruct Hc2|]. intros _. split; [done|].
  exists l, m. cbn. rewrite lookup_insert_ne; [done|]. by intros ->.
Qed.

(** A run of recovery stays within the phases, and ends when undisturbed. *)
Definition recovers (faulty : bool) (r : result unit) (st : St) : Prop :=
  phase st /\ (faulty = false -> r = Ok tt /\ settled st).
Lemma recovers_fault faulty st : phase st -> faulty = true -> recovers faulty (Err FAULT) st.
Proof. intros Hst ->. by split. Qed.
Lemma idle_interrupted st : Idle st -> interrupted job (st_db st) = [].
Proof.
  intros [-> _]. rewrite (interrupted_lone _ _ _ _ _ L p) by apply (with_pub_start _ _ _ _ _ L). by rewrite (l_details _ _ _ _ _ L).
Qed.
Lemma recover_nothing_ok dev faulty st : phase st -> settled st -> interrupted job (st_db st) = [] ->
  wpc faulty phase (recover_publications sha256 dev job) (recovers faulty) st.
Proof.
  intros Hph Hs Hi. unfold recover_publications. wp. apply wpc_query; [done|by apply recovers_fault|]. wp.
  apply wpc_op; [by apply recovers_fault|]. split; [done|]. rewrite Hi. cbn [io_each]. wp. by split.
Qed.

(** From here on the destination is known to be safe and to hold a file or
    nothing, which [publish_pair] checks before it records its intent. *)
Context (Hsafe0 : safe_destination fs0 root rel = Ok target).
Context (Htarget0 : names fs0 !! target = None \/ exists i, names fs0 !! target = Some (NFile i)).
Lemma is_marked st : Marked st -> phase st.
Proof. intros. right. split; [done|auto]. Qed.
Lemma is_placed st : Placed st -> phase st.
Proof. intros. right. split; [done|auto]. Qed.
Lemma is_committed st : Committed st -> phase st.
Proof. intros. right. split; [done|auto]. Qed.
Lemma is_cleaned st : Cleaned st -> phase st.
Proof. intros. right. split; [done|auto 6]. Qed.

(** *** Recovery *)
Section Document.
Context (d : Value) (Hd : describes d target next backup root old_meta old_path old_local photo).
Context (Hsize : a_size (original photo) <= I64_MAX).

Lemma matches_good fs j f : names fs !! target = Some (NFile j) -> inodes fs !! j = Some f -> good f ->
  matches_published sha256 fs target d = Ok true.
Proof.
  intros Ht Hj (Hl & Hh & _). unfold matches_published. rewrite (d_size _ _ _ _ _ _ _ _ _ Hd), (d_sha256 _ _ _ _ _ _ _ _ _ Hd).
  unfold as_u64. rewrite (proj2 (Z.leb_le 0 _)) by lia. rewrite (proj2 (Z.leb_le _ U64_MAX)) by (unfold I64_MAX, U64_MAX in *; lia).
  cbn. unfold verify_file. rewrite (symlink_metadata_file _ _ _ _ Ht Hj). cbn [file_type file_metadata].
  rewrite bool_decide_false by done. unfold digest_file. rewrite (proj1 (is_file_file _ _ _ _ Ht Hj)), (read_file _ _ _ _ Ht Hj).
  cbn. rewrite Hl, Z.eqb_refl. cbn. by rewrite bool_decide_true.
Qed.

(** The node of the previous path while a placement is finished. *)
Lemma previous_kept fs x : after fs -> q = Some x ->
  names fs !! x = None \/
  exists i f, names fs !! x = Some (NFile i) /\ symlink_metadata fs0 x = Some (file_metadata i f) /\
    symlink_metadata fs x = Some (file_metadata i f).
Proof.
  intros Ha Hx. destruct (a_q _ Ha x Hx) as [He|]; [|by left].
  destruct (pp_previous PP x Hx) as ([Hn|[i Hi]] & _); [left; congruence|right]. rewrite Hi in He.
  destruct (proj1 Hwf0 _ _ Hi) as [f Hf]. exists i, f. split_and!; [done|by apply symlink_metadata_file|].
  apply symlink_metadata_file; [done|]. by apply (fr_inodes (a_frame _ Ha)).
Qed.
Lemma parent_kept fs px l m : frame fs -> px ∉ own -> names fs0 !! px = Some (NDir l m) -> is_dir fs px = true.
Proof.
  intros Hf Hp Hn. destruct (fr_names Hf px Hp) as [He|[He _]]; [|congruence]. eapply is_dir_dir. by rewrite He.
Qed.
Definition previous_gone (st : St) : Prop := forall x, q = Some x -> names (st_fs st) !! x = None.

Lemma committed_drop st x : Committed st -> x = backup \/ q = Some x ->
  Committed (set_fs (set_names (delete x (names (st_fs st))) (st_fs st)) st).
Proof.
  intros (dbp & item & Hp & Ha & Hafter & Hdir) Hx. exists dbp, item. split_and!; [done|done|by apply after_drop|].
  apply dir_kept; [done|]. apply drop_kept. destruct own_in as (_ & _ & Hb & Hq). destruct Hx as [->|]; auto.
Qed.
(** The previous file of a committed rename goes. *)
Lemma cleanup_committed faulty st : Committed st ->
  wpc faulty phase (cleanup_renamed_source d)
    (fun r st' => Committed st' /\ (r = Ok tt -> previous_gone st') /\
                  (names (st_fs st) !! backup = None -> names (st_fs st') !! backup = None) /\
                  (faulty = false -> r = Ok tt)) st.
Proof.
  intros Hc. unfold cleanup_renamed_source. rewrite (d_old_path _ _ _ _ _ _ _ _ _ Hd). pose proof (pp_q PP) as Hq.
  destruct old_path as [x|] eqn:Hop; cbn [str_value as_str]; cbn in Hq; [|wp; split_and!; try done; by intros _ x Hx; congruence].
  wp. wp. rewrite (d_target _ _ _ _ _ _ _ _ _ Hd). cbn. case_bool_decide as Hx.
  { wp. split_and!; try done. intros _ y Hy. congruence. }
  pose proof Hc as (dbp & item & Hp & Ha & Hafter & Hdir).
  destruct (pp_previous PP x Hq) as (_ & (relx & dest & Hrel & Hsafe) & px & l & m & Hpx & Hpo & Hpd).
  wp. wp. rewrite (d_root _ _ _ _ _ _ _ _ _ Hd). cbn. wp. wp. rewrite Hrel. cbn. wp. wp. wp. wp.
  rewrite (still_safe _ _ _ (a_frame _ Hafter) (links_after _ Hafter) Hsafe). wp. wp.
  destruct (previous_kept _ _ Hafter Hq) as [Hn|(i & f & Hn & Hm0 & Hm)].
  { assert (Hm : symlink_metadata (st_fs st) x = None) by (unfold symlink_metadata; by rewrite Hn).
    rewrite Hm. wp. split_and!; try done. intros _ y Hy. congruence. }
  rewrite Hm. wp. apply wpc_require; [intros _|].
  2: { intros Hf. apply bool_decide_eq_false in Hf. destruct Hf. rewrite (d_old_local _ _ _ _ _ _ _ _ _ Hd).
       unfold old_local. rewrite Hop. cbn [mbind option_bind]. by rewrite Hm0. }
  pose proof (committed_drop st x Hc (or_intror Hq)) as Hc'.
  assert (Hgone : previous_gone (set_fs (set_names (delete x (names (st_fs st))) (st_fs st)) st)).
  { intros y Hy. rewrite Hq in Hy. injection Hy as <-. cbn. by rewrite lookup_delete_eq. }
  assert (Hbk : names (st_fs st) !! backup = None -> delete x (names (st_fs st)) !! backup = None).
  { intros Hb. destruct (decide (x = backup)) as [->|]; [by rewrite lookup_delete_eq|by rewrite lookup_delete_ne]. }
  wp. apply wpc_file_op; [by intros ->; split_and!|]. unfold remove_file. rewrite Hn. split; [by apply is_committed|].
  rewrite Hpx. destruct Hc' as (dbp' & item' & Hp' & Ha' & Hafter' & Hdir').
  assert (Hc' : Committed (set_fs (set_names (delete x (names (st_fs st))) (st_fs st)) st)) by (by exists dbp', item').
  apply wpc_sync_dir; [by apply is_committed|by intros ->; split_and!|].
  rewrite (parent_kept _ _ _ _ (a_frame _ Hafter') Hpo Hpd). by split_and!.
Qed.

Lemma marked_drop_next st : Marked st -> Marked (set_fs (set_names (delete next (names (st_fs st))) (st_fs st)) st).
Proof.
  intros (Hp & Hb & Hdir). split_and!; [done|by apply before_unstage|]. apply dir_kept; [done|]. apply drop_kept.
  by destruct own_in as (_ & ? & _).
Qed.
Lemma placed_remove st : Placed st -> names fs0 !! target = None ->
  Marked (set_fs (set_names (delete target (names (st_fs st))) (st_fs st)) st).
Proof.
  intros (Hpub & Haf & Hdir & Hq & _) Hn. destruct own_in as (Ot & _). split_and!; [done|by apply unplace_before|].
  apply dir_kept; [done|]. by apply drop_kept.
Qed.
Lemma placed_restore st i : Placed st -> names fs0 !! target = Some (NFile i) -> names (st_fs st) !! backup = Some (NFile i) ->
  Marked (set_fs (set_names (<[target := NFile i]> (delete backup (names (st_fs st)))) (st_fs st)) st).
Proof.
  intros (Hpub & Haf & Hdir & Hq & _) Hi Hb. destruct own_in as (Ot & _ & Ob & _). split_and!; [done|by apply restore_before|].
  apply dir_kept; [done|]. by apply move_kept.
Qed.
Lemma had_old : old_meta = None /\ names fs0 !! target = None \/
  exists i f, names fs0 !! target = Some (NFile i) /\ inodes fs0 !! i = Some f /\ old_meta = Some (file_metadata i f).
Proof.
  destruct Htarget0 as [Hn|[i Hi]]; [left|right].
  - unfold old_meta, symlink_metadata. by rewrite Hn.
  - destruct (proj1 Hwf0 _ _ Hi) as [f Hf]. exists i, f. split_and!; [done|done|]. by apply symlink_metadata_file.
Qed.
(** An unfinished placement is undone: the previous file is back. *)
Definition undone (faulty : bool) (r : result unit) (st : St) : Prop :=
  (Marked st \/ Placed st) /\ (r = Ok tt -> Marked st) /\ (faulty = false -> r = Ok tt).
Lemma undone_ok faulty st : Marked st -> undone faulty (Ok tt) st.
Proof. intros Hm. split; [by left|done]. Qed.
Lemma undone_fault faulty st : Marked st \/ Placed st -> faulty = true -> undone faulty (Err FAULT) st.
Proof. intros Hst ->. split; [done|]. split; done. Qed.
Lemma undo_marked faulty st : Marked st -> wpc faulty phase (undo_swap sha256 target backup d) (undone faulty) st.
Proof.
  intros Hm. pose proof Hm as (Hpub & Hbf & Hdir). unfold undo_swap. wp. wp.
  destruct (b_backup _ Hbf) as [Hb|(i & Hi & Hb)].
  - rewrite (is_file_absent _ _ Hb). wp. wp. rewrite (d_had_old _ _ _ _ _ _ _ _ _ Hd).
    destruct had_old as [[-> Hn]|(i & f & Hi & Hf & ->)].
    + rewrite path_exists_absent by (by rewrite (b_target _ Hbf)). rewrite andb_false_r. wp. by apply undone_ok.
    + rewrite (bool_decide_false (Bool _ = Bool false)) by (rewrite bool_decide_true; [done|by eexists]). wp. by apply undone_ok.
  - destruct (old_known _ _ (b_frame _ Hbf) Hi) as (f & Hf0 & Hf).
    assert (Ht : names (st_fs st) !! target = Some (NFile i)) by (by rewrite (b_target _ Hbf)).
    rewrite (proj1 (is_file_file _ _ _ _ Hb Hf)). wp. wp. wp. wp.
    rewrite (metadata_file _ _ _ _ Ht Hf), (d_old_stamp _ _ _ _ _ _ _ _ _ Hd). unfold old_meta.
    rewrite (symlink_metadata_file _ _ _ _ Hi Hf0), bool_decide_true by done. rewrite andb_false_r. wp. wp.
    apply wpc_file_op; [by apply undone_fault; left|]. unfold rename. rewrite Hb, Ht. cbn [same_file]. rewrite Z.eqb_refl.
    assert (set_fs (st_fs st) st = st) as -> by (by destruct st). split; [by apply is_marked|]. by apply undone_ok.
Qed.
Lemma undo_placed faulty st : Placed st -> wpc faulty phase (undo_swap sha256 target backup d) (undone faulty) st.
Proof.
  intros Hp. pose proof Hp as (Hpub & Haf & Hdir & Hq & Hbk). destruct own_in as (Ot & On & Ob & Oq).
  destruct (a_target _ Haf) as (j & g & Ht & Hj & Hj0 & Hg). unfold undo_swap. wp. wp.
  destruct Hbk as [Hn|(i & Hi & Hb)].
  - assert (Hb : names (st_fs st) !! backup = None) by (destruct (a_backup _ Haf) as [|(i & Hi & _)]; [done|congruence]).
    rewrite (is_file_absent _ _ Hb). wp. wp. rewrite (proj2 (is_file_file _ _ _ _ Ht Hj)), (d_had_old _ _ _ _ _ _ _ _ _ Hd).
    assert (old_meta = None) as -> by (unfold old_meta, symlink_metadata; by rewrite Hn).
    rewrite (bool_decide_true (Bool _ = _)) by done. wp. wp. rewrite (matches_good _ _ _ Ht Hj Hg). do 4 wp.
    apply wpc_file_op; [by apply undone_fault; right|]. unfold remove_file. rewrite Ht.
    pose proof (placed_remove _ Hp Hn) as Hm.
    split; [by apply is_marked|]. by apply undone_ok.
  - destruct (old_known _ _ (a_frame _ Haf) Hi) as (f & Hf0 & Hf).
    rewrite (proj1 (is_file_file _ _ _ _ Hb Hf)). do 4 wp. rewrite (proj1 (is_file_file _ _ _ _ Ht Hj)).
    assert (Hmove : wpc faulty phase (file_op (rename backup target)) (undone faulty) st).
    { apply wpc_file_op; [by apply undone_fault; right|]. unfold rename. rewrite Hb, Ht. cbn [same_file].
      assert (i <> j) by (intros ->; congruence). rewrite (proj2 (Z.eqb_neq i j)) by done.
      pose proof (placed_restore _ _ Hp Hi Hb) as Hm.
      split; [by apply is_marked|]. by apply undone_ok. }
    wp. destruct (negb (bool_decide _)); [|by wp].
    wp. wp. rewrite (matches_good _ _ _ Ht Hj Hg). wp. wp. by wp.
Qed.

Lemma marked_back st : Marked st -> rollback id (st_db st) = Ok (tt, db0).
Proof.
  intros (Hp & _). destruct (publishing_Ok _ _ _ _ _ L _ _ _ Hp) as (xs & _ & ->). by eapply rollback_restores.
Qed.
Lemma unstage_marked faulty st : Marked st ->
  wpc faulty phase (remove_if path_exists next) (fun r st' => Marked st' /\ (faulty = false -> r = Ok tt)) st.
Proof.
  intros Hm. pose proof Hm as (_ & Hbf & _). unfold remove_if. wp. wp. destruct (b_next _ Hbf) as [Hn|(j & Hn & _)].
  - rewrite path_exists_absent by done. by wp.
  - destruct (proj1 (fr_wf (b_frame _ Hbf)) _ _ Hn) as [f Hf]. rewrite (proj2 (is_file_file _ _ _ _ Hn Hf)).
    apply wpc_file_op; [by intros ->|]. unfold remove_file. rewrite Hn. pose proof (marked_drop_next _ Hm) as Hm'.
    split; [by apply is_marked|done].
Qed.
Lemma recover_publishing_ok faulty st : Marked st \/ Placed st ->
  wpc faulty phase (recover_publishing sha256 id target next backup d) (recovers faulty) st.
Proof.
  intros Hst. unfold recover_publishing. wp. eapply wpc_mono.
  { destruct Hst; [by apply undo_marked|by apply undo_placed]. }
  intros r st1 (Hst1 & Hok & Hfree).
  assert (Hph : phase st1) by (destruct Hst1; [by apply is_marked|by apply is_placed]).
  destruct r as [[]|e]; [|split; [done|]; intros Hf; by specialize (Hfree Hf)]. specialize (Hok eq_refl).
  wp. eapply wpc_mono; [by apply unstage_marked|]. intros r st2 (Hm & Hfree2).
  destruct r as [[]|e]; [|split; [by apply is_marked|]; intros Hf; by specialize (Hfree2 Hf)].
  wp. wp. rewrite (pp_target_parent PP). cbn. wp. pose proof Hm as (_ & Hbf & Hdir).
  apply wpc_sync_dir; [by apply is_marked|by apply recovers_fault, is_marked|]. rewrite is_dir_kept by done.
  apply wpc_command; [by apply recovers_fault, is_marked|]. rewrite marked_back by done.
  assert (Hi : Idle (mkSt db0 (st_fs st2))) by done. split; [by left|]. split; [by left|]. intros _. split; [done|by left].
Qed.

Lemma drop_committed (present : Fs -> string -> bool) faulty st x :
  Committed st -> x = backup -> (forall i f, names (st_fs st) !! x = Some (NFile i) -> inodes (st_fs st) !! i = Some f -> present (st_fs st) x = true) ->
  (names (st_fs st) !! x = None -> present (st_fs st) x = false) ->
  wpc faulty phase (remove_if present x)
    (fun r st' => Committed st' /\ (previous_gone st -> previous_gone st') /\
       (r = Ok tt -> names (st_fs st') !! backup = None) /\ (faulty = false -> r = Ok tt)) st.
Proof.
  intros Hc -> H1 H0. pose proof Hc as (dbp & item & Hp & Ha & Haf & Hdir). unfold remove_if. wp. wp.
  destruct (a_backup _ Haf) as [Hb|(i & Hi & Hb)].
  - rewrite H0 by done. by wp.
  - destruct (old_known _ _ (a_frame _ Haf) Hi) as (f & _ & Hf). rewrite (H1 i f) by done.
    pose proof (committed_drop st backup Hc (or_introl eq_refl)) as Hc'.
    apply wpc_file_op; [by intros ->|]. unfold remove_file. rewrite Hb. split; [by apply is_committed|].
    split; [done|]. split; [|split; [|done]].
    + intros Hg x Hx. cbn. destruct own_distinct as (_ & _ & _ & Eq). destruct (Eq x Hx) as (_ & _ & ?).
      rewrite lookup_delete_ne by done. by apply Hg.
    + intros _. cbn. by rewrite lookup_delete_eq.
Qed.

(** The row of a committed placement. *)
Lemma committed_pub dbp item dba : publishing id D db0 = Ok (tt, dbp) -> admit_publication id photo item event dbp = Ok (tt, dba) ->
  exists xs, Recovery.write_scalars Recovery.DETAILS (Some D) = Ok xs /\ with_pub db0 job id k (marked p D xs) dbp /\
    with_pub db0 job id k (committed p D xs) dba.
Proof.
  intros Hp Ha. destruct (publishing_Ok _ _ _ _ _ L _ _ _ Hp) as (xs & Hw & ->). exists xs.
  pose proof (with_pub_start _ _ _ _ _ L) as (_ & Hid & Hj).
  assert (Hm : with_pub db0 job id k (marked p D xs) (set_db_publications (<[k := marked p D xs]> (db_publications db0)) db0))
    by (by split_and!).
  split_and!; [done|done|]. destruct (admit_Ok _ _ _ _ _ _ _ Ha) as (? & ? & ? & ? & ? & ? & ? & ? & ? & ? & ? & ? & ? & ? & ? & ? & Hpub).
  split_and!; [|done|done]. rewrite Hpub. by rewrite (update_lone _ _ _ _ _ L _ _ _ Hm).
Qed.
Lemma clean_committed faulty st : Committed st -> previous_gone st -> names (st_fs st) !! backup = None ->
  wpc faulty phase (command (clean_publication id))
    (fun r st' => (Committed st' \/ Cleaned st') /\ (r = Ok tt -> Cleaned st') /\ (faulty = false -> r = Ok tt)) st.
Proof.
  intros Hc Hg Hb. pose proof Hc as (dbp & item & Hp & Ha & Haf & Hdir).
  destruct (committed_pub _ _ _ Hp Ha) as (xs & _ & _ & Hm).
  apply wpc_command; [by intros ->; split_and!; [left|..]|].
  pose proof (set_details_None _ _ _ _ _ L _ _ Hm) as Hcl. change (clean_publication id (st_db st)) with (Recovery.set_details id None (st_db st)).
  rewrite Hcl. assert (Hcc : Cleaned (mkSt (set_db_publications (<[k := cleaned (committed p D xs)]> (db_publications db0)) (st_db st)) (st_fs st))).
  { exists dbp, item, (st_db st). by split_and!. }
  split; [by apply is_cleaned|]. split; [by right|done].
Qed.
Lemma recover_complete_ok faulty st : Committed st ->
  wpc faulty phase (recover_complete id target next backup d) (recovers faulty) st.
Proof.
  intros Hc. unfold recover_complete. wp. eapply wpc_mono; [by apply cleanup_committed|].
  intros r st1 (Hc1 & Hgone & _ & Hfree).
  destruct r as [[]|e]; [|split; [by apply is_committed|]; intros Hf; by specialize (Hfree Hf)]. specialize (Hgone eq_refl).
  wp. eapply wpc_mono.
  { apply drop_committed; [done|done| |by apply is_file_absent]. intros i f Hi Hf. by eapply is_file_file. }
  intros r st2 (Hc2 & Hgone2 & Hb2 & Hfree2). specialize (Hgone2 Hgone).
  destruct r as [[]|e]; [|split; [by apply is_committed|]; intros Hf; by specialize (Hfree2 Hf)]. specialize (Hb2 eq_refl).
  pose proof Hc2 as (dbp & item & Hp & Ha & Haf & Hdir). wp. unfold remove_if. wp. wp.
  rewrite (is_file_absent _ _ (a_next _ Haf)). wp. eapply wpc_mono; [by apply clean_committed|].
  intros r st3 (Hst & Hok & Hfree3). split.
  - destruct Hst; [by apply is_committed|by apply is_cleaned].
  - intros Hf. split; [by apply Hfree3|]. right. by apply Hok, Hfree3.
Qed.
End Document.

Definition interrupted_in (st : St) (s : PubState) : Prop :=
  s = PPublishing /\ (Marked st \/ Placed st) \/ s = PComplete /\ Committed st.
Lemma interrupted_phase st s : interrupted_in st s -> phase st.
Proof. intros [[_ [|]]|[_ ?]]; [by apply is_marked|by apply is_placed|by apply is_committed]. Qed.
Lemma interrupted_row st s : interrupted_in st s ->
  exists xs q', Recovery.write_scalars Recovery.DETAILS (Some D) = Ok xs /\ with_pub db0 job id k q' (st_db st) /\
    p_details q' = Some xs /\ p_state q' = s.
Proof.
  assert (Hpub : publishing id D db0 = Ok (tt, st_db st) -> exists xs q', Recovery.write_scalars Recovery.DETAILS (Some D) = Ok xs /\
    with_pub db0 job id k q' (st_db st) /\ p_details q' = Some xs /\ p_state q' = PPublishing).
  { intros Hp. destruct (publishing_Ok _ _ _ _ _ L _ _ _ Hp) as (xs & Hw & ->). exists xs, (marked p D xs).
    pose proof (with_pub_start _ _ _ _ _ L) as (_ & Hid & Hj). by split_and!. }
  intros [[-> [(Hp & _)|(Hp & _)]]|[-> (dbp & item & Hp & Ha & _)]]; [by apply Hpub..|].
  destruct (committed_pub _ _ _ Hp Ha) as (xs & Hw & _ & Hm). by exists xs, (committed p D xs).
Qed.
Lemma interrupted_files st s : interrupted_in st s -> safe_destination (st_fs st) root rel = Ok target.
Proof.
  intros [[_ [(_ & Hb & _)|(_ & Ha & _)]]|[_ (? & ? & _ & _ & Ha & _)]]; apply still_safe; try apply Hsafe0.
  - apply (b_frame _ Hb).
  - by apply links_before.
  - apply (a_frame _ Ha).
  - by apply links_after.
  - apply (a_frame _ Ha).
  - by apply links_after.
Qed.
Lemma details_read db' q' xs : with_pub db0 job id k q' db' -> p_details q' = Some xs ->
  Recovery.details db' id db' = Ok (Some (Recovery.read_scalars Recovery.DETAILS xs), db').
Proof.
  intros Hq Hdet. unfold Recovery.details. rewrite (find_lone _ _ _ _ _ L _ _ Hq).
  erewrite bind_run by done. cbn [snd]. by rewrite Hdet.
Qed.
Lemma recover_row_ok dev faulty st s : interrupted_in st s ->
  wpc faulty phase (recover_row sha256 dev (id, s)) (recovers faulty) st.
Proof.
  intros Hst. pose proof (interrupted_phase _ _ Hst) as Hph. pose proof (interrupted_files _ _ Hst) as Hsafe.
  destruct (interrupted_row _ _ Hst) as (xs & q' & Hw & Hq & Hdet & _). unfold D in Hw.
  destruct (details_survive _ _ _ _ _ _ _ _ _ Hw) as [Hd Hsize]. set (d := Recovery.read_scalars Recovery.DETAILS xs) in *.
  unfold recover_row. wp. apply wpc_query; [done|by apply recovers_fault|]. cbn [fst].
  rewrite (details_read _ _ _ Hq Hdet). cbn [mbind result_bind fst]. fold d.
  wp. wp. cbn [ok_or_err]. rewrite (d_collision _ _ _ _ _ _ _ _ _ Hd), (bool_decide_false (Null = _)) by done.
  unfold path_value. wp. wp. rewrite (d_target _ _ _ _ _ _ _ _ _ Hd). cbn [as_str ok_or_err].
  wp. wp. rewrite (d_backup _ _ _ _ _ _ _ _ _ Hd). cbn [as_str ok_or_err].
  wp. wp. rewrite (d_new _ _ _ _ _ _ _ _ _ Hd). cbn [as_str ok_or_err].
  wp. wp. rewrite (d_root _ _ _ _ _ _ _ _ _ Hd). cbn [as_str ok_or_err].
  wp. wp. rewrite (pp_relative PP). cbn [ok_or_err]. do 4 wp. rewrite Hsafe. wp.
  rewrite (pp_target_parent PP), (pp_backup_parent PP), (pp_next_parent PP), !bool_decide_true by done. cbn [andb]. wp.
  destruct Hst as [[-> Hm]|[-> Hc]].
  - rewrite bool_decide_false by done. by apply recover_publishing_ok.
  - rewrite bool_decide_true by done. by apply recover_complete_ok.
Qed.

Lemma cleaned_interrupted st : Cleaned st -> interrupted job (st_db st) = [].
Proof.
  intros (dbp & item & dba & Hp & Ha & Hcl & _). destruct (committed_pub _ _ _ Hp Ha) as (xs & _ & _ & Hm).
  change (clean_publication id dba) with (Recovery.set_details id None dba) in Hcl.
  rewrite (set_details_None _ _ _ _ _ L _ _ Hm) in Hcl. injection Hcl as <-.
  rewrite (interrupted_lone _ _ _ _ _ L (cleaned (committed p D xs))); [done|]. destruct Hm as (_ & ? & ?). by split_and!.
Qed.

(** Recovery of the job. *)
Lemma recover_interrupted_ok dev faulty st s : interrupted_in st s ->
  wpc faulty phase (recover_publications sha256 dev job) (recovers faulty) st.
Proof.
  intros Hs. pose proof (interrupted_phase _ _ Hs) as Hph. destruct (interrupted_row _ _ Hs) as (xs & q' & _ & Hq & Hdet & Hst).
  unfold recover_publications. wp. apply wpc_query; [done|by apply recovers_fault|]. wp.
  apply wpc_op; [by apply recovers_fault|]. split; [done|]. rewrite (interrupted_lone _ _ _ _ _ L _ _ Hq), Hdet, Hst.
  assert ((bool_decide (s = PPublishing) || bool_decide (s = PComplete)) = true) as -> by (by destruct Hs as [[-> _]|[-> _]]).
  rewrite bool_decide_true by done. cbn [andb io_each]. wp. eapply wpc_mono; [by apply recover_row_ok|].
  intros r st' Hr. destruct r as [[]|e]; [|done]. by wp.
Qed.
Lemma recover_cleaned_ok dev faulty st : Cleaned st ->
  wpc faulty phase (recover_publications sha256 dev job) (recovers faulty) st.
Proof. intros Hc. apply recover_nothing_ok; [by apply is_cleaned|by right|by apply cleaned_interrupted]. Qed.

(** *** Placement *)
Definition placing (r : result unit) (st : St) : Prop := phase st /\ (r = Ok tt -> Cleaned st).
Lemma placing_err e st : phase st -> placing (Err e) st.
Proof. by split. Qed.
Lemma D_described : describes D target next backup root old_meta old_path old_local photo.
Proof. apply placement_described. Qed.
Lemma published_size db' : publishing id D db0 = Ok (tt, db') -> a_size (original photo) <= I64_MAX.
Proof.
  intros Hp. destruct (publishing_Ok _ _ _ _ _ L _ _ _ Hp) as (xs & Hw & _). by destruct (details_survive _ _ _ _ _ _ _ _ _ Hw).
Qed.
Lemma restore_ok faulty st failure : Placed st ->
  wpc faulty phase
    (mine ← look (fun st => matches_published sha256 (st_fs st) target D);
     mine ← checked mine;
     _ ← require mine (error "local file changed before rollback; previous complete backup retained");
     kept ← look (fun st => is_file (st_fs st) backup);
     _ ← (if (kept : bool) then file_op (rename backup target)
          else if negb (bool_decide (is_Some old_meta)) then file_op (remove_file target) else mret tt);
     _ ← sync_dir parent;
     (fail failure : IO unit))
    (fun r st' => phase st' /\ exists e, r = Err e) st.
Proof.
  intros Hp. pose proof Hp as (Hpub & Haf & Hdir & Hq & Hbk). destruct own_in as (Ot & On & Ob & Oq).
  destruct (a_target _ Haf) as (j & g & Ht & Hj & Hj0 & Hg).
  assert (Hph : phase st) by (by apply is_placed).
  assert (Hend : forall st', Marked st' -> wpc faulty phase (_ ← sync_dir parent; (fail failure : IO unit)) (fun r st' => phase st' /\ exists e, r = Err e) st').
  { intros st' Hm. pose proof Hm as (_ & _ & Hdir'). wp. apply wpc_sync_dir; [by apply is_marked|by intros _; split; [apply is_marked|eexists]|].
    rewrite is_dir_kept by done. wp. split; [by apply is_marked|by eexists]. }
  do 4 wp. rewrite (matches_good D D_described (published_size _ Hpub) _ _ _ Ht Hj Hg). do 4 wp.
  destruct Hbk as [Hn|(i & Hi & Hb)].
  - assert (Hb : names (st_fs st) !! backup = None) by (destruct (a_backup _ Haf) as [|(i & Hi & _)]; [done|congruence]).
    rewrite (is_file_absent _ _ Hb). assert (old_meta = None) as -> by (unfold old_meta, symlink_metadata; by rewrite Hn).
    rewrite bool_decide_false by (by intros []). cbn [negb]. wp.
    apply wpc_file_op; [by intros _; split; [|eexists]|]. unfold remove_file. rewrite Ht.
    pose proof (placed_remove _ Hp Hn) as Hm.
    split; [by apply is_marked|]. by apply Hend.
  - destruct (old_known _ _ (a_frame _ Haf) Hi) as (f & Hf0 & Hf). rewrite (proj1 (is_file_file _ _ _ _ Hb Hf)). wp.
    apply wpc_file_op; [by intros _; split; [|eexists]|]. unfold rename. rewrite Hb, Ht. cbn [same_file].
    assert (i <> j) by (intros ->; congruence). rewrite (proj2 (Z.eqb_neq i j)) by done.
    pose proof (placed_restore _ _ Hp Hi Hb) as Hm.
    split; [by apply is_marked|]. by apply Hend.
Qed.
Lemma admit_or_restore_ok faulty item st : Placed st ->
  wpc faulty phase (admit_or_restore sha256 id photo item event target backup parent (bool_decide (is_Some old_meta)) D)
    (fun r st' => phase st' /\ (r = Ok tt -> Committed st')) st.
Proof.
  intros Hp. pose proof Hp as (Hpub & Haf & Hdir & _). unfold admit_or_restore. wp. apply wpc_attempt.
  assert (Hback : forall failure, wpc faulty phase _ (fun r st' => phase st' /\ (r = Ok tt -> Committed st')) st)
    by (intros failure; eapply wpc_mono; [by apply (restore_ok faulty st failure)|]; intros r st' (Hph & e & ->); by split).
  apply wpc_command; [by intros _; apply Hback|].
  destruct (admit_publication id photo item event (st_db st)) as [[[] dba]|e] eqn:Ha; [|by apply Hback].
  assert (Hc : Committed (mkSt dba (st_fs st))) by (by exists (st_db st), item). split; [by apply is_committed|].
  wp. split; [by apply is_committed|done].
Qed.

Lemma swap_placed st f : Marked st -> staged (st_fs st) f -> good f ->
  names fs0 !! target = None \/ is_old (st_fs st) backup ->
  exists fs', rename next target (st_fs st) = Ok fs' /\ Placed (set_fs fs' st).
Proof.
  intros (Hpub & Hbf & Hdir) (j & Hn & Hj & Hj0) Hg Hold. destruct own_in as (Ot & On & Ob & Oq).
  destruct own_distinct as (Etn & Etb & Enb & Eq).
  exists (set_names (<[target := NFile j]> (delete next (names (st_fs st)))) (st_fs st)). split.
  - unfold rename. rewrite Hn, (b_target _ Hbf). destruct Htarget0 as [->|[i Hi]]; [done|]. rewrite Hi. cbn [same_file].
    destruct (old_known _ _ (b_frame _ Hbf) Hi) as (g & Hg0 & _).
    assert (j <> i) by (intros ->; congruence). by rewrite (proj2 (Z.eqb_neq j i)).
  - split_and!; [done|by eapply swap_after|apply dir_kept; [done|by apply move_kept]|..].
    + intros x Hx. destruct (Eq x Hx) as (? & ? & ?). cbn. rewrite lookup_insert_ne, lookup_delete_ne by done. by apply (b_q _ Hbf).
    + destruct Hold as [|(i & Hi & Hb)]; [by left|right]. exists i. split; [done|]. cbn. by rewrite lookup_insert_ne, lookup_delete_ne.
Qed.
(** The steps after the commit. *)
Lemma finish_ok faulty st : Committed st ->
  wpc faulty phase
    (kept ← look (fun st => path_exists (st_fs st) backup);
     _ ← (if (kept : bool) then _ ← file_op (remove_file backup); sync_dir parent else mret tt);
     _ ← cleanup_renamed_source D;
     command (clean_publication id)) placing st.
Proof.
  intros Hc. pose proof Hc as (dbp & item & Hpub & Ha & Haf & Hdir).
  assert (Htail : forall st', Committed st' -> names (st_fs st') !! backup = None ->
    wpc faulty phase (_ ← cleanup_renamed_source D; command (clean_publication id)) placing st').
  { intros st' Hc' Hb'. wp. eapply wpc_mono; [by apply (cleanup_committed D D_described)|].
    intros r st2 (Hc2 & Hgone & Hb2 & _). destruct r as [[]|e]; [|by apply placing_err, is_committed].
    eapply wpc_mono; [apply clean_committed; by auto|]. intros r st3 (Hst & Hok & _).
    split; [|by intros ->; apply Hok]. destruct Hst; [by apply is_committed|by apply is_cleaned]. }
  wp. wp. destruct (a_backup _ Haf) as [Hb|(i & Hi & Hb)].
  { rewrite path_exists_absent by done. wp. wp. by apply Htail. }
  destruct (old_known _ _ (a_frame _ Haf) Hi) as (f & _ & Hf). rewrite (proj2 (is_file_file _ _ _ _ Hb Hf)). wp. wp.
  pose proof (committed_drop st backup Hc (or_introl eq_refl)) as Hc'.
  apply wpc_file_op; [by intros _; apply placing_err, is_committed|]. unfold remove_file. rewrite Hb. split; [by apply is_committed|].
  pose proof Hc' as (_ & _ & _ & _ & _ & Hdir').
  apply wpc_sync_dir; [by apply is_committed|by intros _; apply placing_err, is_committed|].
  rewrite is_dir_kept by done. apply Htail; [done|]. cbn. by rewrite lookup_delete_eq.
Qed.
(** From the recorded intent with the previous file kept aside to the end. *)
Lemma swap_ok faulty had st item f : had = bool_decide (is_Some old_meta) -> Marked st -> staged (st_fs st) f -> good f ->
  names fs0 !! target = None \/ is_old (st_fs st) backup ->
  wpc faulty phase (_ ← file_op (rename next target); _ ← sync_dir parent;
    _ ← admit_or_restore sha256 id photo item event target backup parent had D;
    kept ← look (fun st => path_exists (st_fs st) backup);
    _ ← (if (kept : bool) then _ ← file_op (remove_file backup); sync_dir parent else mret tt);
    _ ← cleanup_renamed_source D; command (clean_publication id)) placing st.
Proof.
  intros -> Hm Hst Hg Hold. destruct (swap_placed _ _ Hm Hst Hg Hold) as (fs' & Hr & Hp').
  pose proof (is_marked _ Hm). pose proof (is_placed _ Hp').
  wp. apply wpc_file_op; [by intros _; apply placing_err|]. rewrite Hr. split; [done|].
  pose proof Hp' as (_ & _ & Hd' & _). wp. apply wpc_sync_dir; [done|by intros _; apply placing_err|].
  rewrite is_dir_kept by done. wp. eapply wpc_mono; [by apply admit_or_restore_ok|]. intros r st2 (Hph2 & Hok).
  destruct r as [[]|e]; [|by apply placing_err]. by apply finish_ok, Hok.
Qed.
Lemma place_ok faulty st item f : Idle st -> has_dir (st_fs st) -> staged (st_fs st) f -> good f -> names (st_fs st) !! backup = None ->
  wpc faulty phase (place sha256 id photo item event target next backup parent old_meta D) placing st.
Proof.
  intros [Hdb Hbf] Hdir Hst Hg Hb. assert (Hidle : phase st) by (by left). unfold place. wp.
  apply wpc_command; [by intros _; apply placing_err|]. rewrite Hdb.
  destruct (publishing id D db0) as [[[] dbp]|e] eqn:Hpub; [|by apply placing_err].
  set (st1 := mkSt dbp (st_fs st)). assert (Hm : Marked st1) by done. pose proof (is_marked _ Hm) as Hph. split; [done|].
  wp. apply wpc_op; [by intros _; apply placing_err|]. split; [done|].
  wp. wp. wp. apply wpc_require; [intros _|by intros _; apply placing_err].
  wp. destruct had_old as [[Hnone Hn]|(i & g & Hi & Hgi & Hsome)].
  { assert (E : bool_decide (is_Some old_meta) = false) by (apply bool_decide_false; rewrite Hnone; by intros []).
    rewrite E. wp. apply (swap_ok _ _ _ _ f); [done|exact Hm|exact Hst|done|by left]. }
  assert (E : bool_decide (is_Some old_meta) = true) by (apply bool_decide_true; rewrite Hsome; by eexists).
  rewrite E. wp. apply wpc_file_op; [by intros _; apply placing_err|].
  assert (Ht : names (st_fs st) !! target = Some (NFile i)) by (by rewrite (b_target _ Hbf)).
  assert (Hl : hard_link target backup (st_fs st1) = Ok (set_names (<[backup := NFile i]> (names (st_fs st))) (st_fs st)))
    by (unfold hard_link; cbn [st1 st_fs]; by rewrite Ht, Hb).
  rewrite Hl. set (st2 := set_fs _ st1). destruct own_in as (Ot & On & Ob & Oq). destruct own_distinct as (Etn & Etb & Enb & Eq).
  assert (Hm2 : Marked st2).
  { split_and!; [done|by apply before_link|]. apply dir_kept; [done|]. intros x Hx. rewrite lookup_insert_ne; [done|]. by intros ->. }
  pose proof (is_marked _ Hm2). split; [done|]. pose proof Hm2 as (_ & _ & Hdir2).
  apply wpc_sync_dir; [done|by intros _; apply placing_err|]. rewrite is_dir_kept by done.
  apply (swap_ok _ _ _ _ f); [done|done| |done|].
  - destruct Hst as (j & Hn & Hj & Hj0). exists j. split_and!; [|done|done]. cbn. by rewrite lookup_insert_ne.
  - right. exists i. split; [done|]. cbn. by rewrite lookup_insert_eq.
Qed.

End Phases.

(** ** Publishing from a waiting intent *)
Section Publish.
Context (sha256 : list Z -> list Z) (file_uri : string -> string) (extract : string -> list Z -> result Extracted).
Context (import_thumbnails : string -> Z -> list Z -> bool) (timestamp_ok millis_ok : Z -> bool).
Context (event : EditEvent) (photo : RemotePhoto) (original_path thumbnail_path : string).
Context (job : Z) (id : string) (k : Z) (p : Publication).
Context (db0 : Db) (fs0 : Fs) (L : lone db0 job id k p) (Hwf0 : wf fs0).
Context (root rel target next backup parent : string) (old_path q : option string).
Context (PP : placed_paths fs0 root rel target next backup parent old_path q).
Context (Hnext0 : names fs0 !! next = None) (Hbackup0 : names fs0 !! backup = None).
Notation phase := (phase sha256 event photo original_path id db0 fs0 root rel target next backup parent old_path q).
Notation placing := (placing sha256 event photo original_path id db0 fs0 root rel target next backup parent old_path q).
Notation Copied := (Copied db0 fs0 target next backup q).
Notation good := (good sha256 photo original_path fs0).
Notation recovers := (recovers sha256 event photo original_path id db0 fs0 root rel target next backup parent old_path q).

(** Recovery, from any phase. *)
Lemma recover_publications_ok dev faulty st : phase st ->
  wpc faulty phase (recover_publications sha256 dev job) (recovers faulty) st.
Proof.
  intros [Hi|[[Hs Ht] [Hm|[Hp|[Hc|Hc]]]]].
  - eapply recover_nothing_ok; try done; [by left|by left|by eapply idle_interrupted].
  - eapply recover_interrupted_ok; try done. left. split; [done|by left].
  - eapply recover_interrupted_ok; try done. left. split; [done|by right].
  - eapply recover_interrupted_ok; try done. right. by split.
  - by eapply recover_cleaned_ok.
Qed.

Lemma copied_phase st f : Copied st f -> phase st.
Proof. intros (Hi & _). by left. Qed.
Lemma copied_err e st f : Copied st f -> placing (Err e) st.
Proof. intros Hc. split; [by eapply copied_phase|done]. Qed.
Lemma drop_copy_ok faulty st f e : Copied st f ->
  wpc faulty phase (_ ← attempt (file_op (remove_file next)); (fail e : IO unit)) placing st.
Proof.
  intros Hc. pose proof Hc as ([Hdb Hb] & Hbk & j & Hn & Hj & _). pose proof (copied_phase _ _ Hc) as Hph.
  wp. apply wpc_attempt, wpc_file_op; [intros _; wp; by split|]. unfold remove_file. rewrite Hn.
  assert (Hi : phase (set_fs (set_names (delete next (names (st_fs st))) (st_fs st)) st)).
  { left. split; [done|]. by eapply before_unstage. }
  split; [done|]. wp. by split.
Qed.
Lemma copied_old_meta st f : Copied st f -> symlink_metadata (st_fs st) target = old_meta fs0 target.
Proof.
  intros ([_ [Hf Ht _ _ _]] & _). unfold old_meta, symlink_metadata. rewrite Ht.
  destruct (names fs0 !! target) as [[i|?|?]|] eqn:E; try done. cbn. destruct (proj1 Hwf0 _ _ E) as [g Hg].
  by rewrite Hg, (fr_inodes Hf _ _ Hg).
Qed.
Lemma regular_old_meta : bool_decide (is_Some (old_meta fs0 target)) && negb (bool_decide (file_type <$> old_meta fs0 target = Some IsFile)) = false ->
  names fs0 !! target = None \/ exists i, names fs0 !! target = Some (NFile i).
Proof.
  unfold old_meta, symlink_metadata. destruct (names fs0 !! target) as [[i|?|?]|]; cbn; try done; [by right; eexists|by left].
Qed.
Lemma copied_old_local st f : Copied st f -> names fs0 !! target = None \/ (exists i, names fs0 !! target = Some (NFile i)) ->
  (x ← old_path; metadata (st_fs st) x) = old_local fs0 old_path.
Proof.
  intros Hc Ht. pose proof Hc as ([_ [Hf Htt Hq _ _]] & _). unfold old_local. pose proof (pp_q _ _ _ _ _ _ _ _ _ PP) as Hqq.
  assert (Hsame : forall x, names (st_fs st) !! x = names fs0 !! x -> (names fs0 !! x = None \/ exists i, names fs0 !! x = Some (NFile i)) ->
    metadata (st_fs st) x = symlink_metadata fs0 x).
  { intros x Hx Hreg. rewrite metadata_plain by (rewrite Hx; intros; destruct Hreg as [->|[i ->]]; done).
    unfold symlink_metadata. rewrite Hx. destruct Hreg as [->|[i Hi]]; [done|]. rewrite Hi. cbn.
    destruct (proj1 Hwf0 _ _ Hi) as [g Hg]. by rewrite Hg, (fr_inodes Hf _ _ Hg). }
  destruct old_path as [x|]; [|done]. cbn in *. case_bool_decide as Hx.
  - subst x. by apply Hsame.
  - apply Hsame; [by apply Hq|]. by apply (pp_previous _ _ _ _ _ _ _ _ _ PP x Hqq).
Qed.
Lemma set_time_ok faulty st f expected : Copied st f -> has_dir parent (st_fs st) ->
  wpc faulty phase (match expected with Some t => file_op (set_modified next t) | None => mret tt end)
    (fun r st' => exists f', Copied st' f' /\ f_bytes f' = f_bytes f /\ has_dir parent (st_fs st')) st.
Proof.
  intros Hc Hdir. destruct expected as [t|]; [|wp; by exists f]. apply wpc_file_op; [by exists f|].
  destruct (rewrite_copied _ _ _ _ _ _ _ _ (mkFile (f_bytes f) t) Hc) as (i & Hi & Hfi & Hc').
  assert (Hs : set_modified next t (st_fs st) = Ok (set_inodes (<[i := mkFile (f_bytes f) t]> (inodes (st_fs st))) (st_fs st))).
  { unfold set_modified. rewrite resolve_plain by (intros; congruence). cbn [mbind result_bind ok_or_err]. rewrite Hi.
    do 2 f_equal. apply map_eq. intros x. destruct (decide (x = i)) as [->|];
      [by rewrite lookup_alter_eq, lookup_insert_eq, Hfi|by rewrite lookup_alter_ne, lookup_insert_ne]. }
  rewrite Hs. split; [by eapply copied_phase|]. by eexists.
Qed.
Context (Hsafe0 : safe_destination fs0 root rel = Ok target).
(** The previous path is the path of the entry's media row. *)
Context (Hrow : forall b r, placement_row job (photo_id photo) db0 = Ok (b, r) -> old_path = (fun x => m_path x.2) <$> r).
Lemma publish_copied_ok faulty capture st f : Copied st f -> good f -> has_dir parent (st_fs st) ->
  wpc faulty phase (publish_copied sha256 file_uri extract import_thumbnails timestamp_ok millis_ok
    event photo root thumbnail_path job id capture target next backup parent) placing st.
Proof.
  intros Hc Hg Hdir. unfold publish_copied. wp. wp. rewrite (copied_old_meta _ _ Hc).
  destruct (bool_decide _ && _) eqn:Hreg; [by eapply drop_copy_ok|]. apply regular_old_meta in Hreg. wp.
  pose proof Hc as ([Hdb _] & _). apply wpc_query; [by eapply copied_phase|by intros _; eapply copied_err|]. rewrite Hdb.
  pose proof Hrow as Hop. destruct (placement_row job (photo_id photo) db0) as [[b r]|e]; [|by eapply copied_err].
  specialize (Hop b r eq_refl).
  wp. wp. cbn [fst snd]. destruct (expected_mtime _ r) as [expected|e]; [|by eapply copied_err]. wp.
  eapply wpc_mono; [by apply set_time_ok|]. intros r1 st1 (f1 & Hc1 & Hbytes & Hdir1). destruct r1 as [[]|e]; [|by eapply copied_err].
  wp. apply wpc_op; [by intros _; eapply copied_err|]. destruct (path_exists _ _); [|by eapply copied_err].
  split; [by eapply copied_phase|]. cbv zeta. rewrite <- Hop.
  destruct (bool_decide _ && _); [by eapply drop_copy_ok|]. wp. wp. wp. wp.
  destruct (metadata (st_fs st1) next); [|by eapply copied_err]. wp. wp. wp. wp.
  destruct (read (st_fs st1) thumbnail_path); [|by eapply copied_err]. wp.
  apply wpc_require; [intros _|by intros _; eapply copied_err]. wp. wp. wp. wp.
  destruct (media_item _ _ _ _ _ _ _) as [item|e]; [|by eapply copied_err]. wp. wp.
  rewrite (copied_old_local _ _ Hc1 Hreg). pose proof Hc1 as (Hi1 & Hb1 & Hs1).
  eapply place_ok; try done. unfold Safety.good in *. by rewrite Hbytes.
Qed.
End Publish.

(** ** Names of the copies *)
Notation plain_chars_of u := (forallb plain_char (String.list_ascii_of_string u) = true).
Lemma next_name_plain u target : plain_chars_of u -> plain_name (next_name u target) = true.
Proof.
  intros Hu. unfold plain_name, next_name. rewrite append_cons at 1. cbn [Runtime.skippable negb andb].
  apply plain_append; [done|]. apply plain_append; [done|]. apply plain_append; [done|].
  destruct (Media.extension target) as [e|] eqn:E; [by eapply extension_plain|done].
Qed.
Lemma backup_name_plain u : plain_chars_of u -> plain_name (backup_name u) = true.
Proof.
  intros Hu. unfold plain_name, backup_name. rewrite append_cons at 1. cbn [Runtime.skippable negb andb].
  apply plain_append; [done|]. by apply plain_append.
Qed.
Lemma dirs_of_abs l x : l <> [] -> plains l -> x ∈ dirs_of (abs l) -> exists n, (1 <= n <= length l)%nat /\ x = abs (take n l).
Proof.
  intros Hl Pl. unfold dirs_of. rewrite split_abs by done. rewrite list_elem_of_fmap. intros (n & -> & Hn%elem_of_seq).
  exists n. split; [lia|done].
Qed.
Lemma dirs_of_last l : l <> [] -> plains l -> head (reverse (dirs_of (abs l))) = Some (abs l).
Proof.
  intros Hl Pl. unfold dirs_of. rewrite split_abs by done. destruct l as [|c l]; [done|]. cbn [length].
  rewrite seq_S, fmap_app, reverse_app. cbn [fmap list_fmap reverse rev_append app head]. do 3 f_equal.
  rewrite firstn_all2; [done|]. cbn. lia.
Qed.
Lemma descend_parent fs l cs c d : l <> [] -> plains l -> plains cs -> plain_name c = true -> is_symlink fs (abs l) = false ->
  descend fs (abs l) (Normal <$> (cs ++ [c])) = Ok d -> is_symlink fs (abs (l ++ cs)) = false.
Proof.
  intros Hl Pl Pc Hc. revert l Hl Pl. induction Pc as [|x cs Hx Pc IH]; intros l Hl Pl Hsl; [by rewrite app_nil_r|].
  cbn. rewrite path_join_abs by done. destruct (is_symlink fs (abs (l ++ [x]))) eqn:E; [done|]. intros Hd.
  rewrite (cons_middle x l cs), app_assoc. apply IH; [by destruct l|by apply Forall_app; repeat constructor|done|done].
Qed.

(** ** Atomic publication *)
Section Atomic.
Context (sha256 : list Z -> list Z) (file_uri : string -> string) (extract : string -> list Z -> result Extracted).
Context (import_thumbnails : string -> Z -> list Z -> bool) (timestamp_ok millis_ok : Z -> bool).
Context (dev now : Z) (uuid_new uuid_old : string) (event : EditEvent) (photo : RemotePhoto).
Context (root original_path thumbnail_path : string) (job : Z) (id rel : string) (st0 : St).
Notation db0 := (st_db st0).
Notation fs0 := (st_fs st0).

(** The destination and the two hidden names beside it. *)
Definition target_path : string := path_join root rel.
Definition parent_path : string := default ""%string (path_parent target_path).
Definition next_path : string := path_join parent_path (next_name uuid_new target_path).
Definition backup_path : string := path_join parent_path (backup_name uuid_old).
(** The path of the entry's media row. *)
Definition previous_path : option string :=
  match placement_row job (photo_id photo) db0 with Ok (_, r) => (fun x => m_path x.2) <$> r | Err _ => None end.
Definition renamed_from : option string :=
  x ← previous_path; if bool_decide (x = target_path) then None else Some x.

(** A previous file of the library: regular or gone, under the root without
    links, in a directory, and not in the way of the new file. *)
Definition library_file (x : string) : Prop :=
  (names fs0 !! x = None \/ exists i, names fs0 !! x = Some (NFile i)) /\
  (exists relx dest, relative_to root x = Some relx /\ safe_destination fs0 root relx = Ok dest) /\
  (exists px l m, path_parent x = Some px /\ px <> target_path /\ names fs0 !! px = Some (NDir l m)) /\
  x <> next_path /\ x <> backup_path /\ x ∉ dirs_of parent_path.
(** The state in which a transfer publishes: the publication waits and is the
    only one of its job that recovery would look at; the photo is one that
    graph validation accepts; the hidden names are unused. *)
Record ready : Prop := {
  rd_wf : wf fs0;
  rd_lone : exists k p, lone db0 job id k p;
  rd_capture : exists doc, Recovery.capture db0 id = Some doc /\ publication_relative (Recovery.cap_scalars doc) photo = Ok rel;
  rd_path : Records.is_safe_relative_path rel = true;
  rd_root : exists rc, rc <> [] /\ plains rc /\ root = abs rc;
  rd_digest : Content.hex_from_descriptor_base64 (file_checksum (original photo)) = Some (thumbnail_source_sha256 photo);
  rd_uuids : plain_chars_of uuid_new /\ plain_chars_of uuid_old;
  rd_unused : names fs0 !! next_path = None /\ names fs0 !! backup_path = None;
  rd_distinct : NoDup [target_path; next_path; backup_path];
  rd_previous : forall x, renamed_from = Some x -> library_file x
}.

(** The same node with the same content, or a directory that was made. *)
Definition kept (fs : Fs) (x : string) : Prop :=
  names fs !! x = names fs0 !! x /\ (forall i, names fs0 !! x = Some (NFile i) -> inodes fs !! i = inodes fs0 !! i) \/
  names fs0 !! x = None /\ exists l m, names fs !! x = Some (NDir l m).
(** Nothing happened. *)
Definition untouched (st : St) : Prop :=
  st_db st = db0 /\ forall x, x <> next_path -> x <> backup_path -> kept (st_fs st) x.
(** The photo is published: the commands took effect one after the other, the
    target holds the verified original, the previous path and the hidden names
    are gone, and everything else is as it was. *)
Definition published (st : St) : Prop :=
  (exists details dbp item dba, publishing id details db0 = Ok (tt, dbp) /\ admit_publication id photo item event dbp = Ok (tt, dba) /\
     clean_publication id dba = Ok (tt, st_db st)) /\
  (exists bytes, read fs0 original_path = Some bytes /\ read (st_fs st) target_path = Some bytes /\
     Z.of_nat (length bytes) = a_size (original photo) /\ Content.to_hex (sha256 bytes) = thumbnail_source_sha256 photo) /\
  names (st_fs st) !! next_path = None /\ names (st_fs st) !! backup_path = None /\
  (forall x, renamed_from = Some x -> names (st_fs st) !! x = None) /\
  (forall x, x <> target_path -> x <> next_path -> x <> backup_path -> renamed_from <> Some x -> kept (st_fs st) x).

Notation publish := (publish_pair sha256 file_uri extract import_thumbnails timestamp_ok millis_ok now
  uuid_new uuid_old event photo root original_path thumbnail_path job id).
Notation phase := (phase sha256 event photo original_path id db0 fs0 root rel target_path next_path backup_path parent_path previous_path renamed_from).

Context (R : ready).
(** The destination split into names. *)
Lemma ready_names : exists rc ic c, rc <> [] /\ plains rc /\ plains ic /\ plain_name c = true /\ ".."%string ∉ ic ++ [c] /\
  rel = Runtime.join_slash (ic ++ [c]) /\ root = abs rc /\ target_path = abs ((rc ++ ic) ++ [c]) /\ parent_path = abs (rc ++ ic) /\
  next_path = abs ((rc ++ ic) ++ [next_name uuid_new target_path]) /\ backup_path = abs ((rc ++ ic) ++ [backup_name uuid_old]).
Proof.
  destruct (rd_root R) as (rc & Hrc & Prc & Hroot). destruct (safe_relative _ (rd_path R)) as (cs & Hcs & Pcs & Hup & Hrel).
  destruct (rd_uuids R) as [Hun Huo]. destruct cs as [|c ic _] using rev_ind; [done|]. apply Forall_app in Pcs as [Pic [Pc _]%Forall_cons].
  assert (Ht : target_path = abs ((rc ++ ic) ++ [c])).
  { unfold target_path, path_join. rewrite <- Hrel. assert (Hp : String.prefix "/" (Runtime.join_slash (ic ++ [c])) = false).
    { pose proof (rd_path R) as Hsafe. unfold Records.is_safe_relative_path in Hsafe. rewrite Hrel.
      destruct (_ || _) eqn:E in Hsafe; [done|]. apply orb_false_elim in E as [E _]. by apply orb_false_elim in E as [_ E]. }
    rewrite Hp, Hroot. rewrite bool_decide_false by done. unfold abs at 1. rewrite ends_with_slash_app by by apply join_nonempty.
    rewrite join_no_slash_end by done. cbn [orb]. unfold abs. rewrite <- app_assoc. rewrite (join_app rc) by done. by rewrite append_assoc. }
  assert (Hd : rc ++ ic <> []) by (by destruct rc). assert (Pd : plains (rc ++ ic)) by (by apply Forall_app).
  assert (Hp : parent_path = abs (rc ++ ic)) by (unfold parent_path; by rewrite Ht, path_parent_abs).
  exists rc, ic, c. split_and!; try done.
  - unfold next_path. rewrite Hp. by rewrite path_join_abs by (try done; by apply next_name_plain).
  - unfold backup_path. rewrite Hp. by rewrite path_join_abs by (try done; by apply backup_name_plain).
Qed.
Lemma abs_length l m : l <> [] -> m <> [] -> plains l -> plains m -> length l <> length m -> abs l <> abs m.
Proof. intros ? ? ? ? Hlen Heq%abs_inj; try done. by subst. Qed.
Lemma append_nil s : (s +:+ "" = s)%string.
Proof. induction s as [|c s IH]; [done|]. by rewrite append_cons, IH. Qed.
Lemma relative_to_self rc : rc <> [] -> plains rc -> relative_to (abs rc) (abs rc) = None.
Proof.
  intros Hrc Prc. unfold relative_to, Runtime.relative_segments, under_root.
  rewrite rtrim_slash_id by (unfold abs; rewrite ends_with_slash_app by (by apply join_nonempty); by apply join_no_slash_end).
  destruct (strip_prefix _ _) as [z|] eqn:E; [|done]. apply strip_prefix_Some in E. rewrite append_assoc in E.
  rewrite <- (append_nil (abs rc)) in E at 1. by apply (inj (String.append (abs rc))) in E.
Qed.
Lemma ready_paths : placed_paths fs0 root rel target_path next_path backup_path parent_path previous_path renamed_from.
Proof.
  destruct ready_names as (rc & ic & c & Hrc & Prc & Pic & Pc & Hup & Hrel & Hroot & Ht & Hp & Hn & Hb).
  destruct (rd_uuids R) as [Hun Huo]. pose proof (next_name_plain uuid_new target_path Hun) as Pn. pose proof (backup_name_plain _ Huo) as Pb.
  assert (Hd : rc ++ ic <> []) by (by destruct rc). assert (Pd : plains (rc ++ ic)) by (by apply Forall_app).
  assert (Hx : forall x, renamed_from = Some x -> x <> target_path).
  { unfold renamed_from. intros x. destruct previous_path as [y|]; [|done]. cbn. case_bool_decide; [done|]. by intros [= <-]. }
  assert (Hprev : forall x, renamed_from = Some x -> library_file x) by apply (rd_previous R).
  assert (Hfile : forall z, plain_name z = true -> plains ((rc ++ ic) ++ [z]) /\ (rc ++ ic) ++ [z] <> []).
  { intros z Hz. split; [apply Forall_app; by repeat constructor|by destruct (rc ++ ic)]. }
  assert (Hout : forall z, z <> target_path -> z <> next_path -> z <> backup_path -> (forall x, renamed_from = Some x -> z <> x) ->
    z ∉ own target_path next_path backup_path renamed_from).
  { intros z ? ? ? Hz [|[|[|]]]%elem_of_own; try done. by eapply Hz. }
  split.
  - pose proof (rd_distinct R) as Hd3. unfold own. destruct renamed_from as [x|]; [|done].
    destruct (Hprev x eq_refl) as (_ & _ & _ & ? & ? & _). specialize (Hx x eq_refl).
    apply NoDup_app. split_and!; [done| |apply NoDup_singleton]. set_solver.
  - apply Hout; rewrite ?Ht, ?Hn, ?Hb, Hroot.
    1-3: apply abs_length; try apply Hfile; try done; rewrite !length_app; cbn; lia.
    intros x Hxx <-. destruct (Hprev _ Hxx) as (_ & (relx & dest & Hr & _) & _). by rewrite Hroot, relative_to_self in Hr.
  - apply Hout; rewrite ?Ht, ?Hn, ?Hb, Hp.
    1-3: apply abs_length; try apply Hfile; try done; rewrite !length_app; cbn; lia.
    intros x Hxx <-. destruct (Hprev _ Hxx) as (_ & _ & _ & _ & _ & Hdirs). apply Hdirs. rewrite Hp.
    pose proof (dirs_of_last _ Hd Pd) as Hl. apply head_Some_elem_of in Hl. by rewrite elem_of_reverse in Hl.
  - rewrite Hroot, Ht, Hrel, <- app_assoc. unfold relative_to. rewrite relative_segments_abs; try done; [by destruct ic|].
    apply Forall_app. by repeat constructor.
  - rewrite Ht, Hp. by apply path_parent_abs.
  - rewrite Hn, Hp. by apply path_parent_abs.
  - rewrite Hb, Hp. by apply path_parent_abs.
  - done.
  - intros x Hxx. destruct (Hprev _ Hxx) as (Hreg & Hrelx & (px & l & m & Hpx & Hpt & Hdir) & _ & _ & _).
    split_and!; [done|done|]. exists px, l, m. split_and!; [done| |done]. destruct (rd_unused R) as [Hun0 Hub0].
    apply Hout; [done|congruence|congruence|]. intros y Hy ->. rewrite Hxx in Hy. injection Hy as <-.
    destruct Hreg as [|[i ?]]; congruence.
Qed.

(** A verified original is the content to place. *)
Lemma verified_good bytes_ok : verify_descriptor sha256 fs0 original_path (original photo) = Ok bytes_ok ->
  exists bytes, read fs0 original_path = Some bytes /\ forall m, good sha256 photo original_path fs0 (mkFile bytes m).
Proof.
  unfold verify_descriptor, verify_file. rewrite (rd_digest R). cbn [ok_or_err mbind result_bind].
  destruct (symlink_metadata fs0 original_path); [|done]. case_bool_decide; [done|]. unfold digest_file.
  destruct (is_file fs0 original_path); [|done]. destruct (read fs0 original_path) as [bytes|] eqn:Hr; [|done]. cbn.
  destruct (Z.of_nat (length bytes) =? a_size (original photo)) eqn:Hs; [|done]. cbn. case_bool_decide as Hh; [|done].
  intros _. exists bytes. split; [done|]. zbool. intros t. unfold good. by split_and!.
Qed.
Lemma parent_not_link d : safe_destination fs0 root rel = Ok d -> forall to l m, names fs0 !! parent_path <> Some (NLink to l m).
Proof.
  destruct ready_names as (rc & ic & c & Hrc & Prc & Pic & Pc & Hup & Hrel & Hroot & _ & Hp & _ & _).
  intros Hd to l m Hl. unfold safe_destination in Hd. destruct (_ || _); [done|].
  destruct (symlink_metadata fs0 root) as [mr|] eqn:Hr; [|done]. case_bool_decide as Hlink; [done|].
  rewrite Hrel, path_components_plain, Hroot in Hd; [|by destruct ic|apply Forall_app; by repeat constructor|done].
  apply descend_parent in Hd; [|done..|].
  - assert (Hs : is_symlink fs0 (abs (rc ++ ic)) = true) by (apply is_symlink_spec; rewrite <- Hp; eauto). congruence.
  - unfold is_symlink. apply bool_decide_false. rewrite <- Hroot, Hr. cbn. congruence.
Qed.
Lemma dirs_outside : Forall (fun x => x ∉ own target_path next_path backup_path renamed_from) (reverse (dirs_of parent_path)).
Proof.
  destruct ready_names as (rc & ic & c & Hrc & Prc & Pic & Pc & Hup & Hrel & Hroot & Ht & Hp & Hn & Hb).
  destruct (rd_uuids R) as [Hun Huo]. pose proof (next_name_plain uuid_new target_path Hun) as Pn. pose proof (backup_name_plain _ Huo) as Pb.
  assert (Hd : rc ++ ic <> []) by (by destruct rc). assert (Pd : plains (rc ++ ic)) by (by apply Forall_app).
  apply Forall_reverse, Forall_forall. intros x Hx Hown. pose proof Hx as Hx0. rewrite Hp in Hx.
  apply dirs_of_abs in Hx as (n & Hn1 & ->); [|done..].
  assert (Hne : forall z, plain_name z = true -> abs (take n (rc ++ ic)) <> abs ((rc ++ ic) ++ [z])).
  { intros z Hz. apply abs_length; [|by destruct (rc ++ ic)|by apply Forall_take|apply Forall_app; by repeat constructor|].
    - intros E%(f_equal length). rewrite length_take in E. cbn in E. lia.
    - rewrite length_take, (length_app (rc ++ ic)). cbn. lia. }
  apply elem_of_own in Hown as [E|[E|[E|E]]].
  - by apply (Hne c Pc); rewrite <- Ht.
  - by apply (Hne _ Pn); rewrite <- Hn.
  - by apply (Hne _ Pb); rewrite <- Hb.
  - by destruct (rd_previous R _ E) as (_ & _ & _ & _ & _ & Hno).
Qed.
Lemma parent_last : head (reverse (dirs_of parent_path)) = Some parent_path.
Proof.
  destruct ready_names as (rc & ic & c & Hrc & Prc & Pic & _ & _ & _ & _ & _ & Hp & _). rewrite Hp.
  apply dirs_of_last; [by destruct rc|by apply Forall_app].
Qed.
Lemma parent_made st d : safe_destination fs0 root rel = Ok d -> Fresh db0 fs0 target_path next_path backup_path renamed_from st ->
  is_dir (st_fs st) parent_path = true -> has_dir parent_path (st_fs st).
Proof.
  intros Hsafe (_ & Hf & _) Hdir. destruct (fr_names Hf parent_path) as [Hn|(_ & l & m & Hn)]; [apply (pp_parent _ _ _ _ _ _ _ _ _ ready_paths)| |by exists l, m].
  pose proof (parent_not_link _ Hsafe) as Hlink. unfold is_dir, is_type in Hdir. apply bool_decide_eq_true in Hdir.
  rewrite metadata_plain in Hdir by (intros; rewrite Hn; apply Hlink). unfold symlink_metadata in Hdir.
  unfold has_dir. destruct (names (st_fs st) !! parent_path) as [[i|to l m|l m]|]; [|done|by exists l, m|done].
  cbn in Hdir. by destruct (inodes (st_fs st) !! i).
Qed.
Lemma publish_ok faulty : wpc faulty phase publish
  (placing sha256 event photo original_path id db0 fs0 root rel target_path next_path backup_path parent_path previous_path renamed_from) st0.
Proof.
  destruct (rd_lone R) as (k & p & L). pose proof ready_paths as PP. destruct (rd_unused R) as [Hn0 Hb0]. pose proof (rd_wf R) as Hwf.
  destruct (rd_capture R) as (doc & Hdoc & Hrel).
  assert (HF : Fresh db0 fs0 target_path next_path backup_path renamed_from st0) by (split_and!; [done|by apply frame_start|done|done]).
  assert (Hph : phase st0) by (left; by eapply fresh_idle).
  assert (Herr : forall e, placing sha256 event photo original_path id db0 fs0 root rel target_path next_path backup_path parent_path previous_path renamed_from (Err e) st0)
    by (by split).
  unfold publish_pair. wp. apply wpc_require; [intros _|done]. do 4 wp.
  destruct (verify_descriptor sha256 fs0 original_path (original photo)) as [u|e] eqn:Hv; [|done].
  destruct (verified_good _ Hv) as (bytes & Hbytes & Hg). do 4 wp.
  destruct (verify_descriptor sha256 fs0 thumbnail_path (thumbnail photo)) as [u'|e]; [|done]. wp.
  apply wpc_query; [done|done|]. rewrite Hdoc. wp. wp. cbn [ok_or_err]. cbv zeta. wp. wp. rewrite Hrel. do 4 wp.
  destruct (safe_destination fs0 root rel) as [d|e] eqn:Hsafe; [|done].
  assert (d = target_path) as ->.
  { destruct ready_names as (rc & ic & c & Hrc & Prc & Pic & Pc & Hup & Hjoin & Hroot & Ht & _). rewrite Ht, <- app_assoc.
    rewrite Hjoin, Hroot in Hsafe. eapply safe_destination_abs; try done; [by destruct ic|]. apply Forall_app. by repeat constructor. }
  wp. wp. rewrite (pp_target_parent _ _ _ _ _ _ _ _ _ PP). cbn [ok_or_err]. wp. unfold create_dir_all.
  eapply wpc_mono; [by eapply create_dirs_ok; [..|apply dirs_outside|]|]. intros r st1 (HF1 & Hdir).
  assert (Hph1 : phase st1) by (left; by eapply fresh_idle). destruct r as [[]|e]; [|by split].
  assert (Hd1 : has_dir parent_path (st_fs st1)) by (eapply parent_made; [done|done|by apply Hdir, parent_last]).
  cbv zeta. wp. fold next_path backup_path. eapply wpc_mono; [by eapply copy_ok|]. intros r st2 (Hph2 & Hok). destruct r as [[]|e]; [|by split].
  destruct (Hok eq_refl) as [Hc Hd2]. eapply publish_copied_ok; try done.
  intros b r Hr. unfold previous_path. by rewrite Hr.
Qed.

(** Every state in which the run or a later recovery stops is in a phase. *)
Lemma stops_phase {A} (m : IO A) Q fl st st' : wpc true phase m Q st -> phase st -> st' ∈ stops m fl st -> phase st'.
Proof.
  intros Hw Hst [->|Hin]%elem_of_cons; [done|]. destruct (Hw fl) as [HC _]; [by left|]. rewrite Forall_forall in HC. by apply HC.
Qed.
Definition interrupted_recovery (a b : St) : Prop := exists fl, b ∈ stops (recover_publications sha256 dev job) fl a.
Lemma recovery_phase st : phase st -> forall faulty, wpc faulty phase (recover_publications sha256 dev job)
  (recovers sha256 event photo original_path id db0 fs0 root rel target_path next_path backup_path parent_path previous_path renamed_from faulty) st.
Proof.
  intros Hst faulty. destruct (rd_lone R) as (k & p & L). destruct (rd_unused R) as [Hn Hb]. pose proof ready_paths as PP.
  pose proof (rd_wf R). by eapply recover_publications_ok.
Qed.
Lemma settled_spec st : settled sha256 event photo original_path id db0 fs0 root target_path next_path backup_path previous_path renamed_from st ->
  untouched st \/ published st.
Proof.
  assert (Hkept : forall fs x, frame fs0 target_path next_path backup_path renamed_from fs ->
    x ∉ own target_path next_path backup_path renamed_from -> kept fs x).
  { intros fs x Hf Hx. destruct (fr_names Hf x Hx) as [He|Hd]; [left|by right]. split; [done|]. intros i Hi.
    destruct (proj1 (rd_wf R) _ _ Hi) as [f Hfi]. by rewrite Hfi, (fr_inodes Hf _ _ Hfi). }
  assert (Hsame : forall fs x, frame fs0 target_path next_path backup_path renamed_from fs -> names fs !! x = names fs0 !! x -> kept fs x).
  { intros fs x Hf Hx. left. split; [done|]. intros i Hi. destruct (proj1 (rd_wf R) _ _ Hi) as [f Hfi]. by rewrite Hfi, (fr_inodes Hf _ _ Hfi). }
  intros [[Hdb [Hf Ht Hq Hb Hn]]|(dbp & item & dba & Hp & Ha & Hc & [Hf (j & f & Ht & Hj & _ & Hg) Hq Hb Hn] & Hbk & Hgone)].
  - left. split; [done|]. intros x Hxn Hxb. destruct (decide (x ∈ own target_path next_path backup_path renamed_from)) as [Ho|Ho]; [|by apply Hkept].
    apply elem_of_own in Ho as [->|[?|[?|Ho]]]; try done; apply Hsame; try done. by apply Hq.
  - right. split_and!; try done.
    + by exists (D photo fs0 root target_path next_path backup_path previous_path), dbp, item, dba.
    + destruct Hg as (? & ? & Hr). exists (f_bytes f). split_and!; [done| |done|done]. by eapply read_file.
    + intros x ? ? ? Hx. apply Hkept; [done|]. intros Ho%elem_of_own. by destruct Ho as [|[|[|]]].
Qed.

(** C3: Publishing a photo is atomic. However [publish_pair] is disturbed (an
    operation on files or database failing at any point, the process stopping
    between any two operations), and however often the recovery that follows is
    disturbed in the same way, one undisturbed [recover_publications] succeeds
    and leaves the library and the database in one of two states: as they were
    before (up to the two hidden names of the placement, and directories it
    created), or with the photo published, that is, its commands committed, the
    verified original at its destination, the hidden names and the previous path
    of a renamed photo gone, and every other name and content untouched. *)
Theorem publication_is_atomic fl st1 st2 :
  st1 ∈ stops publish fl st0 -> rtc interrupted_recovery st1 st2 ->
  o_result (recover_publications sha256 dev job [] st2) = Ok tt /\
  (untouched (o_state (recover_publications sha256 dev job [] st2)) \/
   published (o_state (recover_publications sha256 dev job [] st2))).
Proof.
  intros H1 H2. pose proof (publish_ok true) as Hpub.
  assert (Hst0 : phase st0).
  { destruct (rd_lone R) as (k & p & L). destruct (rd_unused R) as [Hn Hb]. pose proof ready_paths as PP. left.
    eapply fresh_idle; try done. split_and!; [done|apply frame_start, (rd_wf R)|done|done]. }
  pose proof (stops_phase _ _ _ _ _ Hpub Hst0 H1) as Hst1.
  assert (Hst2 : phase st2).
  { clear H1. induction H2 as [|a b c [fl' Hab] _ IH]; [done|]. apply IH. eapply stops_phase; [by apply recovery_phase|done|done]. }
  destruct (recovery_phase _ Hst2 false []) as (_ & _ & _ & Hok); [by right|]. destruct (Hok eq_refl) as [Hr Hs].
  split; [done|]. by apply settled_spec.
Qed.
End Atomic.

(** ** A newer file at the destination *)
Section NewerEdit.
Context (sha256 : list Z -> list Z) (dev : Z) (id : string) (st : St) (d : Value) (target : string).

Ltac refused := intros; split; [reflexivity|eexists; reflexivity].
End NewerEdit.

(** ** Examples *)
Module Sample.
(** The sample photo moves from [/photos/a.jpg] to [/photos/2024/a.jpg]. *)
Definition previous : list Z := [1; 2; 3].
Definition bytes : list Z := repeat 7 11.
Definition sha256 : list Z -> list Z := fun _ => repeat 0 32.
Definition fs : Fs :=
  mkFs (list_to_map [("/photos", NDir 0 0); ("/photos/a.jpg", NFile 1); ("/stage", NDir 0 0); ("/stage/o", NFile 2); ("/stage/t", NFile 3)]%string)
       (list_to_map [(1, mkFile previous 5); (2, mkFile bytes 6); (3, mkFile bytes 6)]) 4.
Definition st : St := mkSt Placement.Sample.ready fs.
Definition event : EditEvent := Placement.Sample.stamp.
Definition photo : RemotePhoto := Projection.Sample.photo.
Definition extract : string -> list Z -> result Extracted := fun _ _ => Ok (mkExtracted "image/jpeg" None None None).
Definition publish : IO unit :=
  publish_pair sha256 (fun p => "file://" +:+ p) extract (fun _ _ _ => true) (fun _ => true) (fun _ => true)
    9 "u1" "u2" event photo "/photos" "/stage/o" "/stage/t" 1 Placement.Sample.pub.
Definition row : Publication :=
  default (mkPub "" 0 None None None None None PPending None None None None) (db_publications (st_db st) !! 1).
Definition recover : IO unit := recover_publications sha256 0 1.
Definition stop (n : nat) : St := default st (stops publish [] st !! n).
(** The user replaces the file after an interruption. *)
Definition edited : St :=
  mkSt (st_db (stop 11)) (set_inodes (<[4 := mkFile [9; 9] 99]> (inodes (st_fs (stop 11)))) (st_fs (stop 11))).
Definition details : Value :=
  match Recovery.details (st_db edited) Placement.Sample.pub (st_db edited) with Ok (Some d, _) => d | _ => Null end.
End Sample.

(** Decidable well-formedness. *)
Definition wf_check (fs : Fs) : bool :=
  forallb (fun pn : string * Node => match pn.2 with NFile i => bool_decide (is_Some (inodes fs !! i)) | _ => true end) (map_to_list (names fs))
  && forallb (fun f : Z * File => f.1 <? next_ino fs) (map_to_list (inodes fs)).
Lemma wf_check_spec fs : wf_check fs = true -> wf fs.
Proof.
  unfold wf_check. intros [H1 H2]%andb_prop. rewrite forallb_forall in H1, H2. split.
  - intros p i Hp. specialize (H1 (p, NFile i)). cbn [snd] in H1. rewrite bool_decide_eq_true in H1. apply H1, list_elem_of_In.
    by apply elem_of_map_to_list.
  - intros i f Hi. specialize (H2 (i, f)). apply Z.ltb_lt, H2, list_elem_of_In. by apply elem_of_map_to_list.
Qed.
Lemma sample_fs_wf : wf Sample.fs.
Proof. apply wf_check_spec. vm_compute. reflexivity. Qed.
Lemma lone_single db job id k p : map_to_list (db_publications db) = [(k, p)] ->
  (p_id p, p_job p, p_state p, p_details p, p_old_snapshot p) = (id, job, PPending, None, None) -> lone db job id k p.
Proof.
  intros Hm [= H1 H2 H3 H4 H5]. assert (Hl : forall i r, db_publications db !! i = Some r <-> i = k /\ r = p).
  { intros i r. rewrite <- elem_of_map_to_list, Hm, list_elem_of_singleton. split; [by intros [= -> ->]|by intros [-> ->]]. }
  split; try done; [by apply Hl| |].
  - by intros i r [-> _]%Hl.
  - by intros i r [-> _]%Hl.
Qed.
Lemma sample_ready : ready "u1" "u2" Sample.photo "/photos" 1 Placement.Sample.pub "2024/a.jpg" Sample.st.
Proof.
  split.
  - exact sample_fs_wf.
  - exists 1, Sample.row. by apply lone_single; vm_compute.
  - exists Placement.Sample.doc. split; vm_compute; reflexivity.
  - vm_compute; reflexivity.
  - exists ["photos"]%string. split; [done|]. split; [by repeat constructor|reflexivity].
  - vm_compute; reflexivity.
  - by split; vm_compute.
  - split; vm_compute; reflexivity.
  - apply (bool_decide_unpack _). by vm_compute.
  - intros x Hx. assert (x = "/photos/a.jpg"%string) as -> by (vm_compute in Hx; congruence). split_and!.
    + right. by exists 1.
    + exists "a.jpg"%string, "/photos/a.jpg"%string. split; vm_compute; reflexivity.
    + exists "/photos"%string, 0, 0. split_and!; vm_compute; done.
    + by vm_compute.
    + by vm_compute.
    + apply (bool_decide_unpack _). by vm_compute.
Qed.
(** Stopped after the swap, before the commit: recovery takes the file back. *)
Lemma publication_is_atomic_witness :
  o_result (Sample.recover [] (Sample.stop 11)) = Ok tt /\
  (untouched "u1" "u2" "/photos" "2024/a.jpg" Sample.st (o_state (Sample.recover [] (Sample.stop 11))) \/
   published Sample.sha256 "u1" "u2" Sample.event Sample.photo "/photos" "/stage/o" 1 Placement.Sample.pub "2024/a.jpg" Sample.st
     (o_state (Sample.recover [] (Sample.stop 11)))).
Proof.
  assert (Hin : Sample.stop 11 ∈ stops Sample.publish [] Sample.st).
  { unfold Sample.stop. destruct (stops Sample.publish [] Sample.st !! 11%nat) as [s|] eqn:E; [by eapply list_elem_of_lookup_2|left]. }
  exact (publication_is_atomic Sample.sha256 (fun p => "file://" +:+ p)%string Sample.extract (fun _ _ _ => true) (fun _ => true)
    (fun _ => true) 0 9 "u1" "u2" Sample.event Sample.photo "/photos" "/stage/o" "/stage/t" 1 Placement.Sample.pub "2024/a.jpg" Sample.st
    sample_ready [] (Sample.stop 11) (Sample.stop 11) Hin (rtc_refl _ _)).
Defined.
(** When the intent cannot be recorded the copy beside the target stays, and
    recovery, which only looks at recorded intents, does not remove it. *)
Lemma refused_intent_leaves_copy : exists fl, let o := Sample.publish fl Sample.st in
  o_result o = Err FAULT /\ st_db (o_state o) = st_db Sample.st /\
  names (st_fs (o_state (Sample.recover [] (o_state o)))) !! "/photos/2024/.photoviewer-sync-u1.new.jpg"%string = Some (NFile 4).
Proof. exists [false; false; false; false; false; false; false; true]. cbv zeta. split_and!; vm_compute; reflexivity. Qed.
End Safety.
