(* ===== verification/SyncCommands.v ===== *)
(** The receive commands ([NativeReceiveCommand] and [execute] of
    [sync/store/receive.rs]) and what a cycle reads back for promotion
    ([current_remote_photo_in], [current_pair_records], [pending_records]).

    [applied_token] is the only statement that a job is synchronized; the
    theorems here say what has to hold before a command may write it, and that
    the records a cycle rebuilds from a confirmed photo denote that photo. *)
From Stdlib Require Import Ascii String.
From S2P Require Import Prelude.
From S2P Require Import Json.
From S2P Require Import SyncDb.
From S2P Require Import NativeRecords.
From S2P Require Import TypedRecords.
From S2P Require Import SyncRecovery.
From S2P Require Import SyncRuntime.
From S2P Require Import SyncReceive.
From S2P Require Import SyncProjection.
Import Json.
Local Open Scope Z_scope.
Local Open Scope json_scope.

Module Commands.
Import Records TypedRecords Receive Projection.

(** ** Records read back *)
(** [current_remote_photo_in]: the captured photo of the newest live
    publication, or the confirmed one. *)
Definition current_remote_photo_in (db : Db) (job : Z) (photo : string) : option RemotePhoto :=
  let captured := kp ← latest_publication (fun p => (p_job p =? job) && bool_decide (p_photo p = Some photo)
                                            && captured_photo p) db;
                  projection_of (Recovery.capture db (p_id kp.2)) in
  match captured with
  | Some p => Some p
  | None => ke ← entry_of_photo db job photo; e_baseline ke.2
  end.

(** [current_pair_records]. *)
Definition current_pair_records (job : Z) (photo : string) : Tx Db (list NativeRecord) :=
  found ← gets (fun db => current_remote_photo_in db job photo);
  match found with
  | None => mret []
  | Some p =>
      row ← gets (fun db => entry_of_photo db job (photo_id p));
      ke ← need row NoRows;
      match r_asset_revision (e_remote ke.2), r_master_revision (e_remote ke.2) with
      | Some asset_revision, Some master_revision =>
          master ← need (record_from_value (master_document p (Some master_revision))) DECODE_ERROR;
          asset ← need (record_from_value (asset_document p (Some asset_revision))) DECODE_ERROR;
          mret [master; asset]
      | _, _ => mret []
      end
  end.

(** The stored fragments of an entry that promotion may complete. *)
Definition completable (e : Entry) : list RecordRow :=
  (if bool_decide (is_Some (e_pending_asset e)) || bool_decide (is_Some (e_baseline e))
   then option_list (e_pending_master e) else []) ++ option_list (e_pending_asset e).
Definition stored_fragments (db : Db) (job : Z) : list RecordRow :=
  ke ← rows_by_id (db_entries db); if e_job ke.2 =? job then completable ke.2 else [].
(** A pending publication whose entry was edited since its capture. *)
Definition edited_since (db : Db) (p : Publication) : bool :=
  match e ← p_entry p; db_entries db !! e, p_capture p with
  | Some e, Some columns =>
      match as_i64 (Recovery.read_scalars Recovery.CAPTURE columns).["local"] with
      | Some local => negb (e_local e =? local)
      | None => false
      end
  | _, _ => false
  end.
(** A clean entry that is not at its confirmed path. *)
Definition misplaced (e : Entry) : bool :=
  (e_dirty e =? 0) && match e_baseline e with Some p => negb (bool_decide (e_path e = relative_path p)) | None => false end.
(** The photos whose local obligation has to be evaluated again. *)
Definition invalidated (db : Db) (job : Z) : list (option string) :=
  (ke ← rows_by_id (db_publications db);
   if (p_job ke.2 =? job) && bool_decide (p_state ke.2 = PPending) && edited_since db ke.2 then [p_photo ke.2] else [])
  ++ (ke ← rows_by_id (db_entries db);
      if (e_job ke.2 =? job) && misplaced ke.2 then Some <$> option_list (r_photo (e_remote ke.2)) else []).

(** The records not yet listed under their name. *)
Fixpoint fresh_records (names : gset string) (records : list NativeRecord) : list NativeRecord :=
  match records with
  | [] => []
  | r :: rest => if decide (record_name r ∈ names) then fresh_records names rest
                 else r :: fresh_records ({[record_name r]} ∪ names) rest
  end.
Fixpoint load_all (rows : list RecordRow) : Tx Db (list NativeRecord) :=
  match rows with
  | [] => mret []
  | w :: rest => r ← need (load_id w) (Backend "invalid column type"); rs ← load_all rest; mret (r :: rs)
  end.
Fixpoint all_pairs (job : Z) (names : list (option string)) : Tx Db (list NativeRecord) :=
  match names with
  | [] => mret []
  | name :: rest =>
      name ← need name (Backend "invalid column type");
      pair ← current_pair_records job name;
      rs ← all_pairs job rest;
      mret (pair ++ rs)
  end.
(** [pending_records]; [distinct] is the order in which [UNION] lists its rows. *)
Definition pending_records (distinct : list (option string) -> list (option string)) (job : Z) : Tx Db (list NativeRecord) :=
  rows ← gets (fun db => stored_fragments db job);
  records ← load_all rows;
  photos ← gets (fun db => distinct (invalidated db job));
  pairs ← all_pairs job photos;
  mret (records ++ fresh_records (list_to_set (record_name <$> records)) pairs).

(** ** Commands *)
Inductive NativeReceiveCommand :=
  | Begin (job : Z) (namespace : Namespace) (generation scope zone owner : string)
  | PinSnapshot (job : Z) (snapshot zone_sync_token : string)
  | SaveBootstrapPage (job : Z) (record_type : string) (continuation : option string) (record_count : Z)
  | SaveDeltaPage (job : Z) (events : list Value) (next_token : string)
  | Promote (job : Z) (graph : RemoteGraph) (target_token : string) (digests : gmap string LocalDigest)
  | PromoteDelta (job : Z) (graph : RemoteGraph) (target_token : string) (digests : gmap string LocalDigest)
  | AdvanceApplied (job : Z)
  | AdoptConfirmedHead (job : Z) (sync_token : string)
  | Reset (job : Z).
Inductive NativeReceiveOutcome :=
  | OProgress (p : NativeProgress)
  | OSavedEvents (n : nat)
  | OPromoted (p : Promoted)
  | OAdoptedHead
  | OReset.

Section Execute.
Context (file_uri : string -> string) (photo_digest : RemotePhoto -> string).
Definition execute (command : NativeReceiveCommand) : Tx Db NativeReceiveOutcome :=
  match command with
  | Begin job namespace generation scope zone owner =>
      p ← begin job namespace generation scope zone owner; mret (OProgress p)
  | PinSnapshot job snapshot token => _ ← pin_snapshot job snapshot token; mret OReset
  | SaveBootstrapPage job type continuation count =>
      p ← save_bootstrap_page job type continuation count; mret (OProgress p)
  | SaveDeltaPage job events token => n ← save_delta_page file_uri job events token; mret (OSavedEvents n)
  | Promote job graph target digests | PromoteDelta job graph target digests =>
      p ← promote file_uri photo_digest job graph target digests; mret (OPromoted p)
  | AdvanceApplied job => _ ← advance_applied job; mret OReset
  | AdoptConfirmedHead job token => _ ← adopt_confirmed_head job token; mret OAdoptedHead
  | Reset job => _ ← reset job; mret OReset
  end.
End Execute.

(** ** The position is written by commands only *)
Record steady (db db' : Db) : Prop := {
  sd_progress : db_progress db' = db_progress db;
  sd_bootstrap : db_bootstrap db' = db_bootstrap db
}.
#[export] Instance steady_preorder : PreOrder steady.
Proof. split; [done|]. intros x y z [] []. constructor; congruence. Qed.
Notation keeps_position := (respects steady).
Ltac steady_step :=
  apply respects_modify; intros ?; repeat match goal with |- steady _ (match ?x with _ => _ end) => destruct x end; done.

Lemma steady_write_conflict job entry reason photo : keeps_position (Recovery.write_conflict job entry reason photo).
Proof. unfold Recovery.write_conflict. respect; steady_step. Qed.
Lemma steady_set_capture id doc : keeps_position (Recovery.set_capture id doc).
Proof. unfold Recovery.set_capture, Recovery.update_pub. respect; steady_step. Qed.
#[export] Hint Resolve steady_write_conflict steady_set_capture : respects.
Lemma steady_set_pending entry master record : keeps_position (set_pending entry master record).
Proof. unfold set_pending. respect; steady_step. Qed.
Lemma steady_insert_entry e : keeps_position (insert_entry e).
Proof. intros db id db' H. unfold insert_entry in H. tx_inv H. by subst. Qed.
#[export] Hint Resolve steady_set_pending steady_insert_entry : respects.
Lemma steady_locate job photo : keeps_position (locate job photo).
Proof. unfold locate, move_fragments. respect; steady_step. Qed.
Lemma steady_adoption job entry photo dirty digests : keeps_position (adoption job entry photo dirty digests).
Proof. unfold adoption, adopt. respect; steady_step.
Qed.
#[export] Hint Resolve steady_locate steady_adoption : respects.
Lemma steady_repair job entry photo db : steady db (repair_location job entry photo db).
Proof. unfold repair_location. by destruct (match db_entries db !! entry with Some _ => _ | None => _ end). Qed.
#[export] Hint Resolve steady_repair : respects.
Lemma steady_place digest job l photo d : keeps_position (place digest job l photo d).
Proof. unfold place. respect; steady_step. Qed.
Lemma steady_settle_in_place job l photo d : keeps_position (settle_in_place job l photo d).
Proof. unfold settle_in_place. respect; steady_step. Qed.
#[export] Hint Resolve steady_place steady_settle_in_place : respects.
Lemma steady_project digest job photo digests : keeps_position (project_publication digest job photo digests).
Proof. unfold project_publication, settle. respect; steady_step. Qed.
#[export] Hint Resolve steady_project : respects.

Lemma steady_set_path id path job db : steady db (set_path id path job db).
Proof. unfold set_path. by destruct (exists_where _ _). Qed.
#[export] Hint Resolve steady_set_path : respects.
Lemma steady_admit uri job entry record : keeps_position (admit_asset_metadata uri job entry record).
Proof. unfold admit_asset_metadata, admit_linked, admit_row. respect; steady_step. Qed.
#[export] Hint Resolve steady_admit : respects.
Lemma steady_stage uri job events : keeps_position (stage_records uri job events).
Proof.
  induction events; simpl; unfold stage_one, move_to_path, stage_entry; respect; try steady_step.
  all: apply respects_modify; intros db; repeat match goal with |- steady _ (match ?x with _ => _ end) => destruct x end;
    eauto with respects; done.
Qed.
Lemma steady_promote_photo uri digest job generation digests photo :
  keeps_position (promote_photo uri digest job generation digests photo).
Proof.
  unfold promote_photo. respect; try steady_step.
Qed.
Lemma steady_bury job generation name : keeps_position (bury job generation name).
Proof. unfold bury. respect; steady_step. Qed.
#[export] Hint Resolve steady_stage steady_promote_photo steady_bury : respects.

(** ** What the applied token says *)
Definition applied_of (db : Db) (job : Z) : option string := db_progress db !! job ≫= g_applied.
Definition target_of (db : Db) (job : Z) : option string := db_progress db !! job ≫= g_target.
(** The job's inventory was read to its end, for every type. *)
Definition inventoried (db : Db) (job : Z) : Prop :=
  exists p, read_progress db job = Some p /\ is_complete SUPPORTED_RECORD_TYPES (bootstrap p) = true.
Record synchronized (db : Db) (job : Z) (token : string) : Prop := {
  sy_unresolved : unresolved db job = 0%nat;
  sy_target : target_of db job = Some token
}.

Lemma lookup_update_progress job f db j :
  db_progress (update_progress job f db) !! j = if j =? job then f <$> db_progress db !! j else db_progress db !! j.
Proof.
  unfold update_progress. cbn [db_progress set_db_progress]. destruct (Z.eqb_spec j job) as [->|Hne].
  - apply lookup_alter_eq.
  - by apply lookup_alter_ne.
Qed.
Lemma unresolved_update_progress job f db j :
  (forall g, g_generation (f g) = g_generation g) -> unresolved (update_progress job f db) j = unresolved db j.
Proof.
  intros Hf. unfold unresolved. do 3 f_equal. unfold count_where, owed_resource. rewrite lookup_update_progress.
  destruct (Z.eqb_spec j job) as [->|_]; [|done]. by destruct (db_progress db !! job) as [g|]; cbn; rewrite ?Hf.
Qed.
(** A write that leaves applied tokens alone, or only clears them. *)
Definition no_new_applied (db db' : Db) : Prop :=
  forall job t, applied_of db' job = Some t -> applied_of db job = Some t.
#[export] Instance no_new_applied_preorder : PreOrder no_new_applied.
Proof. split; [by intros ???|]. intros x y z H1 H2 job t H. by apply H1, H2. Qed.
Lemma no_new_applied_steady db db' : steady db db' -> no_new_applied db db'.
Proof. intros [Hp _] job t. unfold applied_of. by rewrite Hp. Qed.
Lemma no_new_applied_update job f db :
  (forall g, g_applied (f g) = g_applied g \/ g_applied (f g) = None) -> no_new_applied db (update_progress job f db).
Proof.
  intros Hf j t. unfold applied_of. rewrite lookup_update_progress. destruct (Z.eqb_spec j job) as [->|_]; [|done].
  destruct (db_progress db !! job) as [g|]; [|done]. cbn. by destruct (Hf g) as [->| ->].
Qed.
Lemma respects_impl {A} (R R' : relation Db) (m : Tx Db A) : (forall x y, R x y -> R' x y) -> respects R m -> respects R' m.
Proof. intros Himpl Hm s a s' H. by apply Himpl, (Hm s a s'). Qed.

Ltac keeps_applied :=
  apply respects_modify; intros ?; first
    [ apply no_new_applied_update; intros ?; (by left) || (by right)
    | etrans; [|apply no_new_applied_steady; done]; apply no_new_applied_update; intros ?; (by left) || (by right) ].
Lemma begin_applied job namespace generation scope zone owner :
  respects no_new_applied (begin job namespace generation scope zone owner).
Proof.
  unfold begin. respect; [keeps_applied..|].
  apply respects_modify. intros db j t. unfold applied_of. cbn [db_progress set_db_progress].
  destruct (decide (j = job)) as [->|Hne]; [by rewrite lookup_insert_eq|by rewrite lookup_insert_ne].
Qed.
Lemma pin_applied job snapshot token : respects no_new_applied (pin_snapshot job snapshot token).
Proof. unfold pin_snapshot, require_progress. respect. keeps_applied. Qed.
Lemma page_applied job type continuation count : respects no_new_applied (save_bootstrap_page job type continuation count).
Proof. unfold save_bootstrap_page, require_progress. respect; keeps_applied. Qed.
Lemma delta_applied uri job events token : respects no_new_applied (save_delta_page uri job events token).
Proof.
  unfold save_delta_page, require_progress. respect; [|keeps_applied].
  eapply respects_impl; [apply no_new_applied_steady|apply steady_stage].
Qed.
Lemma reset_applied job : respects no_new_applied (reset job).
Proof. unfold reset. keeps_applied. Qed.

(** The token is copied from the target once nothing is owed. *)
Lemma apply_target db job p n t j :
  read_progress db job = Some p -> can_apply p n = true -> n = unresolved db job ->
  let db' := update_progress job (fun g => set_g_applied (g_target g) g) db in
  applied_of db' j = Some t -> applied_of db j <> Some t -> synchronized db' j t /\ inventoried db' j.
Proof.
  intros Hp Hc -> db'. unfold applied_of at 1, db'. rewrite lookup_update_progress.
  destruct (Z.eqb_spec j job) as [->|_]; [|by unfold applied_of; intros -> []].
  unfold read_progress in Hp. destruct (db_progress db !! job) as [g|] eqn:Hg; [|done]. injection Hp as <-.
  unfold can_apply in Hc. cbn [row bootstrap] in Hc. zbool. rewrite Nat.eqb_eq in *. cbn. intros Ht _.
  split; [constructor|].
  - by rewrite unresolved_update_progress.
  - unfold target_of. rewrite lookup_update_progress, Z.eqb_refl, Hg. done.
  - unfold inventoried, read_progress. rewrite lookup_update_progress, Z.eqb_refl, Hg. cbn. by eexists.
Qed.
Lemma advance_synchronizes job db u db' j t :
  advance_applied job db = Ok (u, db') -> applied_of db' j = Some t -> applied_of db j <> Some t ->
  synchronized db' j t /\ inventoried db' j.
Proof.
  unfold advance_applied, require_progress. intros H. tx_inv H. by eapply apply_target.
Qed.
Lemma adopt_synchronizes job token db u db' j t :
  adopt_confirmed_head job token db = Ok (u, db') -> applied_of db' j = Some t -> applied_of db j <> Some t ->
  synchronized db' j t /\ job = j /\ token = t /\ issued_tasks db' j = 0%nat.
Proof.
  unfold adopt_confirmed_head. intros H. tx_inv H. rewrite Nat.eqb_eq in *. subst.
  unfold applied_of at 1. rewrite lookup_update_progress.
  destruct (Z.eqb_spec j job) as [->|_]; [|by unfold applied_of; intros -> []].
  destruct (db_progress db !! job) as [g|] eqn:Hg; [|done]. cbn. intros [= ->] _. split; [constructor|done].
  - by rewrite unresolved_update_progress.
  - unfold target_of. by rewrite lookup_update_progress, Z.eqb_refl, Hg.
Qed.
Lemma promote_synchronizes uri digest job graph target digests db r db' j t :
  promote uri digest job graph target digests db = Ok (r, db') ->
  applied_of db' j = Some t -> applied_of db j <> Some t -> synchronized db' j t /\ inventoried db' j.
Proof.
  unfold promote, require_progress. intros H. tx_inv H.
  match goal with Hf : for_each (photos graph) _ _ = Ok _, Hb : for_each (tombstones graph) _ ?d1 = Ok (_, ?d2) |- _ =>
    assert (Hs : steady db d2) by (trans d1;
      [refine (respects_for_each steady _ _ _ _ _ _ Hf)|refine (respects_for_each steady _ _ _ _ _ _ Hb)]; eauto with respects);
    rename d2 into db2 end.
  set (db3 := reopen_shared _ _ db2) in *. assert (Hs3 : steady db db3) by (by trans db2). clearbody db3.
  set (db4 := update_progress job (set_g_target (Some target)) db3) in *.
  assert (Hkeep : no_new_applied db db4).
  { trans db3; [by apply no_new_applied_steady|]. apply no_new_applied_update. by left. }
  destruct (can_apply _ _) eqn:Hc; [|by intros Ht%Hkeep].
  intros Ht Hold. eapply apply_target; [done|done| |done|].
  - unfold db4. by rewrite unresolved_update_progress.
  - by intros Hbad%Hkeep.
Qed.

(** C8: "Synchronized" is proven, never assumed. Whatever receive command runs,
    a job's applied token becomes a new value only when that value is the
    job's target, no resource, conflict, publication or fragment of the job is
    still owed, and its whole inventory was read to the end - or the command is
    the one that adopts a confirmed upload head and no issued operation is
    unconfirmed. *)
Theorem applied_is_proven uri digest command db outcome db' job t :
  execute uri digest command db = Ok (outcome, db') ->
  applied_of db' job = Some t -> applied_of db job <> Some t ->
  synchronized db' job t /\
  (inventoried db' job \/ command = AdoptConfirmedHead job t /\ issued_tasks db' job = 0%nat).
Proof.
  intros H Ht Hold.
  assert (Hno : no_new_applied db db' -> synchronized db' job t /\
    (inventoried db' job \/ command = AdoptConfirmedHead job t /\ issued_tasks db' job = 0%nat))
    by (intros Hk; by destruct Hold; apply Hk).
  destruct command; unfold execute in H; tx_inv H; subst.
  - by eapply Hno, begin_applied.
  - by eapply Hno, pin_applied.
  - by eapply Hno, page_applied.
  - by eapply Hno, delta_applied.
  - destruct (promote_synchronizes _ _ _ _ _ _ _ _ _ _ _ Hrun Ht Hold). eauto.
  - destruct (promote_synchronizes _ _ _ _ _ _ _ _ _ _ _ Hrun Ht Hold). eauto.
  - destruct (advance_synchronizes _ _ _ _ _ _ Hrun Ht Hold). eauto.
  - destruct (adopt_synchronizes _ _ _ _ _ _ _ Hrun Ht Hold) as (? & -> & -> & ?). eauto.
  - by eapply Hno, reset_applied.
Qed.

(** ** Rebuilt records *)
Lemma tagged_records p ra rm :
  with_tag (master_record p (Some rm)) = master_record p (Some rm) /\ with_tag (asset_record p (Some ra)) = asset_record p (Some ra).
Proof. done. Qed.

(** A rebuilt pair denotes the confirmed photo. When nothing newer is being
    placed for a photo, the records a cycle rebuilds for it carry the confirmed
    revisions, and validating them yields exactly the confirmed photo: an
    obligation evaluated again starts from the same truth. *)
Theorem rebuilt_pair_denotes_photo iter zone job photo db id e p ra rm :
  (forall m, iter m ≡ₚ map_to_list m) ->
  entry_of_photo db job photo = Some (id, e) -> e_baseline e = Some p -> photo_id p = photo -> photo_ok p ->
  r_asset_revision (e_remote e) = Some ra -> r_master_revision (e_remote e) = Some rm ->
  latest_publication (fun q => (p_job q =? job) && bool_decide (p_photo q = Some photo) && captured_photo q) db = None ->
  exists master asset g, current_pair_records job photo db = Ok ([master; asset], db) /\
    record_change_tag master = Some rm /\ record_change_tag asset = Some ra /\
    to_graph iter zone (Records.apply asset (Records.apply master ∅)) = inr g /\ photos g = [p].
Proof.
  intros Hiter He Hb Hid Hok Hra Hrm Hpub.
  assert (Hcur : current_remote_photo_in db job photo = Some p).
  { unfold current_remote_photo_in. by rewrite Hpub, He. }
  destruct (pair_graph iter Hiter p (Some ra) (Some rm) Hok zone) as (g & Hg & Hp).
  destruct (tagged_records p ra rm) as [Hm Ha].
  exists (master_record p (Some rm)), (asset_record p (Some ra)), g. split_and!; [|done..| |done].
  - unfold current_pair_records. erewrite bind_run by done. rewrite Hcur. erewrite bind_run by done.
    rewrite Hid, He. erewrite bind_run by done. cbn [snd]. rewrite Hra, Hrm.
    rewrite master_document_request, asset_document_request,
      (request_decodes _ (master_request_ok p _ Hok)), (request_decodes _ (asset_request_ok p _ Hok)).
    by rewrite master_record_of, asset_record_of.
  - rewrite <- Ha, <- Hm. rewrite !with_tag_live by done. exact Hg.
Qed.

(** ** Examples *)
Module Sample.
Import SyncDb.Sample.
Definition done_type : TypeMarker := mkMarker true None 2.
(** The sample library with its inventory read and nothing owed. *)
Definition caught_up : Db :=
  set_db_bootstrap {[(1, MASTER_RECORD_TYPE) := done_type; (1, ASSET_RECORD_TYPE) := done_type]}
    (update_progress 1 (fun g => set_g_bootstrap_started true (set_g_target (Some "t9"%string) g)) db).
(** The sample photo confirmed for the entry. *)
Definition confirmed : Entry :=
  set_e_baseline (Some Records.Sample.photo)
    (set_e_remote (mkRemote (Some "photo-1") (Some "master-1") (Some "a1") (Some "m1") (Some "gen-1") (Some "c1"))%string entry).
Definition with_photo : Db := set_db_entries {[1 := confirmed]} db.
End Sample.
Lemma applied_is_proven_witness :
  applied_of (transact (execute id (fun _ => ""%string) (AdvanceApplied 1)) Sample.caught_up).1 1 = Some "t9"%string /\
  unresolved (transact (execute id (fun _ => ""%string) (AdvanceApplied 1)) Sample.caught_up).1 1 = 0%nat.
Proof.
  split; [by vm_compute|].
  apply (sy_unresolved _ _ "t9").
  apply (applied_is_proven id (fun _ => ""%string) (AdvanceApplied 1) Sample.caught_up OReset); [by vm_compute|by vm_compute|done].
Defined.
Lemma rebuilt_pair_witness :
  exists master asset g, current_pair_records 1 "photo-1" Sample.with_photo = Ok ([master; asset], Sample.with_photo) /\
    record_change_tag master = Some "m1"%string /\ record_change_tag asset = Some "a1"%string /\
    to_graph map_to_list Records.Sample.zone (Records.apply asset (Records.apply master ∅)) = inr g /\
    photos g = [Records.Sample.photo].
Proof.
  apply (rebuilt_pair_denotes_photo map_to_list Records.Sample.zone 1 "photo-1" Sample.with_photo 1 Sample.confirmed);
    [done|by vm_compute|done|done|apply sample_photo_ok|done|done|by vm_compute].
Defined.
End Commands.
