(* ===== verification/SyncActions.v ===== *)
(** User decisions on photos ([sync/store/actions.rs]): permanent deletion from
    the cloud, recreation of a retired photo, and the two resolutions of a
    conflict. A decision is made on a form that may be out of date, so it names
    the version and the conflict the user saw.

    [resolution_text] stands for the JSON text of a recorded choice. *)
From Stdlib Require Import Ascii String.
From S2P Require Import Prelude.
From S2P Require Import Json.
From S2P Require Import SyncDb.
From S2P Require Import NativeRecords.
From S2P Require Import SyncDirty.
From S2P Require Import SyncRecovery.
From S2P Require Import SyncRuntime.
From S2P Require Import SyncReceive.
From S2P Require Import SyncProjection.
From S2P Require Import SyncPlacement.
From S2P Require Import SyncCommands.
Import Json.
Local Open Scope Z_scope.

Module Actions.
Import Receive Projection Commands Dirty.

#[local] Existing Instance Recovery.ConflictDoc_eq_dec.

(** ** Operations *)
Inductive PhotoAction := DeleteCloud | Recreate | KeepLocal | UseCloud.
#[export] Instance PhotoAction_eq_dec : EqDecision PhotoAction.
Proof. solve_decision. Defined.

Record ManagedPhoto := mkManaged {
  mp_entry : Z;
  mp_path : string;
  mp_version : Z;
  mp_remote : bool;
  mp_retired : bool;
  mp_conflict : option Recovery.ConflictDoc;
  mp_file : option string
}.
(** [managed_photos], by relative path. *)
Definition managed (db : Db) (ke : Z * Entry) : ManagedPhoto :=
  let '(id, e) := ke in
  mkManaged id (e_path e) (e_local e) (bool_decide (is_Some (r_photo (e_remote e)))) (e_retired e)
    ((fun kx => Recovery.conflict_document kx.2) <$> Recovery.open_conflict db id)
    (m ← e_media e ≫= fun k => db_media db !! k; if bool_decide (m_trashed_at m = None) then Some (m_path m) else None).
Definition by_path (a b : ManagedPhoto) : Prop := string_le (mp_path a) (mp_path b).
#[export] Instance by_path_dec : RelDecision by_path.
Proof. intros a b. unfold by_path. apply _. Defined.
Definition managed_photos (db : Db) (job : Z) : list ManagedPhoto :=
  merge_sort by_path (managed db <$> filter (fun ke : Z * Entry => e_job ke.2 = job) (rows_by_id (db_entries db))).

(** [require_media]. *)
Definition live_media (db : Db) (entry : Z) : bool :=
  holds (fun m => bool_decide (m_trashed_at m = None)) (id ← linked_media db entry; db_media db !! id).
Definition require_media (entry : Z) : Tx Db unit :=
  present ← gets (fun db => live_media db entry);
  ensure present (Backend "restore the local photo before choosing to upload it").
(** A new edit of a category: its event and its version. *)
Definition edit_track (stamp : EditEvent) (t : Track) : Track := mkTrack (version t + 1) (acked t) (Some stamp).
Definition edit_both (stamp : EditEvent) (e : Entry) : Entry :=
  set_e_content (edit_track stamp (e_content e)) (set_e_metadata (edit_track stamp (e_metadata e)) e).
(** [recreate] and [retire]. *)
Definition recreate (entry : Z) (stamp : EditEvent) : Tx Db unit :=
  _ ← require_media entry;
  modify (update_entry entry (fun e => edit_both stamp
    (set_e_local (e_local e + 1) (set_e_dirty NEW (set_e_retired false e))))).
Definition retire (entry : Z) : Tx Db unit := modify (update_entry entry retire_entry).

(** The two resources of a photo's pair, in any generation. *)
Definition of_pair (job : Z) (photo : RemotePhoto) (k : ResKey) : bool :=
  (k.1.1.1 =? job)
  && (bool_decide (k.1.2 = asset_id (original photo)) && bool_decide (k.2 = RoleOriginal)
      || bool_decide (k.1.2 = asset_id (thumbnail photo)) && bool_decide (k.2 = RoleThumbnail)).
Definition held (s : ResourceState) : bool := match s with RStaged | RVerified | RRetained => true | _ => false end.

Definition delete_cloud (entry : Z) (e : Entry) (conflict : option (Z * Conflict)) (stamp : EditEvent) : Tx Db unit :=
  local ← gets (fun db => bool_decide (is_Some (e_media e ≫= fun m => db_media db !! m)));
  _ ← ensure (negb local) (Backend "permanently remove the local file before synchronizing its deletion");
  _ ← ensure (bool_decide (is_Some (r_photo (e_remote e))) && bool_decide (conflict = None))
        (Backend "cloud deletion requires a confirmed identity without a conflict");
  modify (update_entry entry (fun e => set_e_deletion (edit_track stamp (e_deletion e))
    (set_e_local (e_local e + 1) (set_e_dirty DELETE e)))).

(** The identity of the competing photo is bound before either resolution. *)
Definition bind_identity (job entry : Z) (photo : RemotePhoto) : Tx Db unit :=
  a ← gets (fun db => record_revision_in db job (photo_id photo));
  asset ← need a (Backend "photo has no asset revision");
  m ← gets (fun db => record_revision_in db job (master_id photo));
  master ← need m (Backend "photo has no master revision");
  free ← gets (fun db => Placement.photo_free db entry job (photo_id photo));
  _ ← ensure free (Constraint "sync_entries.job_id, sync_entries.native_photo_id");
  modify (update_entry entry (fun e => set_e_local (e_local e + 1) (set_e_retired false
    (set_e_remote (mkRemote (Some (photo_id photo)) (Some (master_id photo)) (Some asset) (Some master)
                     (r_confirmed (e_remote e)) (Some (content_generation photo))) e)))).

Definition keep_local (job entry : Z) (photo : RemotePhoto) (recovery : option string) (stamp : EditEvent) : Tx Db unit :=
  _ ← require_media entry;
  complete ← gets (fun db => count_where (fun k r => of_pair job photo k && held (s_state r)) (db_resources db));
  _ ← ensure ((complete =? 2)%nat && bool_decide (is_Some recovery))
        (Backend "the competing cloud pair must be retained before keeping local content");
  _ ← modify (fun db => set_db_resources (update_where (fun k r => of_pair job photo k && bool_decide (s_state r = RStaged))
        (set_s_state RRetained) (db_resources db)) db);
  modify (update_entry entry (fun e => set_e_baseline (Some photo) (edit_both stamp (set_e_dirty MODIFIED e)))).

(** The write that closes the conflicts of an entry. *)
Definition close_conflicts (entry : Z) (text : string) (db : Db) : Db :=
  set_db_conflicts (update_where (fun _ x => (x_entry x =? entry) && bool_decide (x_state x = "open"%string))
    (fun x => set_x_state "resolved" (set_x_resolution (Some text) x)) (db_conflicts db)) db.

Section Apply.
Context (photo_digest : RemotePhoto -> string) (resolution_text : PhotoAction -> option string -> string).

Definition use_cloud (job entry : Z) (photo : RemotePhoto) (recovery : option string) : Tx Db unit :=
  _ ← ensure (bool_decide (is_Some recovery))
        (Backend "local recovery evidence must be saved before accepting cloud content");
  _ ← modify (update_entry entry (fun e => set_e_baseline None (set_e_dirty CLEAN e)));
  _ ← modify (fun db => set_db_publications (delete_where (fun _ p =>
        bool_decide (p_entry p = Some entry) && negb (bool_decide (p_state p = PPublishing))) (db_publications db)) db);
  _ ← modify (fun db => set_db_resources (update_where (fun k _ => of_pair job photo k)
        (fun r => set_s_staging None (set_s_state RPending r)) (db_resources db)) db);
  _ ← project_publication photo_digest job photo ∅;
  modify (update_entry entry (set_e_baseline (Some photo))).

Definition resolve (job entry : Z) (conflict : option (Z * Conflict)) (action : PhotoAction) (recovery : option string)
    (stamp : EditEvent) : Tx Db unit :=
  kx ← need conflict (Backend "this conflict was already resolved");
  let detail := Recovery.conflict_document kx.2 in
  _ ← match Recovery.cd_remote detail with
      | Some photo =>
          _ ← ensure (negb (is_hidden photo)) (Backend "hidden cloud photos require a supported local representation");
          projection ← gets (fun db => current_remote_photo_in db job (photo_id photo));
          _ ← ensure (bool_decide (projection = Some photo)) (Backend "cloud projection changed; refresh the conflict");
          _ ← bind_identity job entry photo;
          if bool_decide (action = KeepLocal) then keep_local job entry photo recovery stamp
          else use_cloud job entry photo recovery
      | None =>
          if bool_decide (Recovery.cd_reason detail = Some DELETED_REASON) then
            _ ← retire entry;
            if bool_decide (action = KeepLocal) then recreate entry stamp else mret tt
          else throw (Backend "this conflict requires recovery before it can be resolved")
      end;
  modify (close_conflicts entry (resolution_text action recovery)).

(** Something of the entry or the job is still being reconciled. *)
Definition reconciling (db : Db) (job entry : Z) : bool :=
  Runtime.busy db entry || bool_decide (is_Some (db_changes db !! job)) || bool_decide (is_Some (db_reset db)).
(** [apply]. *)
Definition apply (job entry version : Z) (conflict : option Recovery.ConflictDoc) (action : PhotoAction)
    (recovery : option string) (stamp : EditEvent) : Tx Db unit :=
  row ← gets (fun db => e ← db_entries db !! entry; if e_job e =? job then Some e else None);
  e ← need row NoRows;
  open ← gets (fun db => Recovery.open_conflict db entry);
  _ ← ensure ((e_local e =? version)
              && bool_decide ((fun kx => Recovery.conflict_document kx.2) <$> open = conflict))
        (Backend "photo changed while the decision was open; refresh and retry");
  busy ← gets (fun db => reconciling db job entry);
  _ ← ensure (negb busy)
        (Backend "an operation is still being reconciled; synchronize before choosing a resolution");
  _ ← ensure (negb (e_dirty e =? DELETE) || bool_decide (action = DeleteCloud))
        (Backend "the permanent deletion must be confirmed by cloud synchronization first");
  match action with
  | DeleteCloud => delete_cloud entry e open stamp
  | Recreate =>
      _ ← ensure (negb (bool_decide (is_Some (r_photo (e_remote e)))) && bool_decide (open = None))
            (Backend "recreation requires a retired identity without a conflict");
      recreate entry stamp
  | KeepLocal | UseCloud => resolve job entry open action recovery stamp
  end.
End Apply.

(** ** A decision is taken on what the user saw *)
Ltac unit_all := repeat match goal with u : unit |- _ => destruct u end.
(** What [apply] found when it went ahead. *)
Record decided (db : Db) (job entry version : Z) (conflict : option Recovery.ConflictDoc) (action : PhotoAction)
    (e : Entry) : Prop := {
  dc_entry : db_entries db !! entry = Some e;
  dc_job : e_job e = job;
  dc_version : e_local e = version;
  dc_conflict : (fun kx => Recovery.conflict_document kx.2) <$> Recovery.open_conflict db entry = conflict;
  dc_idle : reconciling db job entry = false;
  dc_deletion : e_dirty e = DELETE -> action = DeleteCloud
}.
Lemma update_entry_insert db id f e :
  db_entries db !! id = Some e -> update_entry id f db = set_db_entries (<[id := f e]> (db_entries db)) db.
Proof.
  intros He. unfold update_entry. f_equal. apply map_eq. intros k. destruct (decide (k = id)) as [->|Hk].
  - by rewrite lookup_alter_eq, He, lookup_insert_eq.
  - by rewrite lookup_alter_ne, lookup_insert_ne.
Qed.
(** After [write_conflict] the entry's open conflict names the photo. *)
Lemma write_conflict_opens job entry reason photo db u db' :
  Recovery.write_conflict job entry reason photo db = Ok (u, db') ->
  exists id x, Recovery.open_conflict db' entry = Some (id, x) /\ x_remote x = photo /\
    db_entries db' = db_entries db /\ db_publications db' = db_publications db.
Proof.
  unfold Recovery.write_conflict. intros H. tx_inv H. destruct (Recovery.open_conflict db entry) as [[id x]|] eqn:Hopen.
  - tx_inv H. rewrite alter_update_where. exists id. eexists. unfold Recovery.open_conflict in *.
    cbn [db_conflicts set_db_conflicts]. rewrite find_row_update by (by intros k []). rewrite Hopen. cbn. by rewrite Z.eqb_refl.
  - tx_inv H. exists (db_next_conflict db). exists (mkConflict job entry "native" "open" None (Some reason) None photo).
    split; [|done]. apply find_row_least.
    cbn [db_conflicts set_db_conflicts set_db_next_conflict]. rewrite lookup_insert_eq. split; [done|]. cbn. rewrite Z.eqb_refl.
    split; [done|]. intros k y [[<- _]|[_ Hk]]%lookup_insert_Some HP; [done|].
    by rewrite (proj1 (find_row_None _ _) Hopen _ _ Hk) in HP.
Qed.
Section Claims.
Context (photo_digest : RemotePhoto -> string) (resolution_text : PhotoAction -> option string -> string).

Lemma apply_decided job entry version conflict action recovery stamp db u db' :
  apply photo_digest resolution_text job entry version conflict action recovery stamp db = Ok (u, db') ->
  exists e, decided db job entry version conflict action e /\
    match action with
    | DeleteCloud => delete_cloud entry e (Recovery.open_conflict db entry) stamp db = Ok (u, db')
    | Recreate => r_photo (e_remote e) = None /\ conflict = None /\ recreate entry stamp db = Ok (u, db')
    | KeepLocal | UseCloud =>
        resolve photo_digest resolution_text job entry (Recovery.open_conflict db entry) action recovery stamp db = Ok (u, db')
    end.
Proof.
  unfold apply. intros H. tx_inv H.
  destruct (db_entries db !! entry) as [e0|] eqn:He; [|done].
  match goal with H : (_ ≫= _) = Some ?e |- _ => cbn in H; destruct (Z.eqb_spec (e_job e0) job); [injection H as <-|done] end.
  zbool. exists e0. split.
  - constructor; try done; [by eapply bool_decide_eq_true_1|]. intros Hd.
    match goal with H : _ || _ = true |- _ => rewrite Hd in H; cbn in H; by apply bool_decide_eq_true in H end.
  - destruct action; [done| |done|done]. tx_inv H. zbool.
    repeat match goal with H : bool_decide _ = _ |- _ => first [apply bool_decide_eq_true in H|apply bool_decide_eq_false in H] end.
    split; [by apply eq_None_not_Some|]. split; [|done]. subst conflict.
    match goal with H : Recovery.open_conflict _ _ = None |- _ => by rewrite H end.
Qed.

(** Permanent deletion is explicit and leaves evidence. When a cloud
    deletion is accepted, the user saw the entry's present version, nothing of
    it was in flight, no local file was linked any more and the photo had a
    confirmed identity without a conflict; the only write is the entry's: it
    now owes a deletion, with the stamped event at a new version, and it keeps
    its identity until the cloud confirms. *)
Theorem cloud_deletion_is_explicit job entry version conflict recovery stamp db u db' :
  apply photo_digest resolution_text job entry version conflict DeleteCloud recovery stamp db = Ok (u, db') ->
  exists e e', decided db job entry version conflict DeleteCloud e /\
    conflict = None /\ is_Some (r_photo (e_remote e)) /\ e_media e ≫= (fun m => db_media db !! m) = None /\
    db' = set_db_entries (<[entry := e']> (db_entries db)) db /\
    e_dirty e' = DELETE /\ e_deletion e' = edit_track stamp (e_deletion e) /\
    e_local e' = e_local e + 1 /\ e_remote e' = e_remote e /\ e_baseline e' = e_baseline e.
Proof.
  intros (e & Hd & H)%apply_decided. unfold delete_cloud in H. tx_inv H. zbool. pose proof (dc_entry _ _ _ _ _ _ _ Hd) as He.
  repeat match goal with H : bool_decide _ = _ |- _ => first [apply bool_decide_eq_true in H|apply bool_decide_eq_false in H] end.
  match goal with H : Recovery.open_conflict _ _ = None |- _ => rename H into Hopen end.
  exists e. eexists. split; [done|]. split; [by rewrite <- (dc_conflict _ _ _ _ _ _ _ Hd), Hopen|]. split; [done|].
  split; [by apply eq_None_not_Some|]. split; [by apply update_entry_insert|]. done.
Qed.

Lemma bind_identity_Ok job entry photo db u db' :
  bind_identity job entry photo db = Ok (u, db') ->
  exists a m, db' = update_entry entry (fun e => set_e_local (e_local e + 1) (set_e_retired false
    (set_e_remote (mkRemote (Some (photo_id photo)) (Some (master_id photo)) (Some a) (Some m)
                     (r_confirmed (e_remote e)) (Some (content_generation photo))) e))) db.
Proof. unfold bind_identity. intros H. tx_inv H. by eexists _, _. Qed.
Lemma keep_local_Ok job entry photo recovery stamp db u db' :
  keep_local job entry photo recovery stamp db = Ok (u, db') ->
  live_media db entry = true /\ is_Some recovery /\
  count_where (fun k r => of_pair job photo k && held (s_state r)) (db_resources db) = 2%nat /\
  db' = update_entry entry (fun e => set_e_baseline (Some photo) (edit_both stamp (set_e_dirty MODIFIED e)))
    (set_db_resources (update_where (fun k r => of_pair job photo k && bool_decide (s_state r = RStaged))
      (set_s_state RRetained) (db_resources db)) db).
Proof.
  unfold keep_local, require_media. intros H. tx_inv H. zbool. rewrite Nat.eqb_eq in *.
  split_and!; try done. by eapply bool_decide_eq_true_1.
Qed.
Lemma resolved_closes entry text db : Recovery.open_conflict (close_conflicts entry text db) entry = None.
Proof.
  apply find_row_None. intros k x. cbn [db_conflicts set_db_conflicts close_conflicts]. rewrite lookup_update_where.
  destruct (db_conflicts db !! k) as [x0|]; [|done]. intros [= <-].
  destruct ((x_entry x0 =? entry) && bool_decide (x_state x0 = "open"%string)) eqn:E; [|done]. cbn. by rewrite andb_false_r.
Qed.
Lemma resolve_competing_Ok job entry conflict action recovery stamp x photo db u db' :
  x_remote x = Some photo ->
  resolve photo_digest resolution_text job entry (Some (conflict, x)) action recovery stamp db = Ok (u, db') ->
  exists db1 db2, is_hidden photo = false /\ current_remote_photo_in db job (photo_id photo) = Some photo /\
    bind_identity job entry photo db = Ok (tt, db1) /\
    (if bool_decide (action = KeepLocal) then keep_local job entry photo recovery stamp
     else use_cloud photo_digest job entry photo recovery) db1 = Ok (tt, db2) /\
    db' = close_conflicts entry (resolution_text action recovery) db2.
Proof.
  intros Hx. unfold resolve. intros H. tx_inv H.
  match goal with H : Some _ = Some _ |- _ => injection H as <- end.
  cbn [snd Recovery.conflict_document Recovery.cd_remote] in *. rewrite Hx in *.
  match goal with H : (ensure _ _ ≫= _) db = Ok _ |- _ => tx_inv H end. zbool. unit_all. eexists _, _. split_and!; try done.
  by eapply bool_decide_eq_true_1.
Qed.


(** A competing cloud photo can not be chosen or declined. When projection
    records a conflict with a photo that no entry of the job owns and that is
    not being placed, it leaves neither a baseline nor a captured publication of
    that photo, and both resolutions require one: each is refused until some
    other path stores the photo. *)
Theorem competing_conflict_unresolvable job l photo missing reason db c db' version conflict action recovery stamp :
  conflict_reason l photo missing = Some reason -> settle photo_digest job l photo missing db = Ok (c, db') ->
  entry_of_photo db job (photo_id photo) = None ->
  latest_publication (fun p => (p_job p =? job) && bool_decide (p_photo p = Some (photo_id photo)) && captured_photo p) db = None ->
  action = KeepLocal \/ action = UseCloud ->
  exists error, apply photo_digest resolution_text job (l_entry l) version conflict action recovery stamp db' = Err error.
Proof.
  intros Hreason Hs Howner Hpub Hact. destruct (apply _ _ _ _ _ _ _ _ _ db') as [[u db2]|error] eqn:Happ; [|by eexists].
  exfalso. unfold settle in Hs. rewrite Hreason in Hs. tx_inv Hs.
  match goal with H : Recovery.write_conflict _ _ _ _ _ = Ok (_, ?d) |- _ => rename H into Hw, d into db' end.
  destruct (write_conflict_opens _ _ _ _ _ _ _ Hw) as (cid & y & Hopen & Hx & He & Hp).
  apply apply_decided in Happ as (e & Hd & H). rewrite Hopen in H.
  assert (Hcur : current_remote_photo_in db' job (photo_id photo) = Some photo).
  { destruct Hact as [-> | ->]; by destruct (resolve_competing_Ok _ _ _ _ _ _ _ _ _ _ _ Hx H) as (? & ? & _ & ? & _). }
  unfold current_remote_photo_in, latest_publication, entry_of_photo in *. rewrite Hp, He in Hcur.
  by rewrite Hpub, Howner in Hcur.
Qed.
End Claims.

(** ** Examples *)
Module Sample.
Import SyncDb.Sample.
Definition photo : RemotePhoto := Records.Sample.photo.
Definition digest (p : RemotePhoto) : string := photo_id p.
Definition text (a : PhotoAction) (recovery : option string) : string := default ""%string recovery.
Definition stamp : EditEvent := mkEvent 9 "device-2" "e9".
(** The confirmed photo with its file gone. *)
Definition gone : Db := set_db_entries {[1 := set_e_media None Commands.Sample.confirmed]} db.
(** The confirmed photo with an open conflict and the cloud's pair staged. *)
Definition staged : Resource := mkResource (Some "photo-1"%string) None (Some 11) (Some "/staging/x"%string) RStaged None.
Definition contested : Db :=
  set_db_conflicts {[1 := mkConflict 1 1 "native" "open" None (Some "another local/cloud identity owns this path"%string) None (Some photo)]}
    (set_db_resources
      {[(1, "gen-1", "asset-o", RoleOriginal)%string := staged; (1, "gen-1", "asset-t", RoleThumbnail)%string := staged]}
      Commands.Sample.with_photo).
Definition conflict : Recovery.ConflictDoc :=
  Recovery.mkConflictDoc (Some "another local/cloud identity owns this path"%string) (Some photo) None.
Definition located_by_path : Located := located (1, entry).
End Sample.
Lemma cloud_deletion_witness :
  exists e', (transact (apply Sample.digest Sample.text 1 1 2 None DeleteCloud None Sample.stamp) Sample.gone).1
               = set_db_entries (<[1 := e']> (db_entries Sample.gone)) Sample.gone /\ e_dirty e' = DELETE.
Proof.
  destruct (cloud_deletion_is_explicit Sample.digest Sample.text 1 1 2 None None Sample.stamp Sample.gone tt
    (transact (apply Sample.digest Sample.text 1 1 2 None DeleteCloud None Sample.stamp) Sample.gone).1)
    as (e & e' & _ & _ & _ & _ & H & Hd & _); [by vm_compute|]. by exists e'.
Defined.
Lemma competing_conflict_witness :
  exists error, apply Sample.digest Sample.text 1 1 2 (Some (Recovery.mkConflictDoc
      (Some "cloud content at this path differs from the local file"%string) (Some Sample.photo) None)) UseCloud
      (Some "/recovery"%string) Sample.stamp
      (transact (settle Sample.digest 1 Sample.located_by_path Sample.photo false) SyncDb.Sample.db).1 = Err error.
Proof.
  apply (competing_conflict_unresolvable Sample.digest Sample.text 1 Sample.located_by_path Sample.photo false
    "cloud content at this path differs from the local file" SyncDb.Sample.db Remote);
    [by vm_compute|by vm_compute|by vm_compute|by vm_compute|by right].
Defined.
End Actions.
