(* ===== verification/SyncLifecycle.v ===== *)
(** The synchronization store over time.

    The commands of the other files interleave freely: the user edits, cycles
    begin and end, operations are issued and confirmed, jobs are reconfigured,
    the whole history is reset. This file states one invariant of the database
    and shows that every one of these steps keeps it.

    A command that only moves entries and tasks forward is an [evolving]
    computation. The class composes over the transaction monad, so that the
    commands are shown to be evolving by their shape. *)
From stdpp Require Import relations.
From S2P Require Import Prelude.
From S2P Require Import Json.
From S2P Require Import SyncDb.
From S2P Require Import SyncReset.
From S2P Require Import SyncDirty.
From S2P Require Import SyncAccounts.
From S2P Require Import SyncJobs.
From S2P Require Import NativeRecords.
From S2P Require Import SyncRuntime.
Local Open Scope Z_scope.

Module Lifecycle.
Import Dirty Runtime.

(** ** The invariant *)
(** The evidence of a task: its entry exists, and while the operation is
    issued the captured versions are not ahead of the entry's. *)
Definition evidence_ok (db : Db) (t : Task) : Prop :=
  forall id, t_entry t = Some id -> exists e, db_entries db !! id = Some e /\
    (t_state t = "issued"%string -> forall i, t_issued t = Some i ->
       forall c, captured c (i_versions i) <= version (track c e)).

Record Inv (db : Db) : Prop := {
  inv_table : table_ok db;
  inv_tasks : forall k t, db_tasks db !! k = Some t -> k < db_next_task db;
  inv_unique : forall k1 k2 t1 t2, db_tasks db !! k1 = Some t1 -> db_tasks db !! k2 = Some t2 ->
    t_operation t1 = t_operation t2 -> k1 = k2;
  inv_evidence : forall k t, db_tasks db !! k = Some t -> evidence_ok db t
}.

(** ** Steps forward *)
Definition versions_le (e e' : Entry) : Prop := forall c, version (track c e) <= version (track c e').

(** A task is the same operation with the same evidence; it may lose its entry
    and leave the issued state, and never the reverse. *)
Definition keeps (t t' : Task) : Prop :=
  t_operation t' = t_operation t /\ t_issued t' = t_issued t /\
  (t_state t' = "issued"%string -> t_state t = "issued"%string) /\
  (t_entry t' = t_entry t \/ t_entry t' = None).

Record evolves (db db' : Db) : Prop := {
  ev_tasks : forall k t', db_tasks db' !! k = Some t' -> exists t, db_tasks db !! k = Some t /\ keeps t t';
  ev_next : db_next_task db' = db_next_task db;
  ev_refs : table_ok db -> forall k t' id e, db_tasks db' !! k = Some t' -> t_entry t' = Some id ->
    db_entries db !! id = Some e -> exists e', db_entries db' !! id = Some e' /\ versions_le e e';
  ev_table : table_ok db -> table_ok db'
}.

Lemma keeps_refl t : keeps t t.
Proof. unfold keeps. tauto. Qed.
Lemma versions_le_refl e : versions_le e e.
Proof. intros c. lia. Qed.

#[export] Instance evolves_preorder : PreOrder evolves.
Proof.
  split.
  - intros db. constructor; [|done| |done].
    + intros k t Hk. exists t. split; [done|apply keeps_refl].
    + intros _ k t id e _ _ He. exists e. split; [done|apply versions_le_refl].
  - intros db1 db2 db3 [T12 N12 R12 O12] [T23 N23 R23 O23]. constructor.
    + intros k t3 H3. destruct (T23 k t3 H3) as (t2 & H2 & K23). destruct (T12 k t2 H2) as (t1 & H1 & K12).
      exists t1. split; [done|]. unfold keeps in *. intuition congruence.
    + congruence.
    + intros Htab k t3 id e1 H3 Hid H1. destruct (T23 k t3 H3) as (t2 & H2 & _ & _ & _ & Hent).
      destruct (R12 Htab k t2 id e1 H2) as (e2 & He2 & L12); [by destruct Hent; congruence|done|].
      destruct (R23 (O12 Htab) k t3 id e2 H3 Hid He2) as (e3 & He3 & L23). exists e3. split; [done|].
      intros c. specialize (L12 c). specialize (L23 c). lia.
    + auto.
Qed.

Lemma evolves_Inv db db' : Inv db -> evolves db db' -> Inv db'.
Proof.
  intros [Ht Hk Hu He] [T N R O]. constructor; [auto| | |].
  - intros k t' H. destruct (T k t' H) as (t & Ht0 & _). rewrite N. by apply (Hk k t).
  - intros k1 k2 t1 t2 H1 H2 Hop. destruct (T _ _ H1) as (s1 & S1 & K1). destruct (T _ _ H2) as (s2 & S2 & K2).
    apply (Hu k1 k2 s1 s2 S1 S2). unfold keeps in *. intuition congruence.
  - intros k t' H id Hid. destruct (T k t' H) as (t & Ht0 & Hop & Hi & Hs & Hent).
    assert (Hid0 : t_entry t = Some id) by (by destruct Hent; congruence).
    destruct (He k t Ht0 id Hid0) as (e & Hlook & Hcap).
    destruct (R Ht k t' id e H Hid Hlook) as (e' & He' & Hle). exists e'. split; [done|].
    intros Hst i Hi' c. rewrite Hi in Hi'. specialize (Hcap (Hs Hst) i Hi' c). specialize (Hle c). lia.
Qed.

(** The entries and tasks are untouched. *)
Lemma evolves_frame db db' :
  db_entries db' = db_entries db -> db_tasks db' = db_tasks db ->
  db_next_task db' = db_next_task db -> db_next_entry db' = db_next_entry db -> evolves db db'.
Proof.
  intros He Ht Hn Hne. constructor.
  - intros k t Hk. rewrite Ht in Hk. exists t. split; [done|apply keeps_refl].
  - done.
  - intros _ k t id e _ _ Hk. exists e. rewrite He. split; [done|apply versions_le_refl].
  - unfold table_ok, entries_ok, entry_ids_ok. by rewrite He, Hne.
Qed.

(** Tasks are dropped or move on, entries are untouched. *)
Lemma evolves_tasks db tasks :
  (forall k t', tasks !! k = Some t' -> exists t, db_tasks db !! k = Some t /\ keeps t t') ->
  evolves db (set_db_tasks tasks db).
Proof. intros Ht. constructor; [done|done| |done]. intros _ k t id e _ _ Hk. exists e. split; [done|apply versions_le_refl]. Qed.

(** Every entry moves forward in place. *)
Lemma evolves_entries db (f : Z -> Entry -> Entry) :
  (forall k e, versions_le e (f k e) /\ (entry_ok e -> entry_ok (f k e))) ->
  evolves db (set_db_entries (map_imap (fun k e => Some (f k e)) (db_entries db)) db).
Proof.
  intros Hf. assert (Hl : forall k, map_imap (fun k e => Some (f k e)) (db_entries db) !! k = f k <$> db_entries db !! k).
  { intros k. rewrite map_lookup_imap. by destruct (db_entries db !! k). }
  constructor; cbn [db_tasks db_next_task db_entries set_db_entries].
  - intros k t Hk. exists t. split; [done|apply keeps_refl].
  - done.
  - intros _ k t id e _ _ He. rewrite Hl, He. eexists. split; [done|apply Hf].
  - intros [Hok [Hpos Hids]]. split; [|split; [done|]]; intros k e' Hk; cbn in Hk; rewrite Hl in Hk;
      (destruct (db_entries db !! k) as [e|] eqn:He; [|done]).
    + injection Hk as <-. apply Hf. by apply (Hok k).
    + by apply (Hids k e).
Qed.

Lemma evolves_update_where db P f :
  (forall e, versions_le e (f e) /\ (entry_ok e -> entry_ok (f e))) ->
  evolves db (set_db_entries (update_where P f (db_entries db)) db).
Proof.
  intros Hf. apply (evolves_entries db (fun k e => if P k e then f e else e)). intros k e.
  destruct (P k e); [apply Hf|]. split; [apply versions_le_refl|done].
Qed.

Lemma evolves_alter db id f :
  (forall e, versions_le e (f e) /\ (entry_ok e -> entry_ok (f e))) ->
  evolves db (set_db_entries (alter f id (db_entries db)) db).
Proof.
  intros Hf.
  assert (alter f id (db_entries db) = update_where (fun k _ => k =? id) f (db_entries db)) as ->;
    [|by apply evolves_update_where].
  apply map_eq. intros k. rewrite lookup_update_where. destruct (decide (k = id)) as [->|Hne].
  - rewrite lookup_alter_eq. by destruct (db_entries db !! id); cbn; rewrite ?Z.eqb_refl.
  - rewrite lookup_alter_ne by done. apply Z.eqb_neq in Hne. by destruct (db_entries db !! k); cbn; rewrite ?Hne.
Qed.

(** A deleted entry takes the references to it along. *)
Lemma evolves_delete_entries P db : evolves db (delete_entries P db).
Proof.
  unfold delete_entries. constructor;
    cbn [db_tasks db_next_task db_entries set_db_entries set_db_conflicts set_db_tasks set_db_publications].
  - intros k t' Hk. rewrite lookup_update_where in Hk. destruct (db_tasks db !! k) as [t|]; [|done].
    injection Hk as <-. exists t. split; [done|]. destruct (t_entry t) as [id|] eqn:Hid; [|apply keeps_refl].
    destruct (match db_entries db !! id with Some e => P id e | None => false end); [|apply keeps_refl].
    unfold keeps. cbn. tauto.
  - done.
  - intros _ k t' id e Hk Hid He. exists e. split; [|apply versions_le_refl]. apply lookup_delete_where_Some.
    split; [done|]. rewrite lookup_update_where in Hk. destruct (db_tasks db !! k) as [t|]; [|done].
    injection Hk as <-. destruct (t_entry t) as [id0|] eqn:H0; [|congruence].
    destruct (db_entries db !! id0) as [e0|] eqn:He0; [|congruence].
    destruct (P id0 e0) eqn:HP; [done|]. rewrite H0 in Hid. congruence.
  - intros [Hok [Hpos Hids]]. split; [|split; [done|]]; intros k e [Hk _]%lookup_delete_where_Some;
      [by apply (Hok k)|by apply (Hids k e)].
Qed.

Lemma evolves_delete_media P db : evolves db (delete_media P db).
Proof.
  unfold delete_media. etrans; [|apply evolves_frame; [reflexivity..]].
  etrans; [apply (evolves_update_where db (fun _ e => match e_media e with
    | Some id => match db_media db !! id with Some m => P id m | None => false end
    | None => false end) (set_e_media None))|apply evolves_frame; reflexivity].
  intros e. split; [intros c; by destruct c|done].
Qed.
(** ** Evolving computations *)
Notation evolving := (respects evolves).
(** [frame] discharges a statement that touches neither entries nor tasks. *)
Ltac frame := intros; apply evolves_frame; reflexivity.
#[export] Hint Resolve evolves_delete_entries evolves_delete_media : respects.
#[export] Hint Extern 5 (evolves _ _) => frame : respects.

Lemma evolving_update_job id f : evolving (update_job id f).
Proof. unfold update_job. respect. Qed.
Lemma evolving_insert_album job album : evolving (insert_album job album).
Proof. unfold insert_album. respect. Qed.
#[export] Hint Resolve evolving_update_job evolving_insert_album : respects.
Lemma evolving_replace_albums job albums : evolving (replace_albums job albums).
Proof. unfold replace_albums. respect. Qed.

Lemma evolving_update_entry id f :
  (forall e, versions_le e (f e) /\ (entry_ok e -> entry_ok (f e))) -> evolving (update_entry id f).
Proof. intros Hf. apply respects_modify. intros db. by apply evolves_alter. Qed.

Lemma evolves_insert db id e :
  id = db_next_entry db -> entry_ok e ->
  evolves db (set_db_entries (<[id := e]> (db_entries db)) (set_db_next_entry (id + 1) db)).
Proof.
  intros -> He. constructor; cbn [db_tasks db_next_task db_entries set_db_entries set_db_next_entry].
  - intros k t Hk. exists t. split; [done|apply keeps_refl].
  - done.
  - intros [_ [_ Hids]] k t id e0 _ _ H0. exists e0. split; [|apply versions_le_refl].
    rewrite lookup_insert_ne; [done|]. intros <-. apply Hids in H0. lia.
  - intros [Hok [Hpos Hids]]. split; [|split; [cbn; lia|]]; intros k e' Hk; cbn in *;
      (destruct (decide (k = db_next_entry db)) as [->|Hne];
        [rewrite lookup_insert_eq in Hk; simplify_eq|rewrite lookup_insert_ne in Hk by done]).
    + done.
    + by apply (Hok k).
    + lia.
    + specialize (Hids k e' Hk). lia.
Qed.
Lemma evolving_insert_entry e : entry_ok e -> evolving (insert_entry e).
Proof.
  intros He db id db' H. unfold insert_entry in H. tx_inv H. subst. by apply evolves_insert.
Qed.
Lemma evolving_enrol_entry job media path : evolving (insert_entry (new_entry job media path NEW)).
Proof. apply evolving_insert_entry, new_entry_ok. Qed.
#[export] Hint Resolve evolving_replace_albums evolving_enrol_entry : respects.

(** ** The commands evolve *)
Lemma mark_entry_forward category stamp e :
  versions_le e (mark_entry category stamp e) /\ (entry_ok e -> entry_ok (mark_entry category stamp e)).
Proof. split; [|apply mark_entry_ok]. intros c. destruct category, c; cbn; lia. Qed.
Lemma evolving_mark id category stamp : evolving (mark id category stamp).
Proof.
  unfold mark. apply respects_bind; [apply _| |intros []; respect].
  apply respects_modify. intros db. apply evolves_alter, mark_entry_forward.
Qed.
#[export] Hint Resolve evolving_mark : respects.
Lemma evolving_note media category stamp : evolving (note media category stamp).
Proof.
  assert (Hone : forall c, evolving (note_one media category stamp c)).
  { intros [job o]. unfold note_one, media_path, relative_under. respect. }
  assert (Hall : forall claims, evolving (note_all media category stamp claims)).
  { induction claims; simpl; respect. }
  unfold note. respect.
Qed.
Lemma same_versions e e' :
  (forall c, version (track c e') = version (track c e)) -> versions_le e e'.
Proof. intros Hs c. rewrite Hs. lia. Qed.
(** A change of columns the invariant does not read. *)
Ltac unread := intros e; split; [apply same_versions; intros c; by destruct c|done].

Lemma evolving_upload_failed epoch entry reason : evolving (upload_failed epoch entry reason).
Proof.
  unfold upload_failed, valid_epoch. respect. apply evolving_update_entry. unread.
Qed.
Lemma evolving_begin epoch : evolving (Runtime.begin epoch).
Proof.
  unfold Runtime.begin. respect. apply respects_modify. intros db. apply evolves_update_where. unread.
Qed.
Lemma evolving_end_cycle epoch : evolving (end_cycle epoch).
Proof. unfold end_cycle. respect. Qed.
Lemma evolving_enroll epoch : evolving (enroll epoch).
Proof.
  unfold enroll, valid_epoch. respect. unfold enroll_one. respect.
Qed.
Lemma evolving_observe_local job paths : evolving (observe_local job paths).
Proof.
  unfold observe_local. respect.
  unfold observe_one. respect. apply respects_modify. intros db. apply evolves_update_where. unread.
Qed.
Lemma evolving_thumbnail_ready publication media mtime asset :
  evolving (thumbnail_ready publication media mtime asset).
Proof. unfold thumbnail_ready. respect. Qed.
Lemma evolving_forget_identity job entry version : evolving (forget_identity job entry version).
Proof. unfold forget_identity. respect. apply evolving_update_entry. unread. Qed.
Lemma evolving_confirm_absent epoch entry version lease :
  evolving (confirm_absent_deletion epoch entry version lease).
Proof.
  unfold confirm_absent_deletion, valid_epoch. respect. apply respects_modify. intros db.
  destruct (_ : bool); [apply evolves_delete_entries|done].
Qed.
Lemma evolves_drop_tasks P db : evolves db (set_db_tasks (delete_where P (db_tasks db)) db).
Proof.
  apply evolves_tasks. intros k t [Ht _]%lookup_delete_where_Some. exists t. split; [done|apply keeps_refl].
Qed.
Lemma evolves_move_tasks P f db :
  (forall t, keeps t (f t)) -> evolves db (set_db_tasks (update_where P f (db_tasks db)) db).
Proof.
  intros Hf. apply evolves_tasks. intros k t' Hk. rewrite lookup_update_where in Hk.
  destruct (db_tasks db !! k) as [t|]; [|done]. injection Hk as <-. exists t. split; [done|].
  destruct (P k t); [apply Hf|apply keeps_refl].
Qed.
#[export] Hint Resolve evolves_drop_tasks : respects.
Lemma evolving_retire epoch op rejected reason : evolving (retire_issued epoch op rejected reason).
Proof.
  unfold retire_issued, valid_epoch. respect. apply respects_modify. intros db. apply evolves_move_tasks.
  intros t. unfold keeps. cbn. split_and!; [done..|by left].
Qed.
Lemma evolving_discard job : evolving (discard_pending_deletions job).
Proof.
  unfold discard_pending_deletions. respect. apply respects_modify. intros db. apply evolves_update_where. unread.
Qed.

Lemma evolves_refresh db : evolves db (Accounts.refresh_media_locations_in db).
Proof. unfold Accounts.refresh_media_locations_in. etrans; [apply evolves_delete_media|frame]. Qed.
Lemma evolves_set_enabled selected connections db : evolves db (Accounts.set_enabled selected connections db).
Proof.
  unfold Accounts.set_enabled. revert db. induction connections as [|kc l IH]; intros db; simpl; [done|].
  etrans; [|apply IH]. destruct (bool_decide _); [done|frame].
Qed.
#[export] Hint Resolve evolves_refresh evolves_set_enabled : respects.
Lemma evolving_clear_account : evolving Accounts.clear_account.
Proof. unfold Accounts.clear_account. respect. Qed.
Lemma evolving_select_in job : evolving (Accounts.select_in job).
Proof. unfold Accounts.select_in, Accounts.choose. respect. Qed.

Lemma evolving_reset_begin token : evolving (Reset.begin token).
Proof. unfold Reset.begin. respect. Qed.
Lemma evolves_delete_job_rows id db : evolves db (delete_job_rows id db).
Proof.
  unfold delete_job_rows. etrans; [apply (evolves_delete_entries (fun _ e => e_job e =? id))|].
  etrans; [apply (evolves_drop_tasks (fun _ t => t_job t =? id))|]. frame.
Qed.
#[export] Hint Resolve evolves_delete_job_rows : respects.
Lemma evolves_forget_history db : evolves db (Reset.forget_history db).
Proof.
  constructor; [by intros k t Hk|done|by intros _ k t id e Hk|].
  intros [Hok [Hpos Hids]]. split; [by intros k e Hk|]. split; [done|by intros k e Hk].
Qed.
#[export] Hint Resolve evolves_forget_history : respects.
Lemma evolving_reset_finish token : evolving (Reset.finish token).
Proof.
  unfold Reset.finish. respect. unfold Reset.install_change. respect.
Qed.
Lemma evolving_queue_edit id edit : evolving (Jobs.queue_edit id edit).
Proof.
  assert (Hq : forall e, evolving (Jobs.queue id e)) by (intros e; unfold Jobs.queue; respect).
  unfold Jobs.queue_edit. respect.
Qed.
Lemma evolving_apply_change id revision : evolving (Jobs.apply_change id revision).
Proof. unfold Jobs.apply_change, Jobs.delete_job. respect. Qed.
(** ** Issuing and confirming *)
(** What the uplink hands to [Save]: versions read from the entry, which may
    have moved on since, and an operation id used for this entry only. *)
Definition captured_ok (db : Db) (issued : Issued) : Prop :=
  (forall e, db_entries db !! i_entry issued = Some e ->
     forall c, captured c (i_versions issued) <= version (track c e)) /\
  (forall k t, db_tasks db !! k = Some t -> t_operation t = i_id issued ->
     t_entry t = None \/ t_entry t = Some (i_entry issued)).

(** A new issued task of a known entry. *)
Lemma Inv_insert_task db issued :
  Inv db -> is_Some (db_entries db !! i_entry issued) ->
  (forall k t, db_tasks db !! k = Some t -> t_operation t <> i_id issued) ->
  Inv (set_db_tasks (<[db_next_task db :=
         mkTask (i_id issued) (i_job issued) (Some (i_entry issued)) (i_phase issued) "issued" (i_config issued)
                None None]> (db_tasks db)) (set_db_next_task (db_next_task db + 1) db)).
Proof.
  intros [Ht Hk Hu He] [e Hent] Hfresh. constructor; cbn [db_tasks db_next_task db_entries set_db_tasks set_db_next_task].
  - done.
  - intros k t [[<- _]|[_ Hl]]%lookup_insert_Some; [lia|]. specialize (Hk k t Hl). lia.
  - intros k1 k2 t1 t2 [[<- <-]|[_ H1]]%lookup_insert_Some [[<- <-]|[_ H2]]%lookup_insert_Some Hop; [done| | |].
    + cbn in Hop. by destruct (Hfresh k2 t2 H2).
    + cbn in Hop. by destruct (Hfresh k1 t1 H1).
    + by apply (Hu k1 k2 t1 t2).
  - intros k t [[<- <-]|[_ Hl]]%lookup_insert_Some; [|by apply (He k t)].
    intros id [= <-]. exists e. split; [done|]. by intros _ i.
Qed.

(** Evidence written over a task whose entry it captured. *)
Lemma Inv_write_evidence db issued :
  Inv db -> captured_ok db issued ->
  Inv (set_db_tasks (update_where (fun _ t => bool_decide (t_operation t = i_id issued))
                       (set_t_issued (Some issued)) (db_tasks db)) db).
Proof.
  intros [Ht Hk Hu He] [Hcap Hent].
  assert (Hold : forall k t', update_where (fun _ t => bool_decide (t_operation t = i_id issued))
      (set_t_issued (Some issued)) (db_tasks db) !! k = Some t' ->
    exists t, db_tasks db !! k = Some t /\
      t' = if bool_decide (t_operation t = i_id issued) then set_t_issued (Some issued) t else t).
  { intros k t' H. rewrite lookup_update_where in H. destruct (db_tasks db !! k) as [t|]; [|done].
    injection H as <-. by exists t. }
  constructor; cbn [db_tasks db_next_task db_entries set_db_tasks].
  - done.
  - intros k t' (t & H & _)%Hold. by apply (Hk k t).
  - intros k1 k2 t1 t2 (s1 & S1 & ->)%Hold (s2 & S2 & ->)%Hold Hop. apply (Hu k1 k2 s1 s2 S1 S2).
    by destruct (bool_decide (t_operation s1 = _)), (bool_decide (t_operation s2 = _)).
  - intros k t' (t & H & ->)%Hold id Hid. destruct (bool_decide _) eqn:E; [|by apply (He k t)].
    apply bool_decide_eq_true in E. cbn in Hid. destruct (He k t H id Hid) as (e & Hl & _). exists e. split; [done|].
    intros _ i [= <-] c. destruct (Hent k t H E) as [Hn|Hs]; [congruence|].
    rewrite Hid in Hs. injection Hs as ->. by apply Hcap.
Qed.

Lemma Inv_save epoch issued db db' :
  Inv db -> captured_ok db issued -> save epoch issued db = Ok (tt, db') -> Inv db'.
Proof.
  intros Hinv Hcap H. unfold save in H. apply bind_Ok in H as ([] & s & Hv & H). rewrite valid_epoch_run in Hv.
  destruct (epoch_valid db epoch); [|done]. injection Hv as <-.
  apply bind_Ok in H as ([] & s & [_ ->]%ensure_Ok & H). apply bind_Ok in H as (found & s & [-> ->]%gets_Ok & H).
  apply bind_Ok in H as ([] & s1 & Hins & Hw). apply issued_write_Ok in Hw as [-> _].
  destruct (find_task db (i_id issued)) as [[k t]|] eqn:Hf.
  { tx_inv Hins. by apply Inv_write_evidence. }
  assert (Hfresh : forall k t, db_tasks db !! k = Some t -> t_operation t <> i_id issued).
  { intros k t Hk. unfold find_task in Hf. rewrite find_row_None in Hf. specialize (Hf k t Hk).
    by apply bool_decide_eq_false in Hf. }
  tx_inv Hins. match goal with Hb : bool_decide (is_Some _) = true |- _ => apply bool_decide_eq_true in Hb as Hs end.
  apply Inv_write_evidence; [by apply Inv_insert_task|]. destruct Hcap as [Hc He]. split; [done|].
  cbn [db_tasks set_db_tasks set_db_next_task].
  intros k t [[<- <-]|[_ Hl]]%lookup_insert_Some Hop; [by right|by apply (He k t)].
Qed.

(** The evidence a confirmation matches is the entry's own. *)
Lemma confirmable_captured epoch op response lease generation records db e :
  Inv db -> confirmable epoch op response lease generation records db ->
  db_entries db !! i_entry op = Some e -> forall c, captured c (i_versions op) <= version (track c e).
Proof.
  intros [_ _ Hu He] Hc Hent c.
  destruct (cf_task _ _ _ _ _ _ _ Hc) as (k & t & Hk & Hop & _ & Hte & Hst).
  destruct (cf_stored _ _ _ _ _ _ _ Hc) as (stored & Hr & _ & Hv & _). rewrite <- Hv.
  unfold issued_read in Hr. destruct (find_task db (i_id op)) as [[k' t']|] eqn:Hf; [|done]. cbn in Hr.
  apply find_task_Some in Hf as [Hk' Hop']. assert (k' = k) as -> by (apply (Hu _ _ _ _ Hk' Hk); congruence).
  destruct (He k t Hk (i_entry op) Hte) as (e' & Hl & Hcap). simplify_eq. by apply Hcap.
Qed.

Lemma Inv_confirm iter epoch op response lease1 lease2 db db' :
  Inv db -> confirm iter epoch op response lease1 lease2 db = Ok (tt, db') -> Inv db'.
Proof.
  intros Hinv Hrun. pose proof Hrun as Hok. apply confirm_Ok in Hrun as (gen & records & Hc & _ & Hcd).
  apply (evolves_Inv db); [done|]. pose proof (cd_next _ _ _ _ _ Hcd) as [Hn1 Hn2]. constructor.
  - intros k t' Hk. destruct (cd_tasks _ _ _ _ _ Hcd k t' Hk) as (t & Ht & Hop & Hi & Hent & Hst).
    exists t. split; [done|]. unfold keeps. rewrite Hst. split_and!; [done|done| |done].
    by destruct (bool_decide _).
  - done.
  - intros _ k t' id e Hk Hid He. destruct (decide (id = i_entry op)) as [->|Hne].
    + destruct (cd_refs _ _ _ _ _ Hcd k t' Hk Hid (ex_intro _ e He)) as [e' He']. exists e'. split; [done|].
      destruct (cd_entry _ _ _ _ _ Hcd) as (b & Hb). rewrite He' in Hb. rewrite He in Hb. cbn in Hb.
      destruct (_ && _); [done|]. injection Hb as ->. intros c.
      pose proof (confirm_entry_version op records gen e c) as Hv. destruct c; cbn in *; lia.
    + exists e. rewrite (cd_others _ _ _ _ _ Hcd) by done. split; [done|apply versions_le_refl].
  - intros [Hents [Hpos Hids]]. split; [|split; [by rewrite Hn2|]].
    + apply (confirm_preserves_entries_ok _ _ _ _ _ _ _ _ Hok Hents). intros e He.
      by apply (confirmable_captured _ _ _ _ _ _ _ _ Hinv Hc).
    + intros k e' Hk. rewrite Hn2. destruct (decide (k = i_entry op)) as [->|Hne].
      * destruct (cd_entry _ _ _ _ _ Hcd) as (b & Hb). rewrite Hk in Hb.
        destruct (db_entries db !! i_entry op) as [e|] eqn:He; [|done]. by apply (Hids _ e).
      * rewrite (cd_others _ _ _ _ _ Hcd) in Hk by done. by apply (Hids k e').
Qed.

(** ** Interleavings *)
(** One successful step of any party. A command that fails leaves the database
    as it was, so only successes are steps. *)
Inductive step (db : Db) : Db -> Prop :=
  | step_edit media category stamp r db' :
      note media category stamp db = Ok (r, db') -> step db db'
  | step_command iter command db' :
      (forall epoch issued, command = Save epoch issued -> captured_ok db issued) ->
      execute iter command db = Ok (tt, db') -> step db db'
  | step_queue id edit b db' : Jobs.queue_edit id edit db = Ok (b, db') -> step db db'
  | step_apply id revision r db' : Jobs.apply_change id revision db = Ok (r, db') -> step db db'
  | step_reset_begin token db' : Reset.begin token db = Ok (tt, db') -> step db db'
  | step_reset_finish token b db' : Reset.finish token db = Ok (b, db') -> step db db'.

Lemma command_Inv iter command db db' :
  Inv db -> (forall epoch issued, command = Save epoch issued -> captured_ok db issued) ->
  execute iter command db = Ok (tt, db') -> Inv db'.
Proof.
  intros Hinv Hcap Hrun.
  assert (Hev : evolving (execute iter command) -> Inv db').
  { intros He. apply (evolves_Inv db); [done|]. by apply (He db tt). }
  destruct command; cbn [execute] in *;
    try (apply Hev; first [apply evolving_thumbnail_ready|apply evolving_discard|apply evolving_confirm_absent
      |apply evolving_clear_account|apply evolving_select_in|apply evolving_retire|apply evolving_upload_failed
      |apply evolving_begin|apply evolving_end_cycle|apply evolving_enroll|apply evolving_observe_local
      |apply evolving_forget_identity]).
  - apply (Inv_save epoch issued db); [done|by apply (Hcap epoch)|done].
  - by eapply Inv_confirm.
Qed.


(** ** Example *)
Lemma sample_Inv : Inv SyncDb.Sample.db.
Proof.
  constructor.
  - split; [|split; [cbn; lia|]]; intros k e [-> ->]%SyncDb.Sample.entries_are;
      [apply sample_entry_ok|cbn; lia].
  - intros k t Hk. by apply SyncDb.Sample.no_tasks in Hk.
  - intros k1 k2 t1 t2 Hk. by apply SyncDb.Sample.no_tasks in Hk.
  - intros k t Hk. by apply SyncDb.Sample.no_tasks in Hk.
Qed.
Lemma sample_captured : captured_ok SyncDb.Sample.db Runtime.Sample.op.
Proof.
  split.
  - intros e [_ ->]%SyncDb.Sample.entries_are c. destruct c; cbn; lia.
  - intros k t Hk. by apply SyncDb.Sample.no_tasks in Hk.
Qed.

End Lifecycle.
