(* ===== verification/ReceiveCollisions.v ===== *)
(** Local files in the way of received photos ([sync/service/receive/collisions.rs],
    the comparison of [sync/service/receive.rs] and [local_entries_for_paths] of
    [sync/store/receive.rs]).

    Before a received photo is weighed, the files at the received paths are
    indexed and the ones that may be the photo itself are measured. A file that is
    something else steps aside: it gets a second name with a numeric suffix, the
    move is recorded first, and only then its first name goes. *)
From Stdlib Require Import Ascii String.
From stdpp Require Import pretty.
From S2P Require Import Prelude.
From S2P Require Import Json.
From S2P Require Import Media.
From S2P Require Import Content.
From S2P Require Import SyncDb.
From S2P Require Import NativeRecords.
From S2P Require Import SyncDirty.
From S2P Require Import SyncRecovery.
From S2P Require Import SyncRuntime.
From S2P Require Import SyncReceive.
From S2P Require Import SyncProjection.
From S2P Require Import SyncPlacement.
From S2P Require Import Files.
From S2P Require Import TrashFiles.
From S2P Require Import LibraryScan.
From S2P Require Import SyncTransfer.
Import Json.
Local Open Scope string_scope.
Local Open Scope Z_scope.
Local Open Scope json_scope.

Module Collisions.
Import Records Receive Placement Files Transfer.

#[export] Instance AppError_eq_dec : EqDecision AppError.
Proof. solve_decision. Defined.

(** ** Local entries at received paths *)
Record LocalEntry := mkLocal {
  l_photo : option string; l_entry : Z; l_version : Z; l_relative : string; l_path : string; l_size : Z;
  l_cached : option LocalDigest }.

(** [u8::from_str_radix(pair, 16)] succeeds: a plus sign is allowed in front. *)
Definition is_hex_digit (c : ascii) : bool := bool_decide (Media.ascii_lower c ∈ Content.HEX_DIGITS).
Fixpoint hex_pairs (l : list ascii) : bool :=
  match l with
  | a :: b :: rest => (is_hex_digit a || Ascii.eqb a "+") && is_hex_digit b && hex_pairs rest
  | [] => true
  | [_] => false
  end.
(** [digest_parts]. *)
Definition digest_parts (d : LocalDigest) : option LocalDigest :=
  if (String.length (d_sha256 d) =? 64)%nat && (0 <=? d_size d) && hex_pairs (String.list_ascii_of_string (d_sha256 d))
  then Some d else None.
(** A digest taken for the entry at its present version. *)
Definition cached_digest (id : Z) (e : Entry) : option LocalDigest :=
  d ← e_digest e; if (d_entry d =? id) && (d_version d =? e_local e) then digest_parts d else None.
Definition as_u64_cast (n : Z) : Z := if 0 <=? n then n else n + 2 ^ 64.
(** One row of the statement of [local_entries_in]. *)
Definition local_row (root : string) (ke : Z * Entry) (km : Z * Media) : option LocalEntry :=
  if bool_decide (m_path km.2 = rtrim_slash root +:+ "/" +:+ e_path ke.2) && bool_decide (m_trashed_at km.2 = None)
     && negb (m_location km.2 =? 2)
  then Some (mkLocal (r_photo (e_remote ke.2)) ke.1 (e_local ke.2) (e_path ke.2) (m_path km.2) (as_u64_cast (m_size km.2))
               (cached_digest ke.1 ke.2))
  else None.
Definition local_entries_in (db : Db) (job : Z) (paths : list string) : list LocalEntry :=
  match db_jobs db !! job with
  | Some j =>
      if job_enabled db job then
        ke ← rows_by_id (db_entries db);
        if (e_job ke.2 =? job) && bool_decide (e_path ke.2 ∈ paths)
        then omap (local_row (j_root j) ke) (rows_by_id (db_media db)) else []
      else []
  | None => []
  end.
Fixpoint chunks {A} (fuel n : nat) (l : list A) : list (list A) :=
  match fuel, l with
  | S fuel, _ :: _ => take n l :: chunks fuel n (drop n l)
  | _, _ => []
  end.
Definition PATHS_PER_QUERY : nat := 500.
(** [local_entries_for_paths]: the paths in order, without repetition. *)
Definition local_entries_for_paths (db : Db) (job : Z) (paths : list string) : list LocalEntry :=
  let paths := merge_sort string_le (elements (list_to_set paths : gset string)) in
  chunk ← chunks (length paths) PATHS_PER_QUERY paths; local_entries_in db job chunk.

(** The photos of a graph that a path may name, the last of a path. *)
Definition photos_by_path (graph : RemoteGraph) : gmap string RemotePhoto :=
  list_to_map (reverse ((fun p => (relative_path p, p)) <$> base.filter (fun p => is_hidden p = false) (photos graph))).

(** [f] at [k], [k + 1], ..., [p] numbers at most, until one of them has a result. *)
Fixpoint until {A} (p : positive) (f : Z -> IO (option A)) (k : Z) : IO (option A) :=
  let next found m := match found with Some a => mret (Some a) | None => m end in
  match p with
  | xH => f k
  | xO p => found ← until p f k; next found (until p f (k + Zpos p))
  | xI p => found ← f k; next found (found ← until p f (k + 1); next found (until p f (k + 1 + Zpos p)))
  end.
Definition U32_MAX : positive := 4294967295.
Fixpoint io_fold {A B} (l : list A) (f : A -> B -> IO B) (b : B) : IO B :=
  match l with [] => mret b | x :: rest => b ← f x b; io_fold rest f b end.

(** A relation that the steps keep, the loops keep. *)
Section Loops.
Context (R : relation St) `{!PreOrder R}.
Lemma keeping_until {A} p (f : Z -> IO (option A)) k : (forall n, keeping R (f n)) -> keeping R (until p f k).
Proof. intros Hf. revert k. induction p as [p IH|p IH|]; intros k; cbn; keep. Qed.
Lemma keeping_fold {A B} (l : list A) (f : A -> B -> IO B) b : (forall a b, keeping R (f a b)) -> keeping R (io_fold l f b).
Proof. intros Hf. revert b. induction l as [|a l IH]; intros b; cbn [io_fold]; keep. Qed.
End Loops.

(** [describe], [attributes_json], [json_bool]: as in [Scan]; [event]: the event
    under which a changed file is recorded; [row_order]: the order in which a
    statement without one lists its rows; [uuid]: the identifier drawn for a move of
    an entry to a number. *)
Section Collisions.
Context (sha256 : list Z -> list Z) (file_uri : string -> string).
Context (describe : string -> list Z -> result Scan.Description) (attributes_json : option bool -> bool -> bool -> string).
Context (json_bool : string -> string -> option bool).
Context (event : NewMediaItem -> EditEvent) (row_order : list LocalEntry -> list LocalEntry).
Context (uuid : Z -> Z -> string) (dev : Z).

(** ** Indexing *)
Definition saturating (n : Z) : Z := Z.max I64_MIN (Z.min I64_MAX n).
Definition mtime_ns (m : Metadata) : Z := saturating (saturating (modified m / NANOS * NANOS) + modified m mod NANOS).
(** The row of a path has the size and the time of the file. *)
Definition row_unchanged (path : string) (m : Metadata) (db : Db) : bool :=
  exists_where (fun _ r => bool_decide (m_path r = path) && bool_decide (m_trashed_at r = None)
    && (m_size r =? Projection.as_i64_cast (len m)) && (m_mtime_ns r =? mtime_ns m)) (db_media db).
Definition index_path (root relative : string) (items : list NewMediaItem) : IO (list NewMediaItem) :=
  path ← look (fun st => safe_destination (st_fs st) root relative);
  path ← checked path;
  meta ← look (fun st => symlink_metadata (st_fs st) path);
  match meta with
  | None => mret items
  | Some m =>
      _ ← require (bool_decide (file_type m = IsFile)) (error "a local non-file occupies the remote path");
      unchanged ← query (fun db => Ok (row_unchanged path m db));
      if (unchanged : bool) then mret items
      else
        item ← look (fun st => Scan.new_item_from_path describe attributes_json json_bool file_uri (st_fs st) path);
        item ← checked item;
        mret (items ++ option_list item)%list
  end.
(** [index_receive_paths]. *)
Definition index_receive_paths (job : Z) (paths : list string) : IO unit :=
  row ← query (fun db => Ok (db_jobs db !! job));
  j ← some row (error "receive job was removed");
  items ← io_fold paths (index_path (j_root j)) [];
  _ ← (if bool_decide (items = []) then mret tt
       else command (_ ← Scan.upsert_media_items_batch event items; mret tt));
  command (Runtime.observe_local job paths).
(** [prepare_local_matches]. *)
Definition prepare_local_matches (job : Z) (graph : RemoteGraph) : IO unit :=
  index_receive_paths job (relative_path <$> base.filter (fun p => is_hidden p = false) (photos graph)).

(** ** Measuring *)
(** An entry whose file may be the received photo at its path. *)
Definition to_compare (graph : RemoteGraph) (e : LocalEntry) : bool :=
  match photos_by_path graph !! l_relative e with
  | Some photo => negb (bool_decide (l_photo e = Some (photo_id photo))) && (l_size e =? a_size (original photo))
  | None => false
  end.
Definition measured (fs : Fs) (e : LocalEntry) : option (string * LocalDigest) :=
  match l_cached e with
  | Some d => Some (l_relative e, d)
  | None =>
      match digest_file sha256 fs (l_path e) with
      | Ok d => Some (l_relative e, mkDigest (l_entry e) (l_version e) (Content.hex d) (Content.digest_size d))
      | Err _ => None
      end
  end.
(** [measure_local_matches]: cached digests first, then the measured ones; of two
    of one path the later stays. *)
Definition measure_local_matches (job : Z) (graph : RemoteGraph) : IO (gmap string LocalDigest) :=
  listed ← attempt (query (fun db => Ok (row_order (local_entries_for_paths db job (relative_path <$> photos graph)))));
  match listed with
  | Err _ => mret ∅
  | Ok entries =>
      let entries := List.filter (to_compare graph) entries in
      let known := List.filter (fun e => bool_decide (is_Some (l_cached e))) entries in
      let unknown := List.filter (fun e => bool_decide (l_cached e = None)) entries in
      look (fun st => list_to_map (reverse (omap (measured (st_fs st)) (known ++ unknown)%list)))
  end.

(** ** Stepping aside *)
Definition numbered (path : string) (stem : string) (number : Z) : string :=
  match Media.extension path with
  | Some ext => stem +:+ "_" +:+ pretty number +:+ "." +:+ ext
  | None => stem +:+ "_" +:+ pretty number
  end.
Definition occupied (job : Z) (relative path : string) (db : Db) : bool :=
  path_taken db job relative || exists_where (fun _ m => bool_decide (m_path m = path)) (db_media db).
Definition collision_capture (job config dirty : Z) (e : LocalEntry) (photo : RemotePhoto) : Value :=
  obj [("job", Int job); ("entry", Int (l_entry e)); ("local", Int (l_version e)); ("config", Int config);
       ("dirty", Int dirty); ("photo", Str (photo_id photo))].
Definition collision_details (e : LocalEntry) (preserved root : string) (stamp : Value) : Value :=
  obj [("collision", Bool true); ("source", Str (l_path e)); ("preserved", Str preserved); ("root", Str root);
       ("stamp", stamp)].
(** The move of one entry to one name: whether it was made. *)
Definition preserve_as (id : string) (e : LocalEntry) (parent preserved : string) (capture details stamp : Value) : IO bool :=
  _ ← command (begin_collision id capture details);
  now ← look (fun st => collision_stamp dev (st_fs st) (l_path e));
  now ← checked now;
  if negb (bool_decide (now = stamp)) then
    _ ← command (abort_collision id);
    fail (error "local collision changed before preservation")
  else
    linked ← attempt (file_op (hard_link (l_path e) preserved));
    match linked with
    | Err failure =>
        _ ← command (abort_collision id);
        if bool_decide (failure = ALREADY_EXISTS) then mret false else fail failure
    | Ok _ =>
        removed ← attempt (file_op (remove_file (l_path e)));
        match removed with
        | Err failure => _ ← recover_collision dev id details; fail failure
        | Ok _ =>
            _ ← sync_dir parent;
            finished ← attempt (command (finish_collision file_uri id));
            match finished with
            | Err failure => _ ← recover_collision dev id details; fail failure
            | Ok _ => mret true
            end
        end
    end.
Definition try_number (job : Z) (j : Job) (reserved : gset string) (e : LocalEntry) (photo : RemotePhoto) (dirty : Z)
    (stamp : Value) (parent stem : string) (number : Z) : IO (option string) :=
  let preserved := path_join parent (numbered (l_path e) stem number) in
  relative ← some (relative_to (j_root j) preserved) (error "collision escaped the job root");
  there ← look (fun st => bool_decide (is_Some (symlink_metadata (st_fs st) preserved)));
  if bool_decide (relative ∈ reserved) || there then mret None
  else
    taken ← query (fun db => Ok (occupied job relative preserved db));
    if (taken : bool) then mret None
    else
      moved ← preserve_as ("collision-" +:+ uuid (l_entry e) number) e parent preserved
        (collision_capture job (j_config j) dirty e photo) (collision_details e preserved (j_root j) stamp) stamp;
      mret (if (moved : bool) then Some relative else None).
Definition step_aside (job : Z) (j : Job) (reserved : gset string) (e : LocalEntry) (photo : RemotePhoto) (dirty : Z)
  : IO (gset string) :=
  stamp ← look (fun st => collision_stamp dev (st_fs st) (l_path e));
  stamp ← checked stamp;
  stem ← some (Trash.file_stem <$> Media.file_name (l_path e)) (error "collision path has no stem");
  parent ← some (path_parent (l_path e)) (error "collision path has no parent");
  moved ← until U32_MAX (try_number job j reserved e photo dirty stamp parent stem) 1;
  relative ← some moved (error "no free numeric suffix for the local collision");
  mret ({[relative]} ∪ reserved).

(** The identity of the entry is still in use: by a received photo or by a row. *)
Definition identity_live (job : Z) (graph : RemoteGraph) (identity : option string) : IO bool :=
  match identity with
  | None => mret false
  | Some id =>
      if bool_decide (id ∈ tombstones graph) then mret false
      else if bool_decide (id ∈ photo_id <$> photos graph) then mret true
      else query (fun db => Ok (exists_where (fun _ e => (e_job e =? job) && bool_decide (r_photo (e_remote e) = Some id)
                                                          && negb (e_retired e)) (db_entries db)))
  end.
Definition outdated (e : LocalEntry) (observation : option LocalDigest) : bool :=
  match observation with Some d => negb (d_entry d =? l_entry e) || negb (d_version d =? l_version e) | None => false end.
Definition matches (photo : RemotePhoto) (observation : option LocalDigest) : bool :=
  match observation with Some d => Projection.same_bytes photo d | None => false end.
(** An entry whose file is at the path of another photo. *)
Definition resolve_collision (job : Z) (j : Job) (graph : RemoteGraph) (reserved : gset string) (e : LocalEntry)
    (photo : RemotePhoto) (observation : option LocalDigest) (dirty : Z) : IO (gset string) :=
  _ ← require (negb (outdated e observation)) (error "local edit superseded receive comparison; retry scheduled");
  live ← identity_live job graph (l_photo e);
  if matches photo observation && negb live && negb (dirty =? Dirty.DELETE) then
    _ ← match l_photo e with
        | Some _ => command (Runtime.forget_identity job (l_entry e) (l_version e))
        | None => mret tt
        end;
    mret reserved
  else
    _ ← require (negb ((l_size e =? a_size (original photo)) && bool_decide (observation = None)))
          (error "could not compare a same-size local collision; retry scheduled");
    step_aside job j reserved e photo dirty.
Definition preserve_entry (job : Z) (j : Job) (graph : RemoteGraph) (digests : gmap string LocalDigest) (e : LocalEntry)
    (reserved : gset string) : IO (gset string) :=
  match photos_by_path graph !! l_relative e with
  | None => mret reserved
  | Some photo =>
      if bool_decide (l_photo e = Some (photo_id photo)) then mret reserved
      else
        there ← look (fun st => path_exists (st_fs st) (l_path e));
        if negb there then mret reserved
        else
          row ← query (fun db => row ← ok_or_err (db_entries db !! l_entry e) NoRows; Ok (e_dirty row, Runtime.busy db (l_entry e)));
          if (row.2 : bool) then mret reserved
          else resolve_collision job j graph reserved e photo (digests !! l_relative e) row.1
  end.
(** [preserve_receive_paths], which [preserve_collisions] runs. *)
Definition preserve_collisions (job : Z) (graph : RemoteGraph) (digests : gmap string LocalDigest) : IO unit :=
  _ ← write_lock;
  row ← query (fun db => Ok (db_jobs db !! job));
  j ← some row (error "receive job was removed");
  let paths := relative_path <$> photos graph in
  entries ← query (fun db => Ok (row_order (local_entries_for_paths db job paths)));
  _ ← io_fold entries (preserve_entry job j graph digests) (list_to_set paths);
  mret tt.

(** ** No file is lost

    A file keeps its bytes, and every name of it stands for itself or for another
    name of the same file in the same folder. *)
Record kept_files (fs fs' : Fs) : Prop := {
  kf_inodes : inodes fs' = inodes fs;
  kf_names : forall p i, names fs !! p = Some (NFile i) ->
    exists p', names fs' !! p' = Some (NFile i) /\ path_parent p' = path_parent p
}.
#[export] Instance kept_files_preorder : PreOrder kept_files.
Proof.
  split; [split; [done|by eauto]|]. intros a b c [I1 N1] [I2 N2]. split; [congruence|].
  intros p i Hp. destruct (N1 p i Hp) as (q & Hq & Eq). destruct (N2 q i Hq) as (r & Hr & Er). exists r. split; congruence.
Qed.
Lemma kept_new_name fs q n : names fs !! q = None -> kept_files fs (set_names (<[q := n]> (names fs)) fs).
Proof.
  intros Hq. split; [done|]. intros p i Hp. exists p. split; [|done]. cbn. rewrite lookup_insert_ne; [done|]. congruence.
Qed.
(** One of two names of a file goes. *)
Lemma kept_remove_twin fs p q i : names fs !! p = Some (NFile i) -> names fs !! q = Some (NFile i) -> p <> q ->
  path_parent p = path_parent q -> kept_files fs (set_names (delete p (names fs)) fs).
Proof.
  intros Hp Hq Hne Hd. split; [done|]. intros r k Hr. cbn. destruct (decide (r = p)) as [->|Hrp].
  - exists q. rewrite lookup_delete_ne by done. split; [congruence|done].
  - exists r. by rewrite lookup_delete_ne.
Qed.

Definition kept (st st' : St) : Prop := kept_files (st_fs st) (st_fs st').
#[export] Instance kept_preorder : PreOrder kept.
Proof. split; [by intros st; unfold kept|]. intros a b c. unfold kept. by etrans. Qed.
Notation keeping := (Files.keeping kept).
Lemma keeping_command {A} (m : Tx Db A) : keeping (command m).
Proof. apply keeping_op; [apply _|]. intros st a st'. cbn. destruct (m (st_db st)); [|done]. intros [= _ <-]. by unfold kept. Qed.
#[local] Hint Resolve keeping_command : keeping.
(** A stamp tells which file a name stands for. *)
Lemma collision_stamp_file fs p s : collision_stamp dev fs p = Ok s ->
  exists i, names fs !! p = Some (NFile i) /\ exists rest, s = Arr (Int dev :: Int i :: rest).
Proof.
  unfold collision_stamp, symlink_metadata. destruct (names fs !! p) as [[i|to l m|l m]|] eqn:E; cbn; try done.
  destruct (inodes fs !! i) as [f|]; [|done]. cbn. intros [= <-]. by eauto.
Qed.
Lemma keeping_owned_path root path : keeping (owned_path root path).
Proof. unfold owned_path. keep. Qed.
Lemma keeping_unchanged path details e : keeping (unchanged_since dev path details e).
Proof. unfold unchanged_since. keep. Qed.
#[local] Hint Resolve keeping_owned_path keeping_unchanged : keeping.
(** The name that goes has the stamp of the one that stays. *)
Lemma keeping_unlink_twin source preserved (details : Value) e1 e2 : source <> preserved ->
  path_parent source = path_parent preserved ->
  keeping (_ ← unchanged_since dev preserved details e1;
           both ← look (fun st => bool_decide (is_Some (symlink_metadata (st_fs st) source)));
           _ ← (if (both : bool) then unchanged_since dev source details e2 else file_op (hard_link preserved source));
           file_op (remove_file preserved)).
Proof.
  intros Hne Hpar st. set (C st' := kept_files (st_fs st) (st_fs st')). assert (HC : C st) by by unfold C.
  assert (Hstamp : forall path e (Q : result unit -> St -> Prop), (forall err, Q (Err err) st) ->
    (forall i rest, names (st_fs st) !! path = Some (NFile i) -> details.["stamp"] = Arr (Int dev :: Int i :: rest) -> Q (Ok tt) st) ->
    wpc true C (unchanged_since dev path details e) Q st).
  { intros path e Q He Hok. unfold unchanged_since. wp. wp. wp. wp. destruct (collision_stamp dev (st_fs st) path) as [v|] eqn:E; [|done].
    apply wpc_require; intros Hv; [|done]. apply bool_decide_eq_true in Hv. apply collision_stamp_file in E as (i & Hi & rest & ->). by eapply Hok. }
  wp. apply Hstamp; [done|]. intros i rest Hi Es. wp. wp. wp.
  destruct (bool_decide _) eqn:Eb.
  - apply Hstamp; [done|]. intros j rest' Hj Es'. rewrite Es in Es'. injection Es' as <- _.
    apply wpc_file_op; [done|]. unfold remove_file. rewrite Hi. cbn. by split; eapply kept_remove_twin.
  - apply wpc_file_op; [done|]. unfold hard_link. rewrite Hi. destruct (names (st_fs st) !! source) eqn:Esrc; [done|].
    split; [by apply kept_new_name|]. apply wpc_file_op; [intros; by apply kept_new_name|]. unfold remove_file. cbn.
    rewrite lookup_insert_ne, Hi by done. cbn.
    set (fs1 := set_names (<[source:=NFile i]> (names (st_fs st))) (st_fs st)).
    assert (Hk : kept_files fs1 (set_names (delete preserved (names fs1)) fs1)).
    { eapply (kept_remove_twin fs1 preserved source i); cbn; [by rewrite lookup_insert_ne|apply lookup_insert_eq|done|done]. }
    assert (Hk' : kept_files (st_fs st) (set_names (delete preserved (names fs1)) fs1)) by (etrans; [by apply kept_new_name|exact Hk]).
    by split.
Qed.
Lemma keeping_recover id details source preserved :
  as_str details.["source"] = Some source -> as_str details.["preserved"] = Some preserved -> source <> preserved ->
  keeping (recover_collision dev id details).
Proof.
  intros Hs Hp Hne. unfold recover_collision.
  apply keeping_some_then; [apply _|]. intros ? [= <-]%(eq_trans (eq_sym Hs)). apply keeping_some_then; [apply _|]. intros ? [= <-]%(eq_trans (eq_sym Hp)).
  do 3 (apply keeping_bind; [apply _|keep|intros ?]). apply keeping_require_then; [apply _|]. intros Hpar%bool_decide_eq_true.
  apply keeping_bind; [apply _|keep|intros moved].
  apply keeping_bind; [apply _|destruct moved; [by eapply keeping_unlink_twin|keep]|intros _]. keep.
Qed.

(** ** The move of one file *)
Lemma keeping_preserve_as id e parent preserved capture root stamp :
  path_parent preserved = path_parent (l_path e) ->
  keeping (preserve_as id e parent preserved capture (collision_details e preserved root stamp) stamp).
Proof.
  intros Hpar. unfold preserve_as. apply keeping_bind; [apply _|keep|intros _]. intros st. set (C st' := kept_files (st_fs st) (st_fs st')). assert (HC : C st) by by unfold C.
  wp. wp. wp. wp. destruct (collision_stamp dev (st_fs st) (l_path e)) as [now|] eqn:E; [|done].
  apply collision_stamp_file in E as (i & Hi & _ & _). destruct (negb _); [by apply (keeping_bind _ _ _ (keeping_command _) (fun _ => keeping_fail _ _))|].
  assert (Hrec : l_path e <> preserved -> forall failure : AppError,
    keeping (_ ← recover_collision dev id (collision_details e preserved root stamp); @fail bool failure)).
  { intros Hne failure. apply keeping_bind; [apply _| |intros; keep]. by apply (keeping_recover _ _ (l_path e) preserved). }
  wp. apply wpc_attempt, wpc_file_op.
  { intros _. by apply (keeping_bind _ _ _ (keeping_command _) (fun _ => keeping_fail _ _)). }
  unfold hard_link. rewrite Hi. destruct (names (st_fs st) !! preserved) eqn:Ep.
  { apply keeping_bind; [apply _|keep|intros _]. case_bool_decide; keep. }
  assert (Hne : l_path e <> preserved) by congruence. specialize (Hrec Hne).
  set (fs1 := set_names (<[preserved:=NFile i]> (names (st_fs st))) (st_fs st)).
  assert (H1 : kept_files (st_fs st) fs1) by by apply kept_new_name. split; [done|].
  assert (Hs : names fs1 !! l_path e = Some (NFile i)) by (cbn; by rewrite lookup_insert_ne).
  assert (H2 : kept_files (st_fs st) (set_names (delete (l_path e) (names fs1)) fs1)).
  { etrans; [exact H1|]. apply (kept_remove_twin fs1 (l_path e) preserved i); [done|by apply lookup_insert_eq|done|done]. }
  wp. apply wpc_attempt, wpc_file_op; [intros _; by apply keeping_from; [apply _|..]|].
  unfold remove_file. cbn [st_fs set_fs]. rewrite Hs. split; [exact H2|]. apply keeping_from; [apply _| |exact H2].
  apply keeping_bind; [apply _|keep|intros _]. apply keeping_bind; [apply _|keep|intros [[]|failure]]; [keep|apply Hrec].
Qed.

(** ** Names beside a name *)
Lemma stem_plain name : forallb plain_char (String.list_ascii_of_string name) = true ->
  forallb plain_char (String.list_ascii_of_string (Trash.file_stem name)) = true.
Proof.
  intros Hn. unfold Trash.file_stem. destruct (Media.rsplit_dot name) as [[before after]|] eqn:E; [|done].
  case_bool_decide; [done|]. by destruct (rsplit_dot_plain _ _ _ Hn E).
Qed.
Lemma pretty_N_char_plain x : plain_char (pretty_N_char x) = true.
Proof. unfold pretty_N_char. repeat case_match; reflexivity. Qed.
Lemma pretty_N_go_plain x s : forallb plain_char (String.list_ascii_of_string s) = true ->
  forallb plain_char (String.list_ascii_of_string (pretty_N_go x s)) = true.
Proof.
  revert s. induction (N.lt_wf_0 x) as [x _ IH]. intros s Hs. destruct (decide (x = 0)%N) as [->|Hx].
  - by rewrite pretty_N_go_0.
  - rewrite pretty_N_go_step by lia. apply IH; [apply N.div_lt; lia|]. cbn [String.list_ascii_of_string forallb].
    by rewrite pretty_N_char_plain.
Qed.
Lemma pretty_plain (n : Z) : forallb plain_char (String.list_ascii_of_string (pretty n)) = true.
Proof.
  assert (HN : forall x : N, forallb plain_char (String.list_ascii_of_string (pretty x)) = true).
  { intros x. unfold pretty, pretty_N. case_decide; [done|]. by apply pretty_N_go_plain. }
  unfold pretty, pretty_Z. destruct n as [|p|p]; [done|apply HN|]. cbn [String.list_ascii_of_string forallb append]. apply HN.
Qed.
Lemma numbered_plain path stem number : Media.file_name path = Some stem ->
  plain_name (numbered path (Trash.file_stem stem) number) = true.
Proof.
  intros Hn. pose proof (stem_plain _ (file_name_plain _ _ Hn)) as Hs. pose proof (pretty_plain number) as Hp.
  assert (Htail : exists tail, numbered path (Trash.file_stem stem) number = (Trash.file_stem stem +:+ "_" +:+ tail)%string
    /\ forallb plain_char (String.list_ascii_of_string tail) = true).
  { unfold numbered. destruct (Media.extension path) as [ext|] eqn:E; [|by eauto]. eexists. split; [done|].
    apply extension_plain in E. by repeat apply plain_append. }
  destruct Htail as (tail & -> & Ht). unfold plain_name. rewrite plain_append by by try apply plain_append. rewrite andb_true_r.
  unfold Runtime.skippable. destruct (Trash.file_stem stem) as [|c t]; cbn; [done|]. rewrite append_cons.
  rewrite !bool_decide_false; [done| |done]. intros [= -> E]. by destruct t.
Qed.

Lemma keeping_try_number job j reserved e photo dirty stamp parent name number :
  path_parent (l_path e) = Some parent -> Media.file_name (l_path e) = Some name ->
  keeping (try_number job j reserved e photo dirty stamp parent (Trash.file_stem name) number).
Proof.
  intros Hp Hn. unfold try_number. keep. apply keeping_preserve_as. rewrite Hp.
  eapply path_parent_join; [exact Hp|by apply numbered_plain].
Qed.
Lemma keeping_step_aside job j reserved e photo dirty : keeping (step_aside job j reserved e photo dirty).
Proof.
  unfold step_aside. do 2 (apply keeping_bind; [apply _|keep|intros ?]). apply keeping_some_then; [apply _|]. intros stem Hs. apply keeping_some_then; [apply _|]. intros parent Hp.
  destruct (Media.file_name (l_path e)) as [name|] eqn:Hn; [|done]. injection Hs as <-.
  apply keeping_bind; [apply _| |intros ?; keep]. apply keeping_until; [apply _|]. intros n. by apply keeping_try_number.
Qed.
#[local] Hint Resolve keeping_step_aside : keeping.
Lemma keeping_identity_live job graph identity : keeping (identity_live job graph identity).
Proof. unfold identity_live. keep. Qed.
#[local] Hint Resolve keeping_identity_live : keeping.
Lemma keeping_preserve job graph digests : keeping (preserve_collisions job graph digests).
Proof.
  unfold preserve_collisions. apply keeping_bind; [apply _|apply keeping_op; [apply _|]; by intros ??? [= _ <-]|intros _].
  keep. apply keeping_fold; [apply _|]. intros e reserved. unfold preserve_entry, resolve_collision. keep.
Qed.
Lemma keeping_index job graph : keeping (prepare_local_matches job graph).
Proof. unfold prepare_local_matches, index_receive_paths. keep. apply keeping_fold; [apply _|]. intros path items. unfold index_path. keep. Qed.
(** C19: Making room for received photos never loses a local file: whatever operation fails and wherever the process
    stops, every file keeps its bytes and still has the name it had or another one in the same folder; and so it stays
    when the recovery of the interrupted move is itself interrupted. *)
Theorem collision_keeps_every_file job graph digests fl st st' id (details : Value) source preserved fl' st'' :
  st' ∈ stops (preserve_collisions job graph digests) fl st ->
  as_str details.["source"] = Some source -> as_str details.["preserved"] = Some preserved -> source <> preserved ->
  st'' ∈ stops (recover_collision dev id details) fl' st' ->
  kept_files (st_fs st) (st_fs st') /\ kept_files (st_fs st) (st_fs st'').
Proof.
  intros H1 Hs Hp Hne H2.
  pose proof (keeping_stops _ _ _ _ _ (keeping_preserve _ _ _) H1) as Hk. split; [done|]. etrans; [exact Hk|].
  by apply (keeping_stops kept _ _ _ _ (keeping_recover id details source preserved Hs Hp Hne) H2).
Qed.

(** ** The path gets free *)
Lemma wpc_until {A} (C I : St -> Prop) (P : A -> St -> Prop) p (f : Z -> IO (option A)) k st :
  (forall n st, I st -> wpc true C (f n) (fun r st' => match r with Ok None => I st' | Ok (Some a) => P a st' | Err _ => True end) st) ->
  I st -> wpc true C (until p f k) (fun r st' => match r with Ok None => I st' | Ok (Some a) => P a st' | Err _ => True end) st.
Proof.
  intros Hf. revert k st. induction p as [p IH|p IH|]; intros k st HI; cbn [until]; [| |by apply Hf].
  - wp. eapply wpc_mono; [by apply Hf|]. intros [[a|]|] st1 H1; [by wp| |done].
    wp. eapply wpc_mono; [by apply IH|]. intros [[a|]|] st2 H2; [by wp|by apply IH|done].
  - wp. eapply wpc_mono; [by apply IH|]. intros [[a|]|] st1 H1; [by wp|by apply IH|done].
Qed.
(** The rows of the library and of the job stay. *)
Definition same_library (db db' : Db) : Prop := db_entries db' = db_entries db /\ db_media db' = db_media db.
#[export] Instance same_library_preorder : PreOrder same_library.
Proof. split; [done|]. intros x y z [] []. split; congruence. Qed.
Lemma same_library_begin id capture details : respects same_library (begin_collision id capture details).
Proof.
  unfold begin_collision, Projection.check_publication, Recovery.set_capture, Recovery.set_details, Recovery.update_pub. respect;
    by apply respects_modify.
Qed.
Lemma same_library_abort id : respects same_library (abort_collision id).
Proof. unfold abort_collision, set_pub_state, Recovery.set_details, Recovery.update_pub. respect; by apply respects_modify. Qed.
(** The file of an entry has moved to a name that was free on disk and in the library. *)
Record stepped (job : Z) (root : string) (reserved : gset string) (e : LocalEntry) (i : Z) (st : St) (fs' : Fs)
    (relative preserved : string) : Prop := {
  sp_relative : relative_to root preserved = Some relative;
  sp_reserved : relative ∉ reserved;
  sp_absent : symlink_metadata (st_fs st) preserved = None;
  sp_library : occupied job relative preserved (st_db st) = false;
  sp_folder : path_parent preserved = path_parent (l_path e);
  sp_other : preserved <> l_path e;
  sp_fs : fs' = set_names (delete (l_path e) (<[preserved := NFile i]> (names (st_fs st)))) (st_fs st)
}.
Lemma preserve_as_moves id e parent preserved capture details stamp i st :
  names (st_fs st) !! l_path e = Some (NFile i) ->
  wpc true (fun _ => True) (preserve_as id e parent preserved capture details stamp)
    (fun r st' => match r with
     | Ok false => st_fs st' = st_fs st /\ same_library (st_db st) (st_db st')
     | Ok true => preserved <> l_path e /\ st_fs st' = set_names (delete (l_path e) (<[preserved := NFile i]> (names (st_fs st)))) (st_fs st)
     | Err _ => True end) st.
Proof.
  intros Hi.
  assert (Hfail : forall (m : IO unit) e' (Q : result bool -> St -> Prop) st0, (forall err st', Q (Err err) st') ->
    wpc true (fun _ => True) (_ ← m; fail e') Q st0).
  { intros m e' Q st0 HQ. wp. intros fl _. split_and!; [by apply Forall_true|by left|]. destruct (o_result (m fl st0)); [by apply wpc_fail|done]. }
  assert (Habort : forall db e', same_library (st_db st) db -> wpc true (fun _ => True)
      (_ ← command (abort_collision id); if bool_decide (e' = ALREADY_EXISTS) then mret false else fail e')
      (fun r st' => match r with
       | Ok false => st_fs st' = st_fs st /\ same_library (st_db st) (st_db st')
       | Ok true => preserved <> l_path e /\ st_fs st' = set_names (delete (l_path e) (<[preserved := NFile i]> (names (st_fs st)))) (st_fs st)
       | Err _ => True end) (mkSt db (st_fs st))).
  { intros db e' Hdb. wp. eapply wpc_command_respects; [apply same_library_abort|done|]. intros a db' _ Hs. split; [done|].
    case_bool_decide; wp; [|done]. split; [done|]. by etrans. }
  unfold preserve_as. wp. eapply wpc_command_respects; [apply same_library_begin|done|]. intros _ db _ Hdb. split; [done|].
  wp. wp. wp. wp. destruct (collision_stamp _ _ _) as [now|]; [|done]. destruct (negb _); [by apply Hfail|].
  wp. apply wpc_attempt, wpc_file_op.
  { intros _. by apply Habort. }
  cbn [st_fs]. unfold hard_link. rewrite Hi. destruct (names (st_fs st) !! preserved) eqn:Ep; [by apply Habort|].
  assert (Hne : preserved <> l_path e) by congruence. split; [done|].
  wp. apply wpc_attempt, wpc_file_op; [by intros; apply Hfail|]. unfold remove_file. cbn [st_fs set_fs names set_names].
  rewrite lookup_insert_ne, Hi by done. split; [done|]. wp. apply wpc_sync_dir; [done..|]. destruct (is_dir _ _); [|done].
  wp. apply wpc_attempt, wpc_command; [by intros; apply Hfail|]. destruct (finish_collision _ _ _) as [[? ?]|]; [|by apply Hfail].
  split; [done|]. by wp.
Qed.
Lemma try_number_moves job j reserved e photo dirty stamp parent name number i st :
  path_parent (l_path e) = Some parent -> Media.file_name (l_path e) = Some name ->
  names (st_fs st) !! l_path e = Some (NFile i) ->
  wpc true (fun _ => True) (try_number job j reserved e photo dirty stamp parent (Trash.file_stem name) number)
    (fun r st' => match r with
     | Ok None => st_fs st' = st_fs st /\ same_library (st_db st) (st_db st')
     | Ok (Some relative) => exists preserved, stepped job (j_root j) reserved e i st (st_fs st') relative preserved
     | Err _ => True end) st.
Proof.
  intros Hp Hn Hi. unfold try_number. wp. apply wpc_some; [intros relative Hr|done]. wp. wp.
  destruct (bool_decide (relative ∈ reserved)) eqn:Er; cbn [orb]; [by wp|].
  destruct (bool_decide (is_Some _)) eqn:Em; [by wp|]. wp. apply wpc_query; [done..|].
  destruct (occupied _ _ _ _) eqn:Eo; [by wp|]. wp. eapply wpc_mono; [by apply preserve_as_moves|].
  intros [[]|] st' H; [|by wp|done]. destruct H as [Hne Hfs]. wp. apply bool_decide_eq_false in Er, Em. eexists. split; [done..| | | |done|done].
  - by apply eq_None_not_Some.
  - done.
  - rewrite Hp. eapply path_parent_join; [done|by apply numbered_plain].
Qed.
(** C27: When a file steps aside its path is free for the received photo: the file is under a new name in the same folder
    that neither the disk nor the library nor the graph used, nothing else on disk has changed, and the name is
    remembered for the files that follow. *)
Theorem step_aside_frees_path job j reserved e photo dirty i fl st reserved' :
  names (st_fs st) !! l_path e = Some (NFile i) ->
  o_result (step_aside job j reserved e photo dirty fl st) = Ok reserved' ->
  let fs' := st_fs (o_state (step_aside job j reserved e photo dirty fl st)) in
  names fs' !! l_path e = None /\
  exists relative preserved, reserved' = {[relative]} ∪ reserved /\ stepped job (j_root j) reserved e i st fs' relative preserved.
Proof.
  intros Hi. enough (H : wpc true (fun _ => True) (step_aside job j reserved e photo dirty) (fun r st' => match r with
    | Ok reserved' => exists relative preserved, reserved' = {[relative]} ∪ reserved /\ stepped job (j_root j) reserved e i st (st_fs st') relative preserved
    | Err _ => True end) st).
  { intros Hr. destruct (H fl) as (_ & _ & HQ); [by left|]. rewrite Hr in HQ. destruct HQ as (relative & preserved & -> & Hs).
    split; [|by eauto]. destruct Hs as [? ? ? ? ? ? ->]. cbn. apply lookup_delete_eq. }
  unfold step_aside. wp. wp. wp. wp. destruct (collision_stamp _ _ _); [|done].
  wp. apply wpc_some; [intros stem Hs|done]. wp. apply wpc_some; [intros parent Hp|done].
  destruct (Media.file_name (l_path e)) as [name|] eqn:Hn; [|done]. injection Hs as <-.
  wp. eapply wpc_mono; [apply (wpc_until _ (fun st' => st_fs st' = st_fs st /\ same_library (st_db st) (st_db st'))
    (fun relative st' => exists preserved, stepped job (j_root j) reserved e i st (st_fs st') relative preserved))|].
  - intros n st1 [Hfs Hdb]. eapply wpc_mono; [by apply try_number_moves; rewrite ?Hfs|]. intros [[relative|]|] st2; [|by rewrite Hfs; intros [? ?]; split; [|etrans]|done].
    intros (preserved & [? ? ? Hlib ? ? ?]). exists preserved. destruct Hdb as [He Hm]. rewrite Hfs in *.
    split; try done. revert Hlib. unfold occupied, path_taken. by rewrite He, Hm.
  - done.
  - intros [[relative|]|] st1; [|done|done]. intros (preserved & Hst). wp. wp. wp. by exists relative, preserved.
Qed.
End Collisions.

(** ** Examples *)
Module Sample.
Import SyncDb.Sample.
Definition fs : Fs :=
  mkFs (list_to_map [("/photos", NDir 0 0); ("/photos/a.jpg", NFile 1); ("/photos/a_1.jpg", NFile 2)])
       (list_to_map [(1, mkFile (repeat 7 11) 5); (2, mkFile [1] 6)]) 3.
Definition st : St := mkSt db fs.
(** Another photo has the path of the local file. *)
Definition remote : RemotePhoto :=
  let p := Records.Sample.photo in
  mkPhoto (photo_id p) (master_id p) (content_generation p) "a.jpg" true None false (original p) (thumbnail p)
    (thumbnail_source_sha256 p) (events p).
Definition graph : RemoteGraph := mkGraph [remote] [] [].
Definition digests : gmap string LocalDigest := {["a.jpg" := mkDigest 1 2 "other" 11]}.
Definition uuid (entry number : Z) : string := pretty number.
Definition uri (p : string) : string := "file://" +:+ p.
Definition preserve : IO unit := preserve_collisions uri (fun l => l) uuid 0 1 graph digests.
Definition stop (n : nat) : St := default st (stops preserve [] st !! n).
Definition details : Value :=
  match Recovery.details (st_db (stop 8)) "collision-2" (st_db (stop 8)) with Ok (Some d, _) => d | _ => Null end.
Definition recover : IO unit := recover_collision 0 "collision-2" details.
Definition local : LocalEntry := mkLocal None 1 2 "a.jpg" "/photos/a.jpg" 11 None.
Definition aside : IO (gset string) := step_aside uri uuid 0 1 job {["a.jpg"]} local remote 1.
End Sample.
(** A whole run: the local file gets the first free number, and its row and entry follow. *)
Example local_file_steps_aside :
  let o := Sample.preserve [] Sample.st in
  o_result o = Ok tt /\ names (st_fs (o_state o)) !! "/photos/a_2.jpg" = Some (NFile 1) /\
  names (st_fs (o_state o)) !! "/photos/a.jpg" = None /\
  m_path <$> db_media (st_db (o_state o)) !! 1 = Some "/photos/a_2.jpg" /\
  e_path <$> db_entries (st_db (o_state o)) !! 1 = Some "a_2.jpg".
Proof. split_and!; vm_compute; reflexivity. Qed.
(** Stopped between the two names, the file comes back. *)
Lemma collision_keeps_every_file_witness :
  let after := o_state (Sample.recover [] (Sample.stop 8)) in
  names (st_fs (Sample.stop 8)) !! "/photos/a.jpg" = None /\ names (st_fs after) !! "/photos/a.jpg" = Some (NFile 1) /\
  kept_files (st_fs Sample.st) (st_fs (Sample.stop 8)) /\ kept_files (st_fs Sample.st) (st_fs after).
Proof.
  split; [by vm_compute|]. split; [by vm_compute|].
  eapply (collision_keeps_every_file Sample.uri (fun l => l) Sample.uuid 0 1 Sample.graph Sample.digests [] Sample.st _
    "collision-2" Sample.details "/photos/a.jpg" "/photos/a_2.jpg" []).
  - apply (list_elem_of_lookup_2 _ 8). vm_compute. reflexivity.
  - vm_compute. reflexivity.
  - vm_compute. reflexivity.
  - done.
  - apply (list_elem_of_lookup_2 _ 4). vm_compute. reflexivity.
Defined.
Lemma step_aside_frees_path_witness :
  let fs' := st_fs (o_state (Sample.aside [] Sample.st)) in
  names fs' !! "/photos/a.jpg" = None /\
  exists relative preserved, ({["a_2.jpg"; "a.jpg"]} : gset string) = {[relative]} ∪ {["a.jpg"]} /\
    stepped 1 "/photos" {["a.jpg"]} Sample.local 1 Sample.st fs' relative preserved.
Proof.
  apply (step_aside_frees_path Sample.uri Sample.uuid 0 1 SyncDb.Sample.job {["a.jpg"]} Sample.local Sample.remote 1 1 []).
  - vm_compute. reflexivity.
  - vm_compute. reflexivity.
Defined.
End Collisions.
