(* ===== verification/UplinkCycle.v ===== *)
(** One synchronization cycle ([sync/service/coordinator.rs]): receive, take the
    lease, then send deletions, changes and creations under it.

    A cycle runs among others: between two of its steps other threads may commit
    to the database, files may change, the lease may be lost, and the service
    answers as it likes. All of that is one environment [Env], asked at a
    numbered instant; every read, command and request of the cycle is an instant
    of its own. A run keeps the log of what was asked and answered, newest
    first, and of the issued evidence the database held. Losing the lease
    cancels the request that is awaited: that is the error [LeaseLost] raised at
    the request, which every handler on the way passes on at once.

    Not modelled: the timing of the heartbeat (the environment says when the
    lease is lost), the wire format, and logging. *)
From Stdlib Require Import Ascii String.
From stdpp Require Import pretty.
From S2P Require Import Prelude.
From S2P Require Import Json.
From S2P Require Import Media.
From S2P Require Import Content.
From S2P Require Import SyncError.
From S2P Require Import SyncDb.
From S2P Require Import NativeRecords.
From S2P Require Import TypedRecords.
From S2P Require Import IssuedStore.
From S2P Require Import SyncReset.
From S2P Require Import SyncDirty.
From S2P Require Import SyncJobs.
From S2P Require Import SyncLease.
From S2P Require Import SyncRuntime.
From S2P Require Import SyncReceive.
From S2P Require Import Files.
From S2P Require Import LibraryScan.
From S2P Require Import SyncTransfer.
Import Json.
Local Open Scope string_scope.
Local Open Scope Z_scope.
Local Open Scope json_scope.

Module Uplink.
Import Records TypedRecords Lease Runtime Receive Files.

#[export] Instance UploadPhase_eq_dec : EqDecision UploadPhase.
Proof. solve_decision. Defined.

(** ** Reports and failures *)
Record ItemFailure := mkFailure { f_entry : Z; f_path : string; f_reason : string }.
Record CycleReport := mkReport {
  job_id : Z;
  received : bool;
  acquired : bool;
  uplink_skipped : bool;
  caught_up_behind_lock : bool;
  mutations_sent : nat;
  mutations_confirmed : nat;
  failures : list ItemFailure;
  outstanding : nat;
  uplink_deferred : nat;
  released : bool
}.
Definition new_report (job : Z) : CycleReport := mkReport job false false false false 0 0 [] 0 0 false.
Definition set_received (r : CycleReport) : CycleReport :=
  mkReport (job_id r) true (acquired r) (uplink_skipped r) (caught_up_behind_lock r) (mutations_sent r)
    (mutations_confirmed r) (failures r) (outstanding r) (uplink_deferred r) (released r).
Definition set_acquired (r : CycleReport) : CycleReport :=
  mkReport (job_id r) (received r) true (uplink_skipped r) (caught_up_behind_lock r) (mutations_sent r)
    (mutations_confirmed r) (failures r) (outstanding r) (uplink_deferred r) (released r).
Definition set_uplink_skipped (r : CycleReport) : CycleReport :=
  mkReport (job_id r) (received r) (acquired r) true (caught_up_behind_lock r) (mutations_sent r)
    (mutations_confirmed r) (failures r) (outstanding r) (uplink_deferred r) (released r).
Definition set_caught_up (r : CycleReport) : CycleReport :=
  mkReport (job_id r) (received r) (acquired r) (uplink_skipped r) true (mutations_sent r)
    (mutations_confirmed r) (failures r) (outstanding r) (uplink_deferred r) (released r).
Definition add_sent (r : CycleReport) : CycleReport :=
  mkReport (job_id r) (received r) (acquired r) (uplink_skipped r) (caught_up_behind_lock r) (S (mutations_sent r))
    (mutations_confirmed r) (failures r) (outstanding r) (uplink_deferred r) (released r).
Definition add_confirmed (r : CycleReport) : CycleReport :=
  mkReport (job_id r) (received r) (acquired r) (uplink_skipped r) (caught_up_behind_lock r) (mutations_sent r)
    (S (mutations_confirmed r)) (failures r) (outstanding r) (uplink_deferred r) (released r).
Definition add_failure (f : ItemFailure) (r : CycleReport) : CycleReport :=
  mkReport (job_id r) (received r) (acquired r) (uplink_skipped r) (caught_up_behind_lock r) (mutations_sent r)
    (mutations_confirmed r) (failures r ++ [f]) (outstanding r) (uplink_deferred r) (released r).
Definition set_outstanding (n : nat) (r : CycleReport) : CycleReport :=
  mkReport (job_id r) (received r) (acquired r) (uplink_skipped r) (caught_up_behind_lock r) (mutations_sent r)
    (mutations_confirmed r) (failures r) n (uplink_deferred r) (released r).
Definition add_deferred (r : CycleReport) : CycleReport :=
  mkReport (job_id r) (received r) (acquired r) (uplink_skipped r) (caught_up_behind_lock r) (mutations_sent r)
    (mutations_confirmed r) (failures r) (outstanding r) (S (uplink_deferred r)) (released r).
Definition set_released (b : bool) (r : CycleReport) : CycleReport :=
  mkReport (job_id r) (received r) (acquired r) (uplink_skipped r) (caught_up_behind_lock r) (mutations_sent r)
    (mutations_confirmed r) (failures r) (outstanding r) (uplink_deferred r) b.

Inductive CycleError :=
  | UplinkBusy | Behind (detail : string) | LeaseLost | Transport (detail : string) | Setup (detail : string).
(** The [#[error]] messages ([Display]). *)
Definition display (e : CycleError) : string :=
  match e with
  | UplinkBusy => "another device holds the upload lease"
  | Behind d => "this client has unfinished downstream work: " ++ d
  | LeaseLost => "UPLOAD_LEASE_LOST"
  | Transport d => "transport failed: " ++ d
  | Setup d => d
  end%string.
Definition transport (e : SyncErrors.SyncError) : CycleError :=
  if SyncErrors.contains (SyncErrors.display e) "UPLOAD_LEASE_LOST" then LeaseLost
  else Transport (SyncErrors.display e).

(** *** The batch one lease admits *)
Record UplinkBatch := mkBatch { assets : nat; metadata : nat }.
Definition heavy (phase : UploadPhase) (content : bool) : bool :=
  match phase with PhaseCreate => true | PhaseModify => content | PhaseDelete => false end.
Definition can_admit (b : UplinkBatch) (phase : UploadPhase) (content : bool) : bool :=
  if heavy phase content then (assets b <? 5)%nat else (metadata b <? 20)%nat.
Definition batch_admit (b : UplinkBatch) (phase : UploadPhase) (content : bool) : bool * UplinkBatch :=
  if heavy phase content
  then if (5 <=? assets b)%nat then (false, b) else (true, mkBatch (S (assets b)) (metadata b))
  else if (20 <=? metadata b)%nat then (false, b) else (true, mkBatch (assets b) (S (metadata b))).

(** ** Requests *)
Definition deletion_event (e : Entry) : Value :=
  match event (e_deletion e) with
  | Some ev => obj [("deletionEvent", event_to_value ev)]
  | None => Obj [] end.
Definition issued_path (op : Issued) : string :=
  default "" (as_str (((i_preparation op).["metadata"]).["relativePath"]).["value"]).
Definition matches_phase (e : Entry) (phase : UploadPhase) : bool :=
  if Dirty.dirty_contains (e_dirty e) Dirty.DELETE then bool_decide (phase = PhaseDelete)
  else if Dirty.dirty_contains (e_dirty e) Dirty.NEW then bool_decide (phase = PhaseCreate)
  else bool_decide (phase = PhaseModify) && Dirty.dirty_contains (e_dirty e) Dirty.MODIFIED.

(** [v[k1]...[kn] = x]. *)
Fixpoint assign_path (v : Value) (path : list string) (x : Value) : Value :=
  match path with [] => x | k :: path => assign v k (assign_path (index v k) path x) end.
(** [Map::retain] on an object; other values stay. *)
Definition retain (keep : string -> Value -> bool) (v : Value) : Value :=
  match v with Obj m => Obj (List.filter (fun kv => keep kv.1 kv.2) m) | _ => v end.
Definition send_metadata (op : Issued) : bool := bool_decide ((i_preparation op).["sendMetadata"] = Bool true).
Definition resources_of (op : Issued) : option Value := member (i_preparation op) "resources".
Definition has_resources (op : Issued) : bool := bool_decide (is_Some (resources_of op)).
Definition zone_id (j : Job) : Value := zone_to_value (mkZone (j_zone j) (j_owner j)).

Definition EMPTY_PATCH : CycleError := Setup "an empty metadata patch is not successful synchronization".
Definition event_kept (op : Issued) (create : bool) (key : string) (v : Value) : bool :=
  negb (is_null v)
  && (if bool_decide (key = "metadataEvent") then create || send_metadata op
      else if bool_decide (key = "contentEvent") then has_resources op else false).
Definition body_for (op : Issued) (zone : Value) : CycleError + Value :=
  let create := bool_decide (i_phase op = "create") in
  let kind := Str (if create then "create" else "update") in
  let fields := if create || send_metadata op then (i_preparation op).["metadata"] else Obj [] in
  let fields := if create then retain (fun _ v => negb (is_null v)) fields else fields in
  let events := retain (event_kept op create) (i_preparation op).["events"] in
  let photo := obj [("recordName", Str (i_photo op)); ("recordType", Str "CPLAsset"); ("fields", fields);
                    ("_syncserver", events)] in
  let photo := if create then photo else assign photo "recordChangeTag" (i_preparation op).["assetRevision"] in
  let generation := typed_field "STRING" (Str (i_content_generation op)) in
  let '(photo, operations) :=
    match resources_of op with
    | None => (photo, [])
    | Some resources =>
        let photo := assign_path photo ["fields"; "contentGeneration"] generation in
        let photo := if create then assign_path photo ["fields"; "masterRef"]
                       (typed_field "REFERENCE" (obj [("recordName", Str (i_master op)); ("action", Str "NONE")]))
                     else photo in
        let asset role := assign (resources.[role]).["asset"] "checksumAlgorithm" (Str "SHA256") in
        let master := obj [("recordName", Str (i_master op)); ("recordType", Str "CPLMaster");
          ("fields", obj [("contentGeneration", generation);
                          ("thumbnailSourceOriginalSHA256", typed_field "STRING" (resources.["original"]).["hex"]);
                          ("resOriginalRes", typed_field "ASSETID" (asset "original"));
                          ("resJPEGThumbRes", typed_field "ASSETID" (asset "thumbnail"))])] in
        let master := if create then assign_path master ["fields"; "photoId"] (typed_field "STRING" (Str (i_photo op)))
                      else assign master "recordChangeTag" (i_preparation op).["masterRevision"] in
        (photo, [obj [("operationType", kind); ("record", master)]])
    end in
  match as_object photo.["fields"] with
  | None | Some [] => inl EMPTY_PATCH
  | Some _ => inr (obj [("zoneID", zone); ("atomic", Bool true);
                        ("operations", Arr (operations ++ [obj [("operationType", kind); ("record", photo)]]))])
  end.
Definition delete_body (op : Issued) (zone : Value) (e : Entry) : Value :=
  let deletion name revision := obj [("operationType", Str "delete");
    ("record", obj [("recordName", Str name); ("recordChangeTag", opt_value Str revision);
                    ("_syncserver", deletion_event e)])] in
  obj [("zoneID", zone); ("atomic", Bool true);
       ("operations", Arr [deletion (i_photo op) (r_asset_revision (e_remote e));
                           deletion (i_master op) (r_master_revision (e_remote e))])].

Definition metadata_matches (request response : Value) : bool :=
  match as_array request.["operations"] ≫= head, as_array response.["records"] ≫= head with
  | Some requested, Some record =>
      if bool_decide (is_Some (member record "serverErrorCode"))
         || negb (bool_decide (record.["recordName"] = (requested.["record"]).["recordName"])) then false
      else match as_object (requested.["record"]).["fields"] with
           | Some fields => forallb (fun kv : string * Value =>
               if is_null kv.2 then bool_decide (member record.["fields"] kv.1 = None)
               else bool_decide (index record.["fields"] kv.1 = kv.2)) fields
           | None => false
           end
  | _, _ => false
  end.

(** [SyncStore::local_metadata] and [upload_error]. *)
Definition i64_saturating_mul (a b : Z) : Z := Z.max I64_MIN (Z.min I64_MAX (a * b)).
Definition int_value (b : bool) : Value := Int (if b then 1 else 0).
Definition local_metadata (db : Db) (entry : Z) : result Value :=
  match db_entries db !! entry with
  | None => Err NoRows
  | Some e =>
      let m := e_media e ≫= fun k => db_media db !! k in
      let baseline_ms := e_baseline e ≫= asset_date_ms in
      let date_ms seconds := match baseline_ms with
        | Some ms => if ms / 1000 =? seconds then ms else i64_saturating_mul seconds 1000
        | None => i64_saturating_mul seconds 1000 end in
      Ok (obj [("isTrashed", typed_field "INT64" (int_value (bool_decide (is_Some (m ≫= m_trashed_at)))));
               ("isFavorite", typed_field "INT64" (int_value (default false (m_favorite <$> m))));
               ("assetDate", opt_value (fun s => typed_field "TIMESTAMP" (Int (date_ms s))) (m ≫= m_taken_at));
               ("relativePath", typed_field "STRING" (Str (e_path e)))])
  end.
Definition upload_error (db : Db) (job entry : Z) : result (option string) :=
  match db_entries db !! entry with
  | Some e => if e_job e =? job then Ok (e_upload_error e) else Err NoRows
  | None => Err NoRows end.

(** ** The world a cycle runs in *)
Inductive OperationState := Committed (response : Value) | Pending (children : list Value) | Unknown.
Definition role_str (r : Role) : string := match r with RoleOriginal => "original" | RoleThumbnail => "thumbnail" end.
(** [SessionResponse]: whether the session is published, and its asset. *)
Record SessionResponse := mkSession { is_published : bool; session_asset : option AssetDescriptor }.
Record LeaseCheck := mkCheck { may_upload : bool }.
(** The columns of the pinned scope a cycle uses. *)
Record Pinned := mkPinned { database_generation : string; max_asset_bytes : Z; thumbnail_max_bytes : Z }.

Inductive Request :=
  | TransportClient                                     (* [transport_client_for] *)
  | StorageUsage
  | AcquireLease (device : string)
  | ReleaseLease
  | CheckLease (applied : string) (local_ready : bool)
  | SetPhase (phase : UploadPhase)
  | OperationStatus (operation : string)
  | UploadSession (session : string)
  | ReserveAssets (master : string) (create : bool) (role : Role) (digest : Content.ContentDigest)
  | UploadFile (session path : string) (digest : Content.ContentDigest)
  | DescribeAsset (asset : string) (role : Role)
  | LookupCurrent (photo : string)
  | ModifyExact (body : Value) (operation : string)
  | Snapshot.
Definition Reply (r : Request) : Type :=
  match r with
  | TransportClient | StorageUsage | SetPhase _ => unit
  | AcquireLease _ => LeaseGrant
  | ReleaseLease => bool
  | CheckLease _ _ => LeaseCheck
  | OperationStatus _ => OperationState
  | UploadSession _ => SessionResponse
  | ReserveAssets _ _ _ _ => list string                (* session ids *)
  | UploadFile _ _ _ => AssetDescriptor
  | DescribeAsset _ _ => string * string                (* receipt and download URL *)
  | LookupCurrent _ | ModifyExact _ _ => Value
  | Snapshot => string                                  (* the sync token of the head *)
  end.
#[export] Existing Instance SyncErrors.SyncCause_eq_dec.
Notation Answer r := (SyncErrors.SyncError + Reply r)%type.

(** What surrounds the cycle at each instant. *)
Record Env := mkEnv {
  answer : nat -> forall r, Answer r;
  lost : nat -> bool;              (* the heartbeat has reported the lease lost *)
  lease_valid : nat -> bool;       (* [lease.valid_now()] *)
  others : nat -> Db -> Db;        (* what other threads commit *)
  files : nat -> Fs;
  uuid : nat -> string;
  scope : nat -> Z -> result (option Pinned);           (* [native_scope] *)
  thumbnail : nat -> string -> Z -> result (option (list Z));   (* [cached_upload_thumbnail] *)
  (* [content::snapshot_source] into a folder: the path of the copy and its digest *)
  snapshot_source : nat -> string -> string -> Z -> result (string * Content.ContentDigest);
  (* the outcomes of [acquire_run_slot], [index_upload_sources], [recover_publications],
     [receive_selected] and [transfer_selected] (its failures) *)
  run_slot : nat -> result unit;
  index_sources : nat -> result unit;
  recover : nat -> result unit;
  receive : nat -> result unit;
  transfer : nat -> result (list string)
}.

Inductive Event :=
  | Recorded (op : Issued) (db : Db)          (* this evidence was stored in this database *)
  | Asked (r : Request)
  | Answered (r : Request) (a : Answer r).
Record World := mkWorld { w_db : Db; w_tick : nat; w_log : list Event; w_report : CycleReport; w_batch : UplinkBatch }.

(** A step of the cycle returns or fails, and always leaves the world it made. *)
Definition Cyc (A : Type) : Type := World -> (CycleError + A) * World.
#[export] Instance Cyc_ret : MRet Cyc := fun A a w => (inr a, w).
#[export] Instance Cyc_bind : MBind Cyc := fun A B k m w =>
  match m w with (inr a, w') => k a w' | (inl e, w') => (inl e, w') end.
Definition stop {A} (e : CycleError) : Cyc A := fun w => (inl e, w).
(** A result looked at instead of passed on. *)
Definition attempt {A} (m : Cyc A) : Cyc (CycleError + A) := fun w => let (r, w') := m w in (inr r, w').
Definition of_sum {A} (r : CycleError + A) : Cyc A := fun w => (r, w).
Fixpoint each {A} (l : list A) (f : A -> Cyc unit) : Cyc unit :=
  match l with [] => mret tt | x :: l => _ ← f x; each l f end.
Definition update_report (f : CycleReport -> CycleReport) : Cyc unit := fun w =>
  (inr tt, mkWorld (w_db w) (w_tick w) (w_log w) (f (w_report w)) (w_batch w)).
Definition see {A} (f : World -> A) : Cyc A := fun w => (inr (f w), w).
Definition on_db {A} (f : Db -> Db * A) : Cyc A := fun w =>
  let (db, a) := f (w_db w) in (inr a, mkWorld db (w_tick w) (w_log w) (w_report w) (w_batch w)).
(** [batch.admit(phase, content)]. *)
Definition admit_batch (phase : UploadPhase) (content : bool) : Cyc bool := fun w =>
  let '(admitted, b) := batch_admit (w_batch w) phase content in
  (inr admitted, mkWorld (w_db w) (w_tick w) (w_log w) (w_report w) b).
Definition note (e : Event) : Cyc unit := fun w =>
  (inr tt, mkWorld (w_db w) (w_tick w) (e :: w_log w) (w_report w) (w_batch w)).
Definition note_all (l : list Event) : Cyc unit := fun w =>
  (inr tt, mkWorld (w_db w) (w_tick w) (l ++ w_log w) (w_report w) (w_batch w)).

(** [iter]: a hash map's order; [other_text]: the [Display] of errors of other
    libraries; [in_trash]: the trash holds the file of a path; [canonicalize]:
    [std::fs::canonicalize]. *)
Section Cycle.
Context (env : Env) (iter : RecordSet -> list (string * NativeRecord)) (other_text : AppError -> string).
Context (in_trash : Fs -> string -> bool) (canonicalize : Fs -> string -> result string) (staging_root device : string).
Context (sha256 : list Z -> list Z).

Definition to_string (e : AppError) : string :=
  match e with Backend m => "backend unavailable: " ++ m | _ => other_text e end%string.
Definition setup (e : AppError) : CycleError := Setup (to_string e).
Definition invalid (message : string) : CycleError := Setup message.

(** ** Steps *)
Definition instant : Cyc nat := fun w =>
  (inr (w_tick w), mkWorld (others env (w_tick w) (w_db w)) (S (w_tick w)) (w_log w) (w_report w) (w_batch w)).
Definition look {A} (f : nat -> A) : Cyc A := n ← instant; mret (f n).
Definition query {A} (f : Db -> A) : Cyc A := _ ← instant; see (fun w => f (w_db w)).
Definition try_ {A} (r : result A) : Cyc A := match r with Ok a => mret a | Err e => stop (setup e) end.
Definition some {A} (o : option A) (e : CycleError) : Cyc A := match o with Some a => mret a | None => stop e end.
Definition commit {A} (m : Tx Db A) : Cyc (result A) :=
  _ ← instant; on_db (transact m).
Definition record (op : Issued) : Cyc unit := fun w => note (Recorded op (w_db w)) w.
(** [SyncStore::runtime]; saved evidence is noted in the log. *)
Definition runtime (c : Command) : Cyc (result unit) :=
  r ← commit (execute iter c);
  _ ← match c, r with Save _ op, Ok _ => record op | _, _ => mret tt end;
  mret r.
Definition run_command (c : Command) : Cyc unit := r ← runtime c; try_ r.

(** A request, and one that the loss of the lease cancels. *)
Definition call (r : Request) : Cyc (Answer r) :=
  _ ← note (Asked r); n ← instant; _ ← note (Answered r (answer env n r)); mret (answer env n r).
Definition ask (r : Request) : Cyc (Answer r) :=
  _ ← note (Asked r);
  n ← instant;
  if lost env n then stop LeaseLost else _ ← note (Answered r (answer env n r)); mret (answer env n r).
(** The same point of cancellation without a request. *)
Definition await : Cyc nat := n ← instant; if lost env n then stop LeaseLost else mret n.
Definition or_transport {A} (a : SyncErrors.SyncError + A) : Cyc A :=
  match a with inl e => stop (transport e) | inr a => mret a end.
Definition request (r : Request) : Cyc (Reply r) := a ← ask r; or_transport a.
Definition valid_now : Cyc bool := look (lease_valid env).
(** [Heartbeat::guard]. *)
Definition guard {A} (m : Cyc A) : Cyc A :=
  valid ← valid_now;
  gone ← look (lost env);
  if negb valid || gone then stop LeaseLost
  else a ← m; valid ← valid_now; if (valid : bool) then mret a else stop LeaseLost.

(** [store.pending_issued(job)]: what it read is noted in the log. *)
Definition pending_issued (job : Z) : Cyc (list Issued) :=
  r ← query (fun db => match Runtime.pending_issued db job db with
    | Ok (ops, _) => Ok (ops, (fun op => Recorded op db) <$> ops) | Err e => Err e end);
  ops ← try_ r;
  _ ← note_all ops.2;
  mret ops.1.

Section Job.
Context (job : Z) (j : Job) (epoch : Epoch).

(** [Command::Confirm], which looks at the lease twice. *)
Definition confirm (op : Issued) (response : Value) : Cyc (result unit) :=
  before ← valid_now; after ← valid_now; runtime (Confirm epoch op response before after).
Definition upload_failed (entry : Z) (path : string) (error : CycleError) : Cyc unit :=
  match error with
  | LeaseLost => stop LeaseLost
  | _ =>
      valid ← valid_now;
      if negb valid then stop LeaseLost
      else
        _ ← run_command (UploadFailed epoch entry (display error));
        update_report (add_failure (mkFailure entry path (display error)))
  end.
(** An error already recorded for the entry in this cycle. *)
Definition failed_before (entry : Z) : Cyc bool :=
  r ← query (fun db => upload_error db job entry); o ← try_ r; mret (bool_decide (is_Some o)).

Definition has_content_change : Entry -> bool := Dirty.has_change Dirty.Content.
Definition has_metadata_change : Entry -> bool := Dirty.has_change Dirty.Metadata.

Definition eligible (e : Entry) : Cyc bool :=
  if Dirty.dirty_contains (e_dirty e) Dirty.DELETE then
    if bool_decide (event (e_deletion e) = None) || (version (e_deletion e) =? 0)
    then stop (invalid "deletion has no confirmed local removal event")
    else
      fs1 ← look (files env);
      fs2 ← look (files env);
      let original := path_join (j_root j) (e_path e) in
      mret (negb (path_exists fs1 original || in_trash fs2 original))
  else
    let path := path_join (j_root j) (e_path e) in
    fs1 ← look (files env);
    if negb (is_file fs1 path) && (Dirty.dirty_contains (e_dirty e) Dirty.NEW || has_content_change e) then mret false
    else
      fs2 ← look (files env);
      _ ← (if is_file fs2 path then
             fs3 ← look (files env);
             real ← try_ (canonicalize fs3 path);
             fs4 ← look (files env);
             root ← try_ (canonicalize fs4 (j_root j));
             if Scan.starts_with real root then mret tt else stop (invalid "local source escaped the configured root")
           else mret tt);
      match j_scope j with
      | ScopeAll => mret true
      | ScopeSelectedAlbums =>
          let album := default "" (path_parent (e_path e)) in
          query (fun db => bool_decide ((job, album) ∈ db_albums db))
      end.

(** ** One operation *)
Section Operation.
Context (pinned : Pinned).

(** The receipt and URL of an issued asset are renewed before the request is sent. *)
Definition ASSET_FIELDS : list (string * Role) :=
  [("resOriginalRes", RoleOriginal); ("resJPEGThumbRes", RoleThumbnail)].
Definition renewed_op (op : Value) (field receipt url : string) : Value :=
  let op := assign_path op ["record"; "fields"; field; "value"; "receipt"] (Str receipt) in
  assign_path op ["record"; "fields"; field; "value"; "downloadURL"] (Str url).
Definition fields_of (op : Value) : option Map :=
  record ← member op "record"; fields ← member record "fields"; as_object fields.
Definition refresh_field (op : Value) (fr : string * Role) : Cyc Value :=
  match fields_of op ≫= fun m => get m fr.1 with
  | None => mret op
  | Some value =>
      id ← some (as_str (value.["value"]).["assetId"]) (invalid "issued resource has no stable identity");
      fresh ← request (DescribeAsset id fr.2);
      mret (renewed_op op fr.1 fresh.1 fresh.2)
  end.
Fixpoint refresh_fields (op : Value) (fields : list (string * Role)) : Cyc Value :=
  match fields with [] => mret op | fr :: rest => op ← refresh_field op fr; refresh_fields op rest end.
Fixpoint refresh_operations (operations : list Value) : Cyc (list Value) :=
  match operations with
  | [] => mret []
  | op :: rest => op ← refresh_fields op ASSET_FIELDS; rest ← refresh_operations rest; mret (op :: rest)
  end.
Definition refresh (body : Value) : Cyc Value :=
  operations ← some (as_array body.["operations"]) (invalid "issued operation has no records");
  operations ← refresh_operations operations;
  mret (assign body "operations" (Arr operations)).

Definition set_preparation (p : Value) (op : Issued) : Issued :=
  mkIssued (i_id op) (i_job op) (i_config op) (i_entry op) (i_generation op) (i_phase op) (i_versions op) (i_dirty op)
    (i_photo op) (i_master op) (i_content_generation op) (i_body op) p.
Definition set_body (b : Value) (op : Issued) : Issued :=
  mkIssued (i_id op) (i_job op) (i_config op) (i_entry op) (i_generation op) (i_phase op) (i_versions op) (i_dirty op)
    (i_photo op) (i_master op) (i_content_generation op) b (i_preparation op).
Definition set_generation (g : string) (op : Issued) : Issued :=
  mkIssued (i_id op) (i_job op) (i_config op) (i_entry op) (i_generation op) (i_phase op) (i_versions op) (i_dirty op)
    (i_photo op) (i_master op) g (i_body op) (i_preparation op).

(** One resource of an operation: a published session is reused, else the copy
    is uploaded to a new one; the operation is saved after each step. *)
Definition published_asset (session : option string) : Cyc (option AssetDescriptor) :=
  match session with
  | None => mret None
  | Some session =>
      status ← ask (UploadSession session);
      mret (match status with inr s => if is_published s then session_asset s else None | inl _ => None end)
  end.
Definition upload_resource (op : Issued) (role : Role) : Cyc Issued :=
  let name := role_str role in
  let resource := ((i_preparation op).["resources"]).[name] in
  published ← published_asset (as_str resource.["session"]);
  '(op, asset) ← match published with
    | Some asset => mret (op, asset)
    | None =>
        size ← some (as_u64 resource.["size"]) (invalid "issued snapshot has no size");
        hex ← some (as_str resource.["hex"]) (invalid "issued snapshot has no digest");
        base64 ← some (as_str resource.["base64"]) (invalid "issued snapshot has no digest");
        path ← some (as_str resource.["path"]) (invalid "issued snapshot has no path");
        let digest := Content.mkContentDigest size hex base64 in
        reserved ← request (ReserveAssets (i_master op) (bool_decide (i_phase op = "create")) role digest);
        session ← some (head reserved) (invalid "resource reservation was empty");
        let op := set_preparation (assign_path (i_preparation op) ["resources"; name; "session"] (Str session)) op in
        _ ← run_command (Save epoch op);
        asset ← request (UploadFile session path digest);
        mret (op, asset)
    end;
  let op := set_preparation (assign_path (i_preparation op) ["resources"; name; "asset"] (asset_to_value asset)) op in
  _ ← run_command (Save epoch op);
  mret op.
Definition build_body (op : Issued) : Cyc Issued :=
  if is_null (i_body op) then
    op ← (if has_resources op
          then op ← upload_resource op RoleOriginal; upload_resource op RoleThumbnail
          else mret op);
    body ← of_sum (body_for op (zone_id j));
    let op := set_body body op in
    _ ← run_command (Save epoch op);
    mret op
  else mret op.

(** An answer that proves that the service did not apply the mutation. *)
Definition rejects (e : SyncErrors.SyncError) : bool :=
  match e with
  | SyncErrors.PreconditionFailed reason => SyncErrors.contains reason " CONFLICT:"
  | SyncErrors.Protocol reason => String.prefix "HTTP 400 BAD_REQUEST:" reason
  | _ => false
  end.
(** The last step of every operation. *)
Definition confirm_or_lost (op : Issued) (response : Value) : Cyc unit :=
  r ← confirm op response;
  match r with
  | Ok _ => update_report add_confirmed
  | Err e => stop (if SyncErrors.contains (to_string e) "UPLOAD_LEASE_LOST" then LeaseLost else setup e)
  end.
Definition send (op : Issued) : Cyc unit :=
  body ← refresh (i_body op);
  settled ← (if bool_decide (i_phase op = "modify") && negb (has_resources op) then
               current ← request (LookupCurrent (i_photo op));
               if metadata_matches body current then
                 r ← confirm op current; _ ← try_ r; _ ← update_report add_confirmed; mret true
               else mret false
             else mret false);
  if (settled : bool) then mret tt
  else
    _ ← update_report add_sent;
    answer ← ask (ModifyExact body (i_id op));
    match answer with
    | inr response => confirm_or_lost op response
    | inl e =>
        _ ← (if rejects e then run_command (RetireIssued epoch op true (SyncErrors.display e)) else mret tt);
        stop (transport e)
    end.
Definition execute_issued (op : Issued) : Cyc unit :=
  op ← build_body op;
  state ← request (OperationStatus (i_id op));
  match state with
  | Committed response => confirm_or_lost op response
  | Pending _ => stop (Behind "an issued atomic operation is still pending")
  | Unknown => send op
  end.

(** ** One dirty entry *)
(** The original and the cached thumbnail of an upload; none when the photo waits. *)
Definition local_content (e : Entry) : Cyc (option (string * list Z)) :=
  fs1 ← look (files env);
  source ← try_ (Transfer.safe_destination fs1 (j_root j) (e_path e));
  fs2 ← look (files env);
  meta ← some (Files.metadata fs2 source) (setup NOT_FOUND);
  if max_asset_bytes pinned <? len meta then mret None
  else
    n ← await;
    cached ← try_ (thumbnail env n source (thumbnail_max_bytes pinned));
    mret (bytes ← cached; Some (source, bytes)).
Definition uuid_or (known : option string) : Cyc string :=
  match known with Some s => mret s | None => look (uuid env) end.
Definition resource_value (path : string) (digest : Content.ContentDigest) : Value :=
  obj [("path", Str path); ("hex", Str (Content.hex digest)); ("base64", Str (Content.base64 digest));
       ("size", Int (Content.digest_size digest))].
Definition new_operation (id : Z) (e : Entry) (phase : UploadPhase) : Cyc Issued :=
  photo ← uuid_or (r_photo (e_remote e));
  master ← uuid_or (r_master (e_remote e));
  operation ← look (uuid env);
  generation ← uuid_or (r_content (e_remote e));
  described ← query (fun db => local_metadata db id);
  metadata ← try_ described;
  let stamp track := opt_value event_to_value (event (track e)) in
  mret (mkIssued ("pv-" ++ operation)%string job (j_config j) id (database_generation pinned) (phase_str phase)
    (mkVersions (e_local e) (version (e_metadata e)) (version (e_content e)) (version (e_deletion e)))
    (e_dirty e) photo master generation Null
    (obj [("sendMetadata", Bool (bool_decide (phase = PhaseCreate) || has_metadata_change e));
          ("metadata", metadata);
          ("events", obj [("metadataEvent", stamp e_metadata); ("contentEvent", stamp e_content);
                          ("deletionEvent", stamp e_deletion)])])).
Definition prepare_resources (source : string) (cached : list Z) (op : Issued) : Cyc Issued :=
  generation ← look (uuid env);
  let op := set_generation generation op in
  let folder := path_join (path_join staging_root "uploads") (i_id op) in
  n ← await;
  snapshot ← try_ (snapshot_source env n source folder (max_asset_bytes pinned));
  let prepared := obj [("original", resource_value snapshot.1 snapshot.2);
    ("thumbnail", resource_value (path_join folder "thumbnail.jpg") (Content.digest_of sha256 cached))] in
  mret (set_preparation (assign (i_preparation op) "resources" prepared) op).
Definition prepared_operation (id : Z) (e : Entry) (phase : UploadPhase) (content : option (string * list Z)) : Cyc Issued :=
  op ← new_operation id e phase;
  match phase with
  | PhaseDelete =>
      if bool_decide (r_photo (e_remote e) = None) || bool_decide (r_master (e_remote e) = None)
      then stop (invalid "unconfirmed local creation requires cancellation/reconciliation before cloud deletion")
      else mret (set_body (delete_body op (zone_id j) e) op)
  | _ =>
      let prep := assign (i_preparation op) "assetRevision" (opt_value Str (r_asset_revision (e_remote e))) in
      let prep := assign prep "masterRevision" (opt_value Str (r_master_revision (e_remote e))) in
      let op := set_preparation prep op in
      match content with Some (source, cached) => prepare_resources source cached op | None => mret op end
  end.
Definition still_at (id : Z) (e : Entry) : Cyc bool :=
  query (fun db => bool_decide (Dirty.uplink_entry_version db job id = Some (e_local e))).
(** The second half of [prepare_and_send], once the batch has admitted the photo. *)
Definition issue_and_send (id : Z) (e : Entry) (phase : UploadPhase) (content : option (string * list Z)) : Cyc unit :=
  op ← prepared_operation id e phase content;
  current ← still_at id e;
  if negb current then stop (invalid "local version changed while preparing the operation")
  else _ ← run_command (Save epoch op); execute_issued op.
Definition prepare_and_send (id : Z) (e : Entry) (phase : UploadPhase) : Cyc unit :=
  batch ← see w_batch;
  if negb (can_admit batch phase (has_content_change e)) then update_report add_deferred
  else
    current ← still_at id e;
    if negb current then mret tt
    else if bool_decide (phase = PhaseDelete) && bool_decide (r_photo (e_remote e) = None)
            && bool_decide (r_master (e_remote e) = None) then
      lease ← valid_now;
      _ ← run_command (ConfirmAbsentDeletion epoch id (e_local e) lease);
      update_report add_confirmed
    else
      content ← (if heavy phase (has_content_change e)
                 then c ← local_content e; mret (Some <$> c) else mret (Some None));
      match content with
      | None => update_report add_deferred
      | Some content =>
          admitted ← admit_batch phase (has_content_change e);
          if (admitted : bool) then issue_and_send id e phase content else update_report add_deferred
      end.

(** ** Under the lease *)
Definition OBSOLETE : CycleError :=
  Behind "an issued operation belongs to an obsolete scope/configuration; reconciliation is required".
Definition UNCONFIRMED : CycleError := Behind
  "an older configuration has an unconfirmed issued operation; its outcome must be reconciled before new writes".
(** An error of one photo is kept on its entry and in the report. *)
Definition or_failed {A} (entry : Z) (path : string) (r : CycleError + A) : Cyc unit :=
  match r with inl e => upload_failed entry path e | inr _ => mret tt end.

(** Receipts of the operations an earlier cycle issued. *)
Definition settle_pending (op : Issued) : Cyc unit :=
  if negb (bool_decide (i_generation op = database_generation pinned)) then stop OBSOLETE
  else
    failed ← failed_before (i_entry op);
    if (failed : bool) then mret tt
    else if is_null (i_body op) then
      if i_config op =? j_config j then mret tt else run_command (RetireIssued epoch op false "")
    else
      status ← ask (OperationStatus (i_id op));
      let failed e :=
        _ ← upload_failed (i_entry op) (issued_path op) e;
        if i_config op =? j_config j then mret tt else stop UNCONFIRMED in
      match status with
      | inr (Committed response) =>
          r ← confirm op response;
          match r with Ok _ => update_report add_confirmed | Err e => failed (setup e) end
      | inr _ => if i_config op =? j_config j then mret tt else stop UNCONFIRMED
      | inl e => failed (transport e)
      end.
Definition send_pending (phase : UploadPhase) (op : Issued) : Cyc unit :=
  if negb (bool_decide (i_phase op = phase_str phase)) then mret tt
  else
    failed ← failed_before (i_entry op);
    if (failed : bool) then mret tt
    else
      admitted ← admit_batch phase (has_resources op);
      if (admitted : bool)
      then r ← attempt (execute_issued op); or_failed (i_entry op) (issued_path op) r
      else update_report add_deferred.
Definition send_entry (phase : UploadPhase) (pending : list Issued) (ke : Z * Entry) : Cyc unit :=
  if negb (matches_phase ke.2 phase) then mret tt
  else
    failed ← failed_before ke.1;
    if (failed : bool) then mret tt
    else
      chosen ← attempt (eligible ke.2);
      match chosen with
      | inl e => upload_failed ke.1 (e_path ke.2) e
      | inr false => mret tt
      | inr true =>
          if existsb (fun op => i_entry op =? ke.1) pending then mret tt
          else r ← attempt (guard (prepare_and_send ke.1 ke.2 phase)); or_failed ke.1 (e_path ke.2) r
      end.
Definition send_phase (entries : list (Z * Entry)) (phase : UploadPhase) : Cyc unit :=
  _ ← (if bool_decide (phase = PhaseDelete) then mret tt else request (SetPhase phase));
  pending ← pending_issued job;
  _ ← each pending (send_pending phase);
  each entries (send_entry phase pending).
(** A run without failures ends at the head it has written. *)
Definition adopt_head : Cyc unit :=
  failed ← see (fun w => failures (w_report w));
  match failed with
  | [] =>
      owed ← query (fun db => unresolved db job);
      if (owed =? 0)%nat then
        head ← request Snapshot;
        r ← commit (adopt_confirmed_head job head);
        try_ r
      else mret tt
  | _ => mret tt
  end.
Definition send_all : Cyc unit :=
  _ ← run_command (Enroll epoch);
  entries ← query (fun db => Dirty.read_entries db job);
  _ ← each ORDER (send_phase entries);
  adopt_head.
Definition uplink_held : Cyc unit :=
  pending ← pending_issued job;
  _ ← each pending settle_pending;
  found ← query (fun db => read_progress db job);
  progress ← some found (invalid "job has no receive progress");
  applied ← some (g_applied (row progress)) (Behind "local resources/conflicts have not been applied");
  owed ← query (fun db => unresolved db job);
  check ← request (CheckLease applied ((owed =? 0)%nat && bool_decide (g_target (row progress) = g_applied (row progress))));
  if may_upload check then send_all else update_report set_caught_up.
End Operation.

(** ** The cycle *)
Definition receive_complete : Cyc unit :=
  recovered ← look (recover env);
  _ ← try_ recovered;
  report ← look (receive env);
  _ ← match report with Ok _ => mret tt | Err e => stop (Transport (to_string e)) end;
  transfers ← look (transfer env);
  reasons ← try_ transfers;
  match reasons with
  | [] => mret tt
  | _ => stop (Behind ("resource/publication work is still unresolved: " ++ String.concat "; " reasons)%string)
  end.
Definition cycle_inner (downlink : bool) : Cyc unit :=
  indexed ← look (index_sources env);
  _ ← try_ indexed;
  _ ← run_command (Enroll epoch);
  _ ← (if downlink then
         r ← attempt receive_complete;
         match r with
         | inr _ | inl (Behind _) => update_report set_received
         | inl e => stop e
         end
       else mret tt);
  current ← query (fun db => epoch_current db epoch);
  if negb current then stop (invalid "synchronization configuration was superseded")
  else
    client ← call TransportClient;
    _ ← match client with inl e => stop (setup (Backend (SyncErrors.display e))) | inr _ => mret tt end;
    pinned ← look (fun n => scope env n (j_connection j));
    pinned ← try_ pinned;
    pinned ← some pinned (invalid "connection has no pinned scope");
    grant ← call (AcquireLease device);
    match grant with
    | inl SyncErrors.RateLimited => stop UplinkBusy
    | inl e =>
        _ ← update_report set_uplink_skipped;
        update_report (add_failure (mkFailure 0 "" (SyncErrors.display e)))
    | inr _ =>
        _ ← update_report set_acquired;
        result ← attempt (guard (uplink_held pinned));
        answer ← call ReleaseLease;
        _ ← update_report (set_released (match answer with inr b => b | inl _ => false end));
        of_sum result
    end.
Definition lost_entry (ke : Z * Entry) : Cyc unit :=
  failed ← see (fun w => failures (w_report w));
  if existsb (fun f => f_entry f =? ke.1) failed then mret tt
  else update_report (add_failure (mkFailure ke.1 (e_path ke.2) "UPLOAD_LEASE_LOST")).
(** [eligible(entry).unwrap_or(true)] of every entry left. *)
Fixpoint still_eligible (entries : list (Z * Entry)) : Cyc nat :=
  match entries with
  | [] => mret 0%nat
  | ke :: rest =>
      r ← attempt (eligible ke.2);
      n ← still_eligible rest;
      mret ((if match r with inr b => b | inl _ => true end then 1 else 0) + n)%nat
  end.
Definition run_epoch (downlink : bool) : Cyc unit :=
  result ← attempt (cycle_inner downlink);
  _ ← run_command (End_ epoch);
  _ ← match result with
      | inl UplinkBusy => update_report set_uplink_skipped
      | inl LeaseLost => left ← query (fun db => Dirty.read_entries db job); each left lost_entry
      | inl (Behind reason) => update_report (add_failure (mkFailure 0 "" reason))
      | inl e => stop e
      | inr _ => mret tt
      end;
  owed ← query (fun db => unresolved db job);
  left ← query (fun db => Dirty.read_entries db job);
  n ← still_eligible left;
  update_report (set_outstanding (owed + n)%nat).
End Job.

(** [run_owned_cycle]: the report starts anew. *)
Definition get_job (job : Z) : Cyc Job :=
  found ← query (fun db => db_jobs db !! job); some found (invalid "job was removed").
Definition start_report (job : Z) : Cyc unit := fun w =>
  (inr tt, mkWorld (w_db w) (w_tick w) (w_log w) (new_report job) (mkBatch 0 0)).
Definition run_owned_cycle (job : Z) (cycle : string) (downlink : bool) : Cyc CycleReport :=
  j ← get_job job;
  started ← commit (now ← gets db_now; Jobs.mark_job_started now job);
  _ ← try_ started;
  let epoch := mkEpoch job (j_config j) cycle in
  _ ← run_command (Begin epoch);
  _ ← start_report job;
  _ ← run_epoch job j epoch downlink;
  see w_report.

(** What the job records of the run; none is success. *)
Definition run_reason (result : CycleError + CycleReport) : option string :=
  match result with
  | inl e => Some (display e)
  | inr report =>
      match failures report with
      | _ :: _ => Some (String.concat "; " ((fun f => (f_path f ++ ": " ++ f_reason f)%string) <$> failures report))
      | [] =>
          if uplink_skipped report then Some "another device holds the upload lease; retry scheduled"
          else if caught_up_behind_lock report then Some "cloud head advanced after downlink; retry scheduled"
          else if (uplink_deferred report <? outstanding report)%nat
          then Some (pretty (N.of_nat (outstanding report)) ++ " synchronization obligations remain")%string
          else None
      end
  end.
(** The end of a run: what the job records, and the storage a quota failure reports. *)
Definition finish (job : Z) (j : Job) (result : CycleError + CycleReport) : Cyc CycleReport :=
  finished ← commit (now ← gets db_now; Jobs.finish_run now job (j_config j) (run_reason result));
  _ ← try_ finished;
  _ ← match run_reason result with
      | Some reason =>
          if bool_decide (SyncErrors.classify_detail reason = SyncErrors.Quota) then
            client ← call TransportClient;
            match client with inr _ => _ ← call StorageUsage; mret tt | inl _ => mret tt end
          else mret tt
      | None => mret tt
      end;
  of_sum result.
Definition run_cycle_mode (job : Z) (downlink : bool) : Cyc CycleReport :=
  slot ← look (run_slot env);
  _ ← try_ slot;
  selected ← query (fun db => job_enabled db job);
  if negb selected
  then stop (setup (Backend "this account is inactive; switch accounts before synchronizing"))
  else
    j ← get_job job;
    cycle ← look (uuid env);
    result ← attempt (run_owned_cycle job cycle downlink);
    finish job j result.

Local Open Scope list_scope.
(** ** Logs *)
(** A task of the database holds this evidence. *)
Definition stored (db : Db) (op : Issued) : Prop :=
  exists k t, db_tasks db !! k = Some t /\ t_issued t = Some op.
(** One operation of a request with its receipts and URLs renewed. *)
Inductive renewed : Value -> Value -> Prop :=
  | renewed_same op : renewed op op
  | renewed_field op op' field receipt url :
      renewed op op' -> field ∈ ASSET_FIELDS.*1 -> renewed op (renewed_op op' field receipt url).
(** The request of the evidence, up to fresh receipts and URLs. *)
Definition same_request (body sent : Value) : Prop :=
  exists operations sent_operations, as_array body.["operations"] = Some operations /\
    sent = assign body "operations" (Arr sent_operations) /\ Forall2 renewed operations sent_operations.
(** The service has agreed to an upload. *)
Definition gate_open (log : list Event) : Prop :=
  exists applied ready, Answered (CheckLease applied ready) (inr (mkCheck true)) ∈ log.
(** The phase the service has acknowledged last. *)
Fixpoint phase_of (log : list Event) : UploadPhase :=
  match log with
  | [] => PhaseDelete
  | Answered (SetPhase phase) (inr _) :: _ => phase
  | _ :: older => phase_of older
  end.
Definition sent_ok (older : list Event) (body : Value) (id : string) : Prop :=
  gate_open older /\
  exists op db, Recorded op db ∈ older /\ i_id op = id /\ same_request (i_body op) body /\
    i_phase op = phase_str (phase_of older).
Definition event_ok (older : list Event) (e : Event) : Prop :=
  match e with
  | Recorded op db => stored db op
  | Asked (ModifyExact body id) => sent_ok older body id
  | Asked (SetPhase phase) => gate_open older /\ next (phase_of older) = Some phase
  | _ => True
  end.
Fixpoint log_ok (log : list Event) : Prop :=
  match log with [] => True | e :: older => event_ok older e /\ log_ok older end.
Definition is_send (e : Event) : bool := match e with Asked (ModifyExact _ _) => true | _ => false end.
Definition sends (log : list Event) : nat := length (List.filter is_send log).

(** ** Steps and the log

    [safe F k m Post]: from a good log with [F], the step leaves a good log that
    extends it without a change of phase, sends at most [k] mutations more than
    the batch has admitted for it, and [Post] holds of what it returns. *)
Definition quiet (e : Event) : Prop := match e with Answered (SetPhase _) _ => False | _ => True end.
Definition grows (log log' : list Event) : Prop := exists newer, log' = newer ++ log /\ Forall quiet newer.
Definition used (b : UplinkBatch) : nat := assets b + metadata b.
Definition bounded (b : UplinkBatch) : Prop := (assets b <= 5 /\ metadata b <= 20)%nat.
Record spent (k : nat) (w w' : World) : Prop := {
  sp_budget : (sends (w_log w') + used (w_batch w) <= sends (w_log w) + used (w_batch w') + k)%nat;
  sp_bounded : bounded (w_batch w) -> bounded (w_batch w');
  sp_sent : (mutations_sent (w_report w') + sends (w_log w) = mutations_sent (w_report w) + sends (w_log w'))%nat
}.
Definition safe {A} (F : list Event -> Prop) (k : nat) (m : Cyc A) (Post : A -> list Event -> Prop) : Prop :=
  forall w, log_ok (w_log w) -> F (w_log w) ->
    let (r, w') := m w in
    log_ok (w_log w') /\ grows (w_log w) (w_log w') /\ spent k w w' /\
    match r with inr a => Post a (w_log w') | inl _ => True end.
Definition anything {A} (_ : A) (_ : list Event) : Prop := True.
(** Facts of a log that later quiet events keep. *)
Class Stable (F : list Event -> Prop) : Prop := stable : forall log log', grows log log' -> F log -> F log'.

#[export] Instance grows_preorder : PreOrder grows.
Proof.
  split; [by exists []|]. intros a b c (n1 & -> & H1) (n2 & -> & H2). exists (n2 ++ n1).
  split; [by rewrite (assoc_L (++))|by apply Forall_app].
Qed.
Lemma grows_elem log log' e : grows log log' -> e ∈ log -> e ∈ log'.
Proof. intros (newer & -> & _). set_solver. Qed.
Lemma grows_phase log log' : grows log log' -> phase_of log' = phase_of log.
Proof.
  intros (newer & -> & Hq). induction Hq as [|e newer He Hq IH]; [done|]. cbn [app phase_of].
  destruct e as [|r|r a]; [done|done|]. by destruct r.
Qed.
#[export] Instance stable_true : Stable (fun _ => True).
Proof. by intros ???. Qed.
#[export] Instance stable_and F G : Stable F -> Stable G -> Stable (fun log => F log /\ G log).
Proof. intros HF HG log log' Hg [H1 H2]. split; [by eapply HF|by eapply HG]. Qed.
Definition recorded (op : Issued) (log : list Event) : Prop := exists db, Recorded op db ∈ log.
#[export] Instance stable_recorded op : Stable (recorded op).
Proof. intros log log' Hg [db Hin]. exists db. by eapply grows_elem. Qed.
(** Writing is open in a phase. *)
Definition writing (phase : UploadPhase) (log : list Event) : Prop := gate_open log /\ phase_of log = phase.
#[export] Instance stable_writing phase : Stable (writing phase).
Proof.
  intros log log' Hg [(applied & ready & Hin) Hp]. split; [by exists applied, ready; eapply grows_elem|].
  by rewrite (grows_phase _ _ Hg).
Qed.

Lemma spent_refl w : spent 0 w w.
Proof. split; [lia|done|lia]. Qed.
Lemma spent_trans a b w1 w2 w3 : spent a w1 w2 -> spent b w2 w3 -> spent (a + b) w1 w3.
Proof. intros [? ? ?] [? ? ?]. split; [lia|auto|lia]. Qed.
Lemma spent_weaken a b w1 w2 : (a <= b)%nat -> spent a w1 w2 -> spent b w1 w2.
Proof. intros ? [? ? ?]. split; [lia|done|lia]. Qed.

Lemma safe_post {A} F k (m : Cyc A) (P Q : A -> list Event -> Prop) :
  safe F k m P -> (forall a log, P a log -> Q a log) -> safe F k m Q.
Proof.
  intros Hm HPQ w Hok HF. specialize (Hm w Hok HF). destruct (m w) as [r w'].
  destruct Hm as (? & ? & ? & Hr). split_and!; [done..|]. destruct r; [done|by apply HPQ].
Qed.
Lemma safe_pre {A} (F G : list Event -> Prop) k (m : Cyc A) P : safe G k m P -> (forall log, F log -> G log) -> safe F k m P.
Proof. intros Hm HFG w Hok HF. by apply Hm; [|apply HFG]. Qed.
Lemma safe_cost {A} F a b (m : Cyc A) P : (a <= b)%nat -> safe F a m P -> safe F b m P.
Proof.
  intros Hab Hm w Hok HF. specialize (Hm w Hok HF). destruct (m w) as [r w'].
  destruct Hm as (? & ? & ? & Hr). split_and!; [done..|by eapply spent_weaken|done].
Qed.
Lemma safe_any {A} F k (m : Cyc A) P : safe F k m P -> safe F k m anything.
Proof. intros Hm. by eapply safe_post. Qed.
Lemma safe_bind {A B} F `{!Stable F} a b (m : Cyc A) (f : A -> Cyc B) P Q :
  safe F a m P -> (forall x, safe (fun log => F log /\ P x log) b (f x) Q) -> safe F (a + b) (m ≫= f) Q.
Proof.
  intros Hm Hf w Hok HF. specialize (Hm w Hok HF). unfold mbind, Cyc_bind. destruct (m w) as [[e|x] w1].
  - destruct Hm as (H1 & H2 & H3 & _). split_and!; [done..| |done]. eapply spent_weaken, H3. lia.
  - destruct Hm as (H1 & H2 & H3 & H4). specialize (Hf x w1 H1 (conj (stable _ _ H2 HF) H4)).
    destruct (f x w1) as [r w2]. destruct Hf as (H5 & H6 & H7 & H8).
    split_and!; [done|by etrans|by eapply spent_trans|done].
Qed.
(** The common case: the first step costs nothing and leaves nothing to know. *)
Lemma safe_then {A B} F `{!Stable F} k (m : Cyc A) (f : A -> Cyc B) Q :
  safe F 0 m anything -> (forall x, safe F k (f x) Q) -> safe F k (m ≫= f) Q.
Proof.
  intros Hm Hf. apply (safe_bind F 0 k m f anything Q Hm). intros x. eapply safe_pre; [apply Hf|]. by intros ? [? _].
Qed.
Lemma safe_ret {A} F k (a : A) (P : A -> list Event -> Prop) : (forall log, F log -> P a log) -> safe F k (mret a) P.
Proof.
  intros HP w Hok HF. split_and!; [done|done|by eapply spent_weaken, spent_refl; lia|by apply HP].
Qed.
Lemma safe_stop {A} F k e (P : A -> list Event -> Prop) : safe F k (stop e) P.
Proof. intros w Hok HF. split_and!; [done|done|by eapply spent_weaken, spent_refl; lia|done]. Qed.
Lemma safe_attempt {A} F `{!Stable F} k (m : Cyc A) P : safe F k m P -> safe F k (attempt m) anything.
Proof.
  intros Hm w Hok HF. specialize (Hm w Hok HF). unfold attempt. destruct (m w) as [r w'].
  destruct Hm as (? & ? & ? & _). by split_and!.
Qed.
Lemma safe_attempted {A B} F `{!Stable F} k (m : Cyc A) (f : CycleError + A -> Cyc B) P Q :
  safe F k m P -> (forall r, safe F 0 (f r) Q) -> safe F k (attempt m ≫= f) Q.
Proof.
  intros Hm Hf. rewrite <- (Nat.add_0_r k). apply (safe_bind F k 0 _ _ anything); [by eapply safe_attempt|].
  intros r. eapply safe_pre; [apply Hf|]. by intros log [? _].
Qed.
Lemma safe_each {A} F `{!Stable F} (l : list A) f :
  (forall x, x ∈ l -> safe F 0 (f x) anything) -> safe F 0 (each l f) anything.
Proof.
  intros Hf. induction l as [|x l IH]; [by apply safe_ret|]. cbn [each]. apply safe_then; [done|by apply Hf; left|].
  intros _. apply IH. intros y Hy. apply Hf. by right.
Qed.
(** Admission pays for one mutation. *)
Lemma admit_refused b phase content b' : batch_admit b phase content = (false, b') -> b' = b.
Proof. unfold batch_admit. destruct (heavy phase content), (5 <=? assets b)%nat, (20 <=? metadata b)%nat; congruence. Qed.
Lemma admit_admitted b phase content b' :
  batch_admit b phase content = (true, b') -> used b' = S (used b) /\ (bounded b -> bounded b').
Proof.
  unfold batch_admit, bounded, used. destruct b as [a m]. destruct (heavy phase content); cbn [assets metadata].
  - destruct (Nat.leb_spec 5 a); [done|]. intros [= <-]. cbn [assets metadata]. lia.
  - destruct (Nat.leb_spec 20 m); [done|]. intros [= <-]. cbn [assets metadata]. lia.
Qed.
Lemma spent_admitted phase content w b w' :
  batch_admit (w_batch w) phase content = (true, b) ->
  spent 1 (mkWorld (w_db w) (w_tick w) (w_log w) (w_report w) b) w' -> spent 0 w w'.
Proof.
  intros [Hu Hb]%admit_admitted [H1 H2 H3]. cbn [w_log w_batch w_report] in *. split; [lia|auto|done].
Qed.
Lemma safe_admit {A} F `{!Stable F} phase content (m1 m2 : Cyc A) P :
  safe F 1 m1 P -> safe F 0 m2 P ->
  safe F 0 (admitted ← admit_batch phase content; if admitted : bool then m1 else m2) P.
Proof.
  intros H1 H2 w Hok HF. unfold mbind, Cyc_bind, admit_batch.
  destruct (batch_admit (w_batch w) phase content) as [[] b] eqn:E.
  - specialize (H1 (mkWorld (w_db w) (w_tick w) (w_log w) (w_report w) b) Hok HF).
    destruct (m1 _) as [r w']. destruct H1 as (? & ? & ? & ?). split_and!; [done..| |done]. by eapply spent_admitted.
  - apply admit_refused in E as ->. destruct w. by apply (H2 (mkWorld _ _ _ _ _)).
Qed.

(** ** Steps that send nothing *)
Definition silent {A} (m : Cyc A) : Prop := forall w,
  w_log (m w).2 = w_log w /\ w_batch (m w).2 = w_batch w /\
  mutations_sent (w_report (m w).2) = mutations_sent (w_report w).
Lemma silent_bind {A B} (m : Cyc A) (f : A -> Cyc B) : silent m -> (forall x, silent (f x)) -> silent (m ≫= f).
Proof.
  intros Hm Hf w. specialize (Hm w). unfold mbind, Cyc_bind. destruct (m w) as [[e|x] w1]; [done|].
  specialize (Hf x w1). cbn [snd] in *. destruct Hm as (-> & -> & ->) in Hf |- *. done.
Qed.
Lemma silent_ret {A} (a : A) : silent (mret a).
Proof. done. Qed.
Lemma silent_stop {A} e : silent (stop e : Cyc A).
Proof. done. Qed.
Lemma silent_of_sum {A} (r : CycleError + A) : silent (of_sum r).
Proof. done. Qed.
Lemma silent_see {A} (f : World -> A) : silent (see f).
Proof. done. Qed.
Lemma silent_attempt {A} (m : Cyc A) : silent m -> silent (attempt m).
Proof. intros Hm w. specialize (Hm w). unfold attempt. by destruct (m w). Qed.
Lemma silent_on_db {A} (f : Db -> Db * A) : silent (on_db f).
Proof. intros w. unfold on_db. by destruct (f (w_db w)). Qed.
Lemma silent_report f : (forall r, mutations_sent (f r) = mutations_sent r) -> silent (update_report f).
Proof. intros Hf w. split_and!; [done|done|apply Hf]. Qed.
Lemma silent_instant : silent instant.
Proof. done. Qed.
#[local] Hint Resolve silent_ret silent_stop silent_of_sum silent_see silent_on_db silent_instant silent_attempt : silent.
#[local] Hint Extern 1 (silent (update_report _)) => (apply silent_report; reflexivity) : silent.
Ltac silence :=
  repeat first
    [ solve [auto with silent]
    | apply silent_bind; [|intros ?]
    | apply silent_attempt
    | match goal with
      | |- silent (if ?b then _ else _) => destruct b
      | |- silent (match ?x with _ => _ end) => destruct x
      end ].
Lemma silent_look {A} (f : nat -> A) : silent (look f).
Proof. unfold look. silence. Qed.
Lemma silent_query {A} (f : Db -> A) : silent (query f).
Proof. unfold query. silence. Qed.
Lemma silent_try {A} (r : result A) : silent (try_ r).
Proof. unfold try_. silence. Qed.
Lemma silent_some {A} (o : option A) e : silent (some o e).
Proof. unfold some. silence. Qed.
Lemma silent_commit {A} (m : Tx Db A) : silent (commit m).
Proof. unfold commit. silence. Qed.
Lemma silent_await : silent await.
Proof. unfold await. silence. Qed.
Lemma silent_or_transport {A} (a : SyncErrors.SyncError + A) : silent (or_transport a).
Proof. unfold or_transport. silence. Qed.
Lemma silent_each {A} (l : list A) f : (forall x, silent (f x)) -> silent (each l f).
Proof. intros Hf. induction l as [|x l IH]; cbn [each]; silence. Qed.
#[local] Hint Resolve silent_look silent_query silent_try silent_some silent_commit silent_await silent_or_transport silent_each : silent.
Definition is_save (c : Command) : bool := match c with Save _ _ => true | _ => false end.
Lemma silent_runtime c : is_save c = false -> silent (runtime c).
Proof. intros Hc. unfold runtime. silence; by destruct c. Qed.
Lemma silent_command c : is_save c = false -> silent (run_command c).
Proof. intros Hc. unfold run_command. apply silent_bind; [by apply silent_runtime|intros; silence]. Qed.
#[local] Hint Extern 1 (silent (runtime _)) => (apply silent_runtime; reflexivity) : silent.
#[local] Hint Extern 1 (silent (run_command _)) => (apply silent_command; reflexivity) : silent.
Lemma silent_valid_now : silent valid_now.
Proof. unfold valid_now. silence. Qed.
#[local] Hint Resolve silent_valid_now : silent.
Lemma silent_confirm epoch op response : silent (confirm epoch op response).
Proof. unfold confirm. silence. Qed.
Lemma silent_upload_failed epoch entry path e : silent (upload_failed epoch entry path e).
Proof. unfold upload_failed. silence. Qed.
Lemma silent_failed_before job entry : silent (failed_before job entry).
Proof. unfold failed_before. silence. Qed.
Lemma silent_eligible job j e : silent (eligible job j e).
Proof. unfold eligible. silence. Qed.
#[local] Hint Resolve silent_confirm silent_upload_failed silent_failed_before silent_eligible : silent.
Lemma silent_confirm_or_lost epoch op response : silent (confirm_or_lost epoch op response).
Proof. unfold confirm_or_lost. silence. Qed.
Lemma silent_or_failed {A} epoch entry path (r : CycleError + A) : silent (or_failed epoch entry path r).
Proof. unfold or_failed. silence. Qed.
Lemma silent_local_content j pinned e : silent (local_content j pinned e).
Proof. unfold local_content. silence. Qed.
Lemma silent_uuid_or known : silent (uuid_or known).
Proof. unfold uuid_or. silence. Qed.
#[local] Hint Resolve silent_confirm_or_lost silent_or_failed silent_local_content silent_uuid_or : silent.
Lemma silent_prepared job j pinned id e phase content : silent (prepared_operation job j pinned id e phase content).
Proof. unfold prepared_operation, new_operation, prepare_resources. silence. Qed.
Lemma silent_still_at job id e : silent (still_at job id e).
Proof. unfold still_at. silence. Qed.
#[local] Hint Resolve silent_prepared silent_still_at : silent.
Lemma silent_lost_entry ke : silent (lost_entry ke).
Proof. unfold lost_entry. silence. Qed.
Lemma silent_still_eligible job j entries : silent (still_eligible job j entries).
Proof. induction entries; cbn [still_eligible]; silence. Qed.
Lemma silent_receive_complete : silent receive_complete.
Proof. unfold receive_complete. silence. Qed.
#[local] Hint Resolve silent_lost_entry silent_still_eligible silent_receive_complete : silent.

(** ** Steps that extend the log *)
Lemma spent_silent w w' :
  w_log w' = w_log w -> w_batch w' = w_batch w -> mutations_sent (w_report w') = mutations_sent (w_report w) -> spent 0 w w'.
Proof. intros Hl Hb Hs. split; rewrite ?Hl, ?Hb, ?Hs; [lia|done|done]. Qed.
Lemma safe_silent {A} F (m : Cyc A) : silent m -> safe F 0 m anything.
Proof.
  intros Hm w Hok HF. specialize (Hm w). destruct (m w) as [r w']. cbn [snd] in Hm. destruct Hm as (Hl & Hb & Hs).
  split_and!; [by rewrite Hl|by rewrite Hl|by apply spent_silent|by destruct r].
Qed.
Lemma sends_quietly newer log : Forall (fun e => is_send e = false) newer -> sends (newer ++ log) = sends log.
Proof.
  intros Hn. unfold sends. rewrite List.filter_app, length_app. induction Hn as [|e newer He _ IH]; [done|].
  cbn [List.filter]. by rewrite He.
Qed.
Lemma spent_extended newer w w' :
  w_log w' = newer ++ w_log w -> Forall (fun e => is_send e = false) newer -> w_batch w' = w_batch w ->
  mutations_sent (w_report w') = mutations_sent (w_report w) -> spent 0 w w'.
Proof. intros Hl Hn Hb Hs. split; rewrite ?Hl, ?Hb, ?Hs, ?(sends_quietly _ _ Hn); [lia|done|done]. Qed.
Definition plain (e : Event) : Prop := quiet e /\ is_send e = false.
Lemma extend_ok newer log : Forall (fun e => forall older, event_ok older e) newer -> log_ok log -> log_ok (newer ++ log).
Proof. intros Hn Hl. induction Hn as [|e newer He _ IH]; [done|]. cbn [app log_ok]. by split. Qed.
Lemma safe_note_all F l (P : list Event -> Prop) :
  Forall (fun e => plain e /\ forall older, event_ok older e) l -> (forall log, F log -> P (l ++ log)) ->
  safe F 0 (note_all l) (fun _ => P).
Proof.
  intros Hl HP w Hok HF. unfold note_all. cbn [w_log]. split_and!.
  - apply extend_ok; [|done]. eapply Forall_impl; [exact Hl|]. by intros ? [_ ?].
  - exists l. split; [done|]. eapply Forall_impl; [exact Hl|]. by intros ? [[? _] _].
  - assert (Hs : sends (l ++ w_log w) = sends (w_log w))
      by (apply sends_quietly; eapply Forall_impl; [exact Hl|]; by intros ? [[_ ?] _]).
    split; cbn [w_log w_batch w_report]; rewrite ?Hs; [lia|done|done].
  - by apply HP.
Qed.
Lemma safe_note F e (P : list Event -> Prop) :
  plain e -> (forall older, event_ok older e) -> (forall log, F log -> P (e :: log)) -> safe F 0 (note e) (fun _ => P).
Proof. intros He Ho HP. apply (safe_note_all F [e] P); [by apply Forall_singleton|done]. Qed.

(** Requests other than a mutation and a change of phase. *)
Definition ordinary (r : Request) : Prop := match r with ModifyExact _ _ | SetPhase _ => False | _ => True end.
Definition answered {r : Request} (a : Answer r) (log : list Event) : Prop := Answered r a ∈ log.
Lemma safe_asked F `{!Stable F} r : ordinary r -> safe F 0 (note (Asked r)) anything.
Proof. intros Hr. apply safe_note; [|intros ?; by destruct r|done]. by destruct r. Qed.
Lemma safe_answered F `{!Stable F} r (a : Answer r) : ordinary r -> safe F 0 (_ ← note (Answered r a); mret a) answered.
Proof.
  intros Hr. eapply (safe_bind F 0 0 _ _ (fun _ => answered a)).
  - apply safe_note; [by destruct r|by destruct r|]. intros log _. left.
  - intros _. apply safe_ret. by intros log [_ Hl].
Qed.
Lemma safe_call F `{!Stable F} r : ordinary r -> safe F 0 (call r) answered.
Proof.
  intros Hr. unfold call. apply safe_then; [done|by apply safe_asked|intros _].
  apply safe_then; [done|by apply safe_silent, silent_instant|intros n]. by apply safe_answered.
Qed.
Lemma safe_ask F `{!Stable F} r : ordinary r -> safe F 0 (ask r) answered.
Proof.
  intros Hr. unfold ask. apply safe_then; [done|by apply safe_asked|intros _].
  apply safe_then; [done|by apply safe_silent, silent_instant|intros n].
  destruct (lost env n); [apply safe_stop|by apply safe_answered].
Qed.
Lemma safe_request F `{!Stable F} r : ordinary r -> safe F 0 (request r) (fun a => @answered r (inr a)).
Proof.
  intros Hr. unfold request. eapply (safe_bind F 0 0); [by apply safe_ask|].
  intros [e|a]; unfold or_transport; [apply safe_stop|]. apply safe_ret. by intros log [_ ?].
Qed.

Lemma safe_call_any F `{!Stable F} r : ordinary r -> safe F 0 (call r) anything.
Proof. intros Hr. exact (safe_any F 0 _ _ (safe_call F r Hr)). Qed.
Lemma safe_ask_any F `{!Stable F} r : ordinary r -> safe F 0 (ask r) anything.
Proof. intros Hr. exact (safe_any F 0 _ _ (safe_ask F r Hr)). Qed.
Lemma safe_request_any F `{!Stable F} r : ordinary r -> safe F 0 (request r) anything.
Proof. intros Hr. exact (safe_any F 0 _ _ (safe_request F r Hr)). Qed.

(** Saved evidence is in the database. *)
Lemma save_stored epoch op db db' : save epoch op db = Ok (tt, db') -> stored db' op.
Proof.
  intros H. unfold save in H. apply bind_Ok in H as ([] & s & He & H). apply bind_Ok in H as ([] & s0 & _ & H).
  apply bind_Ok in H as (found & s1 & [-> ->]%gets_Ok & H). apply bind_Ok in H as ([] & s2 & Hins & Hw).
  assert (Ht : exists k t, db_tasks s2 !! k = Some t /\ t_operation t = i_id op).
  { destruct (find_task s0 (i_id op)) as [[k t]|] eqn:Hf.
    - tx_inv Hins. destruct (find_task_Some _ _ _ _ Hf) as [Hk Hop]. by exists k, t.
    - tx_inv Hins. eexists _, _. split; [apply lookup_insert_eq|done]. }
  destruct Ht as (k & t & Hk & Hop). apply issued_write_Ok in Hw as [-> _].
  exists k, (set_t_issued (Some op) t). cbn [db_tasks set_db_tasks]. rewrite lookup_update_where, Hk. cbn.
  by rewrite bool_decide_true.
Qed.
Lemma run_save epoch op w :
  run_command (Save epoch op) w =
    let db0 := others env (w_tick w) (w_db w) in
    match save epoch op db0 with
    | Ok (_, db) => (inr tt, mkWorld db (S (w_tick w)) (Recorded op db :: w_log w) (w_report w) (w_batch w))
    | Err e => (inl (setup e), mkWorld db0 (S (w_tick w)) (w_log w) (w_report w) (w_batch w))
    end.
Proof.
  unfold run_command, runtime, commit, instant, on_db, transact, mbind, Cyc_bind. cbn.
  by destruct (save epoch op _) as [[[] db]|e].
Qed.
Lemma safe_save F `{!Stable F} epoch op : safe F 0 (run_command (Save epoch op)) (fun _ => recorded op).
Proof.
  intros w Hok HF. rewrite run_save. cbv zeta. destruct (save epoch op _) as [[[] db]|e] eqn:He; cbn [w_log].
  - apply save_stored in He. split_and!; [done| | |by exists db; left].
    + exists [Recorded op db]. split; [done|by repeat constructor].
    + by split; cbn [w_log w_batch w_report]; [rewrite Nat.add_0_r|..].
  - split_and!; [done|done|by apply spent_silent|done].
Qed.
Lemma pending_stored db job ops db' : Runtime.pending_issued db job db = Ok (ops, db') -> Forall (stored db) ops.
Proof.
  intros [Hm _]%need_Ok. apply mapM_Some in Hm. induction Hm as [|[k t] op l l' Hr _ IH]; [done|]. constructor; [|done].
  cbn [snd] in Hr. unfold issued_read in Hr. destruct (find_task db (t_operation t)) as [[k' t']|] eqn:Hf; [|done].
  cbn in Hr. apply find_task_Some in Hf as [Hk' _]. by exists k', t'.
Qed.
Lemma safe_pending F `{!Stable F} job :
  safe F 0 (pending_issued job) (fun ops log => forall op, op ∈ ops -> recorded op log).
Proof.
  intros w Hok HF. unfold pending_issued, query, see, mbind, Cyc_bind. cbn [instant w_db].
  set (db := others env (w_tick w) (w_db w)). destruct (Runtime.pending_issued db job db) as [[ops db']|e] eqn:Hp.
  - cbn [try_ mret Cyc_ret fst snd]. apply pending_stored in Hp.
    assert (Hl : Forall (fun e => plain e /\ forall older, event_ok older e) ((fun op => Recorded op db) <$> ops)).
    { apply Forall_fmap. eapply Forall_impl; [exact Hp|]. intros op Hs. by split. }
    unshelve epose proof (safe_note_all F _ (fun log => forall op, op ∈ ops -> recorded op log) Hl _
      (mkWorld db (S (w_tick w)) (w_log w) (w_report w) (w_batch w)) Hok HF) as (H1 & H2 & [? ? ?] & H4).
    { intros log _ op Hin. exists db. apply elem_of_app. left. apply list_elem_of_fmap. by exists op. }
    split_and!; [exact H1|exact H2|by split|exact H4].
  - cbn. split_and!; [done|done|by apply spent_silent|done].
Qed.

(** ** One operation *)
(** [walk]: steps that send nothing are passed, in a match every case is. *)
Ltac walk :=
  repeat first
    [ match goal with
      | |- safe _ _ (mret _) _ => apply safe_ret; by intros
      | |- safe _ _ (stop _) _ => apply safe_stop
      | |- safe _ 0 _ anything => apply safe_silent; solve [silence]
      | |- safe _ _ (_ ≫= _) _ => apply safe_then; [tc_solve|apply safe_silent; solve [silence]|intros ?]
      | |- safe _ _ (call ?r) _ => exact (safe_call_any _ r I)
      | |- safe _ _ (request ?r ≫= _) _ => apply safe_then; [tc_solve|exact (safe_request_any _ r I)|intros ?]
      | |- safe _ _ (ask ?r ≫= _) _ => apply safe_then; [tc_solve|exact (safe_ask_any _ r I)|intros ?]
      | |- safe _ _ (call ?r ≫= _) _ => apply safe_then; [tc_solve|exact (safe_call_any _ r I)|intros ?]
      | |- safe _ _ (if ?b then _ else _) _ => destruct b
      | |- safe _ _ (match ?x with _ => _ end) _ => destruct x
      end ].
Definition any_of {A} (P : A -> Prop) (a : A) (_ : list Event) : Prop := P a.
Lemma safe_bind_any {A B} F `{!Stable F} k (m : Cyc A) (f : A -> Cyc B) (P : A -> Prop) Q :
  safe F 0 m (any_of P) -> (forall x, P x -> safe F k (f x) Q) -> safe F k (m ≫= f) Q.
Proof.
  intros Hm Hf. apply (safe_bind F 0 k m f _ Q Hm). intros x w Hok [HF HP]. by apply Hf.
Qed.

Lemma safe_bind_both {A B} F `{!Stable F} k (m : Cyc A) (f : A -> Cyc B) (P : A -> Prop) (R : A -> list Event -> Prop) Q :
  safe F 0 m (fun x log => R x log /\ P x) -> (forall x, P x -> safe (fun log => F log /\ R x log) k (f x) Q) ->
  safe F k (m ≫= f) Q.
Proof.
  intros Hm Hf. apply (safe_bind F 0 k m f _ Q Hm). intros x w Hok (HF & HR & HP). by apply Hf.
Qed.

Lemma safe_refresh_field F `{!Stable F} op op' fr :
  fr ∈ ASSET_FIELDS -> renewed op op' -> safe F 0 (refresh_field op' fr) (any_of (renewed op)).
Proof.
  intros Hfr Hop. unfold refresh_field. destruct (fields_of op' ≫= _) as [value|]; [|by apply safe_ret].
  walk. apply safe_ret. intros log _. apply renewed_field; [done|]. by apply list_elem_of_fmap_2.
Qed.
Lemma safe_refresh_fields F `{!Stable F} op op' fields :
  fields ⊆ ASSET_FIELDS -> renewed op op' -> safe F 0 (refresh_fields op' fields) (any_of (renewed op)).
Proof.
  revert F Stable0 op'. induction fields as [|fr fields IH]; intros F HF op' Hf Hop; cbn [refresh_fields].
  { by apply safe_ret. }
  apply (safe_bind_any F 0 _ _ (renewed op)); [apply safe_refresh_field; first [done|set_solver]|].
  intros op1 H1. apply IH; first [done|set_solver].
Qed.
Lemma safe_refresh_operations F `{!Stable F} operations :
  safe F 0 (refresh_operations operations) (any_of (Forall2 renewed operations)).
Proof.
  revert F Stable0. induction operations as [|op rest IH]; intros F HF; cbn [refresh_operations].
  { apply safe_ret. by constructor. }
  apply (safe_bind_any F 0 _ _ (renewed op)); [apply safe_refresh_fields; first [done|constructor]|].
  intros op1 H1. apply (safe_bind_any F 0 _ _ (Forall2 renewed rest)); [by apply IH|].
  intros rest1 H2. apply safe_ret. intros log _. by constructor.
Qed.
Lemma safe_refresh F `{!Stable F} body : safe F 0 (refresh body) (any_of (same_request body)).
Proof.
  unfold refresh. destruct (as_array _) as [operations|] eqn:Ho; [|exact (safe_stop F 0 (invalid _) _)].
  change (safe F 0 (operations' ← refresh_operations operations; mret (assign body "operations" (Arr operations')))
            (any_of (same_request body))).
  apply (safe_bind_any F 0 _ _ (Forall2 renewed operations)); [by apply safe_refresh_operations|].
  intros operations' H. apply safe_ret. intros log _. by exists operations, operations'.
Qed.

Lemma safe_upload_resource F `{!Stable F} epoch op role :
  safe F 0 (upload_resource epoch op role) (fun op' log => recorded op' log /\ i_id op' = i_id op /\ i_phase op' = i_phase op).
Proof.
  unfold upload_resource, published_asset. cbv zeta.
  set (Same := fun x : Issued * AssetDescriptor => i_id x.1 = i_id op /\ i_phase x.1 = i_phase op).
  apply safe_then; [done|by walk|]. intros published.
  apply (safe_bind_any F 0 _ _ Same); [by walk; apply safe_then; [tc_solve|eapply safe_any, safe_save|intros ?]; walk|].
  intros [op' asset] [Hid Hphase]. eapply (safe_bind F 0 0); [by apply safe_save|].
  intros u. apply safe_ret. intros log [_ Hr]. by split_and!.
Qed.
(** Whatever [build_body] returns is recorded as it is. *)
Lemma safe_build_body F `{!Stable F} j epoch op :
  (forall log, F log -> recorded op log) ->
  safe F 0 (build_body j epoch op) (fun op' log => recorded op' log /\ i_id op' = i_id op /\ i_phase op' = i_phase op).
Proof.
  intros Hrec. unfold build_body. destruct (is_null (i_body op)); [|by apply safe_ret; intros log HF; split_and!; [apply Hrec|..]].
  apply (safe_bind_any F 0 _ _ (fun op' => i_id op' = i_id op /\ i_phase op' = i_phase op)).
  - destruct (has_resources op); [|by apply safe_ret].
    apply (safe_bind_any F 0 _ _ (fun op' => i_id op' = i_id op /\ i_phase op' = i_phase op)).
    + eapply safe_post; [by apply safe_upload_resource|]. by intros op' log (_ & ? & ?).
    + intros op1 [Hi Hp]. eapply safe_post; [by apply safe_upload_resource|].
      intros op' log (_ & Hi' & Hp'). split; congruence.
  - intros op1 [Hi Hp]. walk. eapply (safe_bind F 0 0); [by apply safe_save|].
    intros u. apply safe_ret. intros log [_ Hr]. by split_and!.
Qed.

(** The mutation itself: it costs the one that was admitted. *)
Definition sent_world (body : Value) (id : string) (w : World) : World :=
  mkWorld (w_db w) (w_tick w) (Asked (ModifyExact body id) :: w_log w) (add_sent (w_report w)) (w_batch w).
Definition after_sending (body : Value) (id : string) (K : Answer (ModifyExact body id) -> Cyc unit) : Cyc unit :=
  n ← instant;
  a ← (if lost env n then stop LeaseLost else
         _ ← note (Answered (ModifyExact body id) (answer env n (ModifyExact body id)));
         mret (answer env n (ModifyExact body id)));
  K a.
Lemma sending_run body id (K : Answer (ModifyExact body id) -> Cyc unit) w :
  (_ ← update_report add_sent; a ← ask (ModifyExact body id); K a : Cyc unit) w = after_sending body id K (sent_world body id w).
Proof. done. Qed.
Lemma safe_mutation F `{!Stable F} body id (K : Answer (ModifyExact body id) -> Cyc unit) :
  (forall log, F log -> sent_ok log body id) -> (forall a, safe F 0 (K a) anything) ->
  safe F 1 (_ ← update_report add_sent; a ← ask (ModifyExact body id); K a) anything.
Proof.
  intros Hs HK w Hok HF. rewrite sending_run.
  assert (Hrest : safe F 0 (after_sending body id K) anything).
  { unfold after_sending. walk. apply safe_then; [done| |done]. walk.
    apply safe_then; [done| |intros ?; by apply safe_ret]. by apply safe_note. }
  assert (Hg : grows (w_log w) (w_log (sent_world body id w))) by (exists [Asked (ModifyExact body id)]; by split; [|repeat constructor]).
  specialize (Hrest (sent_world body id w) (conj (Hs _ HF) Hok) (stable _ _ Hg HF)).
  destruct (after_sending _ _ _ _) as [r w']. destruct Hrest as (? & ? & Hsp & ?). split_and!; [done|by etrans| |done].
  apply (spent_trans 1 0 w (sent_world body id w) w'); [|done]. split; [|done|]; unfold sends; cbn; lia.
Qed.
Lemma safe_send F `{!Stable F} epoch op phase :
  i_phase op = phase_str phase -> (forall log, F log -> recorded op log /\ writing phase log) ->
  safe F 1 (send epoch op) anything.
Proof.
  intros Hphase HF. unfold send. apply (safe_bind_any F 1 _ _ (same_request (i_body op))); [by apply safe_refresh|].
  intros body Hbody. apply safe_then; [done|by walk|].
  intros [|]; [by apply safe_ret|]. apply safe_mutation; [done| |].
  - intros log [[db Hr] [Hgate Hp]]%HF. split; [done|]. exists op, db. by rewrite Hp.
  - intros a. walk.
Qed.
Lemma safe_execute F `{!Stable F} j epoch op phase :
  i_phase op = phase_str phase -> (forall log, F log -> recorded op log /\ writing phase log) ->
  safe F 1 (execute_issued j epoch op) anything.
Proof.
  intros Hphase HF. unfold execute_issued.
  eapply (safe_bind_both F 1); [by apply safe_build_body; [|intros log [??]%HF]|].
  intros op' [Hid Hp]. apply safe_then; [tc_solve|exact (safe_request_any _ (OperationStatus (i_id op')) I)|]. intros [response|children|].
  - apply (safe_cost _ 0 1); [lia|]. apply safe_silent. silence.
  - apply safe_stop.
  - refine (safe_send _ epoch op' phase _ _); [congruence|]. by intros log [[_ Hw]%HF Hr].
Qed.

(** ** Under the lease *)
Lemma safe_settle F `{!Stable F} job j epoch pinned op : safe F 0 (settle_pending job j epoch pinned op) anything.
Proof. unfold settle_pending. by walk. Qed.
Lemma safe_send_pending F `{!Stable F} job j epoch phase op :
  (forall log, F log -> recorded op log /\ writing phase log) -> safe F 0 (send_pending job j epoch phase op) anything.
Proof.
  intros HF. unfold send_pending. destruct (bool_decide _) eqn:Hp; cbn [negb]; [|by apply safe_ret].
  apply bool_decide_eq_true in Hp. apply safe_then; [tc_solve|apply safe_silent; silence|]. intros [|]; [by apply safe_ret|].
  apply safe_admit; [done| |by walk].
  eapply safe_attempted; [done|by eapply safe_execute|]. intros r. walk.
Qed.
Lemma safe_guard {A} F `{!Stable F} k (m : Cyc A) : safe F k m anything -> safe F k (guard m) anything.
Proof.
  intros Hm. unfold guard. walk. rewrite <- (Nat.add_0_r k). apply (safe_bind F k 0 _ _ anything); [done|].
  intros a. walk.
Qed.
Lemma safe_prepared F `{!Stable F} job j pinned id e phase content :
  safe F 0 (prepared_operation job j pinned id e phase content) (any_of (fun op => i_phase op = phase_str phase)).
Proof.
  unfold prepared_operation. apply (safe_bind_any F 0 _ _ (fun op => i_phase op = phase_str phase)).
  { unfold new_operation. by walk. }
  intros op Hop. destruct phase; [by walk|..]; (destruct content as [[source cached]|]; [|by apply safe_ret]).
  all: unfold prepare_resources; by walk.
Qed.
Lemma safe_issue F `{!Stable F} job j epoch pinned id e phase content :
  (forall log, F log -> writing phase log) -> safe F 1 (issue_and_send job j epoch pinned id e phase content) anything.
Proof.
  intros HF. unfold issue_and_send.
  apply (safe_bind_any F 1 _ _ (fun op => i_phase op = phase_str phase)); [by apply safe_prepared|].
  intros op Hp. walk. eapply (safe_bind F 0 1); [by apply safe_save|]. intros u.
  refine (safe_execute _ j epoch op phase Hp _). intros log [Hw%HF Hr]. done.
Qed.

Lemma safe_prepare_and_send F `{!Stable F} job j epoch pinned id e phase :
  (forall log, F log -> writing phase log) -> safe F 0 (prepare_and_send job j epoch pinned id e phase) anything.
Proof.
  intros HF. unfold prepare_and_send. walk. apply safe_admit; [done| |by walk]. by apply safe_issue.
Qed.
Lemma safe_send_entry F `{!Stable F} job j epoch pinned phase pending ke :
  (forall log, F log -> writing phase log) -> safe F 0 (send_entry job j epoch pinned phase pending ke) anything.
Proof.
  intros HF. unfold send_entry. walk.
  eapply safe_attempted; [done|apply safe_guard; [done|by apply safe_prepare_and_send]|]. intros r. walk.
Qed.
(** Everything in a phase but the request for it. *)
Lemma safe_phase F `{!Stable F} job j epoch pinned entries phase :
  (forall log, F log -> writing phase log) ->
  safe F 0 (pending ← pending_issued job; _ ← each pending (send_pending job j epoch phase);
            each entries (send_entry job j epoch pinned phase pending)) anything.
Proof.
  intros HF. eapply (safe_bind F 0 0); [by apply safe_pending|]. intros pending.
  set (G := fun log => F log /\ forall op, op ∈ pending -> recorded op log).
  assert (HG : Stable G).
  { intros log log' Hg [H1 H2]. split; [by eapply stable|]. intros op Hin. by eapply stable_recorded, H2. }
  apply (safe_then G).
  - refine (safe_each G _ _ _). intros op Hin. refine (safe_send_pending G job j epoch phase op _).
    intros log [Hw%HF Hr]. split; [by apply Hr|done].
  - intros u. refine (safe_each G _ _ _). intros ke _. refine (safe_send_entry G job j epoch pinned phase pending ke _).
    by intros log [Hw%HF _].
Qed.
Lemma safe_adopt_head F `{!Stable F} job : safe F 0 (adopt_head job) anything.
Proof. unfold adopt_head. walk. Qed.

(** ** The phases

    [clean P m Q]: from a good log with [P], the step leaves a good log, spends
    only what the batch admits, and [Q] holds of what it returns. Unlike [safe]
    it allows the phase to change. *)
Definition clean {A} (P : list Event -> Prop) (m : Cyc A) (Q : A -> list Event -> Prop) : Prop :=
  forall w, log_ok (w_log w) -> P (w_log w) ->
    let (r, w') := m w in
    log_ok (w_log w') /\ spent 0 w w' /\ match r with inr a => Q a (w_log w') | inl _ => True end.
Lemma clean_safe {A} F `{!Stable F} (m : Cyc A) P : safe F 0 m P -> clean F m (fun a log => F log /\ P a log).
Proof.
  intros Hm w Hok HF. specialize (Hm w Hok HF). destruct (m w) as [r w']. destruct Hm as (? & Hg & ? & Hr).
  split_and!; [done..|]. destruct r; [done|]. split; [by eapply stable|done].
Qed.
Lemma clean_keeps {A} F `{!Stable F} (m : Cyc A) : safe F 0 m anything -> clean F m (fun _ => F).
Proof.
  intros Hm w Hok HF. specialize (clean_safe F m _ Hm w Hok HF) as H. destruct (m w) as [[e|a] w']; [done|].
  by destruct H as (? & ? & ? & _).
Qed.
Lemma clean_bind {A B} P Q (m : Cyc A) (f : A -> Cyc B) R :
  clean P m Q -> (forall a, clean (Q a) (f a) R) -> clean P (m ≫= f) R.
Proof.
  intros Hm Hf w Hok HP. specialize (Hm w Hok HP). unfold mbind, Cyc_bind. destruct (m w) as [[e|a] w1].
  { by destruct Hm as (? & ? & _). }
  destruct Hm as (H1 & H2 & H3). specialize (Hf a w1 H1 H3). destruct (f a w1) as [r w2].
  destruct Hf as (H4 & H5 & H6). split_and!; [done|by apply (spent_trans 0 0 w w1 w2)|done].
Qed.
Lemma clean_weaken {A} (P P' : list Event -> Prop) (m : Cyc A) Q :
  clean P m Q -> (forall log, P' log -> P log) -> clean P' m anything.
Proof.
  intros Hm HP w Hok HP'. specialize (Hm w Hok (HP _ HP')). destruct (m w) as [r w'].
  destruct Hm as (? & ? & _). split_and!; [done..|by destruct r].
Qed.
Lemma clean_attempt {A B} P (m : Cyc A) (f : CycleError + A -> Cyc B) Q R :
  clean P m Q -> (forall r, clean (fun _ => True) (f r) R) -> clean P (attempt m ≫= f) R.
Proof.
  intros Hm Hf. apply (clean_bind P anything); [|intros r; apply Hf]. intros w Hok HP. specialize (Hm w Hok HP).
  unfold attempt. destruct (m w) as [r w']. by destruct Hm as (? & ? & _).
Qed.
Lemma clean_stop {A} P e (Q : A -> list Event -> Prop) : clean P (stop e) Q.
Proof. intros w Hok HP. split_and!; [done|apply spent_refl|done]. Qed.

Lemma clean_set_phase phase :
  clean (fun log => gate_open log /\ next (phase_of log) = Some phase) (request (SetPhase phase)) (fun _ => writing phase).
Proof.
  intros w Hok [Hgate Hnext]. unfold request, ask, note, instant, mbind, Cyc_bind. cbn.
  pose proof (conj (conj Hgate Hnext) Hok) as Hok1.
  destruct (lost env (w_tick w)); cbn; [split; [exact Hok1|split; [by eapply (spent_extended [_]); [|repeat constructor|..]|done]]|].
  destruct (answer env (w_tick w) (SetPhase phase)) as [e|[]]; cbn.
  - split; [exact (conj I Hok1)|split; [by eapply (spent_extended [_; _]); [|repeat constructor|..]|done]].
  - split; [exact (conj I Hok1)|split; [by eapply (spent_extended [_; _]); [|repeat constructor|..]|]]. split; [|done]. destruct Hgate as (applied & ready & Hin).
    exists applied, ready. set_solver.
Qed.
Lemma clean_phase job j epoch pinned entries before phase :
  phase = PhaseDelete /\ before = PhaseDelete \/ phase <> PhaseDelete /\ next before = Some phase ->
  clean (writing before) (send_phase job j epoch pinned entries phase) (fun _ => writing phase).
Proof.
  intros Hp. unfold send_phase. apply (clean_bind _ (fun _ => writing phase)).
  - destruct Hp as [[-> ->]|[Hne Hnext]]; [by refine (clean_keeps _ _ _); apply safe_ret|].
    rewrite bool_decide_false by done. intros w Hok [Hgate Hb]. apply clean_set_phase; [done|]. by rewrite Hb.
  - intros u. refine (clean_keeps (writing phase) _ _). by apply (safe_phase (writing phase)).
Qed.
Lemma clean_send_all job j epoch pinned : clean (writing PhaseDelete) (send_all job j epoch pinned) anything.
Proof.
  unfold send_all. apply (clean_bind _ (fun _ => writing PhaseDelete)); [refine (clean_keeps (writing PhaseDelete) _ _); walk|intros u].
  apply (clean_bind _ (fun _ => writing PhaseDelete)); [refine (clean_keeps (writing PhaseDelete) _ _); walk|intros entries].
  apply (clean_bind _ (fun _ => writing PhaseCreate)); [|intros u'; by eapply clean_weaken; [exact (clean_keeps (writing PhaseCreate) _ (safe_adopt_head _ _))|]].
  cbn [each ORDER].
  apply (clean_bind _ (fun _ => writing PhaseDelete)); [by apply clean_phase; left|intros ?].
  apply (clean_bind _ (fun _ => writing PhaseModify)); [by apply clean_phase; right|intros ?].
  apply (clean_bind _ (fun _ => writing PhaseCreate)); [by apply clean_phase; right|intros ?].
  refine (clean_keeps (writing PhaseCreate) _ _). by apply safe_ret.
Qed.
Definition at_start (log : list Event) : Prop := phase_of log = PhaseDelete.
#[export] Instance stable_start : Stable at_start.
Proof. intros log log' Hg Hp. unfold at_start. by rewrite (grows_phase _ _ Hg). Qed.
Lemma clean_uplink_held job j epoch pinned : clean at_start (uplink_held job j epoch pinned) anything.
Proof.
  unfold uplink_held.
  apply (clean_bind _ (fun _ => at_start)); [exact (clean_keeps at_start _ (safe_any _ _ _ _ (safe_pending _ _)))|intros pending].
  apply (clean_bind _ (fun _ => at_start)); [refine (clean_keeps at_start _ _); refine (safe_each at_start _ _ _); intros; exact (safe_settle at_start _ _ _ _ _)|intros u].
  do 4 (apply (clean_bind _ (fun _ => at_start)); [refine (clean_keeps at_start _ _); walk|intros ?]).
  eapply clean_bind; [exact (clean_safe at_start _ _ (safe_request at_start (CheckLease _ _) I))|]. intros check. cbn beta.
  destruct check as [[]]; cbn [may_upload].
  - eapply clean_weaken; [apply clean_send_all|]. intros log [Hp Ha]. split; [|done]. eexists _, _. exact Ha.
  - eapply clean_weaken; [refine (clean_keeps at_start _ _); walk|]. by intros log [? _].
Qed.

(** ** A whole cycle *)
Ltac pass F := apply (clean_bind _ (fun _ => F)); [refine (clean_keeps F _ _); by walk|intros ?].
Definition any_log (_ : list Event) : Prop := True.
#[export] Instance stable_any_log : Stable any_log.
Proof. by intros ???. Qed.
Lemma clean_end {A} (m : Cyc A) P : safe any_log 0 m anything -> clean P m anything.
Proof. intros Hm. eapply clean_weaken; [exact (clean_keeps any_log _ Hm)|done]. Qed.
Lemma clean_guard {A} (m : Cyc A) : clean at_start m anything -> clean at_start (guard m) anything.
Proof.
  intros Hm. unfold guard. do 2 pass at_start. destruct (_ || _); [apply clean_stop|].
  apply (clean_bind _ anything); [done|]. intros x. apply clean_end. walk.
Qed.
Lemma clean_cycle_inner job j epoch downlink : clean at_start (cycle_inner job j epoch downlink) anything.
Proof.
  unfold cycle_inner. do 5 pass at_start. destruct (negb _); [apply clean_stop|]. do 6 pass at_start.
  match goal with |- context [match ?g with inl _ => _ | inr _ => _ end] => destruct g as [e|grant] end.
  { apply clean_end. destruct e; walk. }
  pass at_start. eapply clean_attempt; [apply clean_guard, clean_uplink_held|]. intros r. apply clean_end. walk.
Qed.
Lemma clean_run_epoch job j epoch downlink : clean at_start (run_epoch job j epoch downlink) anything.
Proof.
  unfold run_epoch. eapply clean_attempt; [apply clean_cycle_inner|]. intros r. apply clean_end. walk.
Qed.

(** A run that begins with nothing asked. *)
Definition start (db : Db) : World := mkWorld db 0 [] (new_report 0) (mkBatch 0 0).
Definition run_cycle (job : Z) (downlink : bool) (db : Db) : (CycleError + CycleReport) * World :=
  run_cycle_mode job downlink (start db).
(** What a run guarantees of its log and of the report it returns. *)
Definition good_run (r : CycleError + CycleReport) (w : World) : Prop :=
  log_ok (w_log w) /\ (sends (w_log w) <= 25)%nat /\
  forall report, r = inr report -> mutations_sent report = sends (w_log w).

Definition idle {A} (m : Cyc A) : Prop := forall w, exists newer, w_log (m w).2 = newer ++ w_log w /\
  Forall (fun e => is_send e = false /\ forall older, event_ok older e) newer.
Lemma idle_silent {A} (m : Cyc A) : silent m -> idle m.
Proof. intros Hm w. exists []. split; [apply Hm|constructor]. Qed.
Lemma idle_bind {A B} (m : Cyc A) (f : A -> Cyc B) : idle m -> (forall a, idle (f a)) -> idle (m ≫= f).
Proof.
  intros Hm Hf w. unfold mbind, Cyc_bind. destruct (Hm w) as (n1 & H1 & P1). destruct (m w) as [[e|a] w1]; [by exists n1|].
  destruct (Hf a w1) as (n2 & H2 & P2). exists (n2 ++ n1). cbn [snd] in H1.
  split; [by rewrite H2, H1, (assoc_L (++))|by apply Forall_app].
Qed.
Lemma idle_call r : ordinary r -> idle (call r).
Proof.
  intros Hr w. exists [Answered r (answer env (w_tick w) r); Asked r]. split; [done|].
  repeat constructor; by destruct r.
Qed.
Lemma good_idle {A} (m : Cyc A) r w :
  idle m -> good_run r w -> log_ok (w_log (m w).2) /\ sends (w_log (m w).2) = sends (w_log w).
Proof.
  intros Hm (Hok & _ & _). destruct (Hm w) as (newer & -> & Hn). split.
  - apply extend_ok; [|done]. eapply Forall_impl; [exact Hn|]. by intros ? [_ ?].
  - apply sends_quietly. eapply Forall_impl; [exact Hn|]. by intros ? [? _].
Qed.
Lemma good_nothing r w : w_log w = [] -> (forall report, r <> inr report) -> good_run r w.
Proof. intros Hl Hr. unfold good_run. rewrite Hl. split_and!; [done|cbn; lia|]. by intros report ?%Hr. Qed.
(** A prefix that asks nothing. *)
Lemma good_silent {A} (m : Cyc A) (f : A -> Cyc CycleReport) w :
  silent m -> w_log w = [] -> (forall a w', w_log w' = [] -> good_run (f a w').1 (f a w').2) ->
  good_run ((m ≫= f) w).1 ((m ≫= f) w).2.
Proof.
  intros Hm Hl Hf. unfold mbind, Cyc_bind. destruct (Hm w) as [Hl' _]. destruct (m w) as [[e|a] w']; cbn [snd fst] in *.
  - by apply good_nothing; [congruence|].
  - apply Hf. congruence.
Qed.
Lemma good_epoch job j epoch downlink w :
  w_log w = [] ->
  let m := _ ← start_report job; _ ← run_epoch job j epoch downlink; see w_report in good_run (m w).1 (m w).2.
Proof.
  intros Hl. cbv zeta. set (w1 := mkWorld (w_db w) (w_tick w) (w_log w) (new_report job) (mkBatch 0 0)).
  change (good_run ((_ ← run_epoch job j epoch downlink; see w_report : Cyc CycleReport) w1).1
                   ((_ ← run_epoch job j epoch downlink; see w_report : Cyc CycleReport) w1).2).
  assert (Hl1 : w_log w1 = []) by done.
  pose proof (clean_run_epoch job j epoch downlink w1) as Hc. rewrite Hl1 in Hc. specialize (Hc I eq_refl).
  unfold mbind, Cyc_bind. destruct (run_epoch _ _ _ _ _) as [[e|u] w2]; destruct Hc as (Hok & [Hb Hd Hs] & _); unfold see; cbn [fst snd].
  all: destruct (Hd (conj (Nat.le_0_l _) (Nat.le_0_l _))) as [? ?]; unfold used in Hb; rewrite Hl1 in Hb, Hs.
  all: change (sends []) with 0%nat in Hb, Hs; change (assets (w_batch w1) + metadata (w_batch w1))%nat with 0%nat in Hb.
  all: change (mutations_sent (w_report w1)) with 0%nat in Hs; split_and!; [done|lia|]; intros report [= <-]; lia.
Qed.
Lemma good_owned job cycle downlink w :
  w_log w = [] -> good_run (run_owned_cycle job cycle downlink w).1 (run_owned_cycle job cycle downlink w).2.
Proof.
  intros Hl. unfold run_owned_cycle. apply good_silent; [unfold get_job; silence|done|]. clear w Hl. intros j w Hl.
  do 3 (apply good_silent; [silence|done|]; clear w Hl; intros ? w Hl). by apply good_epoch.
Qed.
Lemma idle_finish job j result : idle (finish job j result).
Proof.
  unfold finish. do 2 (apply idle_bind; [apply idle_silent; silence|intros ?]).
  apply idle_bind; [|intros ?; apply idle_silent; silence].
  destruct (run_reason result) as [reason|]; [|apply idle_silent; silence].
  destruct (bool_decide _); [|apply idle_silent; silence].
  apply idle_bind; [by apply idle_call|intros [e|c]; [apply idle_silent; silence|]].
  apply idle_bind; [by apply idle_call|intros ?; apply idle_silent; silence].
Qed.
Lemma finish_report job j result w report : (finish job j result w).1 = inr report -> result = inr report.
Proof.
  unfold finish, mbind, Cyc_bind. intros H.
  do 3 (match type of H with context [match ?m with _ => _ end] => destruct m as [[?|?] ?]; [done|] end).
  exact H.
Qed.
Lemma good_finish job j result w : good_run result w -> good_run (finish job j result w).1 (finish job j result w).2.
Proof.
  intros Hg. destruct (good_idle _ _ _ (idle_finish job j result) Hg) as [Hok Hs]. destruct Hg as (_ & Hn & Hr).
  split_and!; [done|by rewrite Hs|]. intros report ->%finish_report. rewrite Hs. by apply Hr.
Qed.
Lemma good_cycle job downlink db : good_run (run_cycle job downlink db).1 (run_cycle job downlink db).2.
Proof.
  unfold run_cycle, run_cycle_mode. assert (Hl : w_log (start db) = []) by done. revert Hl. generalize (start db). intros w Hl.
  do 3 (apply good_silent; [silence|done|]; clear w Hl; intros ? w Hl).
  destruct (negb _); [by apply good_nothing|].
  do 2 (apply good_silent; [unfold get_job; silence|done|]; clear w Hl; intros ? w Hl).
  unfold attempt, mbind, Cyc_bind. match goal with |- context [run_owned_cycle ?id ?c ?d w] =>
    pose proof (good_owned id c d w Hl) as Hg; destruct (run_owned_cycle id c d w) as [r w'] end. by apply good_finish.
Qed.

Lemma log_stored log op db : log_ok log -> Recorded op db ∈ log -> stored db op.
Proof.
  intros Hok Hin. induction log as [|e older IH]; [by apply elem_of_nil in Hin|]. destruct Hok as [He Hok].
  apply elem_of_cons in Hin as [<-|Hin]; [done|by apply IH].
Qed.
Lemma log_split newer e older : log_ok (newer ++ e :: older) -> event_ok older e /\ log_ok older.
Proof. induction newer as [|e' newer IH]; [done|]. intros [_ H]. by apply IH. Qed.
Lemma sends_split log : sends log <> 0%nat -> exists newer body id older, log = newer ++ Asked (ModifyExact body id) :: older.
Proof.
  induction log as [|e older IH]; [done|]. unfold sends. cbn [List.filter]. destruct (is_send e) eqn:He.
  - destruct e as [|r|]; [done| |done]. destruct r; try done. intros _. by exists [], body, operation, older.
  - intros (newer & body & id & older' & ->)%IH. by exists (e :: newer), body, id, older'.
Qed.

(** ** The end of the epoch *)
Section Closing.
Context (job : Z) (cycle : string).
(** No configuration has this cycle as its current one. *)
Definition closed (db : Db) : Prop := forall config, epoch_valid db (mkEpoch job config cycle) = false.
Context (Hothers : forall n db, closed db -> closed (others env n db)).
Definition calm {A} (m : Cyc A) : Prop := forall w, closed (w_db w) -> closed (w_db (m w).2).
Lemma calm_bind {A B} (m : Cyc A) (f : A -> Cyc B) : calm m -> (forall a, calm (f a)) -> calm (m ≫= f).
Proof.
  intros Hm Hf w Hw. specialize (Hm w Hw). unfold mbind, Cyc_bind. destruct (m w) as [[e|a] w1]; [done|by apply Hf].
Qed.
Lemma calm_same {A} (m : Cyc A) : (forall w, w_db (m w).2 = w_db w) -> calm m.
Proof. intros Hm w Hw. by rewrite Hm. Qed.
Lemma calm_instant : calm instant.
Proof. intros w Hw. apply Hothers, Hw. Qed.
Lemma calm_attempt {A} (m : Cyc A) : calm m -> calm (attempt m).
Proof. intros Hm w Hw. specialize (Hm w Hw). unfold attempt. by destruct (m w). Qed.
#[local] Hint Resolve calm_instant calm_attempt : calm.
#[local] Hint Extern 5 (calm _) => (apply calm_same; reflexivity) : calm.
Ltac calmly :=
  repeat first
    [ solve [auto with calm]
    | apply calm_bind; [|intros ?]
    | match goal with
      | |- calm (if ?b then _ else _) => destruct b
      | |- calm (match ?x with _ => _ end) => destruct x
      end ].
Lemma calm_look {A} (f : nat -> A) : calm (look f).
Proof. unfold look. calmly. Qed.
Lemma calm_query {A} (f : Db -> A) : calm (query f).
Proof. unfold query. calmly. Qed.
Lemma calm_try {A} (r : result A) : calm (try_ r).
Proof. destruct r; unfold try_; calmly. Qed.
Lemma calm_some {A} (o : option A) e : calm (some o e).
Proof. destruct o; unfold some; calmly. Qed.
#[local] Hint Resolve calm_look calm_query calm_try calm_some : calm.
Lemma calm_each {A} (l : list A) f : (forall x, calm (f x)) -> calm (each l f).
Proof. intros Hf. induction l as [|x l IH]; cbn [each]; calmly; apply Hf. Qed.
Lemma calm_eligible j e : calm (eligible job j e).
Proof. unfold eligible. calmly. Qed.
#[local] Hint Resolve calm_eligible : calm.
Lemma calm_still_eligible j entries : calm (still_eligible job j entries).
Proof. induction entries; cbn [still_eligible]; calmly. Qed.
Lemma calm_lost_entry ke : calm (lost_entry ke).
Proof. unfold lost_entry. calmly. Qed.
#[local] Hint Resolve calm_each calm_still_eligible calm_lost_entry : calm.

Lemma epoch_valid_jobs db (f : Job -> Job) config :
  (forall j, j_config (f j) = j_config j /\ j_cycle (f j) = j_cycle j /\ j_paused (f j) = j_paused j /\
             j_connection (f j) = j_connection j) ->
  epoch_valid (set_db_jobs (alter f job (db_jobs db)) db) (mkEpoch job config cycle) = epoch_valid db (mkEpoch job config cycle).
Proof.
  intros Hf. unfold epoch_valid, job_enabled. cbn [db_jobs set_db_jobs ep_job ep_config ep_cycle].
  rewrite lookup_alter_eq. destruct (db_jobs db !! job) as [j|]; [|done]. cbn. by destruct (Hf j) as (-> & -> & -> & ->).
Qed.
Lemma calm_started : calm (commit (now ← gets db_now; Jobs.mark_job_started now job)).
Proof.
  unfold commit. apply calm_bind; [apply calm_instant|]. intros n w Hw config.
  change (epoch_valid (set_db_jobs (alter (fun j => set_j_started (Some (db_now (w_db w))) (set_j_error None j)) job
    (db_jobs (w_db w))) (w_db w)) (mkEpoch job config cycle) = false).
  rewrite epoch_valid_jobs; [apply Hw|done].
Qed.
Lemma begin_refused config w e w' :
  run_command (Begin (mkEpoch job config cycle)) w = (inl e, w') -> closed (w_db w) -> closed (w_db w').
Proof.
  unfold run_command, runtime, commit, instant, on_db, transact, mbind, Cyc_bind. cbn.
  destruct (Runtime.begin _ _) as [[[] db]|err]; cbn; [done|]. intros [= _ <-] Hw. apply Hothers, Hw.
Qed.
(** [End] closes the epoch, whatever became of the cycle. *)
Lemma end_closes config w :
  exists w', run_command (End_ (mkEpoch job config cycle)) w = (inr tt, w') /\ closed (w_db w').
Proof.
  eexists. split; [reflexivity|]. intros config'. cbn. unfold epoch_valid. cbn [db_jobs set_db_jobs ep_job ep_config ep_cycle].
  rewrite lookup_alter_eq. destruct (db_jobs _ !! job) as [j|]; [|done]. cbn.
  destruct (bool_decide (j_cycle j = Some cycle)) eqn:E; cbn.
  - by rewrite andb_false_r.
  - rewrite E. by rewrite andb_false_r.
Qed.
Lemma run_epoch_closes j config downlink w : closed (w_db (run_epoch job j (mkEpoch job config cycle) downlink w).2).
Proof.
  unfold run_epoch. unfold mbind at 1, Cyc_bind at 1, attempt at 1.
  destruct (cycle_inner job j _ downlink w) as [r w1]. destruct (end_closes config w1) as (w2 & He & Hw2).
  unfold mbind at 1, Cyc_bind at 1. rewrite He. revert w2 Hw2 He. intros w2 Hw2 _. revert w2 Hw2.
  match goal with |- forall w2, _ -> closed (w_db (?m w2).2) => change (calm m) end. calmly.
Qed.
Lemma rest_closes j config downlink w :
  closed (w_db ((_ ← start_report job; _ ← run_epoch job j (mkEpoch job config cycle) downlink; see w_report : Cyc CycleReport) w).2).
Proof.
  pose proof (run_epoch_closes j config downlink (mkWorld (w_db w) (w_tick w) (w_log w) (new_report job) (mkBatch 0 0))) as H.
  unfold mbind, Cyc_bind, start_report. destruct (run_epoch _ _ _ _ _) as [[e|u] w2]; exact H.
Qed.
End Closing.

(** C2: Nothing is sent to the service that the database did not hold first.
    Every mutation a cycle sends was recorded before, in this cycle or when the
    cycle read what an earlier one left: at that moment a task of the database
    held the operation as issued evidence, under the very id that is sent; and
    the body is the recorded one, operation by operation, with nothing changed
    but fresh receipts and download URLs of its two resources. Other threads may
    commit anything in between, and the service may answer anything. *)
Theorem uplink_sends_recorded job downlink db newer body id older :
  w_log (run_cycle job downlink db).2 = newer ++ Asked (ModifyExact body id) :: older ->
  exists op held, Recorded op held ∈ older /\ stored held op /\ i_id op = id /\ same_request (i_body op) body.
Proof.
  intros Hl. destruct (good_cycle job downlink db) as [Hok _]. rewrite Hl in Hok.
  destruct (log_split _ _ _ Hok) as [(_ & op & held & Hin & Hid & Hb & _) Hok'].
  exists op, held. split_and!; [done|by eapply log_stored|done|done].
Qed.

(** C6: A cycle writes only after the service has agreed, and in the order of
    the phases. Before each mutation the service has answered this cycle's lease
    check with leave to upload, and the mutation belongs to the phase the
    service has acknowledged last (deletion until another is); a new phase is
    asked for only as the successor of that one: deletions, then changes, then
    creations, never back. *)
Theorem uplink_gate_and_phases job downlink db newer e older :
  w_log (run_cycle job downlink db).2 = newer ++ Asked e :: older ->
  match e with
  | ModifyExact body id => gate_open older /\
      exists op held, Recorded op held ∈ older /\ i_id op = id /\ i_phase op = phase_str (phase_of older)
  | SetPhase phase => gate_open older /\ next (phase_of older) = Some phase
  | _ => True
  end.
Proof.
  intros Hl. destruct (good_cycle job downlink db) as [Hok _]. rewrite Hl in Hok.
  destruct (log_split _ _ _ Hok) as [He _]. destruct e; try done.
  destruct He as (Hg & op & held & Hin & Hid & _ & Hp). split; [done|]. by exists op, held.
Qed.

(** C23: One lease admits bounded work. However many photos wait and however
    often requests fail, a cycle sends at most 25 mutations (5 of the heavy kind
    and 20 others), and the count in its report is exactly the number sent. *)
Theorem uplink_budget job downlink db :
  (sends (w_log (run_cycle job downlink db).2) <= 25)%nat /\
  match (run_cycle job downlink db).1 with
  | inr report => mutations_sent report = sends (w_log (run_cycle job downlink db).2)
  | inl _ => True
  end.
Proof.
  destruct (good_cycle job downlink db) as (_ & Hn & Hr). split; [done|].
  destruct (run_cycle job downlink db).1 as [e|report] eqn:E; [done|by apply Hr].
Qed.

(** C17: The authority of a cycle ends with it. Whatever happens in a cycle, when
    it returns its epoch is the job's current one under no configuration, so that
    a callback that comes late finds its commands refused. Other threads only
    have to leave alone the identity of a cycle they did not start. *)
Theorem cycle_closes_epoch job cycle downlink w :
  (forall n db, closed job cycle db -> closed job cycle (others env n db)) ->
  closed job cycle (w_db w) ->
  closed job cycle (w_db (run_owned_cycle job cycle downlink w).2).
Proof.
  intros Ho. unfold run_owned_cycle. revert w. change (calm job cycle
    (j ← get_job job; started ← commit (now ← gets db_now; Jobs.mark_job_started now job); _ ← try_ started;
     _ ← run_command (Begin (mkEpoch job (j_config j) cycle)); _ ← start_report job;
     _ ← run_epoch job j (mkEpoch job (j_config j) cycle) downlink; see w_report)).
  apply calm_bind; [by apply calm_bind; [apply calm_query|intros; apply calm_some]|intros j].
  apply calm_bind; [by apply calm_started|intros started]. apply calm_bind; [apply calm_try|intros u].
  intros w Hw. unfold mbind at 1, Cyc_bind at 1.
  destruct (run_command (Begin _) w) as [[e|[]] w1] eqn:Hb; [by eapply begin_refused|].
  by apply rest_closes.
Qed.
End Cycle.

(** ** Two small runs *)
Module Sample.
Import SyncDb.Sample.
Definition agreeable (send : Value -> Value) (_ : nat) (r : Request) : Answer r :=
  match r as r return Answer r with
  | TransportClient | StorageUsage | SetPhase _ => inr tt
  | AcquireLease _ => inr sample_grant
  | ReleaseLease => inr true
  | CheckLease _ _ => inr (mkCheck true)
  | OperationStatus _ => inr Unknown
  | ReserveAssets _ _ role _ => inr [role_str role]
  | UploadFile session _ digest =>
      inr (mkAsset session (Content.digest_size digest) (Content.base64 digest) "image/jpeg" None None)
  | DescribeAsset asset _ => inr ("receipt of " ++ asset, "https://cloud.example/" ++ asset)%string
  | ModifyExact body _ => inr (send body)
  | Snapshot => inr "w2"
  | _ => inl SyncErrors.RateLimited
  end.
Definition sha256 (_ : list Z) : list Z := replicate 32 7.
Definition env (send : Value -> Value) (fs : Fs) : Env := {|
  answer := agreeable send; lost _ := false; lease_valid _ := true; others _ db := db;
  files _ := fs; uuid n := pretty (N.of_nat n); scope _ _ := Ok (Some (mkPinned "gen-1" 1000 1000));
  thumbnail _ _ _ := Ok (Some [9]);
  snapshot_source _ _ folder _ := Ok (path_join folder "original.jpg", Content.digest_of sha256 [1; 2; 3]);
  run_slot _ := Ok tt; index_sources _ := Ok tt; recover _ := Ok tt; receive _ := Ok tt; transfer _ := Ok [] |}.
Definition run (send : Value -> Value) (fs : Fs) (db : Db) : (CycleError + CycleReport) * World :=
  run_cycle (env send fs) map_to_list (fun _ => "") (fun _ _ => false) (fun _ p => Ok p) "/staging" "device-1" sha256 1 true db.
Definition caught_up : Db :=
  set_db_progress {[1 := set_g_target (Some "w1") (set_g_applied (Some "w1") progress)]} db.

(** A new photo, its file and thumbnail at hand; the service stores what it gets. *)
Definition photos : Fs := mkFs {["/photos" := NDir 0 0; "/photos/a.jpg" := NFile 1]} {[1 := mkFile [1; 2; 3] 5]} 2.
Definition store (body : Value) : Value :=
  obj [("records", Arr ((fun op : Value => assign op.["record"] "recordChangeTag" (Str "t1"))
                          <$> default [] (as_array body.["operations"])))].
Definition creation : (CycleError + CycleReport) * World := run store photos caught_up.

(** A photo whose file is gone and whose pair is in the cloud. *)
Definition gone : EditEvent := mkEvent 9 "device-1" "e9".
Definition deleted : Entry :=
  mkEntry 1 (Some 1) "a.jpg" false 4 None 3 (mkTrack 1 1 None) (mkTrack 1 1 None) (mkTrack 1 0 (Some gone)) None
    (mkRemote (Some "photo-1") (Some "master-1") (Some "t1") (Some "t2") (Some "gen-1") (Some "c1")) None None None.
Definition tombstones (body : Value) : Value :=
  obj [("records", Arr ((fun op : Value => obj [("recordName", (op.["record"]).["recordName"]); ("deleted", Bool true);
                                                ("recordChangeTag", Str "t3")])
                          <$> default [] (as_array body.["operations"])))].
Definition deletion : (CycleError + CycleReport) * World :=
  run tombstones (mkFs ∅ ∅ 1) (set_db_entries {[1 := deleted]} caught_up).
End Sample.

Local Open Scope list_scope.
(** The new photo goes up in one mutation and is confirmed: it owes nothing and
    the library is at the head. *)
Example creation_settles :
  option_map (fun r => (mutations_sent r, mutations_confirmed r, failures r, outstanding r))
    (match Sample.creation.1 with inr r => Some r | inl _ => None end) = Some (1, 1, [], 0)%nat /\
  e_dirty <$> db_entries (w_db Sample.creation.2) !! 1 = Some 0 /\
  (g_applied <$> db_progress (w_db Sample.creation.2) !! 1) = Some (Some "w2") /\
  (db_jobs (w_db Sample.creation.2) !! 1 ≫= j_error) = None.
Proof. split_and!; vm_compute; reflexivity. Qed.
(** The deletion goes up in one mutation, and the entry goes. *)
Example deletion_settles :
  option_map (fun r => (mutations_sent r, mutations_confirmed r, failures r, outstanding r))
    (match Sample.deletion.1 with inr r => Some r | inl _ => None end) = Some (1, 1, [], 0)%nat /\
  db_entries (w_db Sample.deletion.2) !! 1 = None.
Proof. split; vm_compute; reflexivity. Qed.

Lemma creation_sends : exists newer body id older, w_log Sample.creation.2 = newer ++ Asked (ModifyExact body id) :: older.
Proof.
  apply sends_split. assert (H : sends (w_log Sample.creation.2) = 1%nat) by (vm_compute; reflexivity). by rewrite H.
Qed.
Lemma uplink_sends_recorded_witness :
  exists newer body id older, w_log Sample.creation.2 = newer ++ Asked (ModifyExact body id) :: older /\
    exists op held, Recorded op held ∈ older /\ stored held op /\ i_id op = id /\ same_request (i_body op) body.
Proof.
  destruct creation_sends as (newer & body & id & older & Hl). exists newer, body, id, older. split; [exact Hl|].
  exact (uplink_sends_recorded _ _ _ _ _ _ _ _ _ _ _ newer body id older Hl).
Defined.
Lemma uplink_gate_and_phases_witness :
  exists newer body id older, w_log Sample.creation.2 = newer ++ Asked (ModifyExact body id) :: older /\
    gate_open older /\
    exists op held, Recorded op held ∈ older /\ i_id op = id /\ i_phase op = phase_str (phase_of older).
Proof.
  destruct creation_sends as (newer & body & id & older & Hl). exists newer, body, id, older. split; [exact Hl|].
  exact (uplink_gate_and_phases _ _ _ _ _ _ _ _ _ _ _ newer (ModifyExact body id) older Hl).
Defined.
Lemma cycle_closes_epoch_witness :
  closed 1 "cycle-2" (w_db (run_owned_cycle (Sample.env Sample.store Sample.photos) map_to_list (fun _ => "") (fun _ _ => false)
    (fun _ p => Ok p) "/staging" "device-1" Sample.sha256 1 "cycle-2" true (start Sample.caught_up)).2).
Proof.
  apply cycle_closes_epoch; [by intros|]. intros config. unfold epoch_valid.
  assert (Hj : db_jobs (w_db (start Sample.caught_up)) !! 1 = Some SyncDb.Sample.job) by (vm_compute; reflexivity).
  cbn [ep_job ep_config ep_cycle]. rewrite Hj, (bool_decide_false (j_cycle SyncDb.Sample.job = Some "cycle-2")) by done.
  by rewrite andb_false_r.
Defined.
End Uplink.
