(* ===== verification/ReceiveCycle.v ===== *)
(** One receive cycle ([sync/service/receive.rs]): the snapshot of every record
    type when the job has none, then the changes since, page by page.

    A page is stored with the position it advances before the next one is asked
    for; what the stored fragments complete is rebuilt into photos, compared with
    the local files ([Collisions]) and promoted. As in [Uplink], the cycle runs
    among other threads and against a service that answers as it likes: an
    environment [Env] gives the answers, the commits of others and the faults of
    the files at each instant. The comparison and the stepping aside of local files
    are one instant each.

    The service ends a listing when it likes, so each of the two page loops runs on
    [pages] of fuel, and a run that uses it up is the run as far as it has come
    ([Runs]). *)
From Stdlib Require Import Ascii String.
From stdpp Require Import pretty.
From S2P Require Import Prelude.
From S2P Require Import Json.
From S2P Require Import Media.
From S2P Require Import Content.
From S2P Require Import SyncError.
From S2P Require Import SyncDb.
From S2P Require Import NativeRecords.
From S2P Require Import TypedRecords.
From S2P Require Import SyncDirty.
From S2P Require Import SyncRecovery.
From S2P Require Import SyncRuntime.
From S2P Require Import SyncReceive.
From S2P Require Import SyncProjection.
From S2P Require Import SyncPlacement.
From S2P Require Import Files.
From S2P Require Import LibraryScan.
From S2P Require Import SyncCommands.
From S2P Require Import SyncTransfer.
From S2P Require Import ReceiveCollisions.
From S2P Require Import UplinkCycle.
Import Json.
Local Open Scope string_scope.
Local Open Scope Z_scope.
Local Open Scope json_scope.

Module ReceiveCycle.
Import Records Receive Projection Placement Commands Collisions.

(** ** Reports and failures *)
Record ReceiveReport := mkReport {
  job_id : Z; bootstrapped : bool; bootstrap_types_completed : nat; pages_received : nat; events_saved : nat;
  photos_projected : nat; unknown_records : nat; outstanding_resources : nat; applied : bool; target_token : option string }.
Definition new_report (job : Z) : ReceiveReport := mkReport job false 0 0 0 0 0 0 false None.
Definition set_bootstrapped (r : ReceiveReport) : ReceiveReport :=
  mkReport (job_id r) true (bootstrap_types_completed r) (pages_received r) (events_saved r) (photos_projected r)
    (unknown_records r) (outstanding_resources r) (applied r) (target_token r).
Definition add_events (n : nat) (r : ReceiveReport) : ReceiveReport :=
  mkReport (job_id r) (bootstrapped r) (bootstrap_types_completed r) (pages_received r) (events_saved r + n) (photos_projected r)
    (unknown_records r) (outstanding_resources r) (applied r) (target_token r).
Definition add_page (r : ReceiveReport) : ReceiveReport :=
  mkReport (job_id r) (bootstrapped r) (bootstrap_types_completed r) (S (pages_received r)) (events_saved r) (photos_projected r)
    (unknown_records r) (outstanding_resources r) (applied r) (target_token r).
Definition add_type (r : ReceiveReport) : ReceiveReport :=
  mkReport (job_id r) (bootstrapped r) (S (bootstrap_types_completed r)) (pages_received r) (events_saved r) (photos_projected r)
    (unknown_records r) (outstanding_resources r) (applied r) (target_token r).
Definition set_promoted (p : Promoted) (token : string) (r : ReceiveReport) : ReceiveReport :=
  mkReport (job_id r) (bootstrapped r) (bootstrap_types_completed r) (pages_received r) (events_saved r)
    (photos_projected r + pr_photos p) (pr_unknown p) (pr_resources p) (pr_applied p) (Some token).

Inductive ReceiveError :=
  | NoZone (job : Z) | NoScope (job : Z) | CapabilityMissing | TokenExpired
  | IncompleteGraph (detail : string) | Transport (detail : string).
#[export] Instance ReceiveError_eq_dec : EqDecision ReceiveError.
Proof. solve_decision. Defined.
(** The [#[error]] messages ([Display]). *)
Definition display (e : ReceiveError) : string :=
  match e with
  | NoZone job => "job " ++ pretty job ++ " has no configured native zone"
  | NoScope job => "job " ++ pretty job ++ " has no probed capability scope"
  | CapabilityMissing => "the server does not support everything this receive cycle needs"
  | TokenExpired => "the receive position expired; metadata will be rebuilt from a new snapshot"
  | IncompleteGraph d => "the remote graph is not a complete set of photos: " ++ d
  | Transport d => "transport failed: " ++ d
  end.
Definition EXPIRED_SYNC_TOKEN : string := "EXPIRED_SYNC_TOKEN".
Definition map_transport (e : SyncErrors.SyncError) : ReceiveError :=
  match e with
  | SyncErrors.Unsupported message =>
      if SyncErrors.contains message EXPIRED_SYNC_TOKEN then TokenExpired else Transport (SyncErrors.display e)
  | _ => Transport (SyncErrors.display e)
  end.

(** ** What the service has announced *)
Inductive RequiredCapability :=
  | ZoneListing | RecordCrud | Snapshots | IncrementalChanges | UploadLeases | Fencing | TokenCurrentGate | UploadPhases
  | OperationStatusRead | AssetUpload | AssetDownload | PhotoPublication.
Definition REQUIRED_CAPABILITIES : list RequiredCapability :=
  [ZoneListing; RecordCrud; Snapshots; IncrementalChanges; UploadLeases; Fencing; TokenCurrentGate; UploadPhases;
   OperationStatusRead; AssetUpload; AssetDownload; PhotoPublication].
(** The required bits of [NativeCapabilityBits]. *)
Definition NativeCapabilityBits : Type := RequiredCapability -> bool.
Definition missing_required (bits : NativeCapabilityBits) : list RequiredCapability :=
  List.filter (fun c => negb (bits c)) REQUIRED_CAPABILITIES.
Definition receive_is_permitted (bits : NativeCapabilityBits) : bool :=
  match missing_required bits with [] => forallb bits REQUIRED_CAPABILITIES | _ => false end.
(** The columns of the pinned scope that receiving uses. *)
Record Pinned := mkPinned {
  namespace : Namespace; database_generation : string; capabilities : NativeCapabilityBits; max_page : Z }.
Definition page_limit (p : Pinned) : Z := Z.min 100 (Z.max 1 (max_page p)).

(** ** Requests *)
Record QueryResponse := mkPage { q_records : list NativeRecord; q_sync_token : string; q_continuation : option string }.
Record ZoneChangesEntry := mkChanges { c_records : list NativeRecord; c_more_coming : bool; c_sync_token : option string }.
Inductive Request :=
  | TransportClient                                                    (* [transport_client_for] *)
  | Snapshot
  | QueryRecords (record_type : string) (limit : Z) (snapshot : string) (continuation : option string)
  | ChangesZone (position : option string) (limit : Z).
Definition Reply (r : Request) : Type :=
  match r with
  | TransportClient => unit
  | Snapshot => string * string                                        (* the snapshot and the zone position *)
  | QueryRecords _ _ _ _ => QueryResponse
  | ChangesZone _ _ => ZoneChangesEntry
  end.
Notation Answer r := (SyncErrors.SyncError + Reply r)%type.

(** Ordered events; a live record needs its type, and every record a change tag. *)
Definition inbox_event (r : NativeRecord) : option Value :=
  if is_tombstone r || bool_decide (is_Some (record_type r)) then _ ← record_change_tag r; Some (record_to_value r) else None.
Definition inbox_events (records : list NativeRecord) : list Value := omap inbox_event records.

(** ** What the comparison leaves alone

    Indexing, measuring and stepping aside write the library, the entries and the
    publications, never a position. *)
Lemma steady_note media category stamp : keeps_position (Dirty.note media category stamp).
Proof.
  assert (Hall : forall claims, keeps_position (Dirty.note_all media category stamp claims)).
  { induction claims as [|[j e] claims IH]; cbn [Dirty.note_all]; unfold Dirty.note_one, Dirty.mark, Dirty.media_path, Dirty.relative_under;
      respect; steady_step. }
  unfold Dirty.note. respect.
Qed.
#[local] Hint Resolve steady_note : respects.
Lemma steady_upsert event items : keeps_position (Scan.upsert_media_items_batch event items).
Proof.
  unfold Scan.upsert_media_items_batch. induction items as [|item items IH]; cbn; unfold upsert_one; respect; steady_step.
Qed.
Lemma steady_observe job paths : keeps_position (Runtime.observe_local job paths).
Proof. unfold Runtime.observe_local, Runtime.observe_one. respect; steady_step. Qed.
Lemma steady_forget job entry version : keeps_position (Runtime.forget_identity job entry version).
Proof. unfold Runtime.forget_identity, Runtime.update_entry. respect; steady_step. Qed.
Lemma steady_begin_collision id capture details : keeps_position (begin_collision id capture details).
Proof. unfold begin_collision, check_publication, Recovery.set_details, Recovery.update_pub. respect; steady_step. Qed.
Lemma steady_abort_collision id : keeps_position (abort_collision id).
Proof. unfold abort_collision, set_pub_state, Recovery.set_details, Recovery.update_pub. respect; steady_step. Qed.
Lemma steady_details id : keeps_position (fun db => Recovery.details db id db).
Proof. intros db d db'. unfold Recovery.details. intros H. tx_inv H. done. Qed.
#[local] Hint Resolve steady_details : respects.
Lemma steady_finish_collision uri id : keeps_position (finish_collision uri id).
Proof.
  unfold finish_collision, move_media, follow_move, set_pub_state, Recovery.set_details, Recovery.update_pub, check_publication,
    Runtime.resolve_conflicts.
  respect; steady_step.
Qed.

(** The same at every stop of a computation over the files. *)
Import (hints) Files.
Ltac keep := Files.keep.
Definition calm (st st' : Files.St) : Prop := steady (Files.st_db st) (Files.st_db st').
#[export] Instance calm_preorder : PreOrder calm.
Proof. split; [by intros st; unfold calm|]. intros a b c. unfold calm. by etrans. Qed.
Lemma calm_command {A} (m : Tx Db A) : keeps_position m -> Files.keeping calm (Files.command m).
Proof.
  intros Hm. apply Files.keeping_op; [apply _|]. intros st a st'. cbn. destruct (m (Files.st_db st)) as [[a' db]|] eqn:E; [|done].
  intros [= _ <-]. unfold calm. cbn. by eapply Hm.
Qed.
Lemma calm_file_op f : Files.keeping calm (Files.file_op f).
Proof.
  apply Files.keeping_op; [apply _|]. intros st a st'. cbn. destruct (f (Files.st_fs st)); [|done]. intros [= _ <-]. by unfold calm.
Qed.
#[local] Hint Resolve calm_command calm_file_op steady_upsert steady_observe steady_forget steady_begin_collision
  steady_abort_collision steady_finish_collision : keeping.

(** ** The world a cycle runs in *)
Record Env := mkEnv {
  answer : nat -> forall r, Answer r;
  others : nat -> Files.St -> Files.St;                  (* what other threads do to the database and the files *)
  faults : nat -> list bool;                             (* of the file operations started at an instant *)
  scope : nat -> Z -> result (option Pinned);            (* [native_scope] *)
  run_slot : nat -> result unit                          (* [acquire_run_slot] *)
}.
Inductive Event :=
  | Asked (r : Request) (db : Db)                        (* with the database of that moment *)
  | Answered (r : Request) (a : Answer r)
  | Committed (c : NativeReceiveCommand).
Record World := mkWorld { w_st : Files.St; w_tick : nat; w_log : list Event; w_report : ReceiveReport }.

(** A step returns, fails, or is a listing that goes on beyond the fuel. *)
Inductive Halt := Fails (e : ReceiveError) | Runs.
Definition Rcv (A : Type) : Type := World -> (Halt + A) * World.
#[export] Instance Rcv_ret : MRet Rcv := fun A a w => (inr a, w).
#[export] Instance Rcv_bind : MBind Rcv := fun A B k m w =>
  match m w with (inr a, w') => k a w' | (inl e, w') => (inl e, w') end.
Definition stop {A} (e : ReceiveError) : Rcv A := fun w => (inl (Fails e), w).
Definition goes_on {A} : Rcv A := fun w => (inl Runs, w).
Definition some {A} (o : option A) (e : ReceiveError) : Rcv A := match o with Some a => mret a | None => stop e end.
Definition note (e : Event) : Rcv unit := fun w => (inr tt, mkWorld (w_st w) (w_tick w) (e :: w_log w) (w_report w)).
Definition update_report (f : ReceiveReport -> ReceiveReport) : Rcv unit := fun w =>
  (inr tt, mkWorld (w_st w) (w_tick w) (w_log w) (f (w_report w))).
Definition see {A} (f : World -> A) : Rcv A := fun w => (inr (f w), w).

(** [walks R H m]: a run of [m] relates the worlds by [R], and what it fails with
    satisfies [H]. *)
Definition walks (R : relation World) (H : Halt -> Prop) {A} (m : Rcv A) : Prop :=
  forall w, R w (m w).2 /\ forall h, (m w).1 = inl h -> H h.
Section Walks.
Context (R : relation World) (H : Halt -> Prop) `{!PreOrder R}.
Lemma walks_ret {A} (a : A) : walks R H (mret a).
Proof. by intros w. Qed.
Lemma walks_bind {A B} (m : Rcv A) (k : A -> Rcv B) : walks R H m -> (forall a, walks R H (k a)) -> walks R H (m ≫= k).
Proof.
  intros Hm Hk w. unfold mbind, Rcv_bind. destruct (Hm w) as [HR Hh]. destruct (m w) as [[h|a] w']; cbn in *.
  - split; [done|]. intros h' [= <-]. by apply Hh.
  - destruct (Hk a w') as [HR' Hh']. split; [by etrans|done].
Qed.
Lemma walks_stop {A} e : H (Fails e) -> walks R H (@stop A e).
Proof. intros He w. split; [done|]. by intros h [= <-]. Qed.
Lemma walks_some {A} (o : option A) e : H (Fails e) -> walks R H (some o e).
Proof. intros He. destruct o; [apply walks_ret|by apply walks_stop]. Qed.
Lemma walks_see {A} (f : World -> A) : walks R H (see f).
Proof. by intros w. Qed.
End Walks.
#[local] Hint Resolve walks_ret walks_see : walks.
Ltac walk := repeat first
  [ solve [eauto 6 with walks typeclass_instances]
  | lazymatch goal with
    | |- walks _ _ (_ ≫= _) => apply walks_bind; [apply _| |intros ?]
    | |- walks _ _ (stop _) => apply walks_stop
    | |- walks _ _ (some _ _) => apply walks_some
    | |- walks _ _ (let _ := _ in _) => cbv zeta
    | |- walks _ _ (match ?x with _ => _ end) => destruct x
    end ].

(** [iter], [group_iter], [distinct]: the orders of hash maps and of [UNION];
    [debug]: the [Debug] text of a string; [other_text]: the [Display] of errors
    of other libraries; [graph_text]: the [Display] of a graph error; the others
    as in [Collisions] and [Projection]. *)
Section Cycle.
Context (env : Env) (pages : nat).
Context (iter : RecordSet -> list (string * NativeRecord)).
Context (group_iter : gmap string (list NativeRecord) -> list (string * list NativeRecord)).
Context (distinct : list (option string) -> list (option string)).
Context (debug : string -> string) (other_text : AppError -> string) (graph_text : GraphError -> string).
Context (sha256 : list Z -> list Z) (file_uri : string -> string) (photo_digest : RemotePhoto -> string).
Context (describe : string -> list Z -> result Scan.Description) (attributes_json : option bool -> bool -> bool -> string).
Context (json_bool : string -> string -> option bool).
Context (event : NewMediaItem -> EditEvent) (row_order : list LocalEntry -> list LocalEntry).
Context (uuid : Z -> Z -> string) (dev : Z).

Definition transport (e : AppError) : ReceiveError := Transport (Uplink.to_string other_text e).

(** ** Steps *)
Definition instant : Rcv nat := fun w =>
  (inr (w_tick w), mkWorld (others env (w_tick w) (w_st w)) (S (w_tick w)) (w_log w) (w_report w)).
Definition look {A} (f : nat -> A) : Rcv A := n ← instant; mret (f n).
Definition try_ {A} (r : result A) : Rcv A := match r with Ok a => mret a | Err e => stop (transport e) end.
Definition query {A} (f : Db -> A) : Rcv A := _ ← instant; see (fun w => f (Files.st_db (w_st w))).
(** A computation that only reads. *)
Definition read {A} (m : Tx Db A) : Rcv A := r ← query (fun db => r ← m db; Ok r.1); try_ r.
(** [write_receive]: a committed command is noted in the log. *)
Definition commit (c : NativeReceiveCommand) : Rcv NativeReceiveOutcome :=
  _ ← instant;
  r ← (fun w => let (db, r) := transact (Commands.execute file_uri photo_digest c) (Files.st_db (w_st w)) in
         (inr r, mkWorld (Files.mkSt db (Files.st_fs (w_st w))) (w_tick w) (w_log w) (w_report w)));
  o ← try_ r;
  _ ← note (Committed c);
  mret o.
(** A computation over the files ([spawn_blocking]). *)
Definition blocking {A} (m : Files.IO A) : Rcv A :=
  n ← instant;
  r ← (fun w => let o := m (faults env n) (w_st w) in
         (inr (Files.o_result o), mkWorld (Files.o_state o) (w_tick w) (w_log w) (w_report w)));
  try_ r.
Definition ask (r : Request) : Rcv unit := fun w => note (Asked r (Files.st_db (w_st w))) w.
Definition request (r : Request) : Rcv (Reply r) :=
  _ ← ask r;
  n ← instant;
  _ ← note (Answered r (answer env n r));
  match answer env n r with inl e => stop (map_transport e) | inr a => mret a end.

Section Job.
Context (job : Z).

(** ** Promotion *)
(** The photo a stored record belongs to. *)
Definition photo_of (r : NativeRecord) : Rcv (option string) :=
  if bool_decide (record_type r = Some ASSET_RECORD_TYPE) then mret (Some (record_name r))
  else if bool_decide (record_type r = Some MASTER_RECORD_TYPE)
       then mret (fields ← fields r; f ← get fields "photoId"; as_str f.["value"])
  else query (fun db => photo_id_for_record db job (record_name r)).
Definition push (photo : string) (r : NativeRecord) (m : gmap string (list NativeRecord)) : gmap string (list NativeRecord) :=
  <[photo := (default [] (m !! photo) ++ [r])%list]> m.
Fixpoint group (records : list NativeRecord) (m : gmap string (list NativeRecord)) : Rcv (gmap string (list NativeRecord)) :=
  match records with
  | [] => mret m
  | r :: rest => photo ← photo_of r; group rest (match photo with Some photo => push photo r m | None => m end)
  end.
(** The pair of a photo: what is confirmed, and the records received since. *)
Definition put_record (m : RecordSet) (r : NativeRecord) : RecordSet := <[record_name r := r]> m.
Definition pair_of (current changed : list NativeRecord) : RecordSet := foldl put_record (foldl put_record ∅ current) changed.
Definition tombstones_in (pair : RecordSet) : nat := length (List.filter (fun kr => is_tombstone kr.2) (map_to_list pair)).
Definition live_set (pair : RecordSet) : RecordSet := foldl (fun m kr => Records.apply kr.2 m) ∅ (iter pair).
Definition INCOMPLETE : ReceiveError := IncompleteGraph "incomplete photo deletion pair".
Definition zone_of (g : Progress) : ZoneId := mkZone (g_zone g) (g_owner g).
(** What one photo adds to the graph. *)
Definition add_photo (zone : ZoneId) (pair : RecordSet) (graph : RemoteGraph) : Rcv RemoteGraph :=
  match tombstones_in pair with
  | O =>
      match to_graph iter zone (live_set pair) with
      | inl e => stop (IncompleteGraph (graph_text e))
      | inr complete => mret (mkGraph (photos graph ++ photos complete)%list (records graph) (tombstones graph))
      end
  | 2%nat => mret (mkGraph (photos graph) (records graph) (tombstones graph ++ (iter pair).*1)%list)
  | _ => stop INCOMPLETE
  end.
Fixpoint complete_graph (zone : ZoneId) (groups : list (string * list NativeRecord)) (graph : RemoteGraph) : Rcv RemoteGraph :=
  match groups with
  | [] => mret graph
  | (photo, changed) :: rest =>
      current ← read (current_pair_records job photo);
      graph ← add_photo zone (pair_of current changed) graph;
      complete_graph zone rest graph
  end.
Definition promote (graph : RemoteGraph) (target : string) (digests : gmap string LocalDigest) : Rcv unit :=
  o ← commit (PromoteDelta job graph target digests);
  match o with OPromoted p => update_report (set_promoted p target) | _ => mret tt end.
(** [prepare_local_matches], [measure_local_matches] and [preserve_collisions]. *)
Definition compare (graph : RemoteGraph) : Rcv (gmap string LocalDigest) :=
  match photos graph with
  | [] => mret ∅
  | _ =>
      _ ← blocking (prepare_local_matches file_uri describe attributes_json json_bool event job graph);
      digests ← blocking (measure_local_matches sha256 row_order job graph);
      _ ← blocking (preserve_collisions file_uri row_order uuid dev job graph digests);
      mret digests
  end.
Definition pending_graph (zone : ZoneId) : Rcv RemoteGraph :=
  records ← read (pending_records distinct job);
  groups ← group records ∅;
  complete_graph zone (group_iter groups) (mkGraph [] [] []).
Definition promote_pending (zone : ZoneId) (target : string) : Rcv unit :=
  graph ← pending_graph zone;
  digests ← compare graph;
  promote graph target digests.

(** ** The snapshot *)
Definition apply_native_bootstrap_page (zone : ZoneId) (record_type : string) (records : list NativeRecord) (token : string) : Rcv unit :=
  o ← commit (SaveDeltaPage job (inbox_events records) token);
  _ ← match o with OSavedEvents n => update_report (add_events n) | _ => mret tt end;
  if bool_decide (record_type = ASSET_RECORD_TYPE) then promote_pending zone token else mret tt.
(** The pages of one record type, from a continuation on. *)
Fixpoint bootstrap_type (fuel : nat) (zone : ZoneId) (limit : Z) (snapshot record_type : string) (continuation : option string)
    (count : Z) : Rcv unit :=
  match fuel with
  | O => goes_on
  | S fuel =>
      page ← request (QueryRecords record_type limit snapshot continuation);
      let count := count + Z.of_nat (length (q_records page)) in
      _ ← apply_native_bootstrap_page zone record_type (q_records page) (q_sync_token page);
      _ ← commit (SaveBootstrapPage job record_type (q_continuation page) count);
      _ ← update_report add_page;
      match q_continuation page with
      | None => update_report add_type
      | Some _ => bootstrap_type fuel zone limit snapshot record_type (q_continuation page) count
      end
  end.
Fixpoint bootstrap_types (zone : ZoneId) (limit : Z) (snapshot : string) (progress : NativeProgress) (types : list string) : Rcv unit :=
  match types with
  | [] => mret tt
  | record_type :: rest =>
      let m := marker (bootstrap progress) record_type in
      _ ← (if tm_complete m then mret tt
           else bootstrap_type pages zone limit snapshot record_type (tm_continuation m) (tm_count m));
      bootstrap_types zone limit snapshot progress rest
  end.
(** [bootstrap]: the zone position it ends at. *)
Definition bootstrap_all (pinned : Pinned) (zone : ZoneId) (progress : NativeProgress) : Rcv string :=
  position ← match g_snapshot (row progress) with
    | Some snapshot => mret (snapshot, g_ingest (row progress))
    | None =>
        tokens ← request Snapshot;
        _ ← commit (PinSnapshot job tokens.1 tokens.2);
        mret (tokens.1, Some tokens.2)
    end;
  _ ← bootstrap_types zone (page_limit pinned) position.1 progress SUPPORTED_RECORD_TYPES;
  some position.2 (Transport "bootstrap produced no zone position").

(** ** The changes since *)
(** Pages until no more are coming; the last token. *)
Fixpoint delta_pages (fuel : nat) (limit : Z) (position : option string) : Rcv string :=
  match fuel with
  | O => goes_on
  | S fuel =>
      entry ← request (ChangesZone position limit);
      token ← some (c_sync_token entry) (Transport "delta page carried no token");
      o ← commit (SaveDeltaPage job (inbox_events (c_records entry)) token);
      _ ← update_report add_page;
      _ ← match o with OSavedEvents n => update_report (add_events n) | _ => mret tt end;
      if c_more_coming entry then delta_pages fuel limit (Some token) else mret token
  end.
Definition delta_round (pinned : Pinned) : Rcv unit :=
  progress ← query (fun db => read_progress db job);
  token ← delta_pages pages (page_limit pinned) (p ← progress; g_ingest (row p));
  now ← query (fun db => read_progress db job);
  now ← some now (NoZone job);
  promote_pending (zone_of (row now)) token.

(** ** The cycle *)
Definition scope_text (s : UploadScope) : string := match s with ScopeAll => "All" | ScopeSelectedAlbums => "SelectedAlbums" end.
Definition scope_digest (pinned : Pinned) (j : Job) : string :=
  tenant (namespace pinned) ++ "|" ++ container (namespace pinned) ++ "|" ++ environment (namespace pinned) ++ "|"
  ++ database_generation pinned ++ "|" ++ j_root j ++ "|" ++ scope_text (j_scope j) ++ "|Some(" ++ debug (j_zone j) ++ ")".
Definition receive_client (pinned : Pinned) : Rcv unit :=
  if receive_is_permitted (capabilities pinned) then
    _ ← ask TransportClient;
    n ← instant;
    _ ← note (Answered TransportClient (answer env n TransportClient));
    match answer env n TransportClient with inl e => stop (transport (Backend (SyncErrors.display e))) | inr _ => mret tt end
  else stop CapabilityMissing.
Definition receive_once : Rcv ReceiveReport :=
  found ← query (fun db => db_jobs db !! job);
  j ← some found (NoZone job);
  pinned ← look (fun n => scope env n (j_connection j));
  pinned ← try_ pinned;
  pinned ← some pinned (NoScope job);
  _ ← receive_client pinned;
  o ← commit (Begin job (namespace pinned) (database_generation pinned) (scope_digest pinned j) (j_zone j) (j_owner j));
  progress ← some (match o with OProgress p => Some p | _ => None end)
               (Transport "backend unavailable: beginning a receive position returned no progress");
  _ ← update_report (fun _ => new_report job);
  _ ← (if needs_bootstrap SUPPORTED_RECORD_TYPES progress then
         _ ← update_report set_bootstrapped;
         token ← bootstrap_all pinned (mkZone (j_zone j) (j_owner j)) progress;
         promote_pending (zone_of (row progress)) token
       else mret tt);
  _ ← delta_round pinned;
  see w_report.
Definition require_selected_account : Rcv unit :=
  selected ← query (fun db => job_enabled db job);
  if (selected : bool) then mret tt
  else stop (transport (Backend "this account is inactive; switch accounts before synchronizing")).
(** [m], or [again] when its position has expired. *)
Definition or_expired {A} (m again : Rcv A) : Rcv A := fun w =>
  match m w with (inl (Fails TokenExpired), w') => again w' | r => r end.
Definition receive_selected : Rcv ReceiveReport :=
  _ ← require_selected_account;
  or_expired receive_once (_ ← commit (Reset job); receive_once).
Definition run_receive : Rcv ReceiveReport :=
  slot ← look (run_slot env);
  _ ← try_ slot;
  _ ← require_selected_account;
  receive_selected.

(** ** Where a job has got to

    The durable part of a position: the pinned snapshot, where the changes resume,
    and the markers of the types. *)
Record Place := mkPlace { pl_snapshot : option string; pl_ingest : option string; pl_types : gmap string TypeMarker }.
Definition place_in (p : NativeProgress) : Place := mkPlace (g_snapshot (row p)) (g_ingest (row p)) (types (bootstrap p)).
Definition place_of (db : Db) : option Place := place_in <$> read_progress db job.
Lemma place_steady db db' : steady db db' -> place_of db' = place_of db.
Proof. intros [Hp Hb]. unfold place_of, read_progress, read_bootstrap. by rewrite Hp, Hb. Qed.
Lemma place_update f db :
  (forall g, g_snapshot (f g) = g_snapshot g /\ g_ingest (f g) = g_ingest g) -> place_of (update_progress job f db) = place_of db.
Proof.
  intros Hf. unfold place_of, read_progress, update_progress. cbn. rewrite lookup_alter_eq. destruct (db_progress db !! job) as [g|]; [|done]. cbn.
  unfold place_in. cbn. destruct (Hf g) as [-> ->]. done.
Qed.
Lemma place_ingest token db pl : place_of db = Some pl ->
  place_of (update_progress job (set_g_ingest (Some token)) db) = Some (mkPlace (pl_snapshot pl) (Some token) (pl_types pl)).
Proof.
  unfold place_of, read_progress, update_progress. cbn. rewrite lookup_alter_eq. destruct (db_progress db !! job) as [g|]; [|done]. cbn.
  by intros [= <-].
Qed.
Lemma place_delta events token db n db' pl : save_delta_page file_uri job events token db = Ok (n, db') -> place_of db = Some pl ->
  place_of db' = Some (mkPlace (pl_snapshot pl) (Some token) (pl_types pl)).
Proof.
  unfold save_delta_page. intros H Hpl. tx_inv H. apply place_ingest. rewrite <- Hpl. apply place_steady.
  match goal with Hs : stage_records _ _ _ _ = Ok _ |- _ => by eapply steady_stage end.
Qed.
Lemma place_pin snapshot token db u db' pl : pin_snapshot job snapshot token db = Ok (u, db') -> place_of db = Some pl ->
  place_of db' = Some (mkPlace (Some snapshot) (Some token) (pl_types pl)).
Proof.
  unfold pin_snapshot, require_progress. intros H Hpl. tx_inv H. unfold place_of, read_progress, update_progress in *. cbn. rewrite lookup_alter_eq.
  destruct (db_progress db !! job) as [g|]; [|done]. cbn in *. by injection Hpl as <-.
Qed.
Lemma place_page record_type continuation count db p db' pl :
  save_bootstrap_page job record_type continuation count db = Ok (p, db') -> place_of db = Some pl ->
  place_of db' = Some (mkPlace (pl_snapshot pl) (pl_ingest pl)
    (<[record_type := mkMarker (bool_decide (continuation = None)) continuation count]> (pl_types pl))).
Proof.
  unfold save_bootstrap_page, require_progress. intros H Hpl. tx_inv H. subst. unfold place_of in Hpl.
  match goal with H : read_progress db job = Some ?q |- _ => rewrite H in Hpl; rename q into p0, H into Hp end.
  injection Hpl as <-. unfold read_progress in Hp. destruct (db_progress db !! job) as [g|] eqn:Hg; [|done]. injection Hp as <-.
  cbn [row bootstrap place_in pl_snapshot pl_ingest pl_types]. set (b := mkBootstrap true _).
  unfold place_of, read_progress, write_bootstrap, clear_bootstrap, update_progress. cbn. rewrite !lookup_alter_eq, Hg. cbn.
  unfold place_in. cbn [row bootstrap]. f_equal. f_equal; [by destruct (g_snapshot g)|].
  by apply (read_write_bootstrap db job b).
Qed.
Lemma place_promote graph target digests db r db' :
  Projection.promote file_uri photo_digest job graph target digests db = Ok (r, db') -> place_of db' = place_of db.
Proof.
  unfold Projection.promote, require_progress. intros H. tx_inv H.
  match goal with Hf : for_each (photos graph) _ _ = Ok _, Hb : for_each (tombstones graph) _ ?d1 = Ok (_, ?d2) |- _ =>
    assert (Hs : steady db d2) by (trans d1;
      [refine (respects_for_each steady _ _ _ _ _ _ Hf)|refine (respects_for_each steady _ _ _ _ _ _ Hb)]; eauto with respects);
    rename d2 into db2 end.
  set (db3 := reopen_shared _ _ db2) in *. assert (Hs3 : steady db db3) by (by trans db2). clearbody db3.
  destruct (can_apply _ _); rewrite ?place_update by done; by apply place_steady.
Qed.
(** Beginning returns the place it leaves. *)
Lemma place_begin ns generation digest zone owner db p db' :
  begin job ns generation digest zone owner db = Ok (p, db') -> place_of db' = Some (place_in p).
Proof.
  unfold begin. intros H. tx_inv H.
  match goal with Hr : read_progress x2 job = Some ?q |- _ => rename q into written, Hr into Hw end.
  destruct (read_progress db job) as [before|] eqn:Hb; [|unfold place_of; by rewrite Hw].
  destruct (negb _); [|unfold place_of; by rewrite Hw]. tx_inv Hrun. tx_inv Hrun0. subst.
  unfold read_progress in Hb. destruct (db_progress db !! job) as [g|] eqn:Hg; [|done]. clear Hb Hw.
  match goal with |- place_of ?d = _ => set (db2 := d) end.
  assert (Hp : db_progress db2 !! job = Some (bind_position ns generation digest (forget_position g))).
  { unfold db2. cbn. by rewrite !lookup_alter_eq, Hg. }
  assert (Ht : forall t, db_bootstrap db2 !! (job, t) = None).
  { intros t. unfold db2. cbn. rewrite lookup_delete_where. cbn. rewrite Z.eqb_refl. by destruct (db_bootstrap db !! (job, t)). }
  clearbody db2. unfold place_of, read_progress. rewrite Hp. unfold place_in. cbn [mbind option_bind fmap option_fmap option_map row bootstrap].
  f_equal. f_equal. apply map_eq. intros t. by rewrite lookup_read_bootstrap, Ht.
Qed.

(** ** The steps keep the position *)
Lemma calm_prepare graph :
  Files.keeping calm (prepare_local_matches file_uri describe attributes_json json_bool event job graph).
Proof.
  unfold prepare_local_matches, index_receive_paths. keep.
  - apply keeping_fold; [apply _|]. intros path items. unfold index_path. keep.
  - apply calm_command. respect. apply steady_upsert.
Qed.
Lemma calm_measure graph : Files.keeping calm (measure_local_matches sha256 row_order job graph).
Proof. unfold measure_local_matches. keep. Qed.
Lemma calm_recover id details : Files.keeping calm (Transfer.recover_collision dev id details).
Proof. unfold Transfer.recover_collision, Transfer.owned_path, Transfer.unchanged_since. keep. Qed.
#[local] Hint Resolve calm_recover : keeping.
Lemma calm_preserve graph digests : Files.keeping calm (preserve_collisions file_uri row_order uuid dev job graph digests).
Proof.
  unfold preserve_collisions. apply Files.keeping_bind; [apply _|apply Files.keeping_op; [apply _|]; by intros ??? [= _ <-]|intros _].
  keep. apply keeping_fold; [apply _|]. intros e reserved. unfold preserve_entry, resolve_collision, identity_live, step_aside. keep.
  apply keeping_until; [apply _|]. intros n. unfold try_number, preserve_as. keep.
Qed.

(** *** Steps that only look, or only touch the files *)
Section Steps.
Context (R : relation World) (H : Halt -> Prop) `{!PreOrder R}.
Context (R_instant : forall w, R w (instant w).2).
Context (R_report : forall f w, R w (update_report f w).2).
Context (R_calm : forall w st, calm (w_st w) st -> R w (mkWorld st (w_tick w) (w_log w) (w_report w))).
Context (H_fails : forall e, e <> TokenExpired -> H (Fails e)).
Lemma walks_instant : walks R H instant.
Proof. intros w. split; [done|]. by intros h. Qed.
Lemma walks_report f : walks R H (update_report f).
Proof. intros w. split; [done|]. by intros h. Qed.
#[local] Hint Resolve walks_instant walks_report : walks.
Lemma walks_look {A} (f : nat -> A) : walks R H (look f).
Proof. unfold look. walk. Qed.
Lemma walks_try {A} (r : result A) : walks R H (try_ r).
Proof. unfold try_. walk. Qed.
Lemma walks_query {A} (f : Db -> A) : walks R H (query f).
Proof. unfold query. walk. Qed.
#[local] Hint Resolve walks_look walks_try walks_query : walks.
Lemma walks_read {A} (m : Tx Db A) : walks R H (read m).
Proof. unfold read. walk. Qed.
Lemma walks_blocking {A} (m : Files.IO A) : Files.keeping calm m -> walks R H (blocking m).
Proof.
  intros Hm. unfold blocking. walk. intros w. cbn. split; [|done]. apply R_calm. by apply Files.keeping_final.
Qed.
#[local] Hint Resolve walks_read walks_blocking calm_prepare calm_measure calm_preserve : walks.
Lemma walks_group records m : walks R H (group records m).
Proof. revert m. induction records as [|r records IH]; intros m; cbn [group]; unfold photo_of; walk. Qed.
Lemma walks_complete zone groups graph : walks R H (complete_graph zone groups graph).
Proof.
  revert graph. induction groups as [|[photo changed] groups IH]; intros graph; cbn [complete_graph]; unfold add_photo; walk.
Qed.
#[local] Hint Resolve walks_group walks_complete : walks.
Lemma walks_compare graph : walks R H (compare graph).
Proof. unfold compare. walk. Qed.
Lemma walks_pending zone : walks R H (pending_graph zone).
Proof. unfold pending_graph. walk. Qed.
End Steps.

(** ** What the log of a cycle says

    Every page answered so far is in the inbox when the next thing happens; its
    marker follows before the next request; a request names the stored place. *)
Definition every (P : list Event -> Event -> Prop) (log : list Event) : Prop :=
  forall newer e older, log = (newer ++ e :: older)%list -> P newer e.
Definition kept_since (newer : list Event) (e : Event) : Prop :=
  match e with
  | Answered r a =>
      match r return Answer r -> Prop with
      | Snapshot => fun a => match a with inr tokens => Committed (PinSnapshot job tokens.1 tokens.2) ∈ newer | _ => True end
      | QueryRecords _ _ _ _ => fun a => match a with
          | inr page => Committed (SaveDeltaPage job (inbox_events (q_records page)) (q_sync_token page)) ∈ newer
          | _ => True end
      | ChangesZone _ _ => fun a => match a with
          | inr entry => forall token, c_sync_token entry = Some token ->
              Committed (SaveDeltaPage job (inbox_events (c_records entry)) token) ∈ newer
          | _ => True end
      | TransportClient => fun _ => True
      end a
  | _ => True
  end.
Definition marked_since (newer : list Event) (e : Event) : Prop :=
  match e with
  | Answered r a =>
      match r return Answer r -> Prop with
      | QueryRecords record_type _ _ _ => fun a => match a with
          | inr page => exists count, Committed (SaveBootstrapPage job record_type (q_continuation page) count) ∈ newer
          | _ => True end
      | _ => fun _ => True
      end a
  | _ => True
  end.
Definition stored_since (newer : list Event) (e : Event) : Prop := kept_since newer e /\ marked_since newer e.
(** The stored place of a request: an unfinished type where its marker is, the
    changes where they stopped. *)
Definition resumes (r : Request) (pl : option Place) : Prop :=
  match r with
  | QueryRecords record_type _ snapshot continuation => exists p, pl = Some p /\ pl_snapshot p = Some snapshot /\
      let m := default (mkMarker false None 0) (pl_types p !! record_type) in tm_complete m = false /\ tm_continuation m = continuation
  | ChangesZone position _ => (p ← pl; pl_ingest p) = position
  | _ => True
  end.
Definition event_ok (older : list Event) (e : Event) : Prop :=
  match e with
  | Asked r db => every stored_since older /\ resumes r (place_of db)
  | Committed (SaveBootstrapPage _ _ _ _) => every kept_since older
  | _ => True
  end.
Fixpoint log_ok (log : list Event) : Prop :=
  match log with [] => True | e :: older => event_ok older e /\ log_ok older end.

Lemma log_ok_split newer e older : log_ok (newer ++ e :: older) -> event_ok older e.
Proof. induction newer as [|x newer IH]; [by intros [? _]|]. intros [_ H]. by apply IH. Qed.
Lemma every_nil P : every P [].
Proof. intros newer e older H. by apply app_cons_not_nil in H. Qed.
Lemma every_cons (P Q : list Event -> Event -> Prop) x log :
  every P log -> Q [] x -> (forall newer e, P newer e -> Q (x :: newer) e) -> every Q (x :: log).
Proof.
  intros Hl Hx Hm [|y newer] e older; cbn; intros [= <- Hlog]; [by subst|]. apply Hm. by eapply Hl.
Qed.
Lemma every_mono (P Q : list Event -> Event -> Prop) log : every P log -> (forall newer e, P newer e -> Q newer e) -> every Q log.
Proof. intros Hl Hm newer e older H. by eapply Hm, Hl. Qed.
Lemma kept_mono newer newer' e : newer ⊆ newer' -> kept_since newer e -> kept_since newer' e.
Proof. intros Hs. destruct e as [| [| | |] [|]|]; cbn; auto. Qed.
Lemma marked_mono newer newer' e : newer ⊆ newer' -> marked_since newer e -> marked_since newer' e.
Proof. intros Hs. destruct e as [| [| | |] [|]|]; cbn; auto. intros [c Hc]. exists c. auto. Qed.

(** *** Assertions about a running cycle

    [owing x y F]: the log is as it should be, but for the inbox owing the answer
    [x] and the marker of the answer [y], and the stored place satisfies [F]. *)
Record owing (x y : option Event) (F : option Place -> Prop) (w : World) : Prop := {
  ow_log : log_ok (w_log w);
  ow_kept : every (fun newer e => kept_since newer e \/ x = Some e) (w_log w);
  ow_marked : every (fun newer e => marked_since newer e \/ y = Some e) (w_log w);
  ow_place : F (place_of (Files.st_db (w_st w)))
}.
Definition failed_ok (h : Halt) (w : World) : Prop := log_ok (w_log w) /\ (h = Fails TokenExpired -> every stored_since (w_log w)).
Definition spec {A} (P : World -> Prop) (m : Rcv A) (Q : A -> World -> Prop) : Prop :=
  forall w, P w -> match m w with (inr a, w') => Q a w' | (inl h, w') => failed_ok h w' end.
Lemma spec_bind {A B} P Q R (m : Rcv A) (k : A -> Rcv B) : spec P m Q -> (forall a, spec (Q a) (k a) R) -> spec P (m ≫= k) R.
Proof.
  intros Hm Hk w HP. specialize (Hm w HP). unfold mbind, Rcv_bind. destruct (m w) as [[h|a] w']; [done|]. by apply Hk.
Qed.
Lemma spec_ret {A} (P : World -> Prop) (a : A) : spec P (mret a) (fun _ => P).
Proof. by intros w HP. Qed.
Lemma spec_weaken {A} (P P' : World -> Prop) (Q Q' : A -> World -> Prop) m :
  spec P m Q -> (forall w, P' w -> P w) -> (forall a w, Q a w -> Q' a w) -> spec P' m Q'.
Proof. intros Hm HP HQ w Hw. specialize (Hm w (HP w Hw)). destruct (m w) as [[h|a] w']; auto. Qed.
Lemma owing_settled F w : owing None None F w -> every stored_since (w_log w).
Proof. intros [_ Hk Hm _] newer e older H. destruct (Hk _ _ _ H), (Hm _ _ _ H); done. Qed.
Lemma owing_mono x y (F G : option Place -> Prop) w : owing x y F w -> (forall p, F p -> G p) -> owing x y G w.
Proof. intros [] HG. split; auto. Qed.

(** A step that stores nothing, and reports no expired position. *)
Record same_place (w w' : World) : Prop := {
  sp_log : w_log w' = w_log w;
  sp_place : place_of (Files.st_db (w_st w')) = place_of (Files.st_db (w_st w)) }.
#[local] Instance same_place_preorder : PreOrder same_place.
Proof. split; [done|]. intros a b c [] []. split; congruence. Qed.
Definition not_expired (h : Halt) : Prop := h <> Fails TokenExpired.
Notation still := (walks same_place not_expired).
Lemma still_spec {A} (m : Rcv A) x y F : still m -> spec (owing x y F) m (fun _ => owing x y F).
Proof.
  intros Hm w [Hl Hk Hy Hp]. destruct (Hm w) as [[El Ep] Hh]. destruct (m w) as [[h|a] w']; cbn in *.
  - rewrite <- El in *. split; [done|]. intros ->. by destruct (Hh _ eq_refl).
  - split; rewrite ?El, ?Ep; done.
Qed.

(** Only the holder of the run slot moves the job's place. *)
Section Resume.
Context (Hothers : forall n st, place_of (Files.st_db (others env n st)) = place_of (Files.st_db st)).
Lemma still_instant w : same_place w (instant w).2.
Proof. by split; [|apply Hothers]. Qed.
Lemma still_report f w : same_place w (update_report f w).2.
Proof. done. Qed.
Lemma still_calm w st : calm (w_st w) st -> same_place w (mkWorld st (w_tick w) (w_log w) (w_report w)).
Proof. intros Hs. split; [done|]. by apply place_steady. Qed.
Lemma still_fails e : e <> TokenExpired -> not_expired (Fails e).
Proof. by intros He [= ->]. Qed.
#[local] Hint Resolve still_instant still_report still_calm still_fails : walks.
#[local] Hint Resolve walks_instant walks_report walks_look walks_try walks_query walks_read walks_compare walks_pending : walks.

Lemma owing_weaken x y x' y' F w : owing x y F w -> (forall e, x = Some e -> x' = Some e \/ kept_since [] e) ->
  (forall e, y = Some e -> y' = Some e \/ marked_since [] e) -> owing x' y' F w.
Proof.
  intros [Hl Hk Hm Hp] Hx Hy. split; [done| | |done].
  - apply (every_mono _ _ _ Hk). intros newer e [?|He]; [by left|]. destruct (Hx _ He); [by right|left]. eapply kept_mono; [apply list_subseteq_nil|done].
  - apply (every_mono _ _ _ Hm). intros newer e [?|He]; [by left|]. destruct (Hy _ He); [by right|left]. eapply marked_mono; [apply list_subseteq_nil|done].
Qed.
Lemma owing_note e x y F x' y' w : owing x y F w -> event_ok (w_log w) e ->
  kept_since [] e \/ x' = Some e -> marked_since [] e \/ y' = Some e ->
  (forall a, x = Some a -> x' = Some a \/ kept_since [e] a) -> (forall a, y = Some a -> y' = Some a \/ marked_since [e] a) ->
  owing x' y' F (note e w).2.
Proof.
  intros [Hl Hk Hm Hp] He Hx' Hy' Hx Hy. cbn. split; [done| | |done].
  - apply (every_cons _ _ _ _ Hk Hx'). intros newer a [?|Ha]; [left; eapply kept_mono; [|done]; set_solver|].
    destruct (Hx _ Ha); [by right|left]. eapply kept_mono; [|done]. set_solver.
  - apply (every_cons _ _ _ _ Hm Hy'). intros newer a [?|Ha]; [left; eapply marked_mono; [|done]; set_solver|].
    destruct (Hy _ Ha); [by right|left]. eapply marked_mono; [|done]. set_solver.
Qed.
Lemma ask_spec r F : (forall pl, F pl -> resumes r pl) -> spec (owing None None F) (ask r) (fun _ => owing None None F).
Proof.
  intros Hr w Hw. apply (owing_note (Asked r (Files.st_db (w_st w))) None None F None None w Hw); [|by left..|done|done].
  split; [by eapply owing_settled|]. apply Hr. apply Hw.
Qed.
Lemma answered_spec r a F :
  spec (owing None None F) (note (Answered r a)) (fun _ => owing (Some (Answered r a)) (Some (Answered r a)) F).
Proof. intros w Hw. apply (owing_note _ None None F _ _ w Hw); auto; done. Qed.
Lemma request_spec r F : (forall pl, F pl -> resumes r pl) ->
  spec (owing None None F) (request r) (fun a => owing (Some (Answered r (inr a))) (Some (Answered r (inr a))) F).
Proof.
  intros Hr. unfold request. eapply spec_bind; [by apply ask_spec|intros ?].
  eapply spec_bind; [apply still_spec; eauto with walks typeclass_instances|intros n]. cbn beta. eapply spec_bind; [apply answered_spec|intros ?].
  destruct (answer env n r) as [e|reply]; [|by intros w Hw]. intros w Hw. split; [apply Hw|intros ?].
  eapply (owing_settled F), owing_weaken; [exact Hw|..]; intros b Hb; injection Hb as <-; right; by destruct r.
Qed.
Lemma spec_error {A} x y F e : e <> TokenExpired -> spec (owing x y F) (@stop A e) (fun _ _ => False).
Proof. intros He w Hw. split; [apply Hw|]. by intros [= ->]. Qed.
Lemma commit_spec c x y (F : option Place -> Prop) x' y' (G : NativeReceiveOutcome -> option Place -> Prop) :
  (forall db o db', Commands.execute file_uri photo_digest c db = Ok (o, db') -> F (place_of db) -> G o (place_of db')) ->
  (x = None \/ forall log, event_ok log (Committed c)) ->
  (forall e, x = Some e -> x' = Some e \/ kept_since [Committed c] e) ->
  (forall e, y = Some e -> y' = Some e \/ marked_since [Committed c] e) ->
  spec (owing x y F) (commit c) (fun o => owing x' y' (G o)).
Proof.
  intros HG Hc Hx Hy. unfold commit. eapply spec_bind; [apply still_spec; eauto with walks typeclass_instances|intros ?].
  intros w Hw. unfold mbind, Rcv_bind, try_, transact. destruct (Commands.execute _ _ _ _) as [[o db']|e] eqn:E; cbn.
  - assert (Hw' : owing x y (G o) (mkWorld (Files.mkSt db' (Files.st_fs (w_st w))) (w_tick w) (w_log w) (w_report w))).
    { destruct Hw as [Hl Hk Hm Hp]. split; [done..|]. by eapply HG. }
    apply (owing_note (Committed c) x y (G o) x' y' _ Hw'); [|by left..|done|done].
    destruct Hc as [->|Hc]; [|done]. destruct c; try done. apply (every_mono _ _ _ (ow_kept _ _ _ _ Hw')). by intros newer e [?|].
  - split; [apply Hw|done].
Qed.
(** *** The cycle's parts *)
Definition at_place (pl : Place) (p : option Place) : Prop := p = Some pl.
Definition advanced (token : string) (pl : Place) : Place := mkPlace (pl_snapshot pl) (Some token) (pl_types pl).
Definition marked (record_type : string) (continuation : option string) (count : Z) (pl : Place) : Place :=
  mkPlace (pl_snapshot pl) (pl_ingest pl)
    (<[record_type := mkMarker (bool_decide (continuation = None)) continuation count]> (pl_types pl)).
Lemma commit_delta_spec events token e y pl : (kept_since [Committed (SaveDeltaPage job events token)] e) ->
  spec (owing (Some e) y (at_place pl)) (commit (SaveDeltaPage job events token)) (fun _ => owing None y (at_place (advanced token pl))).
Proof.
  intros He. apply (commit_spec _ _ _ _ _ _ (fun _ => at_place (advanced token pl))).
  - cbn. intros db o db' H Hpl. tx_inv H. by eapply place_delta.
  - by right.
  - intros a [= <-]. by right.
  - intros a ->. by left.
Qed.
Lemma commit_page_spec record_type continuation count e pl :
  marked_since [Committed (SaveBootstrapPage job record_type continuation count)] e ->
  spec (owing None (Some e) (at_place pl)) (commit (SaveBootstrapPage job record_type continuation count))
    (fun _ => owing None None (at_place (marked record_type continuation count pl))).
Proof.
  intros He. apply (commit_spec _ _ _ _ _ _ (fun _ => at_place (marked record_type continuation count pl))).
  - cbn. intros db o db' H Hpl. tx_inv H. by eapply place_page.
  - by left.
  - done.
  - intros a [= <-]. by right.
Qed.
Lemma commit_pin_spec snapshot token e pl : kept_since [Committed (PinSnapshot job snapshot token)] e ->
  spec (owing (Some e) None (at_place pl)) (commit (PinSnapshot job snapshot token))
    (fun _ => owing None None (at_place (mkPlace (Some snapshot) (Some token) (pl_types pl)))).
Proof.
  intros He. apply (commit_spec _ _ _ _ _ _ (fun _ => at_place (mkPlace (Some snapshot) (Some token) (pl_types pl)))).
  - cbn. intros db o db' H Hpl. tx_inv H. by eapply place_pin.
  - by right.
  - intros a [= <-]. by right.
  - done.
Qed.
Lemma promote_spec graph target digests x y F : spec (owing x y F) (promote graph target digests) (fun _ => owing x y F).
Proof.
  unfold promote. eapply spec_bind; [apply (commit_spec _ _ _ F x y (fun _ => F))|intros o; apply still_spec; walk].
  - cbn. intros db o db' H Hpl. tx_inv H. erewrite place_promote; [done|]. done.
  - by right.
  - by left.
  - by left.
Qed.
Lemma promote_pending_spec zone target x y F : spec (owing x y F) (promote_pending zone target) (fun _ => owing x y F).
Proof.
  unfold promote_pending. eapply spec_bind; [apply still_spec; eauto with walks typeclass_instances|intros graph].
  eapply spec_bind; [apply still_spec; eauto with walks typeclass_instances|intros digests]. apply promote_spec.
Qed.
Lemma apply_page_spec zone record_type limit snapshot continuation page y pl :
  let e := Answered (QueryRecords record_type limit snapshot continuation) (inr page) in
  spec (owing (Some e) y (at_place pl)) (apply_native_bootstrap_page zone record_type (q_records page) (q_sync_token page))
    (fun _ => owing None y (at_place (advanced (q_sync_token page) pl))).
Proof.
  intros e. unfold apply_native_bootstrap_page. eapply spec_bind; [apply commit_delta_spec; cbn; by left|intros o].
  eapply spec_bind; [apply still_spec; walk|intros ?]. cbn beta. case_bool_decide; [apply promote_pending_spec|apply spec_ret].
Qed.
Lemma request_then {B} r F (k : Reply r -> Rcv B) Q : (forall pl, F pl -> resumes r pl) ->
  (forall a, spec (owing (Some (Answered r (inr a))) (Some (Answered r (inr a))) F) (k a) Q) -> spec (owing None None F) (request r ≫= k) Q.
Proof. intros Hr Hk. eapply spec_bind; [by apply request_spec|done]. Qed.
Lemma spec_some {A B} x y F (o : option A) e (k : A -> Rcv B) Q : e <> TokenExpired ->
  (forall a, o = Some a -> spec (owing x y F) (k a) Q) -> spec (owing x y F) (some o e ≫= k) Q.
Proof.
  intros He Hk. destruct o as [a|]; [by apply Hk|]. intros w Hw. split; [apply Hw|]. by intros [= ->].
Qed.
(** A known place, or one of a kind. *)
Definition placed (F : Place -> Prop) (p : option Place) : Prop := exists pl, p = Some pl /\ F pl.
Lemma spec_placed {A} x y F (m : Rcv A) Q : (forall pl, F pl -> spec (owing x y (at_place pl)) m Q) -> spec (owing x y (placed F)) m Q.
Proof. intros Hm w [Hl Hk Hy (pl & Hp & HF)]. by apply (Hm pl HF w). Qed.
Lemma spec_at {A} x y pl (m : Rcv A) x' y' (F : Place -> Prop) :
  F pl -> spec (owing x y (at_place pl)) m (fun _ => owing x' y' (at_place pl)) -> spec (owing x y (at_place pl)) m (fun _ => owing x' y' (placed F)).
Proof. intros HF Hm. eapply spec_weaken; [exact Hm|done|]. intros a w Hw. eapply owing_mono; [exact Hw|]. intros p Hp. by exists pl. Qed.
Definition todo (snapshot record_type : string) (continuation : option string) (pl : Place) : Prop :=
  pl_snapshot pl = Some snapshot /\
  let m := default (mkMarker false None 0) (pl_types pl !! record_type) in tm_complete m = false /\ tm_continuation m = continuation.
(** What other types' listings rely on. *)
Definition other_types (snapshot record_type : string) (pl pl' : Place) : Prop :=
  pl_snapshot pl' = Some snapshot /\ forall t, t <> record_type -> pl_types pl' !! t = pl_types pl !! t.
Lemma bootstrap_type_spec fuel zone limit snapshot record_type continuation count pl : todo snapshot record_type continuation pl ->
  spec (owing None None (at_place pl)) (bootstrap_type fuel zone limit snapshot record_type continuation count)
    (fun _ => owing None None (placed (other_types snapshot record_type pl))).
Proof.
  revert continuation count pl. induction fuel as [|fuel IH]; intros continuation count pl Htodo; cbn [bootstrap_type].
  { intros w Hw. by split; [apply Hw|]. }
  apply (request_then (QueryRecords record_type limit snapshot continuation)); [intros p ->; by exists pl|].
  intros page. cbv zeta. eapply spec_bind; [apply apply_page_spec|intros ?].
  eapply spec_bind; [apply commit_page_spec; eexists; by left|intros ?].
  eapply spec_bind; [apply still_spec; walk|intros ?]. cbn beta.
  set (pl' := marked _ _ _ _). assert (Hpl : other_types snapshot record_type pl pl').
  { split; [apply Htodo|]. intros t Ht. unfold pl', marked. cbn. by rewrite lookup_insert_ne. }
  destruct (q_continuation page) as [more|] eqn:Ec.
  - eapply spec_weaken; [apply (IH (Some more) _ pl')|done|].
    + split; [apply Htodo|]. unfold pl', marked. cbn. by rewrite lookup_insert_eq.
    + intros ? w Hw. eapply owing_mono; [exact Hw|]. intros p (q & -> & Hs & Ho). exists q. split; [done|]. split; [done|].
      intros t Ht. rewrite Ho by done. by apply Hpl.
  - apply spec_at; [done|]. apply still_spec. walk.
Qed.
Lemma bootstrap_types_spec zone limit snapshot progress names pl : NoDup names -> pl_snapshot pl = Some snapshot ->
  (forall t, t ∈ names -> pl_types pl !! t = types (bootstrap progress) !! t) ->
  spec (owing None None (at_place pl)) (bootstrap_types zone limit snapshot progress names) (fun _ => owing None None (placed (fun _ => True))).
Proof.
  intros Hnd. revert pl. induction Hnd as [|t names Ht Hnd IH]; intros pl Hs Htypes; cbn [bootstrap_types].
  { by apply spec_at, spec_ret. }
  cbv zeta. apply (spec_bind _ (fun _ => owing None None (placed (other_types snapshot t pl)))).
  - destruct (tm_complete _) eqn:Ec; [by apply spec_at, spec_ret|]. apply bootstrap_type_spec. split; [done|].
    rewrite Htypes by by left. done.
  - intros ?. apply spec_placed. intros q [Hs' Ho]. apply IH; [done|]. intros t' Ht'. rewrite Ho by set_solver. apply Htypes. by right.
Qed.
Lemma bootstrap_all_spec pinned zone progress :
  spec (owing None None (at_place (place_in progress))) (bootstrap_all pinned zone progress) (fun _ => owing None None (placed (fun _ => True))).
Proof.
  unfold bootstrap_all. apply (spec_bind _ (fun position => owing None None (placed (fun pl => pl_snapshot pl = Some position.1 /\
    pl_types pl = types (bootstrap progress))))).
  - destruct (g_snapshot (row progress)) as [snapshot|] eqn:Es.
    + intros w Hw. eapply owing_mono; [exact Hw|]. intros p ->. by exists (place_in progress).
    + apply (request_then Snapshot); [done|]. intros tokens.
      eapply spec_bind.
      { eapply spec_weaken; [apply (commit_pin_spec tokens.1 tokens.2 (Answered Snapshot (inr tokens)) (place_in progress)); cbn; by left| |].
        - intros w Hw. eapply owing_weaken; [exact Hw|intros a ->; by left|]. intros a Ha. injection Ha as <-. by right.
        - intros a w Hw. exact Hw. }
      intros ? w Hw. eapply owing_mono; [exact Hw|]. intros p ->. by eexists.
  - intros position. apply (spec_bind _ (fun _ => owing None None (placed (fun _ => True)))).
    + apply spec_placed. intros pl [Hs Ht]. apply bootstrap_types_spec; [by repeat constructor; set_solver|done|by rewrite Ht].
    + intros ?. apply still_spec. walk.
Qed.
Lemma query_place pl : spec (owing None None (at_place pl)) (query (fun db => read_progress db job))
  (fun r w => owing None None (at_place pl) w /\ place_in <$> r = Some pl).
Proof.
  unfold query. eapply spec_bind; [apply still_spec; eauto with walks typeclass_instances|intros ?]. intros w Hw. split; [exact Hw|]. apply Hw.
Qed.
Lemma delta_pages_spec fuel limit position pl : pl_ingest pl = position ->
  spec (owing None None (at_place pl)) (delta_pages fuel limit position) (fun _ => owing None None (placed (fun _ => True))).
Proof.
  revert position pl. induction fuel as [|fuel IH]; intros position pl Hpos; cbn [delta_pages].
  { intros w Hw. by split; [apply Hw|]. }
  apply (request_then (ChangesZone position limit)); [by intros p ->|]. intros entry.
  apply spec_some; [done|]. intros token Et.
  eapply spec_bind; [apply commit_delta_spec; cbn; intros t Ht; rewrite Et in Ht; injection Ht as <-; by left|intros o].
  eapply spec_bind; [apply still_spec; walk|intros ?]. cbn beta. eapply spec_bind; [apply still_spec; walk|intros ?]. cbn beta.
  intros w Hw. assert (Hw' : owing None None (at_place (advanced token pl)) w).
  { eapply owing_weaken; [exact Hw|by left|]. intros b Hb. injection Hb as <-. by right. }
  clear Hw. revert w Hw'. destruct (c_more_coming entry); [by apply IH|by apply spec_at, spec_ret].
Qed.
Lemma delta_round_spec pinned : spec (owing None None (placed (fun _ => True))) (delta_round pinned) (fun _ => owing None None (fun _ => True)).
Proof.
  unfold delta_round. apply spec_placed. intros pl _. eapply spec_bind; [apply query_place|]. intros progress.
  apply (spec_bind _ (fun _ => owing None None (placed (fun _ => True)))).
  - intros w [Hw Hr]. apply (delta_pages_spec pages (page_limit pinned) _ pl); [|exact Hw]. destruct progress as [q|]; [|done]. cbn in Hr. by injection Hr as <-.
  - intros token. eapply spec_bind; [apply still_spec; walk|intros now]. cbn beta.
    eapply spec_bind; [apply still_spec; walk|intros p]. cbn beta.
    eapply spec_weaken; [apply promote_pending_spec|intros w Hw; exact Hw|]. intros ? w Hw. by eapply owing_mono; [exact Hw|].
Qed.
Definition settled (w : World) : Prop := owing None None (fun _ => True) w.
Lemma client_spec pinned : spec settled (receive_client pinned) (fun _ => settled).
Proof.
  unfold receive_client. destruct (receive_is_permitted _); [|intros w Hw; split; [apply Hw|done]].
  eapply spec_bind; [by apply (ask_spec TransportClient)|intros ?].
  eapply spec_bind; [apply still_spec; eauto with walks typeclass_instances|intros n]. cbn beta.
  eapply spec_bind; [apply answered_spec|intros ?]. cbn beta.
  destruct (answer env n TransportClient) as [e|]; [by intros w Hw; split; [apply Hw|]|].
  intros w Hw. eapply owing_weaken; [exact Hw|..]; intros b Hb; injection Hb as <-; by right.
Qed.
Lemma commit_begin_spec ns generation digest zone owner :
  spec settled (commit (Begin job ns generation digest zone owner))
    (fun o => owing None None (fun p => forall progress, o = OProgress progress -> p = Some (place_in progress))).
Proof.
  apply (commit_spec _ _ _ _ _ _ (fun o p => forall progress, o = OProgress progress -> p = Some (place_in progress))); [|by left|done|done].
  cbn. intros db o db' H _ progress ->. tx_inv H. injection H as ->. by eapply place_begin.
Qed.
Lemma receive_once_spec : spec settled receive_once (fun _ => settled).
Proof.
  unfold receive_once. eapply spec_bind; [apply still_spec; walk|intros found]. cbn beta.
  eapply spec_bind; [apply still_spec; walk|intros j]. cbn beta.
  eapply spec_bind; [apply still_spec; walk|intros pinned]. cbn beta.
  eapply spec_bind; [apply still_spec; walk|intros pinned']. cbn beta.
  eapply spec_bind; [apply still_spec; walk|intros pinned2]. cbn beta.
  eapply spec_bind; [apply client_spec|intros ?]. eapply spec_bind; [apply commit_begin_spec|intros o]. cbn beta.
  apply spec_some; [done|]. intros progress Ho.
  assert (o = OProgress progress) as -> by (destruct o; congruence). clear Ho.
  eapply (spec_weaken (owing None None (at_place (place_in progress)))); [|intros w Hw; eapply owing_mono; [exact Hw|]; intros p Hp; by apply Hp|by intros ? w Hw; exact Hw].
  eapply spec_bind; [apply still_spec; walk|intros ?]. cbn beta.
  apply (spec_bind _ (fun _ => owing None None (placed (fun _ => True)))).
  - destruct (needs_bootstrap _ _); [|by apply spec_at, spec_ret].
    eapply spec_bind; [apply still_spec; walk|intros ?]. cbn beta. eapply spec_bind; [apply bootstrap_all_spec|intros token]. apply promote_pending_spec.
  - intros ?. eapply spec_bind; [apply delta_round_spec|intros ?]. apply still_spec. walk.
Qed.
Lemma selected_spec : spec settled receive_selected (fun _ => settled).
Proof.
  assert (Hsel : spec settled require_selected_account (fun _ => settled)) by (apply still_spec; unfold require_selected_account; walk).
  unfold receive_selected. eapply spec_bind; [exact Hsel|intros ?]. intros w Hw. unfold or_expired. pose proof (receive_once_spec w Hw) as Hone.
  destruct (receive_once w) as [[[[]|]|r] w1]; try done. destruct Hone as [Hl Hs].
  assert (Hw1 : settled w1).
  { split; [done|..|done]; apply (every_mono _ _ _ (Hs eq_refl)); intros newer ev []; by left. }
  clear Hl Hs. revert w1 Hw1. eapply spec_bind; [|intros ?; apply receive_once_spec].
  apply (commit_spec (Reset job) _ _ _ None None (fun _ _ => True)); [done|by left|done|done].
Qed.
Lemma run_spec : spec settled run_receive (fun _ => settled).
Proof.
  assert (Hsel : spec settled require_selected_account (fun _ => settled)) by (apply still_spec; unfold require_selected_account; walk).
  unfold run_receive. eapply spec_bind; [apply still_spec; walk|intros slot]. cbn beta.
  eapply spec_bind; [apply still_spec; walk|intros ?]. cbn beta. eapply spec_bind; [exact Hsel|intros ?]. apply selected_spec.
Qed.
End Resume.

(** *** Every listing ends *)
Section Ends.
(** From some instant on, every page is the last of its listing. *)
Definition last_page (r : Request) : Reply r -> Prop :=
  match r return Reply r -> Prop with
  | QueryRecords _ _ _ _ => fun page => q_continuation page = None
  | ChangesZone _ _ => fun entry => c_more_coming entry = false
  | _ => fun _ => True
  end.
Context (last : nat) (Hlast : forall n r a, (last <= n)%nat -> answer env n r = inr a -> last_page r a) (Hpages : (last < pages)%nat).
Definition later (w w' : World) : Prop := (w_tick w <= w_tick w')%nat.
#[local] Instance later_preorder : PreOrder later.
Proof. split; [by intros w; unfold later|]. intros a b c. unfold later. lia. Qed.
Definition returns (h : Halt) : Prop := h <> Runs.
Notation ends := (walks later returns).
Lemma later_instant w : later w (instant w).2.
Proof. unfold later. cbn. lia. Qed.
Lemma later_report f w : later w (update_report f w).2.
Proof. by unfold later. Qed.
Lemma later_calm w st : calm (w_st w) st -> later w (mkWorld st (w_tick w) (w_log w) (w_report w)).
Proof. by unfold later. Qed.
Lemma returns_fails e : e <> TokenExpired -> returns (Fails e).
Proof. done. Qed.
#[local] Hint Resolve later_instant later_report later_calm returns_fails : walks.
#[local] Hint Resolve walks_instant walks_report walks_look walks_try walks_query walks_read walks_compare walks_pending : walks.
#[local] Hint Extern 1 (returns (Fails _)) => done : walks.
Lemma ends_note e : ends (note e).
Proof. intros w. split; [by unfold later|done]. Qed.
Lemma ends_commit c : ends (commit c).
Proof.
  unfold commit. walk; [|apply ends_note]. intros w. unfold transact.
  destruct (Commands.execute _ _ _ _) as [[o db']|e]; cbn; (split; [by unfold later|done]).
Qed.
#[local] Hint Resolve ends_note ends_commit : walks.
Lemma ends_ask r : ends (ask r).
Proof. intros w. apply ends_note. Qed.
#[local] Hint Resolve ends_ask : walks.
Lemma ends_request r : ends (request r).
Proof. unfold request. walk. Qed.
#[local] Hint Extern 1 (walks _ _ (request ?r)) => exact (ends_request r) : walks.
Lemma ends_promote_pending zone target : ends (promote_pending zone target).
Proof. unfold promote_pending, promote. walk. Qed.
#[local] Hint Resolve ends_promote_pending : walks.
(** The answer of an instant; those from [last] on end their listing. *)
Lemma request_turn r w a w' : request r w = (inr a, w') ->
  (w_tick w < w_tick w')%nat /\ ((last <= w_tick w)%nat -> last_page r a).
Proof.
  unfold request, mbind, Rcv_bind, ask, note, instant. cbn. intros H. destruct (answer env (w_tick w) r) as [e|b] eqn:E; [done|].
  injection H as <- <-. split; [cbn; lia|]. intros Hn. by eapply Hlast.
Qed.
Definition ends_at {A} (m : Rcv A) (w : World) : Prop := later w (m w).2 /\ forall h, (m w).1 = inl h -> returns h.
Lemma ends_request_then {B} r (k : Reply r -> Rcv B) w :
  (forall a w', (w_tick w < w_tick w')%nat -> ((last <= w_tick w)%nat -> last_page r a) -> ends_at (k a) w') -> ends_at (request r ≫= k) w.
Proof.
  intros Hk. pose proof (ends_request r w) as [Hl Hh]. unfold ends_at, mbind, Rcv_bind. destruct (request r w) as [[h|a] w'] eqn:E; cbn in *.
  - split; [done|]. intros ? [= <-]. by apply Hh.
  - apply request_turn in E as [Ht Ha]. destruct (Hk a w' Ht Ha) as [Hl' Hh']. split; [by etrans|done].
Qed.
Lemma ends_then {A B} (m : Rcv A) (k : A -> Rcv B) w :
  ends m -> (forall a w', later w w' -> ends_at (k a) w') -> ends_at (m ≫= k) w.
Proof.
  intros Hm Hk. destruct (Hm w) as [Hl Hh]. unfold ends_at, mbind, Rcv_bind. destruct (m w) as [[h|a] w']; cbn in *.
  - split; [done|]. intros ? [= <-]. by apply Hh.
  - destruct (Hk a w' Hl). split; [by etrans|done].
Qed.
Lemma ends_bootstrap_type fuel zone limit snapshot record_type continuation count w : (last - w_tick w < fuel)%nat ->
  ends_at (bootstrap_type fuel zone limit snapshot record_type continuation count) w.
Proof.
  revert continuation count w. induction fuel as [|fuel IH]; intros continuation count w Hf; [lia|]. cbn [bootstrap_type].
  apply (ends_request_then (QueryRecords record_type limit snapshot continuation)). intros page w1 Ht1 Hlp. cbn in Hlp. cbv zeta.
  apply ends_then; [unfold apply_native_bootstrap_page; walk|]. intros ? w2 Ht2. apply ends_then; [walk|]. intros ? w3 Ht3.
  apply ends_then; [walk|]. intros ? w4 Ht4. unfold later in *. destruct (q_continuation page) as [more|].
  - apply IH. destruct (decide (last <= w_tick w)%nat) as [Hd|]; [by specialize (Hlp Hd)|lia].
  - apply (walks_report later returns); eauto with walks typeclass_instances.
Qed.
Lemma ends_delta_pages fuel limit position w : (last - w_tick w < fuel)%nat -> ends_at (delta_pages fuel limit position) w.
Proof.
  revert position w. induction fuel as [|fuel IH]; intros position w Hf; [lia|]. cbn [delta_pages].
  apply (ends_request_then (ChangesZone position limit)). intros entry w1 Ht1 Hlp. cbn in Hlp. apply ends_then; [walk|]. intros token w2 Ht2.
  apply ends_then; [walk|]. intros o w3 Ht3. apply ends_then; [walk|]. intros ? w4 Ht4. apply ends_then; [walk|]. intros ? w5 Ht5.
  unfold later in *. destruct (c_more_coming entry).
  - apply IH. destruct (decide (last <= w_tick w)%nat) as [Hd|]; [by specialize (Hlp Hd)|lia].
  - apply walks_ret. apply _.
Qed.
Lemma ends_delta_round pinned : ends (delta_round pinned).
Proof. unfold delta_round. walk. intros w. apply ends_delta_pages. lia. Qed.
Lemma ends_bootstrap_types zone limit snapshot progress names : ends (bootstrap_types zone limit snapshot progress names).
Proof.
  induction names as [|t names IH]; cbn [bootstrap_types]; walk. intros w. apply ends_bootstrap_type. lia.
Qed.
#[local] Hint Resolve ends_delta_round ends_bootstrap_types : walks.
Lemma ends_once : ends receive_once.
Proof. unfold receive_once, receive_client, bootstrap_all. walk. Qed.
#[local] Hint Resolve ends_once : walks.
Lemma ends_selected : ends receive_selected.
Proof.
  unfold receive_selected, require_selected_account. walk. intros w. unfold or_expired. destruct (ends_once w) as [Hl Hh].
  destruct (receive_once w) as [[[e|]|r] w1]; cbn in *; [destruct (decide (e = TokenExpired)) as [->|He]| |].
  - assert (Hagain : ends (_ ← commit (Reset job); receive_once)) by walk. destruct (Hagain w1) as [Hl' Hh']. split; [by etrans|done].
  - destruct e; done.
  - done.
  - done.
Qed.
Lemma ends_run : ends run_receive.
Proof. unfold run_receive, require_selected_account. walk; apply ends_selected. Qed.
End Ends.

(** *** What a report of an applied position means *)
(** The job is synchronized at the token of the report. *)
Definition truthful (w : World) : Prop := applied (w_report w) = true -> exists token, let db := Files.st_db (w_st w) in
  target_token (w_report w) = Some token /\ applied_of db job = Some token /\ synchronized db job token /\ inventoried db job.
Lemma promoted_applied graph target digests db p db' :
  Projection.promote file_uri photo_digest job graph target digests db = Ok (p, db') -> pr_applied p = true ->
  applied_of db' job = Some target /\ synchronized db' job target /\ inventoried db' job.
Proof.
  unfold Projection.promote. intros H. tx_inv H. cbn [pr_applied]. intros Hc. rewrite Hc.
  match goal with |- context [update_progress job (set_g_target (Some target)) ?d] => set (db4 := d) in *; clearbody db4 end.
  match goal with Hr : read_progress _ job = Some ?q |- _ => rename q into reached, Hr into Hq end.
  unfold read_progress in Hq. rewrite lookup_update_progress, Z.eqb_refl in Hq. destruct (db_progress db4 !! job) as [g|] eqn:Hg; [|done].
  cbn in Hq. injection Hq as <-. unfold can_apply in Hc. cbn [row bootstrap] in Hc. zbool. rewrite Nat.eqb_eq in *. cbn in *. unfold applied_of.
  rewrite !lookup_update_progress, Z.eqb_refl, Hg. cbn. split; [done|]. split; [split|].
  - by rewrite !unresolved_update_progress.
  - unfold target_of. by rewrite !lookup_update_progress, Z.eqb_refl, Hg.
  - unfold inventoried, read_progress. rewrite !lookup_update_progress, Z.eqb_refl, Hg. cbn. by eexists.
Qed.
Definition post {A} (m : Rcv A) (Q : A -> World -> Prop) : Prop := forall w a w', m w = (inr a, w') -> Q a w'.
Lemma post_bind {A B} (m : Rcv A) (k : A -> Rcv B) Q : (forall a, post (k a) Q) -> post (m ≫= k) Q.
Proof. intros Hk w b w'. unfold mbind, Rcv_bind. destruct (m w) as [[h|a] w1]; [done|]. apply Hk. Qed.
Lemma commit_run c w o w' : commit c w = (inr o, w') ->
  exists db, Commands.execute file_uri photo_digest c db = Ok (o, Files.st_db (w_st w')).
Proof.
  unfold commit, mbind, Rcv_bind, transact. cbn [instant]. unfold instant. cbn [w_st].
  destruct (Commands.execute _ _ c _) as [[o' db']|e] eqn:E; [|done]. cbn. intros [= <- <-]. by eexists.
Qed.
Lemma promote_truthful graph target digests : post (promote graph target digests) (fun _ => truthful).
Proof.
  intros w u w'. unfold promote, mbind, Rcv_bind. destruct (commit _ w) as [[h|o] w1] eqn:E; [done|].
  apply commit_run in E as (db & E). unfold Commands.execute in E. tx_inv E. subst. intros [= _ <-] Ha. cbn in *.
  exists target. split; [done|]. by eapply promoted_applied.
Qed.
Lemma delta_round_truthful pinned : post (delta_round pinned) (fun _ => truthful).
Proof. unfold delta_round, promote_pending. do 6 (apply post_bind; intros ?). apply promote_truthful. Qed.
(** The graph of a cycle has complete photos and tombstones only. *)
Lemma complete_graph_records zone groups graph : records graph = [] -> post (complete_graph zone groups graph) (fun g _ => records g = []).
Proof.
  revert graph. induction groups as [|[photo changed] groups IH]; intros graph Hg; cbn [complete_graph].
  { by intros w g w' [= <- _]. }
  apply post_bind. intros current w g w'. unfold mbind, Rcv_bind. destruct (add_photo _ _ _ w) as [[h|next] w1] eqn:E; [done|].
  apply IH. revert E. unfold add_photo. destruct (tombstones_in _) as [|[|[|]]]; try done; [|by intros [= <- _]].
  destruct (to_graph _ _ _); [done|]. by intros [= <- _].
Qed.
Lemma promoted_unknown graph target digests db p db' :
  Projection.promote file_uri photo_digest job graph target digests db = Ok (p, db') -> pr_unknown p = length (records graph).
Proof. unfold Projection.promote. intros H. by tx_inv H. Qed.
Lemma promote_unknown graph target digests : records graph = [] -> post (promote graph target digests) (fun _ w => unknown_records (w_report w) = 0%nat).
Proof.
  intros Hg w u w'. unfold promote, mbind, Rcv_bind. destruct (commit _ w) as [[h|o] w1] eqn:E; [done|].
  apply commit_run in E as (db & E). unfold Commands.execute in E. tx_inv E. subst. intros [= _ <-]. cbn. erewrite promoted_unknown by done.
  by rewrite Hg.
Qed.
Lemma delta_round_unknown pinned : post (delta_round pinned) (fun _ w => unknown_records (w_report w) = 0%nat).
Proof.
  unfold delta_round. do 4 (apply post_bind; intros ?). unfold promote_pending. intros w u w'. unfold mbind at 1, Rcv_bind at 1.
  destruct (pending_graph _ w) as [[h|graph] w1] eqn:E; [done|]. assert (Hg : records graph = []).
  { revert E. unfold pending_graph. do 2 (apply (post_bind _ _ (fun g _ => records g = [])); intros ?). by apply complete_graph_records. }
  clear E. revert w1 u w'. apply post_bind. intros digests. by apply promote_unknown.
Qed.
(** What the last round of changes establishes, the cycle reports. *)
Section Reported.
Context (Q : World -> Prop) (HQ : forall pinned, post (delta_round pinned) (fun _ => Q)).
Lemma once_post : post receive_once (fun r w => r = w_report w /\ Q w).
Proof.
  unfold receive_once. do 10 (apply post_bind; intros ?). intros w r w'. unfold mbind, Rcv_bind.
  destruct (delta_round _ w) as [[h|u] w1] eqn:E; [done|]. apply HQ in E. by intros [= <- <-].
Qed.
Lemma selected_post : post receive_selected (fun r w => r = w_report w /\ Q w).
Proof.
  unfold receive_selected. apply post_bind. intros ? w r w'. unfold or_expired.
  destruct (receive_once w) as [[[[]|]|r1] w1] eqn:E; try done.
  - exact (post_bind (commit (Reset job)) (fun _ => receive_once) _ (fun _ => once_post) w1 r w').
  - intros [= <- <-]. by eapply once_post.
Qed.
End Reported.

(** ** The properties of a cycle *)
Definition start (st : Files.St) : World := mkWorld st 0 [] (new_report job).
(** C7: A cycle goes on exactly where the stored position is, and the position only runs behind what is stored: in every
    run, whatever the service answers and whatever fails, a page is asked for from the stored place (an unfinished type
    from its marker, the changes from the last token), when every answer received before is in the inbox with its
    position and its marker; and a marker advances only when every page answered so far is in the inbox. *)
Theorem receive_resumes_where_stored st newer e older :
  (forall n st', place_of (Files.st_db (others env n st')) = place_of (Files.st_db st')) ->
  w_log (run_receive (start st)).2 = (newer ++ e :: older)%list -> event_ok older e.
Proof.
  intros Hothers Hlog. apply (log_ok_split newer). rewrite <- Hlog.
  assert (Hs : settled (start st)) by (split; [done|apply every_nil..|done]).
  pose proof (run_spec Hothers _ Hs) as Hrun. destruct (run_receive (start st)) as [[h|r] w']; apply Hrun.
Qed.
(** C35: A cycle comes to an end: when from some instant on every page the service answers is the last of its listing, the
    run returns a report or an error, whatever it is answered before and whatever else happens. *)
Theorem receive_returns last w :
  (forall n r a, (last <= n)%nat -> answer env n r = inr a -> last_page r a) -> (last < pages)%nat ->
  (run_receive w).1 <> inl Runs.
Proof. intros Hlast Hpages H. by destruct (proj2 (ends_run last Hlast Hpages w) _ H). Qed.
(** C9: A report that the position was applied is true: the job's applied token is then the token of the report, nothing
    of the job is owed, and the inventory of every supported type was read to its end. *)
Theorem applied_report_is_true w report w' : run_receive w = (inr report, w') -> applied report = true ->
  exists token, let db := Files.st_db (w_st w') in
    target_token report = Some token /\ applied_of db job = Some token /\ synchronized db job token /\ inventoried db job.
Proof.
  assert (Hrun : post run_receive (fun r w => r = w_report w /\ truthful w)).
  { unfold run_receive. do 3 (apply post_bind; intros ?). apply selected_post, delta_round_truthful. }
  intros H. apply Hrun in H as [-> Ht]. exact Ht.
Qed.
(** No report counts a record of an unknown type: such records are left out of the graph a cycle promotes. *)
Theorem unknown_records_never_reported w report w' : run_receive w = (inr report, w') -> unknown_records report = 0%nat.
Proof.
  assert (Hrun : post run_receive (fun r w => r = w_report w /\ unknown_records (w_report w) = 0%nat)).
  { unfold run_receive. do 3 (apply post_bind; intros ?). apply selected_post, delta_round_unknown. }
  intros H. by apply Hrun in H as [-> Ht].
Qed.
End Job.
End Cycle.
(** ** Small runs *)
Module Sample.
Import SyncDb.Sample.
(** A service whose masters come on two pages at first; [photos]: its masters and its assets. *)
Definition answers (photos : list NativeRecord * list NativeRecord) (n : nat) (r : Request) : Answer r :=
  match r as r return Answer r with
  | TransportClient => inr tt
  | Snapshot => inr ("snap", "w1")
  | QueryRecords record_type _ _ continuation =>
      if bool_decide (record_type = MASTER_RECORD_TYPE) then
        match continuation with
        | None => inr (mkPage photos.1 "w1" (if (n <? 10)%nat then Some "more" else None))
        | Some _ => inr (mkPage [] "w1" None)
        end
      else inr (mkPage photos.2 "w1" None)
  | ChangesZone _ _ => inr (mkChanges [] false (Some "w2"))
  end.
Definition pinned : Pinned := mkPinned (mkNamespace "tenant" "container" "production" "private") "gen-1" (fun _ => true) 500.
Definition env (photos : list NativeRecord * list NativeRecord) : Env := {|
  answer := answers photos; others _ st := st; faults _ := []; scope _ _ := Ok (Some pinned); run_slot _ := Ok tt |}.
Definition no_event (_ : NewMediaItem) : EditEvent := mkEvent 0 "device-1" "e1".
Definition run (photos : list NativeRecord * list NativeRecord) : (Halt + ReceiveReport) * World :=
  run_receive (env photos) 11 map_to_list map_to_list (fun l => l) (fun s => s) (fun _ => "") (fun _ => "") (fun b => b)
    (fun p => "file://" ++ p) (fun _ => "") (fun _ _ => Err NoRows) (fun _ _ _ => "") (fun _ _ => None) no_event (fun l => l)
    (fun _ n => pretty n) 0 1 (start 1 Collisions.Sample.st).
Definition one_photo : list NativeRecord * list NativeRecord :=
  ([Records.Sample.master], [Records.Sample.asset]).
Definition whole : (Halt + ReceiveReport) * World := run one_photo.
Definition second_page : Request := QueryRecords MASTER_RECORD_TYPE 100 "snap" (Some "more").
Definition asked_db (e : option Event) : Db := match e with Some (Asked _ db) => db | _ => SyncDb.Sample.empty_db end.
End Sample.
(** A whole first cycle: the photo is known, and its two resources are still to be fetched. *)
Example first_cycle :
  Sample.whole.1 = inr (mkReport 1 true 2 4 2 1 0 3 false (Some "w2")) /\ length (w_log Sample.whole.2) = 24%nat.
Proof. split; vm_compute; reflexivity. Qed.
Lemma receive_resumes_where_stored_witness : exists newer db older,
  w_log Sample.whole.2 = (newer ++ Asked Sample.second_page db :: older)%list /\ event_ok 1 older (Asked Sample.second_page db).
Proof.
  set (log := w_log Sample.whole.2). exists (take 13 log), (Sample.asked_db (log !! 13%nat)), (drop 14 log).
  assert (Hlog : log = (take 13 log ++ Asked Sample.second_page (Sample.asked_db (log !! 13%nat)) :: drop 14 log)%list).
  { symmetry. apply take_drop_middle. vm_compute. reflexivity. }
  split; [exact Hlog|]. eapply receive_resumes_where_stored; [|exact Hlog]. done.
Defined.
Lemma receive_returns_witness : Sample.whole.1 <> inl Runs.
Proof.
  unfold Sample.whole, Sample.run. eapply receive_returns with (last := 10%nat).
  - intros n r a Hn. destruct r as [| |record_type limit snapshot continuation|position limit];
      cbn [answer Sample.env Sample.answers last_page]; [done|done| |intros H; by injection H as <-].
    destruct (bool_decide _); [|intros H; by injection H as <-]. destruct continuation; [intros H; by injection H as <-|].
    destruct (Nat.ltb_spec n 10); [lia|]. intros H'. by injection H' as <-.
  - lia.
Defined.
Lemma applied_report_is_true_witness : let w' := (Sample.run ([], [])).2 in
  exists token, let db := Files.st_db (w_st w') in
    Some "w2" = Some token /\ applied_of db 1 = Some token /\ synchronized db 1 token /\ inventoried db 1.
Proof.
  apply (applied_report_is_true (Sample.env ([], [])) 11 map_to_list map_to_list (fun l => l) (fun s => s) (fun _ => "") (fun _ => "") (fun b => b)
    (fun p => "file://" ++ p) (fun _ => "") (fun _ _ => Err NoRows) (fun _ _ _ => "") (fun _ _ => None) Sample.no_event (fun l => l)
    (fun _ n => pretty n) 0 1 (start 1 Collisions.Sample.st) (mkReport 1 true 2 4 0 0 0 0 true (Some "w2"))); vm_compute; reflexivity.
Defined.
End ReceiveCycle.
